(* ===== verification/_CoqProject ===== *)
-Q . S2P
Prelude.v
Constants.v
Tlv.v
Net.v
Pdu.v
Operations.v
PduFields.v
Utf8.v
Coding.v
Segment.v
ShardMap.v
Client.v
Pool.v
SliceSort.v
PoolManager.v
RouteTable.v
Dlr.v
Regex.v
Connection.v
Documents.v
Format.v
Store.v
Server.v
Gateway.v
Callback.v
Router.v
RouterInv.v
RestApi.v
Quiet.v
RouterRun.v
RetryEnd.v
RouterSpec.v
ConfigStore.v
Encodings.v
Sha256.v
Json.v
Accounts.v
Config.v
AdminApi.v
Startup.v
Recovery.v
Drain.v
Process.v
MockSmsc.v
EndToEnd.v
