(* ===== verification/Prelude.v ===== *)
(** * go-smsc: a verified model of the SMPP library and the SMSC gateway

    The repository is an SMPP 3.4/5.0 client library (package smpp, under src/smpp/)
    and an SMSC gateway built on it (package gateway, under src/gateway/).  Engines
    bind to the gateway as to an SMSC (northbound); the gateway acknowledges their
    submit_sm PDUs, forwards them over pools of client connections to the real SMSCs
    (southbound), and carries delivery receipts and mobile-originated messages back.

    ** The files

    The library, bottom up:
    - [Prelude] (this file): bytes, machine integers, Go's outcomes (value, error,
      panic), slices, encoding/binary, package strings, automation and hints.
    - [Constants]: command identifiers and status codes (smpp/pdu.go,
      smpp/constants.go) and their names.
    - [Tlv]: smpp/tlv.go, the optional parameters; the map is a [gmap], the encoder is
      shown to be independent of the order Go iterates the map in.
    - [Pdu]: smpp/pdu.go, the header codec, C-strings, submit_sm and deliver_sm bodies,
      and the framing of the read loops ([read_frame], [read_pdus]).
    - [Operations]: smpp/operations.go, smpp/bind.go and smpp/broadcast.go, the other
      request bodies and the response parsers.
    - [PduFields]: smpp/pdu_fields.go, where the mandatory part of a body ends and the
      TLVs begin.
    - [Utf8]: Go's strings as runes; [Coding]: smpp/coding.go, the GSM 7-bit alphabet
      and its packing, UCS-2, Latin-1; [Segment]: smpp/segment.go, concatenated
      messages.
    - [Dlr]: smpp/handler.go, receipts, and the ID translation of gateway/router.go;
      [Regex]: the three patterns of that file as text, parsed and matched by a
      backtracking engine over runes, as package regexp documents it.
    - [Client]: smpp/client.go.  The record [Client] is the struct; each method is a
      function on it; [client_step] is the transition system of the goroutines
      (request methods between their steps, read loop, deliver workers, keepalive,
      [Connect], [Close]), one step per critical section, channel operation or write.
    - [Pool]: smpp/pool.go, and [pool_step], the submitters and connections that share
      the windows.

    The gateway:
    - [ShardMap]: gateway/shardmap.go, sequentially and as interleaved lock sections.
    - [SliceSort]: the interface of sort.Slice, which is not stable.
    - [PoolManager]: gateway/pool_manager.go with the SMPP submitter; the class
      [PoolView] is what routing sees of it, and [PoolViewLaws] what it may rely on.
    - [RouteTable]: gateway/route_table.go, against [PoolView] and [SliceSort].
    - [Net]: net.SplitHostPort and extractIP of gateway/connection.go.
    - [Connection]: gateway/connection.go, an engine's session, the body functions, and
      the rate limit that gateway/router.go applies to it.
    - [Documents]: the JSON documents the gateway stores, and what JSON does to a string.
    - [Format]: the zero-padded numbers and RFC 3339 times in the store's keys.
    - [Store]: gateway/store.go over the key-value interface [KV] (Pebble): the key
      layout, the batch writer as steps ([writer_step]), the retry queues, cleanup,
      message status and log.
    - [Server]: gateway/server.go, the registry of sessions and the deliveries to them;
      [server_step] is what connections, readers and tickers do to it, binds of a bound
      session under another system ID included.
    - [Gateway]: the [World] of a running gateway (server, store, correlation maps,
      forward queue, tables), the trace of its [event]s, and the monad [Act] of
      computations over it, with the clock and the answers of SMSCs, engines and web
      hooks as the class [Env].
    - [Callback]: gateway/callback.go; [Router]: gateway/router.go, handler by handler;
      [RestApi]: gateway/rest_api.go.
    - [RouterInv]: Hoare triples for every handler over the invariant of the world;
      [Quiet]: what the handlers leave alone (queue, counters, the IDs of sessions).
    - [RouterRun]: [gw_step], the interleaving of handlers, sessions, submits, workers and
      retry drains.  What a goroutine has in hand between two steps is a [work]: a submit
      that is answered, counted, refused by a full queue, a forward that waits for the
      SMSC or is done, a retry before and after the SMSC's answer; [advance] is its next
      step.  A run can be restricted to changes of sessions that are allowed: any
      ([any_change]), or those in which no session takes another system ID while it is
      registered or has a message on its way ([keeps_names]).
    - [RetryEnd]: a potential that bounds the retries, and runs to the end of all work;
      [RouterSpec]: what single handlers do, on every branch.
    - [ConfigStore]: gateway/conn_config.go and gateway/route_config.go, the records of
      accounts, routes and pools; the class [Stored] is a record type with its
      namespace and decoding, [collection] the finite map that a namespace holds, and
      [Bcrypt] the password hash.
    - [Encodings] (hex, base64url), [Sha256] (with HMAC) and [Json] (quoting and a
      parser): what the authentication uses of Go's standard library.
    - [Accounts]: gateway/rest_auth.go and gateway/admin_auth.go, API keys, admin users
      and their tokens, both middlewares.
    - [Config]: gateway/config.go over a getenv function; [AdminApi]:
      gateway/admin_api.go, every handler and the token check in front; [Startup]: what
      cmd/smsc-gateway/main.go loads, and the gateway as requests, resolutions and
      restarts ([gateway_step], with any requests or with a restriction on them).
    - [Recovery]: the deferred calls of main.go and the gateway that the next run makes of
      the store; [Drain]: the counters of gateway/connection.go and the wait of Stop for
      them, whose looks load one counter after the other ([look]); [Process]: run of main.go with gateway/tls.go, its errors and its loops.
    - [MockSmsc]: mocksmsc/server.go and mocksmsc/store.go, the SMSC of the load tests;
      [mock_step] interleaves its connections and the goroutines that send receipts.
      [EndToEnd] composes it with the router.

    ** How the code is modelled

    Bytes and machine integers are [Z] with the wrap-around written out ([u8], [u16],
    [u32], [u64], [i32], [i64]); a Go string is the list of its bytes.  A call that can fail
    or panic returns an [outcome]; an early return keeps the zero values of the later
    results.  A Go map is a [gmap]; where the order of its iteration could matter, the
    order is a parameter and the theorem holds for each.  Objects shared by pointer are
    indices into a store ([PoolManager]) or the state of a transition system ([Client],
    [Pool], [ShardMap]); the fate of a write, a dial or a select with several ready
    cases is a parameter, so the theorems hold for each.  Logging and metrics are left
    out.

    ** What the theorems show

    - Codecs: encode/decode round trips with an arbitrary rest of the input (TLVs, PDUs
      and their framing, message bodies, responses, GSM 7-bit, UCS-2), a grammar for
      the TLV stream, no index out of range on any input.
    - Segmentation: the parts carry the whole text within the size limits, numbered.
    - The client: responses reach the request they answer, nobody waits forever on a
      lost connection, a deliver_sm is acknowledged after its handler, never handled
      twice, and lost only when the session it came in is over ([queued_delivers_abandoned]).
      The pool: windows are exact and bounded, the search for a
      slot is complete, and [Connect] does what it reports, except when its context is
      cancelled in the middle.
    - Routing: longest prefix, the three strategies, MO priority, under every sort.
    - Sessions: binds, the protocol of the read loop, the rate limit, the forced source
      address, the registry and its replacement of sessions, deliveries and their
      acknowledgement.
    - The store: every key holds a document of its kind, a record handed to the batch
      writer survives [Close], scans, drains, queries and cleanups touch exactly what
      they should.
    - The router: in every interleaving an accepted message is queued, in somebody's
      hands, in the durable retry queue, taken by the SMSC or reported as failed; IDs
      are not reused, and receipts go to the engine that sent the message as long as no
      session takes another system ID while it is registered or has a message on its way
      ([rebind_misroutes_receipt] has a run in which one does); the work in hand and the
      retries end with the fate of every message known; each submit gets its one answer,
      if its socket is open, each receipt with a known ID its one offer.
    - Configuration: the operations on accounts and users implement a finite map and
      touch no other namespace; API keys and admin tokens are accepted from creation to
      revocation, deletion or expiry, whatever else is requested in between, and a token
      only with the HMAC under the secret (a request that overlaps the revocation of its
      key can bring it back, [revoked_key_returns]);
      the admin API changes nothing without a valid token; and a restart brings back
      the MT routes and the pools that connect, whatever was requested before, and the
      MO routes if no two were added with the same key ([duplicate_MO_route_lost]).
    - Restarts: a receipt for a message of an earlier run reaches its engine, what waits
      for a retry waits on; what was only queued in memory is lost.  The counters
      that Stop waits for are those messages, of the registered sessions, once they are
      counted, and the sum that Stop sees is of what each was at a moment of the look; a
      message between its answer and its count, or without a registered session, is not
      waited for.  The program starts
      exactly when store, listener, key pair and intervals allow it.
    - The receipt parser is equal, on every byte string, to the one its regular
      expressions define.
    - The mock SMSC: one answer per request, refusals without effect, and for every
      accepted message at most one receipt, after the answer, on the same connection;
      through gateway and mock, an engine reads its own ID and the outcome that the mock
      drew from the receipt it gets.

    ** Bounds and fuel

    [read_pdus] runs at most one round per byte, since a PDU has at least a header;
    [DecodeTLVs], the scanners of bodies and the rune loops consume at least one byte
    per round and take the length as fuel, with lemmas that this is enough; the loops
    of the pools and of round robin run once per member.  The client theorems hold
    until the 32-bit sequence counter wraps, the round-robin theorem while the counter
    is below [2^63], those of the mock SMSC for runs of fewer than [2^32] steps.

    A JSON value is parsed with the length of the text as fuel ([value_fuel]), a pattern
    of [Regex] with its length, a repetition in it with one round per rune of the text.  The
    scans of the store are structural in the list of entries.  The router theorems
    take the clock to stay in the range of a positive int64 of nanoseconds and the
    64-bit message counter not to wrap, that of the drain fewer than [2^31] messages in
    flight; an engine's system ID is taken to survive JSON
    (Go replaces bytes that are not UTF-8), since the retry queues store it that way.

    ** Not modelled

    The declarations of metrics (gateway/metrics.go), the files of the admin UI, the
    muxes, signals and log lines of the program's main function and the generated
    protobuf code are left out: they are I/O and glue around the parts above, or
    generated.  Within the modelled parts, Pebble, bcrypt, random
    bytes, the JSON of stored documents and request bodies (other than a token's
    claims, which are parsed; the nesting limit of Go's parser is left out), HTTP
    transport, the parsing of times, the reading of key pairs, timers and sockets are
    parameters or nondeterministic choices. *)

From stdpp Require Export prelude gmap sorting pretty.
From Stdlib Require Export ZArith Lia.

#[export] Set Default Goal Selector "!".

(** ** Bytes, strings and machine integers

    A Go [byte] is a [Z] in the range 0..255; a [[]byte] and a Go [string] are
    lists of such values (a Go string is an immutable byte sequence).  The
    fixed-width types are [Z] with the wrap-around written out. *)

Abbreviation byte := Z.
Abbreviation bytes := (list Z).

Definition byte_ok (b : Z) : Prop := (0 <= b < 256)%Z.
Definition bytes_ok (bs : bytes) : Prop := Forall byte_ok bs.

#[export] Instance byte_ok_dec b : Decision (byte_ok b).
Proof. unfold byte_ok. apply _. Defined.
#[export] Instance bytes_ok_dec bs : Decision (bytes_ok bs).
Proof. unfold bytes_ok. apply _. Defined.

Definition u8 (z : Z) : Z := (z mod 2 ^ 8)%Z.
Definition u16 (z : Z) : Z := (z mod 2 ^ 16)%Z.
Definition u32 (z : Z) : Z := (z mod 2 ^ 32)%Z.
Definition u64 (z : Z) : Z := (z mod 2 ^ 64)%Z.
(** Conversion to Go's signed 64-bit [int], and to int32. *)
Definition i64 (z : Z) : Z := ((z + 2 ^ 63) mod 2 ^ 64 - 2 ^ 63)%Z.
Definition i32 (z : Z) : Z := ((z + 2 ^ 31) mod 2 ^ 32 - 2 ^ 31)%Z.

(** [time.Second], in nanoseconds. *)
Definition Second : Z := 1000000000.

Definition u16_ok (z : Z) : Prop := (0 <= z < 2 ^ 16)%Z.
Definition u32_ok (z : Z) : Prop := (0 <= z < 2 ^ 32)%Z.

(** [len(x)] as the Go [int] it is. *)
Definition zlen {A} (l : list A) : Z := Z.of_nat (length l).

(** String literals of the source, as the bytes of their (ASCII) characters. *)
Definition str (s : String.string) : bytes :=
  (λ a, Z.of_N (Ascii.N_of_ascii a)) <$> String.list_ascii_of_string s.

#[global] Arguments str : simpl never.

(** [fmt.Sprintf("%d", n)]. *)
Definition itoa (n : Z) : bytes := str (pretty n).

(** ** Outcomes: a Go call returns a value, returns an error, or panics. *)

Inductive outcome (E A : Type) :=
| Ret (a : A)
| Fail (e : E)
| Panic.
Arguments Ret {E A} a.
Arguments Fail {E A} e.
Arguments Panic {E A}.

#[export] Instance outcome_bind E : MBind (outcome E) := λ A B f m,
  match m with Ret a => f a | Fail e => Fail e | Panic => Panic end.
#[export] Instance outcome_ret E : MRet (outcome E) := λ A a, Ret a.

(** An index or slice expression: out of range, Go panics. *)
Definition index {E A} (o : option A) : outcome E A :=
  match o with Some a => Ret a | None => Panic end.

(** ** Slices *)

(** [data[lo:hi]], for [lo <= hi <= len(data)]. *)
Definition slice {A} (lo hi : nat) (data : list A) : list A :=
  take (hi - lo) (drop lo data).

(** [copy(buf[off:], src)]: copies as much of [src] as fits. *)
Definition copy_at (off : nat) (src buf : bytes) : bytes :=
  take off buf ++ take (length buf - off) src ++ drop (off + length src) buf.

(** ** encoding/binary, big endian

    [PutUintN] is the byte sequence the call writes; [UintN] is [None] when the
    slice is too short (Go panics). *)

Definition PutUint16 (v : Z) : bytes := [u8 (Z.shiftr v 8); u8 v].
Definition PutUint32 (v : Z) : bytes :=
  [u8 (Z.shiftr v 24); u8 (Z.shiftr v 16); u8 (Z.shiftr v 8); u8 v].

Definition Uint16 (b : bytes) : option Z :=
  match b with
  | b0 :: b1 :: _ => Some (Z.lor b1 (Z.shiftl b0 8))
  | _ => None
  end.
Definition Uint32 (b : bytes) : option Z :=
  match b with
  | b0 :: b1 :: b2 :: b3 :: _ =>
      Some (Z.lor (Z.lor (Z.lor b3 (Z.shiftl b2 8)) (Z.shiftl b1 16)) (Z.shiftl b0 24))
  | _ => None
  end.

(** ** package strings, on byte sequences *)

Definition HasPrefix (s p : bytes) : bool := bool_decide (p `prefix_of` s).
Definition HasSuffix (s p : bytes) : bool := bool_decide (p `suffix_of` s).
Definition TrimPrefix (s p : bytes) : bytes :=
  if HasPrefix s p then drop (length p) s else s.
Definition TrimSuffix (s p : bytes) : bytes :=
  if HasSuffix s p then take (length s - length p) s else s.

(** [strings.Replace(s, old, new, 1)] for a non-empty [old]: the leftmost
    occurrence is replaced. *)
Fixpoint Replace1 (s old new : bytes) : bytes :=
  if HasPrefix s old then new ++ drop (length old) s
  else match s with
       | [] => []
       | c :: s' => c :: Replace1 s' old new
       end.

(** [strings.Contains(s, sub)]. *)
Fixpoint Contains (s sub : bytes) : bool :=
  HasPrefix s sub ||
  match s with
  | [] => false
  | _ :: s' => Contains s' sub
  end.

(** ** Automation *)

Create HintDb smpp.
Create Rewrite HintDb len.

#[export] Hint Rewrite @length_app @length_take @length_drop @length_replicate
  @length_fmap @length_cons @length_nil @length_reverse : len.

(** Lengths of lists: rewrite and finish with arithmetic. *)
Ltac len := repeat (progress (autorewrite with len in * )); simpl in *; lia.

(** Case analysis on every [match] and [if] of the goal or of a hypothesis. *)
Ltac case_all := repeat (first [case_match | progress simplify_eq/=]).

Lemma bytes_ok_nil : bytes_ok [].
Proof. constructor. Qed.
Lemma bytes_ok_cons b bs : byte_ok b → bytes_ok bs → bytes_ok (b :: bs).
Proof. by constructor. Qed.
Lemma bytes_ok_app bs1 bs2 : bytes_ok (bs1 ++ bs2) ↔ bytes_ok bs1 ∧ bytes_ok bs2.
Proof. apply Forall_app. Qed.
Lemma bytes_ok_app_2 bs1 bs2 : bytes_ok bs1 → bytes_ok bs2 → bytes_ok (bs1 ++ bs2).
Proof. intros. by apply bytes_ok_app. Qed.
Lemma bytes_ok_take n bs : bytes_ok bs → bytes_ok (take n bs).
Proof. apply Forall_take. Qed.
Lemma bytes_ok_drop n bs : bytes_ok bs → bytes_ok (drop n bs).
Proof. apply Forall_drop. Qed.
Lemma u8_ok z : byte_ok (u8 z).
Proof. unfold u8, byte_ok. apply Z.mod_pos_bound. lia. Qed.
Lemma PutUint16_ok v : bytes_ok (PutUint16 v).
Proof. repeat constructor; apply u8_ok. Qed.
Lemma PutUint32_ok v : bytes_ok (PutUint32 v).
Proof. repeat constructor; apply u8_ok. Qed.
Lemma str_ok s : bytes_ok (str s).
Proof.
  unfold str, bytes_ok. apply Forall_fmap, Forall_true. intros a. simpl.
  pose proof (Ascii.N_ascii_bounded a). unfold byte_ok. lia.
Qed.

#[export] Hint Resolve bytes_ok_nil bytes_ok_cons bytes_ok_app_2 bytes_ok_take
  bytes_ok_drop u8_ok PutUint16_ok PutUint32_ok str_ok : smpp.
#[export] Hint Extern 1 (byte_ok _) => (unfold byte_ok; lia) : smpp.

Lemma u8_id b : byte_ok b → u8 b = b.
Proof. unfold byte_ok, u8. intros. apply Z.mod_small. lia. Qed.
Lemma u16_id v : u16_ok v → u16 v = v.
Proof. unfold u16_ok, u16. intros. by apply Z.mod_small. Qed.
Lemma u32_id v : u32_ok v → u32 v = v.
Proof. unfold u32_ok, u32. intros. by apply Z.mod_small. Qed.
Lemma u16_range z : u16_ok (u16 z).
Proof. unfold u16_ok, u16. apply Z.mod_pos_bound. lia. Qed.
Lemma u32_range z : u32_ok (u32 z).
Proof. unfold u32_ok, u32. apply Z.mod_pos_bound. lia. Qed.
Lemma i64_id z : (- 2 ^ 63 <= z < 2 ^ 63)%Z → i64 z = z.
Proof. unfold i64. intros. rewrite Z.mod_small; lia. Qed.
Lemma i32_id z : (- 2 ^ 31 <= z < 2 ^ 31)%Z → i32 z = z.
Proof. unfold i32. intros. rewrite Z.mod_small; lia. Qed.
Lemma i32_add a b : i32 (i32 a + b) = i32 (a + b).
Proof.
  unfold i32. f_equal. replace ((a + 2 ^ 31) mod 2 ^ 32 - 2 ^ 31 + b + 2 ^ 31)%Z
    with ((a + 2 ^ 31) mod 2 ^ 32 + b)%Z by lia.
  rewrite Z.add_mod_idemp_l by done. f_equal. lia.
Qed.

Lemma length_PutUint16 v : length (PutUint16 v) = 2%nat.
Proof. done. Qed.
Lemma length_PutUint32 v : length (PutUint32 v) = 4%nat.
Proof. done. Qed.
#[export] Hint Rewrite length_PutUint16 length_PutUint32 : len.

Lemma zlen_app {A} (l1 l2 : list A) : zlen (l1 ++ l2) = (zlen l1 + zlen l2)%Z.
Proof. unfold zlen. rewrite length_app. lia. Qed.
Lemma zlen_nonneg {A} (l : list A) : (0 <= zlen l)%Z.
Proof. unfold zlen. lia. Qed.

(** *** Or of disjoint bit ranges is addition *)

Lemma lor_shiftl_add a b n :
  (0 <= n → 0 <= a < 2 ^ n → Z.lor a (Z.shiftl b n) = a + b * 2 ^ n)%Z.
Proof.
  intros Hn Ha.
  assert (Z.land a (Z.shiftl b n) = 0%Z) as H0.
  { apply Z.bits_inj'. intros i Hi. rewrite Z.land_spec, Z.bits_0.
    destruct (decide (i < n)%Z) as [Hlt|Hge].
    - rewrite Z.shiftl_spec_low by lia. apply andb_false_r.
    - rewrite <-(Z.mod_small a (2 ^ n)) by lia.
      rewrite Z.mod_pow2_bits_high by lia. done. }
  rewrite <-Z.lxor_lor, <-Z.add_nocarry_lxor by done.
  by rewrite Z.shiftl_mul_pow2 by lia.
Qed.

Lemma Uint16_arith b0 b1 r :
  byte_ok b1 → Uint16 (b0 :: b1 :: r) = Some (b0 * 256 + b1)%Z.
Proof.
  intros. simpl. rewrite lor_shiftl_add by (unfold byte_ok in *; lia).
  f_equal. lia.
Qed.

Lemma Uint32_arith b0 b1 b2 b3 r :
  byte_ok b1 → byte_ok b2 → byte_ok b3 →
  Uint32 (b0 :: b1 :: b2 :: b3 :: r) =
    Some (b0 * 2 ^ 24 + b1 * 2 ^ 16 + b2 * 2 ^ 8 + b3)%Z.
Proof.
  unfold byte_ok. intros. simpl.
  rewrite (lor_shiftl_add b3 b2 8), (lor_shiftl_add _ b1 16),
    (lor_shiftl_add _ b0 24) by lia.
  f_equal. lia.
Qed.

Lemma Uint16_Put v r : Uint16 (PutUint16 v ++ r) = Some (u16 v).
Proof.
  unfold PutUint16. cbn [app]. rewrite Uint16_arith by auto with smpp.
  f_equal. unfold u8, u16. rewrite Z.shiftr_div_pow2 by lia.
  change (2 ^ 16)%Z with (2 ^ 8 * 2 ^ 8)%Z. rewrite Z.rem_mul_r by lia. lia.
Qed.

Lemma Uint32_Put v r : Uint32 (PutUint32 v ++ r) = Some (u32 v).
Proof.
  unfold PutUint32. cbn [app]. rewrite Uint32_arith by auto with smpp.
  f_equal. unfold u8, u32. rewrite !Z.shiftr_div_pow2 by lia.
  change (2 ^ 32)%Z with (2 ^ 8 * (2 ^ 8 * (2 ^ 8 * 2 ^ 8)))%Z.
  rewrite !Z.rem_mul_r by lia. rewrite !Z.div_div by lia.
  change (2 ^ 8 * 2 ^ 8)%Z with (2 ^ 16)%Z.
  change (2 ^ 16 * 2 ^ 8)%Z with (2 ^ 24)%Z. lia.
Qed.

Lemma Uint16_Some b : (2 <= length b)%nat → is_Some (Uint16 b).
Proof. destruct b as [|? [|? ?]]; simpl; intros; [lia..|by eexists]. Qed.
Lemma Uint32_Some b : (4 <= length b)%nat → is_Some (Uint32 b).
Proof. destruct b as [|? [|? [|? [|? ?]]]]; simpl; intros; [lia..|by eexists]. Qed.

Lemma Uint16_take b n : (2 <= n)%nat → Uint16 (take n b) = Uint16 b.
Proof. destruct n as [|[|n]]; [lia..|]. by destruct b as [|? [|? ?]]. Qed.
Lemma Uint32_take b n : (4 <= n)%nat → Uint32 (take n b) = Uint32 b.
Proof.
  destruct n as [|[|[|[|n]]]]; [lia..|]. by destruct b as [|? [|? [|? [|? ?]]]].
Qed.

Lemma Uint16_range b v : bytes_ok b → Uint16 b = Some v → u16_ok v.
Proof.
  intros Hb. destruct b as [|b0 [|b1 r]]; try done.
  inversion Hb as [|?? H0 Hb']; subst. inversion Hb' as [|?? H1 ?]; subst.
  rewrite Uint16_arith by done. intros [= <-]. unfold byte_ok, u16_ok in *. lia.
Qed.
Lemma Uint32_range b v : bytes_ok b → Uint32 b = Some v → u32_ok v.
Proof.
  unfold bytes_ok. intros Hb. destruct b as [|b0 [|b1 [|b2 [|b3 r]]]]; try done.
  rewrite !Forall_cons in Hb. destruct Hb as (?&?&?&?&?).
  rewrite Uint32_arith by done. intros [= <-]. unfold byte_ok, u32_ok in *. lia.
Qed.

(** Re-encoding what was decoded gives the bytes back. *)
Lemma Put_Uint16 b0 b1 r v :
  byte_ok b0 → byte_ok b1 → Uint16 (b0 :: b1 :: r) = Some v → PutUint16 v = [b0; b1].
Proof.
  intros H0 H1. rewrite Uint16_arith by done. intros [= <-].
  unfold PutUint16, u8, byte_ok in *. rewrite Z.shiftr_div_pow2 by lia.
  change (2 ^ 8)%Z with 256%Z. f_equal; [|f_equal].
  - rewrite (Z.div_add_l b0 256 b1), (Z.div_small b1) by lia.
    rewrite Z.mod_small; lia.
  - rewrite Z.add_comm, Z.mod_add, Z.mod_small; lia.
Qed.

(** *** Slices and buffers *)

Lemma slice_app {A} (pre mid post : list A) lo hi :
  lo = length pre → hi = (length pre + length mid)%nat →
  slice lo hi (pre ++ mid ++ post) = mid.
Proof.
  intros -> ->. unfold slice. rewrite drop_app_length.
  replace (length pre + length mid - length pre)%nat with (length mid) by lia.
  apply take_app_length.
Qed.

Lemma length_slice {A} lo hi (l : list A) :
  (lo <= hi)%nat → (hi <= length l)%nat → length (slice lo hi l) = (hi - lo)%nat.
Proof. intros. unfold slice. len. Qed.

(** Writing inside a buffer that has room replaces exactly those bytes. *)
Lemma copy_at_app pre mid post src :
  length mid = length src →
  copy_at (length pre) src (pre ++ mid ++ post) = pre ++ src ++ post.
Proof.
  intros Hl. unfold copy_at. rewrite take_app_length. f_equal. f_equal.
  - apply take_ge. len.
  - rewrite drop_app_ge by lia. rewrite drop_app_ge by lia.
    replace (length pre + length src - length pre - length mid)%nat with 0%nat by lia.
    done.
Qed.

Lemma copy_at_at pre mid post src off :
  off = length pre → length mid = length src →
  copy_at off src (pre ++ mid ++ post) = pre ++ src ++ post.
Proof. intros ->. apply copy_at_app. Qed.

Lemma copy_at_0 mid post src :
  length mid = length src → copy_at 0 src (mid ++ post) = src ++ post.
Proof. apply (copy_at_app []). Qed.

Lemma length_copy_at off src buf :
  (off <= length buf)%nat → length (copy_at off src buf) = length buf.
Proof. intros. unfold copy_at. len. Qed.

(** A duplicate-free ascending list is strictly ascending. *)
Lemma StronglySorted_lt (l : list Z) :
  StronglySorted Z.le l → NoDup l → StronglySorted Z.lt l.
Proof.
  induction 1 as [|x l Hs IH Hx]; intros Hnd; [constructor|].
  apply NoDup_cons in Hnd as [Hin Hnd]. constructor; [auto|].
  apply Forall_forall. intros y Hy. rewrite Forall_forall in Hx.
  assert (x ≠ y) by (by intros ->). specialize (Hx y Hy). lia.
Qed.

Lemma str_app a b : str (String.append a b) = str a ++ str b.
Proof.
  induction a as [|c a IH]; [done|].
  change (str (String.append (String.String c a) b))
    with (Z.of_N (Ascii.N_of_ascii c) :: str (String.append a b)). by rewrite IH.
Qed.

#[export] Instance str_inj : Inj (=) (=) str.
Proof.
  intros a. induction a as [|c a IH]; intros [|d b] H; try done.
  unfold str in H. simpl in H. injection H as Hc Hs. f_equal.
  - apply N2Z.inj in Hc.
    by rewrite <-(Ascii.ascii_N_embedding c), Hc, Ascii.ascii_N_embedding.
  - by apply IH.
Qed.

#[export] Instance itoa_inj : Inj (=) (=) itoa.
Proof. intros a b H. unfold itoa in H. by apply (inj _), (inj _) in H. Qed.
