(* ===== verification/Constants.v ===== *)
(** * Protocol constants (smpp/constants.go and the constants of smpp/pdu.go)

    Command ids, status codes, delivery flags and message states, and the lookups
    [CommandName] and [StatusName] that print them. *)

From S2P Require Import Prelude.

Local Open Scope Z_scope.

(** ** Command ids (pdu.go) *)

Definition CmdBindTransceiver : Z := 0x00000009.
Definition CmdBindTransceiverResp : Z := 0x80000009.
Definition CmdSubmitSM : Z := 0x00000004.
Definition CmdSubmitSMResp : Z := 0x80000004.
Definition CmdDeliverSM : Z := 0x00000005.
Definition CmdDeliverSMResp : Z := 0x80000005.
Definition CmdEnquireLink : Z := 0x00000015.
Definition CmdEnquireLinkResp : Z := 0x80000015.
Definition CmdUnbind : Z := 0x00000006.
Definition CmdUnbindResp : Z := 0x80000006.
Definition CmdGenericNack : Z := 0x80000000.

(** ** Command ids (constants.go) *)

Definition CmdBindReceiver : Z := 0x00000001.
Definition CmdBindReceiverResp : Z := 0x80000001.
Definition CmdBindTransmitter : Z := 0x00000002.
Definition CmdBindTransmitterResp : Z := 0x80000002.
Definition CmdQuerySM : Z := 0x00000003.
Definition CmdQuerySMResp : Z := 0x80000003.
Definition CmdReplaceSM : Z := 0x00000007.
Definition CmdReplaceSMResp : Z := 0x80000007.
Definition CmdCancelSM : Z := 0x00000008.
Definition CmdCancelSMResp : Z := 0x80000008.
Definition CmdSubmitMulti : Z := 0x00000021.
Definition CmdSubmitMultiResp : Z := 0x80000021.
Definition CmdOutbind : Z := 0x0000000b.
Definition CmdAlertNotification : Z := 0x00000102.
Definition CmdDataSM : Z := 0x00000103.
Definition CmdDataSMResp : Z := 0x80000103.
Definition CmdBroadcastSM : Z := 0x00000111.
Definition CmdBroadcastSMResp : Z := 0x80000111.
Definition CmdQueryBroadcastSM : Z := 0x00000112.
Definition CmdQueryBroadcastSMResp : Z := 0x80000112.
Definition CmdCancelBroadcastSM : Z := 0x00000113.
Definition CmdCancelBroadcastSMResp : Z := 0x80000113.

(** ** Status codes (pdu.go) *)

Definition StatusOK : Z := 0x00000000.
Definition StatusInvMsgLen : Z := 0x00000001.
Definition StatusInvCmdLen : Z := 0x00000002.
Definition StatusInvCmdID : Z := 0x00000003.
Definition StatusInvBnd : Z := 0x00000004.
Definition StatusSysErr : Z := 0x00000008.
Definition StatusThrottled : Z := 0x00000058.
Definition StatusMsgQFull : Z := 0x00000014.
Definition StatusSubmitFail : Z := 0x00000045.

(** ** Status codes (constants.go) *)

Definition StatusAlyBnd : Z := 0x00000005.
Definition StatusInvPrtFlg : Z := 0x00000006.
Definition StatusCantDel : Z := 0x00000007.
Definition StatusInvSrcAdr : Z := 0x0000000a.
Definition StatusInvDstAdr : Z := 0x0000000b.
Definition StatusInvMsgID : Z := 0x0000000c.
Definition StatusBindFail : Z := 0x0000000d.
Definition StatusInvPaswd : Z := 0x0000000e.
Definition StatusInvSysID : Z := 0x0000000f.
Definition StatusCancelFail : Z := 0x00000011.
Definition StatusReplaceFail : Z := 0x00000013.
Definition StatusInvDftMsgID : Z := 0x00000015.
Definition StatusRInvExpiry : Z := 0x00000022.
Definition StatusInvNumDe : Z := 0x00000033.
Definition StatusInvDLName : Z := 0x00000034.
Definition StatusInvDstFlag : Z := 0x00000040.
Definition StatusInvSubRep : Z := 0x00000042.
Definition StatusInvEsmClass : Z := 0x00000043.
Definition StatusCntSubDL : Z := 0x00000044.
Definition StatusInvSched : Z := 0x00000061.
Definition StatusInvOptParStream : Z := 0x000000c0.
Definition StatusOptParNotAllwd : Z := 0x000000c1.
Definition StatusInvParLen : Z := 0x000000c2.
Definition StatusMissingOptParam : Z := 0x000000c3.
Definition StatusInvOptParVal : Z := 0x000000c4.
Definition StatusDeliveryFailure : Z := 0x000000fe.
Definition StatusUnknownErr : Z := 0x000000ff.
Definition StatusSvcTypUnauth : Z := 0x00000100.
Definition StatusProhibited : Z := 0x00000101.
Definition StatusSvcTypUnavail : Z := 0x00000102.
Definition StatusSvcTypDenied : Z := 0x00000103.
Definition StatusInvDCS : Z := 0x00000104.
Definition StatusInvSrcAddrSubunit : Z := 0x00000105.
Definition StatusInvDstAddrSubunit : Z := 0x00000106.
Definition StatusInvBcastFreqInt : Z := 0x00000107.
Definition StatusInvBcastAliasName : Z := 0x00000108.
Definition StatusInvBcastAreaFmt : Z := 0x00000109.
Definition StatusInvNBcastAreas : Z := 0x0000010a.
Definition StatusInvBcastCntType : Z := 0x0000010b.
Definition StatusInvBcastMsgClass : Z := 0x0000010c.
Definition StatusBcastFail : Z := 0x0000010d.
Definition StatusBcastQueryFail : Z := 0x0000010e.
Definition StatusBcastCancelFail : Z := 0x0000010f.
Definition StatusInvBcastRep : Z := 0x00000110.
Definition StatusInvBcastSrvGrp : Z := 0x00000111.
Definition StatusInvBcastChanInd : Z := 0x00000112.

(** ** Registered delivery flags and message states *)

Definition RegDeliveryNone : Z := 0x00.
Definition RegDeliveryBoth : Z := 0x01.
Definition RegDeliveryFailure : Z := 0x02.
Definition RegDeliverySuccess : Z := 0x03.
Definition MsgStateScheduled : Z := 0.
Definition MsgStateEnRoute : Z := 1.
Definition MsgStateDelivered : Z := 2.
Definition MsgStateExpired : Z := 3.
Definition MsgStateDeleted : Z := 4.
Definition MsgStateUndeliverable : Z := 5.
Definition MsgStateAccepted : Z := 6.
Definition MsgStateUnknown : Z := 7.
Definition MsgStateRejected : Z := 8.
Definition MsgStateSkipped : Z := 9.

(** ** Names *)

Definition commandNames : list (Z * bytes) := [
  (CmdBindReceiver, str "bind_receiver");
  (CmdBindReceiverResp, str "bind_receiver_resp");
  (CmdBindTransmitter, str "bind_transmitter");
  (CmdBindTransmitterResp, str "bind_transmitter_resp");
  (CmdQuerySM, str "query_sm");
  (CmdQuerySMResp, str "query_sm_resp");
  (CmdSubmitSM, str "submit_sm");
  (CmdSubmitSMResp, str "submit_sm_resp");
  (CmdDeliverSM, str "deliver_sm");
  (CmdDeliverSMResp, str "deliver_sm_resp");
  (CmdUnbind, str "unbind");
  (CmdUnbindResp, str "unbind_resp");
  (CmdReplaceSM, str "replace_sm");
  (CmdReplaceSMResp, str "replace_sm_resp");
  (CmdCancelSM, str "cancel_sm");
  (CmdCancelSMResp, str "cancel_sm_resp");
  (CmdBindTransceiver, str "bind_transceiver");
  (CmdBindTransceiverResp, str "bind_transceiver_resp");
  (CmdOutbind, str "outbind");
  (CmdEnquireLink, str "enquire_link");
  (CmdEnquireLinkResp, str "enquire_link_resp");
  (CmdSubmitMulti, str "submit_multi");
  (CmdSubmitMultiResp, str "submit_multi_resp");
  (CmdAlertNotification, str "alert_notification");
  (CmdDataSM, str "data_sm");
  (CmdDataSMResp, str "data_sm_resp");
  (CmdGenericNack, str "generic_nack");
  (CmdBroadcastSM, str "broadcast_sm");
  (CmdBroadcastSMResp, str "broadcast_sm_resp");
  (CmdQueryBroadcastSM, str "query_broadcast_sm");
  (CmdQueryBroadcastSMResp, str "query_broadcast_sm_resp");
  (CmdCancelBroadcastSM, str "cancel_broadcast_sm");
  (CmdCancelBroadcastSMResp, str "cancel_broadcast_sm_resp")
].

Definition statusNames : list (Z * bytes) := [
  (StatusOK, str "ESME_ROK");
  (StatusInvMsgLen, str "ESME_RINVMSGLEN");
  (StatusInvCmdLen, str "ESME_RINVCMDLEN");
  (StatusInvCmdID, str "ESME_RINVCMDID");
  (StatusInvBnd, str "ESME_RINVBNDSTS");
  (StatusSysErr, str "ESME_RSYSERR");
  (StatusThrottled, str "ESME_RTHROTTLED");
  (StatusMsgQFull, str "ESME_RMSGQFUL");
  (StatusSubmitFail, str "ESME_RSUBMITFAIL");
  (StatusAlyBnd, str "ESME_RALYBND");
  (StatusInvPrtFlg, str "ESME_RINVPRTFLG");
  (StatusCantDel, str "ESME_RCANTDEL");
  (StatusInvSrcAdr, str "ESME_RINVSRCADR");
  (StatusInvDstAdr, str "ESME_RINVDSTADR");
  (StatusInvMsgID, str "ESME_RINVMSGID");
  (StatusBindFail, str "ESME_RBINDFAIL");
  (StatusInvPaswd, str "ESME_RINVPASWD");
  (StatusInvSysID, str "ESME_RINVSYSID");
  (StatusCancelFail, str "ESME_RCANCELFAIL");
  (StatusReplaceFail, str "ESME_RREPLACEFAIL");
  (StatusInvDftMsgID, str "ESME_RINVDFTMSGID");
  (StatusRInvExpiry, str "ESME_RINVEXPIRY");
  (StatusInvNumDe, str "ESME_RINVNUMDE");
  (StatusInvDLName, str "ESME_RINVDLNAME");
  (StatusInvDstFlag, str "ESME_RINVDSTFLAG");
  (StatusInvSubRep, str "ESME_RINVSUBREP");
  (StatusInvEsmClass, str "ESME_RINVESMCLASS");
  (StatusCntSubDL, str "ESME_RCNTSUBDL");
  (StatusInvSched, str "ESME_RINVSCHED");
  (StatusInvOptParStream, str "ESME_RINVOPTPARSTREAM");
  (StatusOptParNotAllwd, str "ESME_ROPTPARNOTALLWD");
  (StatusInvParLen, str "ESME_RINVPARLEN");
  (StatusMissingOptParam, str "ESME_RMISSINGOPTPARAM");
  (StatusInvOptParVal, str "ESME_RINVOPTPARVAL");
  (StatusDeliveryFailure, str "ESME_RDELIVERYFAILURE");
  (StatusUnknownErr, str "ESME_RUNKNOWNERR");
  (StatusSvcTypUnauth, str "ESME_RSVCTYP_UNAUTH");
  (StatusProhibited, str "ESME_RPROHIBITED");
  (StatusSvcTypUnavail, str "ESME_RSVCTYP_UNAVAIL");
  (StatusSvcTypDenied, str "ESME_RSVCTYP_DENIED");
  (StatusInvDCS, str "ESME_RINVDCS");
  (StatusInvSrcAddrSubunit, str "ESME_RINVSRCADDRSUBUNIT");
  (StatusInvDstAddrSubunit, str "ESME_RINVDSTADDRSUBUNIT");
  (StatusInvBcastFreqInt, str "ESME_RINVBCASTFREQINT");
  (StatusInvBcastAliasName, str "ESME_RINVBCASTALIASNAME");
  (StatusInvBcastAreaFmt, str "ESME_RINVBCASTAREAFMT");
  (StatusInvNBcastAreas, str "ESME_RINVNBCASTAREAS");
  (StatusInvBcastCntType, str "ESME_RINVBCASTCNTTYPE");
  (StatusInvBcastMsgClass, str "ESME_RINVBCASTMSGCLASS");
  (StatusBcastFail, str "ESME_RBCASTFAIL");
  (StatusBcastQueryFail, str "ESME_RBCASTQUERYFAIL");
  (StatusBcastCancelFail, str "ESME_RBCASTCANCELFAIL");
  (StatusInvBcastRep, str "ESME_RINVBCASTREP");
  (StatusInvBcastSrvGrp, str "ESME_RINVBCASTSRVGRP");
  (StatusInvBcastChanInd, str "ESME_RINVBCASTCHANIND")
].

(** A Go map lookup on a table of literal entries. *)
Fixpoint table_get (tbl : list (Z * bytes)) (k : Z) : option bytes :=
  match tbl with
  | [] => None
  | (k', v) :: tbl => if decide (k' = k) then Some v else table_get tbl k
  end.

(** One upper-case hexadecimal digit, and [%08X] for a [uint32]. *)
Definition hex_digit (d : Z) : Z := if decide (d < 10) then 48 + d else 55 + d.
Definition hex8 (v : Z) : bytes :=
  (λ i, hex_digit (Z.land (Z.shiftr v (4 * i)) 15)) <$> [7; 6; 5; 4; 3; 2; 1; 0].

Definition CommandName (id : Z) : bytes :=
  match table_get commandNames id with
  | Some name => name
  | None => str "unknown_0x" ++ hex8 id
  end.

Definition StatusName (status : Z) : bytes :=
  match table_get statusNames status with
  | Some name => name
  | None => str "unknown_0x" ++ hex8 status
  end.

(** *** Injectivity of the printed names *)

Lemma hex_digit_inj a b :
  0 <= a < 16 → 0 <= b < 16 → hex_digit a = hex_digit b → a = b.
Proof. unfold hex_digit. intros. repeat case_decide; lia. Qed.

Lemma nibble_range v i : 0 <= Z.land (Z.shiftr v i) 15 < 16.
Proof.
  change 15 with (Z.ones 4). rewrite Z.land_ones by lia. apply Z.mod_pos_bound. lia.
Qed.

Lemma u32_nibbles v : u32_ok v →
  v = foldl (λ acc i, acc * 16 + Z.land (Z.shiftr v (4 * i)) 15) 0 [7; 6; 5; 4; 3; 2; 1; 0].
Proof.
  intros Hv. change 15 with (Z.ones 4). cbn [foldl].
  rewrite !Z.land_ones, !Z.shiftr_div_pow2 by lia. unfold u32_ok in Hv.
  change (2 ^ 4) with 16.
  assert (∀ x, x = (x / 16) * 16 + x mod 16) as Hd
    by (intros x; rewrite Z.mul_comm; apply Z.div_mod; lia).
  assert (∀ k, 0 <= k → v / 2 ^ (4 * (k + 1)) = v / 2 ^ (4 * k) / 16) as Hs.
  { intros k Hk. rewrite Z.div_div by lia. f_equal.
    replace (4 * (k + 1)) with (4 * k + 4) by lia. by rewrite Z.pow_add_r by lia. }
  assert (∀ k k', 0 <= k → k' = k + 1 →
    v / 2 ^ (4 * k) = v / 2 ^ (4 * k') * 16 + (v / 2 ^ (4 * k)) mod 16) as Hk.
  { intros k k' Hk ->. rewrite Hs by lia. by apply Hd. }
  assert (v / 2 ^ (4 * 8) = 0) as H8 by (apply Z.div_small; lia).
  rewrite Z.mul_0_l, Z.add_0_l.
  assert ((v / 2 ^ (4 * 7)) mod 16 = v / 2 ^ (4 * 7)) as ->
    by (rewrite (Hk 7 8) at 2 by lia; lia).
  rewrite <-(Hk 6 7), <-(Hk 5 6), <-(Hk 4 5), <-(Hk 3 4), <-(Hk 2 3),
    <-(Hk 1 2), <-(Hk 0 1) by lia.
  by rewrite Z.div_1_r.
Qed.

Lemma hex8_inj a b : u32_ok a → u32_ok b → hex8 a = hex8 b → a = b.
Proof.
  intros Ha Hb H. rewrite (u32_nibbles a), (u32_nibbles b) by done.
  unfold hex8 in H. rewrite !fmap_cons in H.
  injection H as H7 H6 H5 H4 H3 H2 H1 H0.
  apply hex_digit_inj in H7, H6, H5, H4, H3, H2, H1, H0; try apply nibble_range.
  cbn [foldl]. by rewrite H7, H6, H5, H4, H3, H2, H1, H0.
Qed.

Definition no_dup_names (tbl : list (Z * bytes)) : bool :=
  bool_decide (NoDup tbl.*2 ∧ NoDup tbl.*1 ∧
    Forall (λ n, HasPrefix n (str "unknown_0x") = false) tbl.*2).

Lemma table_get_elem tbl k v : table_get tbl k = Some v → (k, v) ∈ tbl.
Proof.
  induction tbl as [|[k' v'] tbl IH]; simpl; [done|].
  case_decide; intros; simplify_eq; set_solver.
Qed.

(** Lookup with a printed default is injective when the table has distinct names
    and none of them looks like the default. *)
Lemma name_inj tbl a b :
  no_dup_names tbl = true → u32_ok a → u32_ok b →
  default (str "unknown_0x" ++ hex8 a) (table_get tbl a) =
  default (str "unknown_0x" ++ hex8 b) (table_get tbl b) → a = b.
Proof.
  intros Ht Ha Hb. apply bool_decide_eq_true in Ht as (Hn & _ & Hu).
  assert (∀ n x, (n, str "unknown_0x" ++ x) ∉ tbl) as Hne.
  { intros n x Hin. rewrite Forall_forall in Hu.
    specialize (Hu (str "unknown_0x" ++ x)).
    rewrite list_elem_of_fmap in Hu. assert (HasPrefix (str "unknown_0x" ++ x)
      (str "unknown_0x") = false) as H by (apply Hu; by exists (n, str "unknown_0x" ++ x)).
    apply bool_decide_eq_false in H. by apply H, prefix_app_r. }
  destruct (table_get tbl a) as [na|] eqn:Ea, (table_get tbl b) as [nb|] eqn:Eb;
    cbn [from_option]; unfold id; intros H; subst.
  - apply table_get_elem in Ea, Eb. apply list_elem_of_lookup in Ea as [i Hi], Eb as [j Hj].
    assert (i = j) as ->.
    { eapply NoDup_lookup; [exact Hn|..]; rewrite list_lookup_fmap; [rewrite Hi|rewrite Hj]; done. }
    congruence.
  - by apply table_get_elem, Hne in Ea.
  - by apply table_get_elem, Hne in Eb.
  - apply app_inv_head in H. by apply hex8_inj.
Qed.

Lemma commandNames_distinct : no_dup_names commandNames = true.
Proof. vm_compute. reflexivity. Qed.
Lemma statusNames_distinct : no_dup_names statusNames = true.
Proof. vm_compute. reflexivity. Qed.

(** [CommandName] and [StatusName] are injective on [uint32]: two command
    ids (or status codes) that print the same are equal, printed defaults
    included. *)
Theorem names_injective a b :
  u32_ok a → u32_ok b →
  (CommandName a = CommandName b → a = b) ∧ (StatusName a = StatusName b → a = b).
Proof.
  intros Ha Hb. split; [apply (name_inj commandNames)|apply (name_inj statusNames)];
    auto using commandNames_distinct, statusNames_distinct.
Qed.

Lemma names_injective_witness :
  u32_ok 4 ∧ u32_ok 5 ∧ CommandName 4 = str "submit_sm" ∧
  (CommandName 4 = CommandName 5 → 4 = 5).
Proof.
  assert (u32_ok 4 ∧ u32_ok 5) as [H4 H5] by (unfold u32_ok; lia).
  split; [exact H4|split; [exact H5|split; [vm_compute; reflexivity|]]].
  exact (proj1 (names_injective 4 5 H4 H5)).
Defined.
