(* ===== verification/Tlv.v ===== *)
(** * TLV parameters (smpp/tlv.go)

    The optional parameters of a PDU: the [TLVSet] map with its typed getters and
    setters, the wire encoder [TLVSet_Encode] and the decoder [DecodeTLVs].
    [tlv_stream] is the wire grammar both are proved against. *)

From S2P Require Import Prelude.

Local Open Scope Z_scope.

(** ** Tags *)

Definition TagDestAddrSubunit : Z := 0x0005.
Definition TagDestNetworkType : Z := 0x0006.
Definition TagDestBearerType : Z := 0x0007.
Definition TagDestTelematicsID : Z := 0x0008.
Definition TagSourceAddrSubunit : Z := 0x000d.
Definition TagSourceNetworkType : Z := 0x000e.
Definition TagSourceBearerType : Z := 0x000f.
Definition TagSourceTelematicsID : Z := 0x0010.
Definition TagQOSTimeToLive : Z := 0x0017.
Definition TagPayloadType : Z := 0x0019.
Definition TagAdditionalStatusInfoText : Z := 0x001d.
Definition TagReceiptedMessageID : Z := 0x001e.
Definition TagMSMsgWaitFacilities : Z := 0x0030.
Definition TagPrivacyIndicator : Z := 0x0201.
Definition TagSourcePort : Z := 0x020a.
Definition TagDestinationPort : Z := 0x020b.
Definition TagSarMsgRefNum : Z := 0x020c.
Definition TagLanguageIndicator : Z := 0x020d.
Definition TagSarTotalSegments : Z := 0x020e.
Definition TagSarSegmentSeqnum : Z := 0x020f.
Definition TagSCInterfaceVersion : Z := 0x0210.
Definition TagCallbackNumPresInd : Z := 0x0302.
Definition TagCallbackNumAtag : Z := 0x0303.
Definition TagNumberOfMessages : Z := 0x0304.
Definition TagCallbackNum : Z := 0x0381.
Definition TagDPFResult : Z := 0x0420.
Definition TagSetDPF : Z := 0x0421.
Definition TagMSAvailabilityStatus : Z := 0x0422.
Definition TagNetworkErrorCode : Z := 0x0423.
Definition TagMessagePayload : Z := 0x0424.
Definition TagDeliveryFailureReason : Z := 0x0425.
Definition TagMoreMessagesToSend : Z := 0x0426.
Definition TagMessageState : Z := 0x0427.
Definition TagUserMessageReference : Z := 0x0204.
Definition TagUserResponseCode : Z := 0x0205.
Definition TagSourceSubaddress : Z := 0x0202.
Definition TagDestSubaddress : Z := 0x0203.
Definition TagUSSDServiceOp : Z := 0x0501.
Definition TagDisplayTime : Z := 0x1201.
Definition TagSMSSignal : Z := 0x1203.
Definition TagMSValidity : Z := 0x1204.
Definition TagAlertOnMessageDelivery : Z := 0x130c.
Definition TagITSReplyType : Z := 0x1380.
Definition TagITSSessionInfo : Z := 0x1383.
Definition TagCongestionState : Z := 0x0428.
Definition TagBroadcastChannelIndicator : Z := 0x0600.
Definition TagBroadcastContentType : Z := 0x0601.
Definition TagBroadcastContentTypeInfo : Z := 0x0602.
Definition TagBroadcastMessageClass : Z := 0x0603.
Definition TagBroadcastRepNum : Z := 0x0604.
Definition TagBroadcastFrequencyInterval : Z := 0x0605.
Definition TagBroadcastAreaIdentifier : Z := 0x0606.
Definition TagBroadcastErrorStatus : Z := 0x0607.
Definition TagBroadcastAreaSuccess : Z := 0x0608.
Definition TagBroadcastEndTime : Z := 0x0609.
Definition TagBroadcastServiceGroup : Z := 0x060a.
Definition TagBillingIdentification : Z := 0x060b.
Definition TagSourceNetworkID : Z := 0x060d.
Definition TagDestNetworkID : Z := 0x060e.
Definition TagSourceNodeID : Z := 0x060f.
Definition TagDestNodeID : Z := 0x0610.
Definition TagDestAddrNPResolution : Z := 0x0611.
Definition TagDestAddrNPInformation : Z := 0x0612.
Definition TagDestAddrNPCountry : Z := 0x0613.

(** ** The map and its accessors

    [TLVSet] is Go's [map[Tag][]byte]; the comma-ok results of the getters are
    options. *)

Abbreviation TLVSet := (gmap Z (list Z)).

Definition TLVSet_Has (t : TLVSet) (tag : Z) : bool := bool_decide (is_Some (t !! tag)).

Definition TLVSet_GetUint8 (t : TLVSet) (tag : Z) : option Z :=
  match t !! tag with
  | Some v => if decide (length v = 1%nat) then v !! 0%nat else None
  | None => None
  end.

Definition TLVSet_GetUint16 (t : TLVSet) (tag : Z) : option Z :=
  match t !! tag with
  | Some v => if decide (length v = 2%nat) then Uint16 v else None
  | None => None
  end.

Definition TLVSet_GetUint32 (t : TLVSet) (tag : Z) : option Z :=
  match t !! tag with
  | Some v => if decide (length v = 4%nat) then Uint32 v else None
  | None => None
  end.

Definition TLVSet_GetString (t : TLVSet) (tag : Z) : option bytes :=
  match t !! tag with
  | Some v =>
      if decide ((0 < length v)%nat ∧ last v = Some 0) then Some (take (length v - 1) v)
      else Some v
  | None => None
  end.

Definition TLVSet_GetBytes (t : TLVSet) (tag : Z) : option bytes := t !! tag.

Definition TLVSet_SetUint8 (t : TLVSet) (tag v : Z) : TLVSet := <[tag := [v]]> t.
Definition TLVSet_SetUint16 (t : TLVSet) (tag v : Z) : TLVSet := <[tag := PutUint16 v]> t.
Definition TLVSet_SetUint32 (t : TLVSet) (tag v : Z) : TLVSet := <[tag := PutUint32 v]> t.
Definition TLVSet_SetString (t : TLVSet) (tag : Z) (v : bytes) : TLVSet := <[tag := v]> t.
Definition TLVSet_SetBytes (t : TLVSet) (tag : Z) (v : bytes) : TLVSet := <[tag := v]> t.

Definition CongestionState (t : TLVSet) : Z :=
  match TLVSet_GetUint8 t TagCongestionState with Some v => v | None => -1 end.
Definition SourceNetworkID (t : TLVSet) : option bytes := TLVSet_GetString t TagSourceNetworkID.
Definition DestNetworkID (t : TLVSet) : option bytes := TLVSet_GetString t TagDestNetworkID.
Definition SourceNodeID (t : TLVSet) : option bytes := TLVSet_GetString t TagSourceNodeID.
Definition DestNodeID (t : TLVSet) : option bytes := TLVSet_GetString t TagDestNodeID.
Definition BillingIdentification (t : TLVSet) : option bytes :=
  TLVSet_GetBytes t TagBillingIdentification.

(** ** Encoding

    [tlv_write] is the body of the writing loop: the buffer and the offset are
    its state.  The tags are collected in the map's iteration order, which Go
    leaves unspecified: it is the argument [iter] of [TLVSet_Encode_iter]. *)

Definition tlvHeaderLen : nat := 4.

Definition tlv_write (t : TLVSet) (st : bytes * nat) (tag : Z) : bytes * nat :=
  let '(buf, offset) := st in
  let v := default [] (t !! tag) in
  let buf := copy_at offset (PutUint16 (u16 tag)) buf in
  let buf := copy_at (offset + 2) (PutUint16 (u16 (zlen v))) buf in
  let buf := copy_at (offset + 4) v buf in
  (buf, offset + (tlvHeaderLen + length v))%nat.

Definition TLVSet_Encode_iter (iter : list Z) (t : TLVSet) : bytes :=
  if decide (size t = 0%nat) then []
  else
    let tags := merge_sort Z.le iter in
    let size := foldl (λ n tag, n + (tlvHeaderLen + length (default [] (t !! tag))))%nat
                  0%nat tags in
    (foldl (tlv_write t) (replicate size 0, 0%nat) tags).1.

Definition TLVSet_Encode (t : TLVSet) : bytes :=
  TLVSet_Encode_iter (map_to_list t).*1 t.

(** ** Decoding *)

Inductive tlv_err :=
| TruncatedHeader (offset have : nat)
| TruncatedValue (tag : Z) (offset need have : nat).

(** The loop of [DecodeTLVs].  Every round consumes at least the four header
    bytes, so [S (length data)] rounds are enough ([DecodeTLVs_no_panic]). *)
Fixpoint decode_tlvs_loop (fuel : nat) (data : bytes) (offset : nat) (t : TLVSet)
    : outcome tlv_err TLVSet :=
  match fuel with
  | O => Panic
  | S fuel =>
      if decide (offset < length data)%nat then
        if decide (length data < offset + tlvHeaderLen)%nat then
          Fail (TruncatedHeader offset (length data - offset))
        else
          tag ← index (Uint16 (slice offset (offset + 2) data));
          len ← index (Uint16 (slice (offset + 2) (offset + 4) data));
          let n := Z.to_nat len in
          let offset := (offset + tlvHeaderLen)%nat in
          if decide (length data < offset + n)%nat then
            Fail (TruncatedValue tag offset n (length data - offset))
          else
            decode_tlvs_loop fuel data (offset + n)
              (<[tag := slice offset (offset + n) data]> t)
      else Ret t
  end.

Definition DecodeTLVs (data : bytes) : outcome tlv_err TLVSet :=
  decode_tlvs_loop (S (length data)) data 0 ∅.

(** ** The wire grammar *)

(** One TLV on the wire: tag, length and value. *)
Definition enc_tlv (tv : Z * bytes) : bytes :=
  PutUint16 tv.1 ++ PutUint16 (zlen tv.2) ++ tv.2.

Definition tlv_ok (tv : Z * bytes) : Prop := u16_ok tv.1 ∧ u16_ok (zlen tv.2).

(** [tlv_stream data l]: [data] is the concatenation of the TLVs [l]. *)
Inductive tlv_stream : bytes → list (Z * bytes) → Prop :=
| tlv_stream_nil : tlv_stream [] []
| tlv_stream_cons tv rest l :
    tlv_ok tv → tlv_stream rest l → tlv_stream (enc_tlv tv ++ rest) (tv :: l).

(** A set whose tags and value lengths fit their 16-bit fields. *)
Definition TLVSet_ok (t : TLVSet) : Prop := map_Forall (λ tag v, tlv_ok (tag, v)) t.

(** Later TLVs overwrite earlier ones with the same tag. *)
Definition tlv_fold (t : TLVSet) (l : list (Z * bytes)) : TLVSet :=
  foldl (λ t tv, <[tv.1 := tv.2]> t) t l.

#[export] Instance tlv_ok_dec tv : Decision (tlv_ok tv).
Proof. unfold tlv_ok, u16_ok. apply _. Defined.

Lemma length_enc_tlv tv : length (enc_tlv tv) = (tlvHeaderLen + length tv.2)%nat.
Proof. done. Qed.
#[export] Hint Rewrite length_enc_tlv : len.

Lemma u16_zlen (v : bytes) : u16_ok (zlen v) → Z.to_nat (u16 (zlen v)) = length v.
Proof. intros. rewrite u16_id by done. unfold zlen. lia. Qed.

(** *** The decoder on a stream *)

(** One round of the loop on a buffer with a TLV at the offset. *)
Lemma decode_tlvs_step fuel pre tv rest t :
  tlv_ok tv →
  decode_tlvs_loop (S fuel) (pre ++ enc_tlv tv ++ rest) (length pre) t =
  decode_tlvs_loop fuel ((pre ++ enc_tlv tv) ++ rest) (length (pre ++ enc_tlv tv))
    (<[tv.1 := tv.2]> t).
Proof.
  destruct tv as [tag v]. intros [Htag Hlen]. simpl in Htag, Hlen.
  assert (Uint16 (slice (length pre) (length pre + 2) (pre ++ enc_tlv (tag, v) ++ rest))
          = Some tag) as E1.
  { unfold enc_tlv. cbn [fst snd]. rewrite <-app_assoc.
    rewrite slice_app by done. rewrite <-(app_nil_r (PutUint16 tag)), Uint16_Put.
    by rewrite u16_id. }
  assert (Uint16 (slice (length pre + 2) (length pre + 4) (pre ++ enc_tlv (tag, v) ++ rest))
          = Some (zlen v)) as E2.
  { unfold enc_tlv. cbn [fst snd].
    replace (pre ++ (PutUint16 tag ++ PutUint16 (zlen v) ++ v) ++ rest)
      with ((pre ++ PutUint16 tag) ++ PutUint16 (zlen v) ++ (v ++ rest))
      by (by rewrite <-!app_assoc).
    rewrite slice_app by len. rewrite <-(app_nil_r (PutUint16 (zlen v))), Uint16_Put.
    by rewrite u16_id. }
  cbn [decode_tlvs_loop]. rewrite E1, E2. cbn [index mbind outcome_bind].
  replace (Z.to_nat (zlen v)) with (length v) by (unfold zlen; lia).
  unfold tlvHeaderLen. rewrite decide_True by len.
  rewrite decide_False by len. rewrite decide_False by len.
  f_equal; [by rewrite <-app_assoc|len|].
  f_equal. unfold enc_tlv. cbn [fst snd].
  replace (pre ++ (PutUint16 tag ++ PutUint16 (zlen v) ++ v) ++ rest)
    with ((pre ++ PutUint16 tag ++ PutUint16 (zlen v)) ++ v ++ rest)
    by (by rewrite <-!app_assoc).
  apply slice_app; len.
Qed.

Lemma decode_tlvs_stream data l :
  tlv_stream data l → ∀ fuel pre t, (length l < fuel)%nat →
  decode_tlvs_loop fuel (pre ++ data) (length pre) t = Ret (tlv_fold t l).
Proof.
  induction 1 as [|tv rest l Hok Hs IH]; intros [|fuel] pre t Hf; try (simpl in Hf; lia).
  - simpl. by rewrite app_nil_r, decide_False by lia.
  - rewrite decode_tlvs_step by done. simpl in Hf. rewrite IH by lia. done.
Qed.

Lemma tlv_stream_length data l : tlv_stream data l → (length l <= length data)%nat.
Proof. induction 1; unfold tlvHeaderLen in *; [done|]. len. Qed.

(** A decodable header and value at an offset form a TLV of the grammar. *)
Lemma drop_enc_tlv data offset tag len :
  bytes_ok data → (offset + 4 <= length data)%nat →
  Uint16 (slice offset (offset + 2) data) = Some tag →
  Uint16 (slice (offset + 2) (offset + 4) data) = Some len →
  (offset + 4 + Z.to_nat len <= length data)%nat →
  let v := slice (offset + 4) (offset + 4 + Z.to_nat len) data in
  tlv_ok (tag, v) ∧
  drop offset data = enc_tlv (tag, v) ++ drop (offset + 4 + Z.to_nat len) data.
Proof.
  intros Hb Hl. unfold slice.
  replace (offset + 2 - offset)%nat with 2%nat by lia.
  replace (offset + 4 - (offset + 2))%nat with 2%nat by lia.
  rewrite !Uint16_take by lia.
  assert (∀ k, drop (offset + k) data = drop k (drop offset data)) as Ed
    by (intros; rewrite drop_drop; f_equal; lia).
  intros Htag Hlen Hfit. rewrite <-Nat.add_assoc in *. rewrite !Ed in *. revert Htag Hlen Hfit.
  assert (bytes_ok (drop offset data)) as Hb' by auto with smpp.
  assert (length (drop offset data) = length data - offset)%nat as Hd by apply length_drop.
  destruct (drop offset data) as [|b0 [|b1 [|b2 [|b3 r]]]]; try (simpl in Hd; lia).
  unfold bytes_ok in Hb'. rewrite !Forall_cons in Hb'. destruct Hb' as (?&?&?&?&Hr).
  cbn [drop Nat.add]. intros Htag Hlen Hfit. cbv zeta.
  assert (u16_ok tag) by (eapply Uint16_range; [|done]; repeat (constructor; auto)).
  assert (u16_ok len) by (eapply Uint16_range; [|done]; repeat (constructor; auto)).
  replace (offset + S (S (S (S (Z.to_nat len)))) - (offset + 4))%nat
    with (Z.to_nat len) by lia. rewrite drop_0.
  assert (length (take (Z.to_nat len) r) = Z.to_nat len) as Hv
    by (simpl in Hd; rewrite length_take; lia).
  unfold tlv_ok, enc_tlv, zlen. cbn [fst snd]. rewrite Hv, Z2Nat.id by (unfold u16_ok in *; lia).
  split; [done|].
  rewrite (Put_Uint16 b0 b1 _ _ ltac:(done) ltac:(done) Htag).
  rewrite (Put_Uint16 b2 b3 _ _ ltac:(done) ltac:(done) Hlen).
  cbn [app]. by rewrite take_drop.
Qed.

Lemma decode_tlvs_sound fuel data : ∀ offset t t',
  bytes_ok data → (offset <= length data)%nat →
  decode_tlvs_loop fuel data offset t = Ret t' →
  ∃ l, tlv_stream (drop offset data) l ∧ t' = tlv_fold t l.
Proof.
  induction fuel as [|fuel IH]; intros offset t t' Hb Ho; [done|].
  cbn [decode_tlvs_loop]. unfold tlvHeaderLen.
  case_decide as H1; last first.
  { intros [= <-]. exists []. rewrite drop_ge by lia. split; [constructor|done]. }
  case_decide as H2; [done|].
  destruct (Uint16 (slice offset _ data)) as [tag|] eqn:E1; [|done].
  destruct (Uint16 (slice (offset + 2) _ data)) as [len|] eqn:E2; [|done].
  cbn [index mbind outcome_bind]. case_decide as H3; [done|]. intros Hd.
  destruct (drop_enc_tlv data offset tag len) as [Hok Heq]; try (done || lia).
  apply IH in Hd as (l & Hs & ->); [|done|lia].
  eexists ((tag, _) :: l). rewrite Heq. split; [by constructor|done].
Qed.

Lemma decode_tlvs_no_panic fuel data : ∀ offset t,
  (length data - offset < fuel)%nat → decode_tlvs_loop fuel data offset t ≠ Panic.
Proof.
  induction fuel as [|fuel IH]; intros offset t Hf; [lia|].
  cbn [decode_tlvs_loop]. unfold tlvHeaderLen.
  case_decide; [|done]. case_decide; [done|].
  destruct (Uint16_Some (slice offset (offset + 2) data)) as [tag ->];
    [rewrite length_slice; lia|].
  destruct (Uint16_Some (slice (offset + 2) (offset + 4) data)) as [len ->];
    [rewrite length_slice; lia|].
  cbn [index mbind outcome_bind]. case_decide; [done|]. apply IH. lia.
Qed.

(** *** The encoder *)

Definition tlv_entries (t : TLVSet) (tags : list Z) : list (Z * bytes) :=
  (λ tag, (tag, default [] (t !! tag))) <$> tags.

(** One write step fills the next [enc_tlv] slot of a zeroed buffer. *)
Lemma tlv_write_step t pre tag n :
  u16_ok tag → u16_ok (zlen (default [] (t !! tag))) →
  let e := enc_tlv (tag, default [] (t !! tag)) in
  tlv_write t (pre ++ replicate (length e + n) 0, length pre) tag =
  ((pre ++ e) ++ replicate n 0, length (pre ++ e)).
Proof.
  intros Ht Hl e. unfold e, tlv_write. set (v := default [] (t !! tag)) in *.
  rewrite !u16_id by done. f_equal.
  - rewrite length_enc_tlv. cbn [snd]. unfold tlvHeaderLen.
    replace (4 + length v + n)%nat with (2 + (2 + (length v + n)))%nat by lia.
    rewrite !replicate_add.
    rewrite (copy_at_at pre _ _ (PutUint16 tag)) by len.
    rewrite (app_assoc pre (PutUint16 tag)).
    rewrite (copy_at_at (pre ++ PutUint16 tag)) by len.
    rewrite (app_assoc (pre ++ PutUint16 tag)).
    rewrite (copy_at_at ((pre ++ PutUint16 tag) ++ PutUint16 (zlen v))) by len.
    unfold enc_tlv. cbn [fst snd]. by rewrite <-!app_assoc.
  - len.
Qed.

Lemma tlv_writes t tags : ∀ pre,
  Forall (λ tag, tlv_ok (tag, default [] (t !! tag))) tags →
  let body := concat (enc_tlv <$> tlv_entries t tags) in
  (foldl (tlv_write t) (pre ++ replicate (length body) 0, length pre) tags).1 = pre ++ body.
Proof.
  induction tags as [|tag tags IH]; intros pre Hok body; subst body; [done|].
  inversion Hok as [|?? [Ht Hl] Hok']; subst.
  change (tlv_entries t (tag :: tags))
    with ((tag, default [] (t !! tag)) :: tlv_entries t tags).
  rewrite fmap_cons. cbn [concat foldl].
  rewrite length_app, tlv_write_step by done. rewrite IH by done.
  by rewrite <-app_assoc.
Qed.

Lemma tlv_size t tags : ∀ n,
  foldl (λ n tag, n + (tlvHeaderLen + length (default [] (t !! tag))))%nat n tags =
  (n + length (concat (enc_tlv <$> tlv_entries t tags)))%nat.
Proof.
  induction tags as [|tag tags IH]; intros n; [simpl; lia|].
  change (tlv_entries t (tag :: tags))
    with ((tag, default [] (t !! tag)) :: tlv_entries t tags).
  rewrite fmap_cons. cbn [concat foldl]. rewrite IH, length_app, length_enc_tlv.
  cbn [snd]. lia.
Qed.

Lemma keys_ok t : TLVSet_ok t →
  Forall (λ tag, tlv_ok (tag, default [] (t !! tag))) (map_to_list t).*1.
Proof.
  intros Hok. apply Forall_fmap, Forall_forall. intros [tag v] Hin. simpl.
  apply elem_of_map_to_list in Hin. rewrite Hin. simpl. by apply Hok in Hin.
Qed.

Lemma tlv_stream_concat l : Forall tlv_ok l → tlv_stream (concat (enc_tlv <$> l)) l.
Proof. induction 1; simpl; by constructor. Qed.

Lemma tlv_fold_app t l1 l2 : tlv_fold t (l1 ++ l2) = tlv_fold (tlv_fold t l1) l2.
Proof. unfold tlv_fold. by rewrite foldl_app. Qed.

Lemma tlv_fold_entries t tags :
  NoDup tags → (∀ tag, tag ∈ tags ↔ is_Some (t !! tag)) →
  tlv_fold ∅ (tlv_entries t tags) = t.
Proof.
  intros Hnd Hdom.
  assert (∀ m tag, tlv_fold m (tlv_entries t tags) !! tag =
            if decide (tag ∈ tags) then Some (default [] (t !! tag)) else m !! tag) as Hl.
  { clear Hdom. induction tags as [|x tags IH]; intros m tag; simpl; [done|].
    apply NoDup_cons in Hnd as [Hx Hnd]. rewrite IH by done.
    destruct (decide (tag = x)) as [->|Hne].
    - rewrite (decide_False (P := x ∈ tags)) by done.
      rewrite (decide_True (P := x ∈ x :: tags)) by set_solver.
      by rewrite lookup_insert_eq.
    - rewrite lookup_insert_ne by done. repeat case_decide; set_solver. }
  apply map_eq. intros tag. rewrite Hl, lookup_empty. case_decide as Hin.
  - apply Hdom in Hin as [v ->]. done.
  - rewrite Hdom in Hin. destruct (t !! tag) eqn:E; [|done]. exfalso. eauto.
Qed.

(** The encoder writes the entries of the map in ascending tag order. *)
Lemma TLVSet_Encode_iter_eq iter t :
  TLVSet_ok t → iter ≡ₚ (map_to_list t).*1 →
  TLVSet_Encode_iter iter t = concat (enc_tlv <$> tlv_entries t (merge_sort Z.le iter)).
Proof.
  intros Hok Hp. unfold TLVSet_Encode_iter.
  assert (Forall (λ tag, tlv_ok (tag, default [] (t !! tag))) (merge_sort Z.le iter)) as Hall.
  { rewrite merge_sort_Permutation, Hp. by apply keys_ok. }
  case_decide as Hsz.
  - apply map_size_empty_inv in Hsz as ->. rewrite map_to_list_empty in Hp.
    apply Permutation_nil_r in Hp as ->. done.
  - rewrite tlv_size, Nat.add_0_l. apply (tlv_writes t _ []), Hall.
Qed.

Lemma merge_sort_perm_eq l1 l2 :
  l1 ≡ₚ l2 → merge_sort Z.le l1 = merge_sort Z.le l2.
Proof.
  intros Hp. apply (Sorted_unique Z.le); [apply (Sorted_merge_sort Z.le)..|].
  by rewrite !merge_sort_Permutation.
Qed.

Lemma TLVSet_Encode_stream t :
  TLVSet_ok t →
  let l := tlv_entries t (merge_sort Z.le (map_to_list t).*1) in
  tlv_stream (TLVSet_Encode t) l ∧ tlv_fold ∅ l = t.
Proof.
  intros Hok l. unfold TLVSet_Encode, l. rewrite TLVSet_Encode_iter_eq by done. split.
  - apply tlv_stream_concat, Forall_fmap. simpl.
    rewrite merge_sort_Permutation. by apply keys_ok.
  - apply tlv_fold_entries.
    + rewrite merge_sort_Permutation. apply NoDup_fst_map_to_list.
    + intros tag. rewrite merge_sort_Permutation, list_elem_of_fmap. split.
      * intros ([tag' v] & -> & Hin). apply elem_of_map_to_list in Hin. by eexists.
      * intros [v Hv]. exists (tag, v). split; [done|]. by apply elem_of_map_to_list.
Qed.

Lemma TLVSet_Encode_iter_indep iter t :
  TLVSet_ok t → iter ≡ₚ (map_to_list t).*1 → TLVSet_Encode_iter iter t = TLVSet_Encode t.
Proof.
  intros Hok Hp. unfold TLVSet_Encode. rewrite !TLVSet_Encode_iter_eq by done.
  by rewrite (merge_sort_perm_eq iter _ Hp).
Qed.

Lemma DecodeTLVs_Encode t : TLVSet_ok t → DecodeTLVs (TLVSet_Encode t) = Ret t.
Proof.
  intros Hok. destruct (TLVSet_Encode_stream t Hok) as [Hs Hf].
  pose proof (tlv_stream_length _ _ Hs). unfold DecodeTLVs.
  rewrite (decode_tlvs_stream _ _ Hs _ []) by lia. by rewrite Hf.
Qed.

Lemma DecodeTLVs_no_panic data : DecodeTLVs data ≠ Panic.
Proof. apply decode_tlvs_no_panic. lia. Qed.

(** ** Properties *)

(** C38: decoding what [TLVSet_Encode] wrote gives the same set back, in whatever
    order the map is iterated, for every set whose tags and value lengths fit in
    their 16-bit fields. *)
Theorem TLVSet_roundtrip iter t :
  TLVSet_ok t → iter ≡ₚ (map_to_list t).*1 → DecodeTLVs (TLVSet_Encode_iter iter t) = Ret t.
Proof.
  intros Hok Hp. rewrite TLVSet_Encode_iter_indep by done. by apply DecodeTLVs_Encode.
Qed.

Definition tlv_example : TLVSet :=
  TLVSet_SetBytes (TLVSet_SetUint8 ∅ TagSCInterfaceVersion 0x50) TagUserMessageReference [].

Lemma TLVSet_roundtrip_witness :
  TLVSet_ok tlv_example ∧
  [TagSCInterfaceVersion; TagUserMessageReference] ≡ₚ (map_to_list tlv_example).*1 ∧
  DecodeTLVs (TLVSet_Encode_iter [TagSCInterfaceVersion; TagUserMessageReference] tlv_example)
    = Ret tlv_example ∧
  TLVSet_Encode tlv_example = [2; 4; 0; 0; 2; 16; 0; 1; 80].
Proof.
  assert (TLVSet_ok tlv_example) as Hok.
  { unfold TLVSet_ok. apply (bool_decide_unpack _). vm_compute. exact I. }
  assert ([TagSCInterfaceVersion; TagUserMessageReference] ≡ₚ (map_to_list tlv_example).*1)
    as Hp by (apply (bool_decide_unpack _); vm_compute; exact I).
  split; [exact Hok|]. split; [exact Hp|]. split; [exact (TLVSet_roundtrip _ _ Hok Hp)|].
  vm_compute. reflexivity.
Defined.

(** [DecodeTLVs] decides the wire grammar: it returns a set exactly when the
    input is a sequence of complete TLVs (the last value of a repeated tag wins),
    returns an error exactly when it is not, and never panics or runs on. *)
Theorem DecodeTLVs_grammar data :
  bytes_ok data →
  match DecodeTLVs data with
  | Ret t => ∃ l, tlv_stream data l ∧ t = tlv_fold ∅ l
  | Fail _ => ¬ ∃ l, tlv_stream data l
  | Panic => False
  end.
Proof.
  intros Hb. destruct (DecodeTLVs data) as [t|e|] eqn:E; unfold DecodeTLVs in E.
  - apply decode_tlvs_sound in E; [done|done|lia].
  - intros (l & Hs). pose proof (tlv_stream_length _ _ Hs).
    rewrite (decode_tlvs_stream _ _ Hs _ []) in E by lia. done.
  - by apply (DecodeTLVs_no_panic data).
Qed.

Lemma DecodeTLVs_grammar_witness :
  bytes_ok [2; 16; 0; 1; 80] ∧ bytes_ok [2; 16; 0; 2; 80] ∧
  DecodeTLVs [2; 16; 0; 1; 80] = Ret {[TagSCInterfaceVersion := [80]]} ∧
  (∃ l, tlv_stream [2; 16; 0; 1; 80] l ∧ {[TagSCInterfaceVersion := [80]]} = tlv_fold ∅ l) ∧
  (¬ ∃ l, tlv_stream [2; 16; 0; 2; 80] l).
Proof.
  assert (bytes_ok [2; 16; 0; 1; 80] ∧ bytes_ok [2; 16; 0; 2; 80]) as [H1 H2]
    by (split; apply (bool_decide_unpack _); vm_compute; exact I).
  split; [exact H1|split; [exact H2|split; [vm_compute; reflexivity|split]]].
  - exact (DecodeTLVs_grammar [2; 16; 0; 1; 80] H1).
  - exact (DecodeTLVs_grammar [2; 16; 0; 2; 80] H2).
Defined.

(** The encoding does not depend on the map's iteration order, and the TLVs are
    written in strictly ascending tag order, each tag of the map once. *)
Theorem TLVSet_Encode_deterministic iter t :
  TLVSet_ok t → iter ≡ₚ (map_to_list t).*1 →
  TLVSet_Encode_iter iter t = TLVSet_Encode t ∧
  ∃ l, tlv_stream (TLVSet_Encode t) l ∧ StronglySorted Z.lt l.*1 ∧ l ≡ₚ map_to_list t.
Proof.
  intros Hok Hp. split; [by apply TLVSet_Encode_iter_indep|].
  destruct (TLVSet_Encode_stream t Hok) as [Hs Hf]. eexists. split; [exact Hs|].
  assert ((tlv_entries t (merge_sort Z.le (map_to_list t).*1)).*1
          = merge_sort Z.le (map_to_list t).*1) as Hfst.
  { unfold tlv_entries. rewrite <-list_fmap_compose. apply list_fmap_id. }
  split.
  - rewrite Hfst. apply StronglySorted_lt.
    + apply (StronglySorted_merge_sort Z.le).
    + rewrite merge_sort_Permutation. apply NoDup_fst_map_to_list.
  - unfold tlv_entries. rewrite merge_sort_Permutation, <-list_fmap_compose.
    rewrite (list_fmap_ext _ id); [by rewrite list_fmap_id|].
    intros i [tag v] Hi%list_elem_of_lookup_2%elem_of_map_to_list. simpl. by rewrite Hi.
Qed.

Lemma TLVSet_Encode_deterministic_witness :
  TLVSet_ok tlv_example ∧
  [TagUserMessageReference; TagSCInterfaceVersion] ≡ₚ (map_to_list tlv_example).*1 ∧
  [TagSCInterfaceVersion; TagUserMessageReference] ≡ₚ (map_to_list tlv_example).*1 ∧
  TLVSet_Encode_iter [TagSCInterfaceVersion; TagUserMessageReference] tlv_example =
  TLVSet_Encode_iter [TagUserMessageReference; TagSCInterfaceVersion] tlv_example.
Proof.
  assert (TLVSet_ok tlv_example) as Hok.
  { unfold TLVSet_ok. apply (bool_decide_unpack _). vm_compute. exact I. }
  assert ([TagUserMessageReference; TagSCInterfaceVersion] ≡ₚ (map_to_list tlv_example).*1)
    as Hp1 by (apply (bool_decide_unpack _); vm_compute; exact I).
  assert ([TagSCInterfaceVersion; TagUserMessageReference] ≡ₚ (map_to_list tlv_example).*1)
    as Hp2 by (apply (bool_decide_unpack _); vm_compute; exact I).
  split; [exact Hok|split; [exact Hp1|split; [exact Hp2|]]].
  rewrite (proj1 (TLVSet_Encode_deterministic _ _ Hok Hp1)).
  exact (proj1 (TLVSet_Encode_deterministic _ _ Hok Hp2)).
Defined.
