(* ===== verification/Net.v ===== *)
(** * Addresses (net.SplitHostPort, and extractIP of gateway/connection.go)

    The address that a bind is checked against is what [extractIP] makes of the remote
    address of the session: the host without its port, and without the brackets of an
    IPv6 address ([extractIP_host]). *)

From S2P Require Import Prelude.

Local Open Scope Z_scope.

(** [strings.IndexByte] and [strings.LastIndexByte]; [None] for -1. *)
Fixpoint IndexByte (c : Z) (s : bytes) : option nat :=
  match s with
  | [] => None
  | b :: s => if decide (b = c) then Some 0%nat else S <$> IndexByte c s
  end.

Fixpoint LastIndexByte (c : Z) (s : bytes) : option nat :=
  match s with
  | [] => None
  | b :: s => match LastIndexByte c s with
              | Some i => Some (S i)
              | None => if decide (b = c) then Some 0%nat else None
              end
  end.

Inductive addr_err := MissingPort | TooManyColons | MissingBracket | UnexpectedBracket.

Definition colon : Z := 58.
Definition lbracket : Z := 91.
Definition rbracket : Z := 93.

(** The host, where neither bracket may come after the positions [j] and [k]. *)
Definition split_checked (hostport host : bytes) (i j k : nat) : outcome addr_err (bytes * bytes) :=
  if decide (is_Some (IndexByte lbracket (drop j hostport))) then Fail UnexpectedBracket
  else if decide (is_Some (IndexByte rbracket (drop k hostport))) then Fail UnexpectedBracket
  else Ret (host, drop (S i) hostport).

Definition SplitHostPort (hostport : bytes) : outcome addr_err (bytes * bytes) :=
  match LastIndexByte colon hostport with
  | None => Fail MissingPort
  | Some i =>
      if decide (hostport !! 0%nat = Some lbracket) then
        match IndexByte rbracket hostport with
        | None => Fail MissingBracket
        | Some e =>
            if decide (S e = length hostport) then Fail MissingPort
            else if decide (S e = i) then split_checked hostport (slice 1 e hostport) i 1 (S e)
            else if decide (hostport !! S e = Some colon) then Fail TooManyColons
            else Fail MissingPort
        end
      else
        let host := take i hostport in
        if decide (is_Some (IndexByte colon host)) then Fail TooManyColons
        else split_checked hostport host i 0 0
  end.

Definition extractIP (remoteAddr : bytes) : bytes :=
  match SplitHostPort remoteAddr with Ret (host, _) => host | _ => remoteAddr end.

(** ** Positions *)

Lemma IndexByte_app c p s : c ∉ p → IndexByte c (p ++ c :: s) = Some (length p).
Proof.
  induction p as [|b p IH]; cbn [app IndexByte]; intros Hc; [by rewrite decide_True|].
  apply not_elem_of_cons in Hc as [Hb Hc]. rewrite decide_False by auto. by rewrite IH.
Qed.

Lemma IndexByte_None c s : c ∉ s → IndexByte c s = None.
Proof.
  induction s as [|b s IH]; [done|]. intros [Hb Hc]%not_elem_of_cons. cbn [IndexByte].
  rewrite decide_False by auto. by rewrite IH.
Qed.

Lemma LastIndexByte_None c s : c ∉ s → LastIndexByte c s = None.
Proof.
  induction s as [|b s IH]; [done|]. intros [Hb Hc]%not_elem_of_cons. cbn [LastIndexByte].
  rewrite IH by done. by rewrite decide_False by auto.
Qed.

Lemma LastIndexByte_app c p s : c ∉ s → LastIndexByte c (p ++ c :: s) = Some (length p).
Proof.
  intros Hs. induction p as [|b p IH]; cbn [app LastIndexByte]; [|by rewrite IH].
  rewrite LastIndexByte_None by done. by rewrite decide_True.
Qed.

(** ** What the session is checked against *)

Definition plain_host (host : bytes) : Prop := (colon ∉ host) ∧ (lbracket ∉ host) ∧ (rbracket ∉ host).
Definition bracketed (host : bytes) : Prop := (lbracket ∉ host) ∧ (rbracket ∉ host).

(** The address of a session, as package net prints it: the host of "host:port" and of
    "[host]:port" is found whatever colons the second has; an address that is neither
    of the two is used as it is. *)
Theorem extractIP_host host port : plain_host port →
  (plain_host host → extractIP (host ++ colon :: port) = host) ∧
  (bracketed host → extractIP (lbracket :: host ++ rbracket :: colon :: port) = host) ∧
  (colon ∉ host → extractIP host = host).
Proof.
  intros (Hp1 & Hp2 & Hp3). split_and!.
  - intros (Hh1 & Hh2 & Hh3). unfold extractIP, SplitHostPort. rewrite LastIndexByte_app by done.
    rewrite decide_False.
    2: { destruct host as [|b host]; cbn; [intros [= Hb]; discriminate|]. intros [= ->]. apply Hh2. by left. }
    rewrite take_app_length. rewrite IndexByte_None by done. rewrite decide_False by by intros [? ?].
    unfold split_checked. rewrite !drop_0.
    rewrite (IndexByte_None lbracket) by by intros [?|[?|?]%elem_of_cons]%elem_of_app.
    rewrite (IndexByte_None rbracket) by by intros [?|[?|?]%elem_of_cons]%elem_of_app.
    by rewrite !decide_False by by intros [? ?].
  - intros (Hh2 & Hh3). unfold extractIP, SplitHostPort.
    replace (lbracket :: host ++ rbracket :: colon :: port) with ((lbracket :: host ++ [rbracket]) ++ colon :: port)
      by (cbn; by rewrite <-app_assoc).
    rewrite LastIndexByte_app by done. rewrite decide_True by done.
    assert (IndexByte rbracket ((lbracket :: host ++ [rbracket]) ++ colon :: port) = Some (S (length host))) as ->.
    { cbn [app IndexByte]. rewrite decide_False by done. rewrite <-app_assoc. cbn [app]. by rewrite IndexByte_app. }
    rewrite decide_False by (cbn; rewrite !length_app; simpl; lia).
    rewrite decide_True by (cbn; rewrite !length_app; simpl; lia).
    unfold split_checked. cbn [app drop]. rewrite <-app_assoc. cbn [app].
    rewrite (IndexByte_None lbracket) by by intros [?|[?|[?|?]%elem_of_cons]%elem_of_cons]%elem_of_app.
    rewrite decide_False by by intros [? ?].
    rewrite (IndexByte_None rbracket).
    2: { rewrite <-(Nat.add_1_r (length host)), drop_app_add. cbn. by intros [?|?]%elem_of_cons. }
    rewrite decide_False by by intros [? ?]. unfold slice. cbn [drop].
    replace (S (length host) - 1)%nat with (length host) by lia. apply take_app_length.
  - intros Hh. unfold extractIP, SplitHostPort. by rewrite LastIndexByte_None.
Qed.

Lemma extractIP_host_witness :
  extractIP (str "10.0.0.7:51234") = str "10.0.0.7" ∧ extractIP (str "[fe80::1]:51234") = str "fe80::1" ∧
  extractIP (str "pipe") = str "pipe".
Proof.
  assert (plain_host (str "51234")) as Hp by (split_and!; apply (bool_decide_unpack _); vm_compute; exact I).
  destruct (extractIP_host (str "10.0.0.7") (str "51234") Hp) as (H1 & _ & _).
  destruct (extractIP_host (str "fe80::1") (str "51234") Hp) as (_ & H2 & _).
  destruct (extractIP_host (str "pipe") (str "51234") Hp) as (_ & _ & H3).
  split; [exact (H1 ltac:(split_and!; apply (bool_decide_unpack _); vm_compute; exact I))|].
  split; [exact (H2 ltac:(split; apply (bool_decide_unpack _); vm_compute; exact I))|].
  exact (H3 ltac:(apply (bool_decide_unpack _); vm_compute; exact I)).
Defined.
