(* ===== verification/Pdu.v ===== *)
(** * PDUs (smpp/pdu.go)

    The PDU record, its wire encoding and decoding, C-strings, the submit_sm
    encoder, the deliver_sm parser, and the framing by which the read loops of
    smpp/client.go, gateway/connection.go and mocksmsc/server.go cut the TCP byte
    stream into PDUs. *)

From S2P Require Import Prelude Constants Tlv.

Local Open Scope Z_scope.

Definition pduHeaderLen : nat := 16.

(** A nil [TLVs] map is [None]; a nil [Body] is the empty list. *)
Record PDU := mkPDU {
  CommandLength : Z;
  CommandID : Z;
  CommandStatus : Z;
  SequenceNumber : Z;
  Body : bytes;
  TLVs : option TLVSet
}.

(** ** Encoding *)

(** The encoder also stores the computed length into the PDU, so it returns the
    updated PDU with the bytes.  The slice expressions [buf[12:16]] and
    [buf[16+len(Body):]] panic if the 32-bit length wrapped around. *)
Definition EncodePDU (pdu : PDU) : outcome Empty_set (PDU * bytes) :=
  let tlvBytes := match TLVs pdu with Some t => TLVSet_Encode t | None => [] end in
  let cl := u32 (16 + zlen (Body pdu) + zlen tlvBytes) in
  let pdu := mkPDU cl (CommandID pdu) (CommandStatus pdu) (SequenceNumber pdu)
               (Body pdu) (TLVs pdu) in
  let buf := replicate (Z.to_nat cl) 0 in
  if decide (length buf < pduHeaderLen)%nat then Panic
  else
    let buf := copy_at 0 (PutUint32 (CommandLength pdu)) buf in
    let buf := copy_at 4 (PutUint32 (CommandID pdu)) buf in
    let buf := copy_at 8 (PutUint32 (CommandStatus pdu)) buf in
    let buf := copy_at 12 (PutUint32 (SequenceNumber pdu)) buf in
    let buf := copy_at 16 (Body pdu) buf in
    if decide (0 < length tlvBytes)%nat then
      if decide (length buf < 16 + length (Body pdu))%nat then Panic
      else Ret (pdu, copy_at (16 + length (Body pdu)) tlvBytes buf)
    else Ret (pdu, buf).

(** ** Decoding *)

Inductive pdu_err :=
| ShortHeader (got : nat)
| ShortPDU (got : nat) (cmdLen : Z).

Definition DecodePDU (data : bytes) : outcome pdu_err PDU :=
  if decide (length data < pduHeaderLen)%nat then Fail (ShortHeader (length data))
  else
    cmdLen ← index (Uint32 (slice 0 4 data));
    if decide (u32 (zlen data) < cmdLen) then Fail (ShortPDU (length data) cmdLen)
    else
      id ← index (Uint32 (slice 4 8 data));
      status ← index (Uint32 (slice 8 12 data));
      seq ← index (Uint32 (slice 12 16 data));
      let body :=
        if decide (16 < cmdLen) then slice pduHeaderLen (Z.to_nat cmdLen) data else [] in
      Ret (mkPDU cmdLen id status seq body None).

(** ** C-strings *)

(** A [bytes.Buffer] is the list of the bytes written so far. *)
Definition WriteByte (b : Z) (buf : bytes) : bytes := buf ++ [b].
Definition WriteBytes (p buf : bytes) : bytes := buf ++ p.
Definition writeCString (s buf : bytes) : bytes := WriteByte 0 (WriteBytes s buf).

(** The scan for the terminator: how many bytes precede the first zero. *)
Fixpoint scan_nul (l : bytes) : nat :=
  match l with
  | [] => 0
  | b :: l => if decide (b = 0) then 0 else S (scan_nul l)
  end.

Definition ReadCString (data : bytes) (offset : nat) : bytes * nat :=
  if decide (length data <= offset)%nat then ([], offset)
  else
    let e := (offset + scan_nul (drop offset data))%nat in
    let s := slice offset e data in
    (s, if decide (e < length data)%nat then S e else e).

Definition WriteCStringBytes (s : bytes) : bytes :=
  copy_at 0 s (replicate (length s + 1) 0).

(** ** submit_sm and deliver_sm *)

Definition EncodeSubmitSM (sourceAddr : bytes) (sourceTON sourceNPI : Z)
    (destAddr : bytes) (destTON destNPI esmClass protocolID dataCoding
    registeredDelivery : Z) (shortMessage : bytes) : bytes :=
  let buf := [] in
  let buf := writeCString [] buf in
  let buf := WriteByte sourceTON buf in
  let buf := WriteByte sourceNPI buf in
  let buf := writeCString sourceAddr buf in
  let buf := WriteByte destTON buf in
  let buf := WriteByte destNPI buf in
  let buf := writeCString destAddr buf in
  let buf := WriteByte esmClass buf in
  let buf := WriteByte protocolID buf in
  let buf := WriteByte 0 buf in
  let buf := writeCString [] buf in
  let buf := writeCString [] buf in
  let buf := WriteByte registeredDelivery buf in
  let buf := WriteByte 0 buf in
  let buf := WriteByte dataCoding buf in
  let buf := WriteByte 0 buf in
  if decide (254 < length shortMessage)%nat then
    let buf := WriteByte 0 buf in
    let buf := WriteBytes (PutUint16 (u16 0x0424)) buf in
    let buf := WriteBytes (PutUint16 (u16 (zlen shortMessage))) buf in
    WriteBytes shortMessage buf
  else
    let buf := WriteByte (u8 (zlen shortMessage)) buf in
    WriteBytes shortMessage buf.

Definition ParseSubmitSMResp (body : bytes) : bytes :=
  if decide (length body = 0%nat) then [] else (ReadCString body 0).1.

(** The result is (source address, destination address, ESM class, short
    message); an early return leaves the later ones at their zero values. *)
Definition ParseDeliverSM (body : bytes) : bytes * bytes * Z * bytes :=
  let n := length body in
  if decide (n = 0%nat) then ([], [], 0, []) else
  let offset := (ReadCString body 0).2 in
  if decide (n <= offset)%nat then ([], [], 0, []) else
  let offset := S offset in
  if decide (n <= offset)%nat then ([], [], 0, []) else
  let offset := S offset in
  let '(sourceAddr, offset) := ReadCString body offset in
  if decide (n <= offset)%nat then (sourceAddr, [], 0, []) else
  let offset := S offset in
  if decide (n <= offset)%nat then (sourceAddr, [], 0, []) else
  let offset := S offset in
  let '(destAddr, offset) := ReadCString body offset in
  match body !! offset with
  | None => (sourceAddr, destAddr, 0, [])
  | Some esmClass =>
      let offset := S offset in
      if decide (n <= offset)%nat then (sourceAddr, destAddr, esmClass, []) else
      let offset := S offset in
      if decide (n <= offset)%nat then (sourceAddr, destAddr, esmClass, []) else
      let offset := S offset in
      let offset := (ReadCString body offset).2 in
      let offset := (ReadCString body offset).2 in
      if decide (n <= offset)%nat then (sourceAddr, destAddr, esmClass, []) else
      let offset := S offset in
      if decide (n <= offset)%nat then (sourceAddr, destAddr, esmClass, []) else
      let offset := S offset in
      if decide (n <= offset)%nat then (sourceAddr, destAddr, esmClass, []) else
      let offset := S offset in
      if decide (n <= offset)%nat then (sourceAddr, destAddr, esmClass, []) else
      let offset := S offset in
      match body !! offset with
      | None => (sourceAddr, destAddr, esmClass, [])
      | Some smLen =>
          let offset := S offset in
          let m := Z.to_nat smLen in
          let shortMessage :=
            if decide (0 < m ∧ offset + m <= n)%nat then slice offset (offset + m) body
            else [] in
          (sourceAddr, destAddr, esmClass, shortMessage)
      end
  end.

Definition EncodeDeliverSMRespWithStatus (seqNum status : Z) : PDU :=
  mkPDU 0 CmdDeliverSMResp status seqNum [0] None.
Definition EncodeDeliverSMResp (seqNum : Z) : PDU :=
  EncodeDeliverSMRespWithStatus seqNum StatusOK.

(** ** Framing

    What one round of a read loop obtains from the byte stream that is still to
    be read: [io.ReadFull] fails when the stream ends first. *)

Inductive frame :=
| FrameNoHeader
| FrameBadLength (cmdLen : Z)
| FrameShortBody
| FrameUndecodable (rest : bytes)
| FramePDU (pdu : PDU) (rest : bytes).

Definition read_frame (s : bytes) : frame :=
  if decide (length s < pduHeaderLen)%nat then FrameNoHeader
  else
    let headerBuf := take pduHeaderLen s in
    let s := drop pduHeaderLen s in
    match Uint32 (slice 0 4 headerBuf) with
    | None => FrameNoHeader
    | Some cmdLen =>
        if decide (cmdLen < 16) then FrameBadLength cmdLen
        else
          let need := (Z.to_nat cmdLen - pduHeaderLen)%nat in
          if decide (length s < need)%nat then FrameShortBody
          else
            let fullPDU := headerBuf ++ take need s in
            match DecodePDU fullPDU with
            | Ret pdu => FramePDU pdu (drop need s)
            | _ => FrameUndecodable (drop need s)
            end
    end.

(** The PDUs a read loop decodes, in order, until a round reads no further PDU.
    A round consumes at least a header, so [S (length s)] rounds are enough. *)
Fixpoint read_pdus (fuel : nat) (s : bytes) : list PDU :=
  match fuel with
  | O => []
  | S fuel =>
      match read_frame s with
      | FramePDU pdu rest => pdu :: read_pdus fuel rest
      | _ => []
      end
  end.

(** ** Cursors: a position in a body and what follows it *)

Definition no_nul (s : bytes) : Prop := 0 ∉ s.

Definition At (body : bytes) (o : nat) (rest : bytes) : Prop :=
  drop o body = rest ∧ (o <= length body)%nat.

Lemma At_start body : At body 0 body.
Proof. split; [done|lia]. Qed.

Lemma At_length body o rest : At body o rest → length body = (o + length rest)%nat.
Proof. intros [<- ?]. len. Qed.

Lemma At_drop body o rest : At body o rest → drop o body = rest.
Proof. by intros [? ?]. Qed.

Lemma At_app body o bs r :
  At body o (bs ++ r) → slice o (o + length bs) body = bs ∧ At body (o + length bs) r.
Proof.
  intros Ha. pose proof (At_length _ _ _ Ha) as Hl. destruct Ha as [Hd Ho]. split.
  - unfold slice. replace (o + length bs - o)%nat with (length bs) by lia.
    rewrite Hd. apply take_app_length.
  - split; [|revert Hl; len].
    rewrite Nat.add_comm, <-drop_drop, Hd || rewrite <-drop_drop, Hd.
    apply drop_app_length.
Qed.

Lemma At_cons body o b r :
  At body o (b :: r) →
  body !! o = Some b ∧ (o < length body)%nat ∧ At body (S o) r.
Proof.
  intros Ha. pose proof (At_length _ _ _ Ha) as Hl. simpl in Hl.
  apply (At_app _ _ [b]) in Ha as Ha'. destruct Ha as [Hd Ho].
  split; [|split; [lia|]].
  - rewrite <-(Nat.add_0_r o), <-lookup_drop, Hd. done.
  - destruct Ha' as [_ Ha']. simpl in Ha'. by rewrite Nat.add_1_r in Ha'.
Qed.

Lemma scan_nul_app s r : no_nul s → scan_nul (s ++ 0 :: r) = length s.
Proof.
  unfold no_nul. induction s as [|b s IH]; intros Hs; simpl; [done|].
  rewrite decide_False by set_solver. rewrite IH by set_solver. done.
Qed.

Lemma ReadCString_At body o s r :
  At body o (s ++ 0 :: r) → no_nul s →
  ReadCString body o = (s, S (o + length s)) ∧ At body (S (o + length s)) r.
Proof.
  intros Ha Hs. pose proof (At_length _ _ _ Ha) as Hl. unfold ReadCString.
  rewrite (At_drop _ _ _ Ha), scan_nul_app by done.
  destruct (At_app _ _ _ _ Ha) as [Hsl Ha']. apply At_cons in Ha' as (_ & Hlt & Ha').
  rewrite decide_False by (revert Hl; len). rewrite decide_True by done. by rewrite Hsl.
Qed.

Lemma ReadCString_At_nil body o r :
  At body o (0 :: r) → ReadCString body o = ([], S o) ∧ At body (S o) r.
Proof.
  intros Ha. destruct (ReadCString_At body o [] r Ha) as [E ?]; [unfold no_nul; set_solver|].
  simpl in *. rewrite Nat.add_0_r in *. done.
Qed.

(** [walk] steps a parser over a body described by a cursor hypothesis. *)
Ltac walk_step :=
  match goal with
  | Ha : At ?b ?o (0 :: ?r) |- context [ReadCString ?b ?o] =>
      let E := fresh in let Ha' := fresh in
      destruct (ReadCString_At_nil b o r Ha) as [E Ha']; rewrite E;
      clear E Ha; rename Ha' into Ha; cbn [fst snd]
  | Ha : At ?b ?o (?s ++ 0 :: ?r), Hs : no_nul ?s |- context [ReadCString ?b ?o] =>
      let E := fresh in let Ha' := fresh in
      destruct (ReadCString_At b o s r Ha Hs) as [E Ha']; rewrite E;
      clear E Ha; rename Ha' into Ha; cbn [fst snd]
  | Ha : At ?b ?o (_ :: _) |- context [decide (length ?b <= ?o)%nat] =>
      rewrite (decide_False (P := (length b <= o)%nat))
        by (apply At_length in Ha; simpl in Ha; lia);
      apply At_cons in Ha as (_ & _ & Ha)
  | Ha : At ?b ?o (?x :: _) |- context [?b !! ?o] =>
      let E := fresh in apply At_cons in Ha as (E & _ & Ha); rewrite E; clear E
  end.
Ltac walk := repeat walk_step.

(** The bytes of a buffer, flattened to the right. *)
Ltac flatten_buf :=
  unfold writeCString, WriteByte, WriteBytes;
  rewrite <-?app_assoc; cbn [app].

(** ** Lemmas on PDUs *)

Definition PDU_ok (pdu : PDU) : Prop :=
  u32_ok (CommandID pdu) ∧ u32_ok (CommandStatus pdu) ∧ u32_ok (SequenceNumber pdu).

(** The bytes that follow the header. *)
Definition pdu_payload (pdu : PDU) : bytes :=
  Body pdu ++ match TLVs pdu with Some t => TLVSet_Encode t | None => [] end.

Definition pdu_fits (pdu : PDU) : Prop := 16 + zlen (pdu_payload pdu) < 2 ^ 32.

Definition pdu_wire (pdu : PDU) : bytes :=
  PutUint32 (16 + zlen (pdu_payload pdu)) ++ PutUint32 (CommandID pdu) ++
  PutUint32 (CommandStatus pdu) ++ PutUint32 (SequenceNumber pdu) ++ pdu_payload pdu.

(** The buffer-writing encoder computes the concatenation of its fields. *)
Lemma EncodePDU_eq pdu :
  pdu_fits pdu →
  EncodePDU pdu =
  Ret (mkPDU (16 + zlen (pdu_payload pdu)) (CommandID pdu) (CommandStatus pdu)
         (SequenceNumber pdu) (Body pdu) (TLVs pdu), pdu_wire pdu).
Proof.
  unfold pdu_fits, pdu_wire, pdu_payload, EncodePDU. intros Hfit.
  destruct pdu as [cl0 id status seq body tlvs]. cbn [CommandID CommandStatus
    SequenceNumber Body TLVs CommandLength] in *.
  set (tb := match tlvs with Some t => _ | None => _ end) in *.
  pose proof (zlen_nonneg body). pose proof (zlen_nonneg tb).
  rewrite zlen_app in *. rewrite u32_id by (unfold u32_ok; lia).
  replace (16 + zlen body + zlen tb) with (16 + (zlen body + zlen tb)) by lia.
  set (cl := 16 + (zlen body + zlen tb)) in *.
  replace (Z.to_nat cl) with (4 + (4 + (4 + (4 + (length body + length tb)))))%nat
    by (unfold cl, zlen; lia).
  rewrite !replicate_add. unfold pduHeaderLen.
  rewrite decide_False by len.
  rewrite (copy_at_0 (replicate 4 0)) by done.
  rewrite (copy_at_at (PutUint32 cl)) by done.
  rewrite (app_assoc (PutUint32 cl)).
  rewrite (copy_at_at (PutUint32 cl ++ _)) by done.
  rewrite (app_assoc (_ ++ _) (PutUint32 status)).
  rewrite (copy_at_at ((_ ++ _) ++ _)) by done.
  rewrite (app_assoc _ (PutUint32 seq)).
  rewrite (copy_at_at (((_ ++ _) ++ _) ++ _)) by len.
  case_decide as Ht.
  - rewrite decide_False by len. rewrite (app_assoc _ body).
    rewrite <-(app_nil_r (replicate (length tb) 0)).
    rewrite (copy_at_at _ (replicate (length tb) 0) [] tb) by len.
    by rewrite app_nil_r, <-!app_assoc.
  - assert (tb = []) as -> by (destruct tb; [done|simpl in Ht; lia]).
    cbn [length replicate]. by rewrite !app_nil_r, <-!app_assoc.
Qed.

Definition pdu_header (pdu : PDU) : bytes :=
  PutUint32 (16 + zlen (pdu_payload pdu)) ++ PutUint32 (CommandID pdu) ++
  PutUint32 (CommandStatus pdu) ++ PutUint32 (SequenceNumber pdu).

Lemma pdu_wire_header pdu : pdu_wire pdu = pdu_header pdu ++ pdu_payload pdu.
Proof. unfold pdu_wire, pdu_header. by rewrite <-!app_assoc. Qed.

Lemma length_pdu_wire pdu : length (pdu_wire pdu) = (16 + length (pdu_payload pdu))%nat.
Proof. unfold pdu_wire. len. Qed.

Lemma u32_cl pdu : pdu_fits pdu → u32_ok (16 + zlen (pdu_payload pdu)).
Proof. unfold pdu_fits, u32_ok. pose proof (zlen_nonneg (pdu_payload pdu)). lia. Qed.

Lemma slice_0 {A} n (l : list A) : slice 0 n l = take n l.
Proof. unfold slice. by rewrite drop_0, Nat.sub_0_r. Qed.

Definition pdu_decoded (pdu : PDU) : PDU :=
  mkPDU (16 + zlen (pdu_payload pdu)) (CommandID pdu) (CommandStatus pdu)
    (SequenceNumber pdu) (pdu_payload pdu) None.

(** Decoding the wire form of a PDU, whatever follows it in the buffer. *)
Lemma DecodePDU_wire pdu :
  PDU_ok pdu → pdu_fits pdu → DecodePDU (pdu_wire pdu) = Ret (pdu_decoded pdu).
Proof.
  intros (Hid & Hst & Hseq) Hfit. pose proof (u32_cl pdu Hfit) as Hcl.
  unfold DecodePDU. rewrite decide_False by (rewrite length_pdu_wire; unfold pduHeaderLen; lia).
  set (cl := 16 + zlen (pdu_payload pdu)) in *.
  assert (slice 0 4 (pdu_wire pdu) = PutUint32 cl) as ->.
  { unfold pdu_wire. rewrite slice_0. by rewrite take_app_length'. }
  assert (slice 4 8 (pdu_wire pdu) = PutUint32 (CommandID pdu)) as ->.
  { by apply (slice_app (PutUint32 cl)). }
  assert (slice 8 12 (pdu_wire pdu) = PutUint32 (CommandStatus pdu)) as ->.
  { unfold pdu_wire. rewrite app_assoc. by apply slice_app. }
  assert (slice 12 16 (pdu_wire pdu) = PutUint32 (SequenceNumber pdu)) as ->.
  { unfold pdu_wire. rewrite app_assoc, (app_assoc (_ ++ _)). by apply slice_app. }
  assert (∀ v, Uint32 (PutUint32 v) = Some (u32 v)) as Hg
    by (intros v; by rewrite <-(app_nil_r (PutUint32 v)), Uint32_Put).
  rewrite !Hg, (u32_id cl), (u32_id (CommandID pdu)), (u32_id (CommandStatus pdu)),
    (u32_id (SequenceNumber pdu)) by done. cbn [index mbind outcome_bind].
  assert (zlen (pdu_wire pdu) = cl) as Hz.
  { unfold zlen, cl. rewrite length_pdu_wire. unfold zlen. lia. }
  rewrite Hz, u32_id by done. rewrite decide_False by lia.
  f_equal. unfold pdu_decoded. f_equal.
  assert (Z.to_nat cl = 16 + length (pdu_payload pdu))%nat as ->
    by (unfold cl, zlen; lia).
  case_decide as Hc.
  - pose proof (slice_app (pdu_header pdu) (pdu_payload pdu) [] 16
      (16 + length (pdu_payload pdu)) eq_refl eq_refl) as H.
    by rewrite app_nil_r, <-pdu_wire_header in H.
  - unfold cl, zlen in Hc. destruct (pdu_payload pdu); [done|simpl in Hc; lia].
Qed.

Lemma read_frame_wire pdu s :
  PDU_ok pdu → pdu_fits pdu →
  read_frame (pdu_wire pdu ++ s) = FramePDU (pdu_decoded pdu) s.
Proof.
  intros Hok Hfit. pose proof (u32_cl pdu Hfit) as Hcl. unfold read_frame.
  rewrite decide_False by (rewrite length_app, length_pdu_wire; unfold pduHeaderLen; lia).
  rewrite pdu_wire_header, <-app_assoc.
  assert (length (pdu_header pdu) = pduHeaderLen) as Hh by done.
  rewrite take_app_length', drop_app_length' by done.
  assert (Uint32 (slice 0 4 (pdu_header pdu)) = Some (16 + zlen (pdu_payload pdu))) as ->.
  { rewrite slice_0, Uint32_take by lia. unfold pdu_header. rewrite Uint32_Put. by rewrite u32_id. }
  pose proof (zlen_nonneg (pdu_payload pdu)). rewrite decide_False by lia.
  replace (Z.to_nat (16 + zlen (pdu_payload pdu)) - pduHeaderLen)%nat
    with (length (pdu_payload pdu)) by (unfold zlen, pduHeaderLen in *; lia).
  rewrite decide_False by len.
  rewrite take_app_length, drop_app_length, <-pdu_wire_header, DecodePDU_wire by done. done.
Qed.

Lemma read_pdus_wire pdus : ∀ fuel,
  Forall PDU_ok pdus → Forall pdu_fits pdus → (length pdus < fuel)%nat →
  read_pdus fuel (concat (pdu_wire <$> pdus)) = pdu_decoded <$> pdus.
Proof.
  induction pdus as [|p pdus IH]; intros [|fuel] Hok Hfit Hf; simpl in Hf; try lia.
  - done.
  - inversion Hok; inversion Hfit; subst. rewrite !fmap_cons.
    cbn [concat read_pdus]. rewrite read_frame_wire by done. f_equal. apply IH; [done..|lia].
Qed.

Lemma read_frame_shorter s pdu rest :
  read_frame s = FramePDU pdu rest → (length rest < length s)%nat.
Proof. unfold read_frame, pduHeaderLen. intros. case_all; len. Qed.

(** More rounds than bytes change nothing. *)
Lemma read_pdus_fuel : ∀ f1 f2 s,
  (length s < f1)%nat → (length s < f2)%nat → read_pdus f1 s = read_pdus f2 s.
Proof.
  induction f1 as [|f1 IH]; intros [|f2] s H1 H2; try lia. simpl.
  destruct (read_frame s) as [| | | |pdu rest] eqn:E; try done.
  apply read_frame_shorter in E. f_equal. apply IH; lia.
Qed.

Lemma read_pdus_app pdus : ∀ fuel tail,
  Forall PDU_ok pdus → Forall pdu_fits pdus →
  let s := concat (pdu_wire <$> pdus) ++ tail in
  (length s < fuel)%nat →
  read_pdus fuel s = (pdu_decoded <$> pdus) ++ read_pdus (S (length tail)) tail.
Proof.
  induction pdus as [|p pdus IH]; intros fuel tail Hok Hfit s Hf; subst s.
  - rewrite fmap_nil in *. cbn [concat app fmap] in *. apply read_pdus_fuel; lia.
  - inversion Hok; inversion Hfit; subst. rewrite !fmap_cons in *. cbn [concat] in *.
    rewrite <-app_assoc in *. destruct fuel as [|fuel]; [lia|].
    cbn [read_pdus]. rewrite read_frame_wire by done. cbn [app]. f_equal.
    apply IH; [done..|]. revert Hf. rewrite (length_app (pdu_wire p)), length_pdu_wire. lia.
Qed.

(** *** The layout shared by submit_sm and deliver_sm bodies *)

Definition sm_body (service : bytes) (ston snpi : Z) (src : bytes) (dton dnpi : Z)
    (dst : bytes) (esm pid prio : Z) (sched valid : bytes) (rd rep dc dmi smlen : Z)
    (rest : bytes) : bytes :=
  service ++ 0 :: ston :: snpi :: src ++ 0 :: dton :: dnpi :: dst ++ 0 ::
  esm :: pid :: prio :: sched ++ 0 :: valid ++ 0 :: rd :: rep :: dc :: dmi :: smlen :: rest.

Lemma EncodeSubmitSM_layout src ston snpi dst dton dnpi esm pid dc rd sm :
  EncodeSubmitSM src ston snpi dst dton dnpi esm pid dc rd sm =
  if decide (254 < length sm)%nat then
    sm_body [] ston snpi src dton dnpi dst esm pid 0 [] [] rd 0 dc 0 0
      (PutUint16 0x0424 ++ PutUint16 (u16 (zlen sm)) ++ sm)
  else sm_body [] ston snpi src dton dnpi dst esm pid 0 [] [] rd 0 dc 0 (zlen sm) sm.
Proof.
  unfold EncodeSubmitSM. case_decide as H; flatten_buf; unfold sm_body; cbn [app];
    rewrite <-?app_assoc; [done|].
  rewrite (u8_id (zlen sm)) by (unfold byte_ok, zlen; lia). done.
Qed.

(** What [ParseDeliverSM] reads from such a body. *)
Lemma ParseDeliverSM_layout service ston snpi src dton dnpi dst esm pid prio sched valid
    rd rep dc dmi smlen rest :
  no_nul service → no_nul src → no_nul dst → no_nul sched → no_nul valid →
  ParseDeliverSM (sm_body service ston snpi src dton dnpi dst esm pid prio sched valid
    rd rep dc dmi smlen rest) =
  (src, dst, esm,
    if decide (0 < Z.to_nat smlen <= length rest)%nat then take (Z.to_nat smlen) rest else []).
Proof.
  intros. unfold ParseDeliverSM. cbv zeta.
  set (body := sm_body _ _ _ _ _ _ _ _ _ _ _ _ _ _ _ _ _ _).
  pose proof (At_start body) as Ha. unfold body at 2, sm_body in Ha.
  rewrite decide_False by (apply At_length in Ha; revert Ha; len).
  walk. pose proof (At_length _ _ _ Ha) as Hl.
  match goal with |- context [slice ?o _ _] => set (off := o) in * end.
  f_equal. destruct (decide (0 < Z.to_nat smlen <= length rest)%nat) as [Hd|Hd].
  - rewrite decide_True by lia. unfold slice.
    replace (off + Z.to_nat smlen - off)%nat with (Z.to_nat smlen) by lia.
    by rewrite (At_drop _ _ _ Ha).
  - by rewrite decide_False by lia.
Qed.

(** ** Properties *)

(** C36: a PDU whose total length fits 32 bits encodes without panicking to as many
    bytes as its command_length says, and decoding them gives back the header
    fields and, as the body, the body followed by the encoded TLVs. *)
Theorem PDU_roundtrip pdu :
  PDU_ok pdu → pdu_fits pdu →
  ∃ pdu' data, EncodePDU pdu = Ret (pdu', data) ∧ CommandLength pdu' = zlen data ∧
    DecodePDU data = Ret (mkPDU (zlen data) (CommandID pdu) (CommandStatus pdu)
      (SequenceNumber pdu)
      (Body pdu ++ match TLVs pdu with Some t => TLVSet_Encode t | None => [] end) None).
Proof.
  intros Hok Hfit. rewrite EncodePDU_eq by done. do 2 eexists. split; [done|].
  assert (zlen (pdu_wire pdu) = 16 + zlen (pdu_payload pdu)) as ->.
  { unfold zlen. rewrite length_pdu_wire. lia. }
  split; [done|]. by apply DecodePDU_wire.
Qed.

Definition pdu_example : PDU :=
  mkPDU 0 CmdSubmitSM StatusOK 7 [0; 65; 0] (Some tlv_example).

Lemma PDU_roundtrip_witness :
  PDU_ok pdu_example ∧ pdu_fits pdu_example ∧
  ∃ pdu' data, EncodePDU pdu_example = Ret (pdu', data) ∧ CommandLength pdu' = zlen data ∧
    DecodePDU data = Ret (mkPDU (zlen data) CmdSubmitSM StatusOK 7
      ([0; 65; 0] ++ TLVSet_Encode tlv_example) None).
Proof.
  assert (PDU_ok pdu_example) as H1.
  { unfold PDU_ok, u32_ok. apply (bool_decide_unpack _). vm_compute. exact I. }
  assert (pdu_fits pdu_example) as H2 by (vm_compute; reflexivity).
  split; [exact H1|split; [exact H2|exact (PDU_roundtrip pdu_example H1 H2)]].
Defined.

(** On any input shorter than 4 GiB [DecodePDU] never panics; it fails exactly
    when the header is incomplete or declares more bytes than there are, and
    otherwise returns 32-bit header fields and the declared part of the input as
    the body. *)
Theorem DecodePDU_safe data :
  bytes_ok data → zlen data < 2 ^ 32 →
  match DecodePDU data with
  | Ret p => PDU_ok p ∧ CommandLength p <= zlen data ∧
      Body p = slice 16 (Z.to_nat (CommandLength p)) data
  | Fail _ => (length data < 16)%nat ∨ ∃ cl, Uint32 data = Some cl ∧ zlen data < cl
  | Panic => False
  end.
Proof.
  intros Hb Hl. unfold DecodePDU, pduHeaderLen. case_decide as Hh; [by left|].
  assert (∀ i, (i + 4 <= length data)%nat →
    ∃ v, Uint32 (slice i (i + 4) data) = Some v ∧ u32_ok v) as Hget.
  { intros i Hi. destruct (Uint32_Some (slice i (i + 4) data)) as [v Hv];
      [rewrite length_slice; lia|].
    exists v. split; [done|]. eapply Uint32_range; [|done]. unfold slice. auto with smpp. }
  destruct (Hget 0%nat) as (cl & Ecl & Hcl), (Hget 4%nat) as (id & Eid & Hid),
    (Hget 8%nat) as (st & Est & Hst), (Hget 12%nat) as (seq & Eseq & Hseq); [lia..|].
  cbn [Nat.add] in *. rewrite Ecl, Eid, Est, Eseq. cbn [index mbind outcome_bind].
  rewrite u32_id by (unfold u32_ok; pose proof (zlen_nonneg data); lia).
  case_decide as Hc.
  - right. exists cl. split; [|lia]. by rewrite slice_0, Uint32_take in Ecl by lia.
  - cbn [CommandLength Body]. split; [done|]. split; [lia|]. case_decide; [done|].
    unfold slice. replace (Z.to_nat cl - 16)%nat with 0%nat by lia. done.
Qed.

Lemma DecodePDU_safe_witness :
  bytes_ok (replicate 16 1) ∧ zlen (replicate 16 1) < 2 ^ 32 ∧
  ((length (replicate 16 1) < 16)%nat ∨
   ∃ cl, Uint32 (replicate 16 1) = Some cl ∧ zlen (replicate 16 1) < cl).
Proof.
  assert (bytes_ok (replicate 16 1)) as H1
    by (apply (bool_decide_unpack _); vm_compute; exact I).
  assert (zlen (replicate 16 1) < 2 ^ 32) as H2 by (vm_compute; reflexivity).
  split; [exact H1|split; [exact H2|exact (DecodePDU_safe (replicate 16 1) H1 H2)]].
Defined.

(** C37: framing.  The read loops cut a stream made of encoded PDUs followed by
    anything into exactly those PDUs, in order, and then go on with what follows:
    no PDU is lost, split, merged or reordered. *)
Theorem framing_roundtrip pdus datas tail :
  Forall PDU_ok pdus → Forall pdu_fits pdus →
  Forall2 (λ p d, ∃ p', EncodePDU p = Ret (p', d)) pdus datas →
  let s := concat datas ++ tail in
  read_pdus (S (length s)) s =
  (pdu_decoded <$> pdus) ++ read_pdus (S (length tail)) tail.
Proof.
  intros Hok Hfit H2 s. subst s.
  assert (datas = pdu_wire <$> pdus) as ->.
  { clear Hok. induction H2 as [|p d ps ds [p' Hp] H2 IH]; [done|].
    inversion Hfit; subst. rewrite EncodePDU_eq in Hp by done. injection Hp as <- <-.
    rewrite fmap_cons. f_equal. by apply IH. }
  apply read_pdus_app; [done..|lia].
Qed.

Lemma framing_roundtrip_witness :
  let d := pdu_wire pdu_example in
  Forall PDU_ok [pdu_example; pdu_example] ∧ Forall pdu_fits [pdu_example; pdu_example] ∧
  Forall2 (λ p d, ∃ p', EncodePDU p = Ret (p', d)) [pdu_example; pdu_example] [d; d] ∧
  read_pdus (S (length (concat [d; d] ++ [0; 0]))) (concat [d; d] ++ [0; 0]) =
  [pdu_decoded pdu_example; pdu_decoded pdu_example].
Proof.
  assert (PDU_ok pdu_example) as H1.
  { unfold PDU_ok, u32_ok. apply (bool_decide_unpack _). vm_compute. exact I. }
  assert (pdu_fits pdu_example) as H2 by (vm_compute; reflexivity).
  assert (Forall2 (λ p d, ∃ p', EncodePDU p = Ret (p', d)) [pdu_example; pdu_example]
    [pdu_wire pdu_example; pdu_wire pdu_example]) as H3.
  { constructor; [|constructor; [|constructor]]; eexists; apply EncodePDU_eq; exact H2. }
  assert (Forall PDU_ok [pdu_example; pdu_example]) as H4
    by exact (Forall_cons_2 _ _ _ H1 (Forall_cons_2 _ _ _ H1 (Forall_nil_2 _))).
  assert (Forall pdu_fits [pdu_example; pdu_example]) as H5
    by exact (Forall_cons_2 _ _ _ H2 (Forall_cons_2 _ _ _ H2 (Forall_nil_2 _))).
  split; [exact H4|split; [exact H5|split; [exact H3|]]].
  exact (framing_roundtrip [pdu_example; pdu_example] _ [0; 0] H4 H5 H3).
Defined.

Lemma ParseDeliverSM_Encode src ston snpi dst dton dnpi esm pid dc rd sm :
  no_nul src → no_nul dst →
  ParseDeliverSM (EncodeSubmitSM src ston snpi dst dton dnpi esm pid dc rd sm) =
  (src, dst, esm, if decide (254 < length sm)%nat then [] else sm).
Proof.
  intros. rewrite EncodeSubmitSM_layout.
  assert (no_nul []) by (unfold no_nul; set_solver).
  case_decide as Hd; rewrite ParseDeliverSM_layout by done; [done|].
  unfold zlen. rewrite Nat2Z.id. f_equal. case_decide as Hs.
  - by rewrite take_ge by lia.
  - destruct sm; [done|simpl in Hs; lia].
Qed.

(** [ParseDeliverSM] recovers the addresses, the ESM class and the short
    message from a body built by [EncodeSubmitSM], for addresses without NUL and
    messages of at most 254 bytes; a longer message travels in a message_payload
    TLV, which the parser does not read, so its result has no short message. *)
Theorem ParseDeliverSM_EncodeSubmitSM src ston snpi dst dton dnpi esm pid dc rd sm :
  no_nul src → no_nul dst →
  ParseDeliverSM (EncodeSubmitSM src ston snpi dst dton dnpi esm pid dc rd sm) =
  (src, dst, esm, if decide (254 < length sm)%nat then [] else sm).
Proof. apply ParseDeliverSM_Encode. Qed.

Lemma ParseDeliverSM_EncodeSubmitSM_witness :
  no_nul (str "MyApp") ∧ no_nul (str "27821234567") ∧
  ParseDeliverSM (EncodeSubmitSM (str "MyApp") 5 0 (str "27821234567") 1 1 0 0 0 1
    (str "hello")) = (str "MyApp", str "27821234567", 0, str "hello").
Proof.
  assert (no_nul (str "MyApp") ∧ no_nul (str "27821234567")) as [H1 H2].
  { split; apply (bool_decide_unpack _); vm_compute; exact I. }
  split; [exact H1|split; [exact H2|]].
  exact (ParseDeliverSM_EncodeSubmitSM (str "MyApp") 5 0 (str "27821234567") 1 1 0 0 0 1
    (str "hello") H1 H2).
Defined.
