(* ===== verification/Operations.v ===== *)
(** * PDU bodies of the SMPP operations (smpp/operations.go, smpp/bind.go,
    smpp/broadcast.go)

    The encoders of the request bodies, the parsers of the response bodies, and
    the bind modes with their command ids. *)

From S2P Require Import Prelude Constants Tlv Pdu.

Local Open Scope Z_scope.

(** ** query_sm *)

Definition EncodeQuerySM (messageID sourceAddr : bytes) (sourceTON sourceNPI : Z) : bytes :=
  let buf := writeCString messageID [] in
  let buf := WriteByte sourceTON buf in
  let buf := WriteByte sourceNPI buf in
  writeCString sourceAddr buf.

(** (message id, final date, message state, error code). *)
Definition ParseQuerySMResp (body : bytes) : bytes * bytes * Z * Z :=
  if decide (length body = 0%nat) then ([], [], 0, 0) else
  let '(messageID, offset) := ReadCString body 0 in
  let '(finalDate, offset) := ReadCString body offset in
  match body !! offset with
  | Some messageState =>
      match body !! S offset with
      | Some errorCode => (messageID, finalDate, messageState, errorCode)
      | None => (messageID, finalDate, messageState, 0)
      end
  | None => (messageID, finalDate, 0, 0)
  end.

(** ** cancel_sm *)

Definition EncodeCancelSM (serviceType messageID sourceAddr : bytes) (sourceTON sourceNPI : Z)
    (destAddr : bytes) (destTON destNPI : Z) : bytes :=
  let buf := writeCString serviceType [] in
  let buf := writeCString messageID buf in
  let buf := WriteByte sourceTON buf in
  let buf := WriteByte sourceNPI buf in
  let buf := writeCString sourceAddr buf in
  let buf := WriteByte destTON buf in
  let buf := WriteByte destNPI buf in
  writeCString destAddr buf.

(** ** replace_sm *)

(** The [dataCoding] parameter is not written. *)
Definition EncodeReplaceSM (messageID sourceAddr : bytes) (sourceTON sourceNPI : Z)
    (scheduleDeliveryTime validityPeriod : bytes)
    (registeredDelivery dataCoding smLength : Z) (shortMessage : bytes) : bytes :=
  let buf := writeCString messageID [] in
  let buf := WriteByte sourceTON buf in
  let buf := WriteByte sourceNPI buf in
  let buf := writeCString sourceAddr buf in
  let buf := writeCString scheduleDeliveryTime buf in
  let buf := writeCString validityPeriod buf in
  let buf := WriteByte registeredDelivery buf in
  let buf := WriteByte 0 buf in
  let buf := WriteByte smLength buf in
  WriteBytes shortMessage buf.

(** ** data_sm *)

Definition EncodeDataSM (serviceType : bytes) (sourceTON sourceNPI : Z) (sourceAddr : bytes)
    (destTON destNPI : Z) (destAddr : bytes)
    (esmClass registeredDelivery dataCoding : Z) : bytes :=
  let buf := writeCString serviceType [] in
  let buf := WriteByte sourceTON buf in
  let buf := WriteByte sourceNPI buf in
  let buf := writeCString sourceAddr buf in
  let buf := WriteByte destTON buf in
  let buf := WriteByte destNPI buf in
  let buf := writeCString destAddr buf in
  let buf := WriteByte esmClass buf in
  let buf := WriteByte registeredDelivery buf in
  WriteByte dataCoding buf.

Definition ParseDataSMResp (body : bytes) : bytes :=
  if decide (length body = 0%nat) then [] else (ReadCString body 0).1.

(** ** submit_multi *)

Record DestAddress := mkDestAddress {
  da_Flag : Z; da_TON : Z; da_NPI : Z; da_Address : bytes
}.

Record UnsuccessDest := mkUnsuccessDest {
  ud_TON : Z; ud_NPI : Z; ud_Address : bytes; ud_ErrorCode : Z
}.

(** The body of the destination loop. *)
Definition write_dest (buf : bytes) (d : DestAddress) : bytes :=
  let buf := WriteByte (da_Flag d) buf in
  if decide (da_Flag d = 0x02) then writeCString (da_Address d) buf
  else
    let buf := WriteByte (da_TON d) buf in
    let buf := WriteByte (da_NPI d) buf in
    writeCString (da_Address d) buf.

Definition EncodeSubmitMulti (serviceType : bytes) (sourceTON sourceNPI : Z)
    (sourceAddr : bytes) (dests : list DestAddress)
    (esmClass protocolID priorityFlag : Z)
    (scheduleDeliveryTime validityPeriod : bytes)
    (registeredDelivery dataCoding : Z) (shortMessage : bytes) : bytes :=
  let buf := writeCString serviceType [] in
  let buf := WriteByte sourceTON buf in
  let buf := WriteByte sourceNPI buf in
  let buf := writeCString sourceAddr buf in
  let buf := WriteByte (u8 (zlen dests)) buf in
  let buf := foldl write_dest buf dests in
  let buf := WriteByte esmClass buf in
  let buf := WriteByte protocolID buf in
  let buf := WriteByte priorityFlag buf in
  let buf := writeCString scheduleDeliveryTime buf in
  let buf := writeCString validityPeriod buf in
  let buf := WriteByte registeredDelivery buf in
  let buf := WriteByte 0 buf in
  let buf := WriteByte dataCoding buf in
  let buf := WriteByte 0 buf in
  let buf := WriteByte (u8 (zlen shortMessage)) buf in
  WriteBytes shortMessage buf.

(** The loop over the failed destinations: [k] rounds are left, a round that
    meets the end of the body stops without adding its destination. *)
Fixpoint unsuccess_loop (k : nat) (body : bytes) (offset : nat) (unsuccess : list UnsuccessDest)
    : list UnsuccessDest :=
  match k with
  | O => unsuccess
  | S k =>
      match body !! offset with
      | None => unsuccess
      | Some ton =>
          match body !! S offset with
          | None => unsuccess
          | Some npi =>
              let '(addr, offset) := ReadCString body (S (S offset)) in
              if decide (length body < offset + 4)%nat then unsuccess
              else
                match Uint32 (slice offset (offset + 4) body) with
                | None => unsuccess
                | Some code =>
                    unsuccess_loop k body (offset + 4)
                      (unsuccess ++ [mkUnsuccessDest ton npi addr code])
                end
          end
      end
  end.

Definition ParseSubmitMultiResp (body : bytes) : bytes * list UnsuccessDest :=
  if decide (length body = 0%nat) then ([], []) else
  let '(messageID, offset) := ReadCString body 0 in
  match body !! offset with
  | None => (messageID, [])
  | Some numUnsuccess =>
      (messageID, unsuccess_loop (Z.to_nat numUnsuccess) body (S offset) [])
  end.

(** ** alert_notification *)

(** (source TON, source NPI, source address, ESME TON, ESME NPI, ESME address). *)
Definition ParseAlertNotification (body : bytes) : Z * Z * bytes * Z * Z * bytes :=
  match body !! 0%nat, body !! 1%nat with
  | Some sourceTON, Some sourceNPI =>
      let '(sourceAddr, offset) := ReadCString body 2 in
      match body !! offset with
      | None => (sourceTON, sourceNPI, sourceAddr, 0, 0, [])
      | Some esmeTON =>
          match body !! S offset with
          | None => (sourceTON, sourceNPI, sourceAddr, esmeTON, 0, [])
          | Some esmeNPI =>
              (sourceTON, sourceNPI, sourceAddr, esmeTON, esmeNPI,
               (ReadCString body (S (S offset))).1)
          end
      end
  | _, _ => (0, 0, [], 0, 0, [])
  end.

(** ** bind (bind.go) *)

Inductive BindMode := BindTransceiver | BindTransmitter | BindReceiver.

#[export] Instance BindMode_eq_dec : EqDecision BindMode.
Proof. solve_decision. Defined.

Definition EncodeBind (mode : BindMode) (systemID password systemType : bytes)
    (interfaceVersion : Z) : bytes :=
  let buf := writeCString systemID [] in
  let buf := writeCString password buf in
  let buf := writeCString systemType buf in
  let buf := WriteByte interfaceVersion buf in
  let buf := WriteByte 0 buf in
  let buf := WriteByte 0 buf in
  writeCString [] buf.

Definition EncodeBindTransceiver (systemID password systemType : bytes) : bytes :=
  EncodeBind BindTransceiver systemID password systemType 0x34.

Definition bindCommandID (mode : BindMode) : Z :=
  match mode with
  | BindTransmitter => CmdBindTransmitter
  | BindReceiver => CmdBindReceiver
  | BindTransceiver => CmdBindTransceiver
  end.

Definition bindRespCommandID (mode : BindMode) : Z :=
  match mode with
  | BindTransmitter => CmdBindTransmitterResp
  | BindReceiver => CmdBindReceiverResp
  | BindTransceiver => CmdBindTransceiverResp
  end.

(** The system id and the TLVs after it; no TLV bytes, or malformed ones, give a
    nil set. *)
Definition ParseBindResp (commandID : Z) (body : bytes) : bytes * option TLVSet :=
  if decide (length body = 0%nat) then ([], None) else
  let '(systemID, offset) := ReadCString body 0 in
  if decide (offset < length body)%nat then
    match DecodeTLVs (drop offset body) with
    | Ret t => (systemID, Some t)
    | _ => (systemID, None)
    end
  else (systemID, None).

(** ** broadcast operations (broadcast.go) *)

Definition EncodeBroadcastSM (serviceType : bytes) (sourceTON sourceNPI : Z)
    (sourceAddr messageID : bytes) (priorityFlag : Z)
    (scheduleDeliveryTime validityPeriod : bytes)
    (replaceIfPresent dataCoding smDefaultMsgID : Z) : bytes :=
  let buf := writeCString serviceType [] in
  let buf := WriteByte sourceTON buf in
  let buf := WriteByte sourceNPI buf in
  let buf := writeCString sourceAddr buf in
  let buf := writeCString messageID buf in
  let buf := WriteByte priorityFlag buf in
  let buf := writeCString scheduleDeliveryTime buf in
  let buf := writeCString validityPeriod buf in
  let buf := WriteByte replaceIfPresent buf in
  let buf := WriteByte dataCoding buf in
  WriteByte smDefaultMsgID buf.

Definition ParseBroadcastSMResp (body : bytes) : bytes :=
  if decide (length body = 0%nat) then [] else (ReadCString body 0).1.

Definition EncodeQueryBroadcastSM (messageID : bytes) (sourceTON sourceNPI : Z)
    (sourceAddr : bytes) : bytes :=
  let buf := writeCString messageID [] in
  let buf := WriteByte sourceTON buf in
  let buf := WriteByte sourceNPI buf in
  writeCString sourceAddr buf.

Definition ParseQueryBroadcastSMResp (body : bytes) : bytes * Z :=
  if decide (length body = 0%nat) then ([], 0) else
  let '(messageID, offset) := ReadCString body 0 in
  match body !! offset with
  | Some messageState => (messageID, messageState)
  | None => (messageID, 0)
  end.

Definition EncodeCancelBroadcastSM (serviceType messageID : bytes) (sourceTON sourceNPI : Z)
    (sourceAddr : bytes) : bytes :=
  let buf := writeCString serviceType [] in
  let buf := writeCString messageID buf in
  let buf := WriteByte sourceTON buf in
  let buf := WriteByte sourceNPI buf in
  writeCString sourceAddr buf.

(** ** Response layouts and the parsers *)

(** An unsuccess_sme entry of a submit_multi_resp. *)
Definition enc_unsuccess (u : UnsuccessDest) : bytes :=
  ud_TON u :: ud_NPI u :: ud_Address u ++ 0 :: PutUint32 (ud_ErrorCode u).

Definition unsuccess_ok (u : UnsuccessDest) : Prop :=
  no_nul (ud_Address u) ∧ u32_ok (ud_ErrorCode u).

Lemma unsuccess_loop_step k body offset acc u r :
  unsuccess_ok u → At body offset (enc_unsuccess u ++ r) →
  unsuccess_loop (S k) body offset acc =
    unsuccess_loop k body (offset + length (enc_unsuccess u)) (acc ++ [u]) ∧
  At body (offset + length (enc_unsuccess u)) r.
Proof.
  intros [Hn Hc] Ha0. pose proof (At_app _ _ _ _ Ha0) as [_ Ha'].
  unfold enc_unsuccess in Ha0. cbn [app] in Ha0. rewrite <-app_assoc in Ha0.
  cbn [app] in Ha0. split; [|done]. clear Ha'. cbn [unsuccess_loop].
  apply At_cons in Ha0 as (-> & _ & Ha). apply At_cons in Ha as (-> & _ & Ha).
  destruct (ReadCString_At _ _ _ _ Ha Hn) as [-> Ha2].
  apply At_app in Ha2 as [Hs Ha2]. rewrite length_PutUint32 in Hs, Ha2.
  pose proof (At_length _ _ _ Ha2). rewrite decide_False by lia. rewrite Hs.
  rewrite <-(app_nil_r (PutUint32 _)), Uint32_Put, u32_id by done.
  destruct u as [ton npi addr code]. unfold enc_unsuccess. simpl.
  f_equal. rewrite length_app. simpl. lia.
Qed.

Lemma unsuccess_loop_all us : ∀ body offset acc r,
  Forall unsuccess_ok us → At body offset (concat (enc_unsuccess <$> us) ++ r) →
  unsuccess_loop (length us) body offset acc = acc ++ us.
Proof.
  induction us as [|u us IH]; intros body offset acc r Hok Ha.
  - simpl. by rewrite app_nil_r.
  - inversion Hok; subst. rewrite fmap_cons in Ha. cbn [concat length] in *.
    rewrite <-app_assoc in Ha.
    destruct (unsuccess_loop_step (length us) body offset acc u _ ltac:(done) Ha) as [-> Ha'].
    rewrite (IH _ _ _ r) by done. by rewrite <-app_assoc.
Qed.

Lemma At_not_empty body o b r : At body o (b :: r) → length body ≠ 0%nat.
Proof. intros (_ & ? & _)%At_cons. lia. Qed.

Lemma At_app_not_empty body o s b r : At body o (s ++ b :: r) → length body ≠ 0%nat.
Proof. intros [_ ?%At_not_empty]%At_app. done. Qed.

Lemma ParseBindResp_plain id systemID :
  no_nul systemID → ParseBindResp id (systemID ++ [0]) = (systemID, None).
Proof.
  intros Hm. unfold ParseBindResp. set (body := systemID ++ _).
  pose proof (At_start body) as Ha. unfold body at 2 in Ha.
  rewrite decide_False by (by eapply At_app_not_empty). walk.
  apply At_length in Ha. simpl in Ha. by rewrite decide_False by lia.
Qed.

Lemma ParseBindResp_tlvs id systemID t :
  no_nul systemID → TLVSet_ok t → t ≠ ∅ →
  ParseBindResp id (systemID ++ 0 :: TLVSet_Encode t) = (systemID, Some t).
Proof.
  intros Hm Ht Hne. unfold ParseBindResp. set (body := systemID ++ _).
  pose proof (At_start body) as Ha. unfold body at 2 in Ha.
  rewrite decide_False by (by eapply At_app_not_empty). walk.
  pose proof (At_length _ _ _ Ha) as Hl. rewrite (At_drop _ _ _ Ha), DecodeTLVs_Encode by done.
  rewrite decide_True; [done|].
  destruct (TLVSet_Encode t) eqn:E; [|simpl in Hl; lia].
  pose proof (DecodeTLVs_Encode t Ht) as Hdec. rewrite E in Hdec. by injection Hdec.
Qed.

(** ** Properties *)

(** [ParseSubmitMultiResp] reads back every failed destination of a
    submit_multi_resp, in order, with its address and 32-bit error code, whatever
    follows them in the body. *)
Theorem ParseSubmitMultiResp_roundtrip messageID us rest :
  no_nul messageID → Forall unsuccess_ok us →
  ParseSubmitMultiResp
    (messageID ++ 0 :: zlen us :: concat (enc_unsuccess <$> us) ++ rest) = (messageID, us).
Proof.
  intros Hm Hus. unfold ParseSubmitMultiResp.
  set (body := messageID ++ _). pose proof (At_start body) as Ha. unfold body at 2 in Ha.
  rewrite decide_False by (by eapply At_app_not_empty). walk.
  unfold zlen. rewrite Nat2Z.id. by rewrite (unsuccess_loop_all _ _ _ _ rest).
Qed.

Lemma ParseSubmitMultiResp_roundtrip_witness :
  let us := [mkUnsuccessDest 1 1 (str "2782") 11; mkUnsuccessDest 5 0 [] 0xFFFFFFFF] in
  no_nul (str "m1") ∧ Forall unsuccess_ok us ∧
  ParseSubmitMultiResp
    (str "m1" ++ 0 :: zlen us :: concat (enc_unsuccess <$> us) ++ [1; 2]) = (str "m1", us).
Proof.
  intros us.
  assert (no_nul (str "m1")) as H1 by (apply (bool_decide_unpack _); vm_compute; exact I).
  assert (Forall unsuccess_ok us) as H2.
  { repeat constructor; unfold u32_ok; simpl; try lia;
      apply (bool_decide_unpack _); vm_compute; exact I. }
  split; [exact H1|split; [exact H2|]].
  exact (ParseSubmitMultiResp_roundtrip (str "m1") us [1; 2] H1 H2).
Defined.

(** The other response parsers invert the layouts of the specification: a
    query_sm_resp, an alert_notification, a query_broadcast_sm_resp and a bind
    response, whose TLVs come back as the set that was encoded (an absent or
    malformed TLV part gives none). *)
Theorem response_parsers messageID date st ec ston snpi src eton enpi esme t :
  no_nul messageID → no_nul date → no_nul src → no_nul esme → TLVSet_ok t → t ≠ ∅ →
  ParseQuerySMResp (messageID ++ 0 :: date ++ 0 :: [st; ec]) = (messageID, date, st, ec) ∧
  ParseAlertNotification (ston :: snpi :: src ++ 0 :: eton :: enpi :: esme ++ [0]) =
    (ston, snpi, src, eton, enpi, esme) ∧
  ParseQueryBroadcastSMResp (messageID ++ [0; st]) = (messageID, st) ∧
  (∀ id, ParseBindResp id (messageID ++ [0]) = (messageID, None)) ∧
  (∀ id, ParseBindResp id (messageID ++ 0 :: TLVSet_Encode t) = (messageID, Some t)).
Proof.
  intros Hm Hd Hs He Ht Hne. repeat split; try intros id.
  - unfold ParseQuerySMResp. set (body := messageID ++ _).
    pose proof (At_start body) as Ha. unfold body at 2 in Ha.
    rewrite decide_False by (by eapply At_app_not_empty). walk. done.
  - unfold ParseAlertNotification. set (body := ston :: _).
    pose proof (At_start body) as Ha. unfold body at 2 in Ha. walk. done.
  - unfold ParseQueryBroadcastSMResp. set (body := messageID ++ _).
    pose proof (At_start body) as Ha. unfold body at 2 in Ha.
    rewrite decide_False by (by eapply At_app_not_empty). walk. done.
  - by apply ParseBindResp_plain.
  - by apply ParseBindResp_tlvs.
Qed.

Lemma response_parsers_witness :
  TLVSet_ok tlv_example ∧
  ParseQuerySMResp (str "m1" ++ 0 :: str "2501" ++ 0 :: [2; 0]) = (str "m1", str "2501", 2, 0) ∧
  (∀ id, ParseBindResp id (str "m1" ++ 0 :: TLVSet_Encode tlv_example) =
    (str "m1", Some tlv_example)).
Proof.
  assert (no_nul (str "m1") ∧ no_nul (str "2501")) as [H1 H2].
  { split; apply (bool_decide_unpack _); vm_compute; exact I. }
  assert (TLVSet_ok tlv_example) as H3.
  { unfold TLVSet_ok. apply (bool_decide_unpack _). vm_compute. exact I. }
  assert (tlv_example ≠ ∅) as H4 by (apply (bool_decide_unpack _); vm_compute; exact I).
  destruct (response_parsers (str "m1") (str "2501") 2 0 1 1 (str "m1") 1 1 (str "m1")
    tlv_example H1 H2 H1 H1 H3 H4) as (Ha & _ & _ & _ & Hb).
  split; [exact H3|split; [exact Ha|exact Hb]].
Defined.
