(* ===== verification/PduFields.v ===== *)
(** * Where the TLVs begin (smpp/pdu_fields.go)

    [MandatoryBodyLen] walks the mandatory fields of every known PDU type to find
    the start of the optional TLVs; [ExtractTLVs] decodes what follows.  The
    source's -1 for a truncated body or unknown command is [None] in the walkers
    and -1 again in the result of [MandatoryBodyLen]. *)

From S2P Require Import Prelude Constants Tlv Pdu Operations.

Local Open Scope Z_scope.

(** ** Walking steps *)

Definition skipCString (body : bytes) (offset : nat) : option nat :=
  if decide (length body <= offset)%nat then None
  else
    let i := (offset + scan_nul (drop offset body))%nat in
    if decide (i < length body)%nat then Some (S i) else None.

(** [if offset+k > n { return -1 }; offset += k]. *)
Definition skipBytes (k : nat) (body : bytes) (offset : nat) : option nat :=
  if decide (length body < offset + k)%nat then None else Some (offset + k)%nat.

(** sm_length and that many bytes of short_message. *)
Definition skipShortMessage (body : bytes) (offset : nat) : option nat :=
  smLen ← body !! offset;
  skipBytes (Z.to_nat smLen) body (S offset).

(** ** The walkers *)

Definition mandatoryLenSubmitDeliverSM (body : bytes) : option nat :=
  offset ← skipCString body 0;
  offset ← skipBytes 2 body offset;
  offset ← skipCString body offset;
  offset ← skipBytes 2 body offset;
  offset ← skipCString body offset;
  offset ← skipBytes 3 body offset;
  offset ← skipCString body offset;
  offset ← skipCString body offset;
  offset ← skipBytes 4 body offset;
  skipShortMessage body offset.

Definition mandatoryLenCStringOnly (body : bytes) : option nat :=
  if decide (length body = 0%nat) then Some 0%nat else skipCString body 0.

Definition mandatoryLenBind (body : bytes) : option nat :=
  offset ← skipCString body 0;
  offset ← skipCString body offset;
  offset ← skipCString body offset;
  offset ← skipBytes 3 body offset;
  skipCString body offset.

Definition mandatoryLenQuerySM (body : bytes) : option nat :=
  offset ← skipCString body 0;
  offset ← skipBytes 2 body offset;
  skipCString body offset.

Definition mandatoryLenQuerySMResp (body : bytes) : option nat :=
  offset ← skipCString body 0;
  offset ← skipCString body offset;
  skipBytes 2 body offset.

Definition mandatoryLenCancelSM (body : bytes) : option nat :=
  offset ← skipCString body 0;
  offset ← skipCString body offset;
  offset ← skipBytes 2 body offset;
  offset ← skipCString body offset;
  offset ← skipBytes 2 body offset;
  skipCString body offset.

Definition mandatoryLenReplaceSM (body : bytes) : option nat :=
  offset ← skipCString body 0;
  offset ← skipBytes 2 body offset;
  offset ← skipCString body offset;
  offset ← skipCString body offset;
  offset ← skipCString body offset;
  offset ← skipBytes 2 body offset;
  skipShortMessage body offset.

Definition mandatoryLenDataSM (body : bytes) : option nat :=
  offset ← skipCString body 0;
  offset ← skipBytes 2 body offset;
  offset ← skipCString body offset;
  offset ← skipBytes 2 body offset;
  offset ← skipCString body offset;
  skipBytes 3 body offset.

Definition mandatoryLenAlertNotification (body : bytes) : option nat :=
  offset ← skipBytes 2 body 0;
  offset ← skipCString body offset;
  offset ← skipBytes 2 body offset;
  skipCString body offset.

Definition mandatoryLenBroadcastSM (body : bytes) : option nat :=
  offset ← skipCString body 0;
  offset ← skipBytes 2 body offset;
  offset ← skipCString body offset;
  offset ← skipCString body offset;
  offset ← skipBytes 1 body offset;
  offset ← skipCString body offset;
  offset ← skipCString body offset;
  skipBytes 3 body offset.

Definition mandatoryLenQueryBroadcastSM (body : bytes) : option nat :=
  offset ← skipCString body 0;
  offset ← skipBytes 2 body offset;
  skipCString body offset.

Definition mandatoryLenQueryBroadcastSMResp (body : bytes) : option nat :=
  offset ← skipCString body 0;
  skipBytes 1 body offset.

Definition mandatoryLenCancelBroadcastSM (body : bytes) : option nat :=
  offset ← skipCString body 0;
  offset ← skipCString body offset;
  offset ← skipBytes 2 body offset;
  skipCString body offset.

(** ** Dispatch *)

Definition mandatory_len (commandID : Z) (body : bytes) : option nat :=
  if decide (commandID = CmdSubmitSM ∨ commandID = CmdDeliverSM) then
    mandatoryLenSubmitDeliverSM body
  else if decide (commandID = CmdSubmitSMResp ∨ commandID = CmdDeliverSMResp) then
    mandatoryLenCStringOnly body
  else if decide (commandID = CmdBindTransceiver ∨ commandID = CmdBindTransmitter ∨
                  commandID = CmdBindReceiver) then
    mandatoryLenBind body
  else if decide (commandID = CmdBindTransceiverResp ∨ commandID = CmdBindTransmitterResp ∨
                  commandID = CmdBindReceiverResp) then
    mandatoryLenCStringOnly body
  else if decide (commandID = CmdQuerySM) then mandatoryLenQuerySM body
  else if decide (commandID = CmdQuerySMResp) then mandatoryLenQuerySMResp body
  else if decide (commandID = CmdCancelSM) then mandatoryLenCancelSM body
  else if decide (commandID = CmdReplaceSM) then mandatoryLenReplaceSM body
  else if decide (commandID = CmdDataSM) then mandatoryLenDataSM body
  else if decide (commandID = CmdDataSMResp) then mandatoryLenCStringOnly body
  else if decide (commandID = CmdAlertNotification) then mandatoryLenAlertNotification body
  else if decide (commandID = CmdBroadcastSM) then mandatoryLenBroadcastSM body
  else if decide (commandID = CmdBroadcastSMResp) then mandatoryLenCStringOnly body
  else if decide (commandID = CmdQueryBroadcastSM) then mandatoryLenQueryBroadcastSM body
  else if decide (commandID = CmdQueryBroadcastSMResp) then
    mandatoryLenQueryBroadcastSMResp body
  else if decide (commandID = CmdCancelBroadcastSM) then mandatoryLenCancelBroadcastSM body
  else if decide (commandID = CmdCancelBroadcastSMResp) then Some 0%nat
  else if decide (commandID = CmdCancelSMResp ∨ commandID = CmdReplaceSMResp) then Some 0%nat
  else if decide (commandID = CmdEnquireLink ∨ commandID = CmdEnquireLinkResp ∨
                  commandID = CmdUnbind ∨ commandID = CmdUnbindResp ∨
                  commandID = CmdGenericNack) then Some 0%nat
  else if decide (commandID = CmdSubmitMulti ∨ commandID = CmdSubmitMultiResp) then None
  else None.

Definition MandatoryBodyLen (commandID : Z) (body : bytes) : Z :=
  match mandatory_len commandID body with Some n => Z.of_nat n | None => -1 end.

(** The result [Ret None] is (nil, nil).  [pdu.Body[offset:]] panics for an
    offset beyond the body. *)
Definition ExtractTLVs (pdu : PDU) : outcome tlv_err (option TLVSet) :=
  let offset := MandatoryBodyLen (CommandID pdu) (Body pdu) in
  if decide (offset < 0) then Ret None
  else if decide (offset = zlen (Body pdu)) then Ret (Some ∅)
  else if decide (zlen (Body pdu) < offset) then Panic
  else
    match DecodeTLVs (drop (Z.to_nat offset) (Body pdu)) with
    | Ret t => Ret (Some t)
    | Fail e => Fail e
    | Panic => Panic
    end.

(** ** Bounds *)

Lemma skipCString_bound body o o' :
  skipCString body o = Some o' → (o' <= length body)%nat.
Proof. unfold skipCString. intros. case_all; lia. Qed.
Lemma skipBytes_bound k body o o' :
  skipBytes k body o = Some o' → (o' <= length body)%nat.
Proof. unfold skipBytes. intros. case_all; lia. Qed.
Lemma skipShortMessage_bound body o o' :
  skipShortMessage body o = Some o' → (o' <= length body)%nat.
Proof.
  unfold skipShortMessage. intros H. apply bind_Some in H as (? & ? & H).
  by apply skipBytes_bound in H.
Qed.

#[export] Hint Resolve skipCString_bound skipBytes_bound skipShortMessage_bound : smpp.

(** A walker never points beyond the body. *)
Definition in_body (o : option nat) (body : bytes) : Prop :=
  match o with Some n => (n <= length body)%nat | None => True end.

Lemma in_body_bind (o : option nat) (f : nat → option nat) body :
  (∀ n, in_body (f n) body) → in_body (o ≫= f) body.
Proof. intros H. by destruct o; simpl. Qed.

Lemma skipCString_in_body body o : in_body (skipCString body o) body.
Proof. destruct (skipCString body o) eqn:E; simpl; eauto with smpp. Qed.
Lemma skipBytes_in_body k body o : in_body (skipBytes k body o) body.
Proof. destruct (skipBytes k body o) eqn:E; simpl; eauto with smpp. Qed.
Lemma skipShortMessage_in_body body o : in_body (skipShortMessage body o) body.
Proof. destruct (skipShortMessage body o) eqn:E; simpl; eauto with smpp. Qed.

#[export] Hint Resolve skipCString_in_body skipBytes_in_body skipShortMessage_in_body : smpp.

Ltac walker_bound :=
  repeat (apply in_body_bind; intros ?); auto with smpp.

Lemma mandatory_len_in_body id body : in_body (mandatory_len id body) body.
Proof.
  assert (in_body (mandatoryLenCStringOnly body) body).
  { unfold mandatoryLenCStringOnly. case_decide; simpl; [lia|auto with smpp]. }
  assert (in_body (Some 0%nat) body) by (simpl; lia).
  unfold mandatory_len.
  repeat (case_decide; [first [assumption|exact I|walker_bound]|]). exact I.
Qed.

(** ** The walkers on encoded bodies *)

Lemma skipCString_At body o s r :
  At body o (s ++ 0 :: r) → no_nul s →
  skipCString body o = Some (S (o + length s)) ∧ At body (S (o + length s)) r.
Proof.
  intros Ha Hs. pose proof (At_length _ _ _ Ha) as Hl. unfold skipCString.
  rewrite (At_drop _ _ _ Ha), scan_nul_app by done.
  destruct (At_app _ _ _ _ Ha) as [_ Ha']. apply At_cons in Ha' as (_ & Hlt & Ha').
  rewrite decide_False by (revert Hl; len). by rewrite decide_True by done.
Qed.

Lemma skipCString_At_nil body o r :
  At body o (0 :: r) → skipCString body o = Some (S o) ∧ At body (S o) r.
Proof.
  intros Ha. destruct (skipCString_At body o [] r Ha) as [E ?]; [unfold no_nul; set_solver|].
  simpl in *. rewrite Nat.add_0_r in *. done.
Qed.

Lemma skipBytes_At k body o bs r :
  At body o (bs ++ r) → length bs = k →
  skipBytes k body o = Some (o + k)%nat ∧ At body (o + k) r.
Proof.
  intros Ha <-. pose proof (At_length _ _ _ Ha) as Hl. apply At_app in Ha as [_ Ha].
  split; [|done]. unfold skipBytes. rewrite decide_False; [done|revert Hl; len].
Qed.

Lemma skipShortMessage_At body o sm r :
  At body o (zlen sm :: sm ++ r) →
  skipShortMessage body o = Some (S o + length sm)%nat ∧ At body (S o + length sm) r.
Proof.
  intros Ha. unfold skipShortMessage. apply At_cons in Ha as (-> & _ & Ha). simpl.
  unfold zlen. rewrite Nat2Z.id. exact (skipBytes_At (length sm) body (S o) sm r Ha eq_refl).
Qed.

(** [skip] steps a walker over a body described by a cursor hypothesis. *)
Ltac move_cursor Ha L :=
  let E := fresh in let Ha' := fresh in
  destruct L as [E Ha']; rewrite E; clear E Ha; rename Ha' into Ha;
  cbn [mbind option_bind].

Ltac skip_step :=
  match goal with
  | Ha : At ?b ?o (0 :: ?r) |- context [skipCString ?b ?o] =>
      move_cursor Ha (skipCString_At_nil b o r Ha)
  | Ha : At ?b ?o (?s ++ 0 :: ?r), Hs : no_nul ?s |- context [skipCString ?b ?o] =>
      move_cursor Ha (skipCString_At b o s r Ha Hs)
  | Ha : At ?b ?o (?x :: ?r) |- context [skipBytes 1 ?b ?o] =>
      move_cursor Ha (skipBytes_At 1 b o [x] r Ha eq_refl)
  | Ha : At ?b ?o (?x :: ?y :: ?r) |- context [skipBytes 2 ?b ?o] =>
      move_cursor Ha (skipBytes_At 2 b o [x; y] r Ha eq_refl)
  | Ha : At ?b ?o (?x :: ?y :: ?z :: ?r) |- context [skipBytes 3 ?b ?o] =>
      move_cursor Ha (skipBytes_At 3 b o [x; y; z] r Ha eq_refl)
  | Ha : At ?b ?o (?x :: ?y :: ?z :: ?w :: ?r) |- context [skipBytes 4 ?b ?o] =>
      move_cursor Ha (skipBytes_At 4 b o [x; y; z; w] r Ha eq_refl)
  | Ha : At ?b ?o (zlen ?sm :: ?sm ++ ?r) |- context [skipShortMessage ?b ?o] =>
      move_cursor Ha (skipShortMessage_At b o sm r Ha)
  | Ha : At ?b ?o (0 :: ?r) |- context [skipShortMessage ?b ?o] =>
      move_cursor Ha (skipShortMessage_At b o [] r Ha)
  end.

(** ** The bodies the encoders produce *)

Inductive encoded_body : Z → bytes → Prop :=
| eb_sm id service ston snpi src dton dnpi dst esm pid prio sched valid rd rep dc dmi sm :
    id = CmdSubmitSM ∨ id = CmdDeliverSM →
    no_nul service → no_nul src → no_nul dst → no_nul sched → no_nul valid →
    encoded_body id (sm_body service ston snpi src dton dnpi dst esm pid prio sched valid
      rd rep dc dmi (zlen sm) sm)
| eb_submit_sm id src ston snpi dst dton dnpi esm pid dc rd sm :
    id = CmdSubmitSM ∨ id = CmdDeliverSM →
    no_nul src → no_nul dst → (length sm <= 254)%nat →
    encoded_body id (EncodeSubmitSM src ston snpi dst dton dnpi esm pid dc rd sm)
| eb_bind mode systemID password systemType version :
    no_nul systemID → no_nul password → no_nul systemType →
    encoded_body (bindCommandID mode) (EncodeBind mode systemID password systemType version)
| eb_cstring id s :
    id = CmdSubmitSMResp ∨ id = CmdDeliverSMResp ∨ id = CmdBindTransceiverResp ∨
      id = CmdBindTransmitterResp ∨ id = CmdBindReceiverResp ∨ id = CmdDataSMResp ∨
      id = CmdBroadcastSMResp →
    no_nul s → encoded_body id (WriteCStringBytes s)
| eb_query messageID src ston snpi :
    no_nul messageID → no_nul src →
    encoded_body CmdQuerySM (EncodeQuerySM messageID src ston snpi)
| eb_cancel service messageID src ston snpi dst dton dnpi :
    no_nul service → no_nul messageID → no_nul src → no_nul dst →
    encoded_body CmdCancelSM (EncodeCancelSM service messageID src ston snpi dst dton dnpi)
| eb_replace messageID src ston snpi sched valid rd dc sm :
    no_nul messageID → no_nul src → no_nul sched → no_nul valid →
    encoded_body CmdReplaceSM
      (EncodeReplaceSM messageID src ston snpi sched valid rd dc (zlen sm) sm)
| eb_data service ston snpi src dton dnpi dst esm rd dc :
    no_nul service → no_nul src → no_nul dst →
    encoded_body CmdDataSM (EncodeDataSM service ston snpi src dton dnpi dst esm rd dc)
| eb_broadcast service ston snpi src messageID prio sched valid rep dc dmi :
    no_nul service → no_nul src → no_nul messageID → no_nul sched → no_nul valid →
    encoded_body CmdBroadcastSM
      (EncodeBroadcastSM service ston snpi src messageID prio sched valid rep dc dmi)
| eb_query_broadcast messageID ston snpi src :
    no_nul messageID → no_nul src →
    encoded_body CmdQueryBroadcastSM (EncodeQueryBroadcastSM messageID ston snpi src)
| eb_cancel_broadcast service messageID ston snpi src :
    no_nul service → no_nul messageID → no_nul src →
    encoded_body CmdCancelBroadcastSM
      (EncodeCancelBroadcastSM service messageID ston snpi src)
| eb_empty id :
    id = CmdEnquireLink ∨ id = CmdEnquireLinkResp ∨ id = CmdUnbind ∨ id = CmdUnbindResp ∨
      id = CmdGenericNack ∨ id = CmdCancelSMResp ∨ id = CmdReplaceSMResp ∨
      id = CmdCancelBroadcastSMResp →
    encoded_body id [].

(** A walker that stops at the rest of the body has walked the mandatory part. *)
Lemma walked (w : bytes → option nat) body rest :
  (∃ n, w (body ++ rest) = Some n ∧ At (body ++ rest) n rest) →
  w (body ++ rest) = Some (length body).
Proof.
  intros (n & -> & Ha). apply At_length in Ha. rewrite length_app in Ha. f_equal. lia.
Qed.

Ltac walk_encoded :=
  apply walked;
  match goal with |- ∃ n, ?w ?b = Some n ∧ At ?b n ?r =>
    let body := fresh "body" in let Ha := fresh "Ha" in
    remember b as body eqn:Hbody;
    pose proof (At_start body) as Ha; rewrite Hbody in Ha at 2; clear Hbody
  end;
  match goal with Ha : At _ 0 _ |- ∃ n, ?w _ = _ ∧ _ => unfold w;
    repeat progress (unfold sm_body, writeCString, WriteByte, WriteBytes in Ha;
      rewrite <-?app_assoc in Ha; cbn [app] in Ha)
  end; repeat skip_step; eexists; split; [reflexivity|eassumption].

Lemma WriteCStringBytes_eq s : WriteCStringBytes s = s ++ [0].
Proof.
  unfold WriteCStringBytes. rewrite replicate_add.
  apply copy_at_0. by rewrite length_replicate.
Qed.

(** The walker a command id selects. *)
Ltac dispatch w :=
  match goal with |- mandatory_len ?id ?b = ?r =>
    change (w b = r)
  end.

Lemma mandatory_len_encoded id body rest :
  encoded_body id body → mandatory_len id (body ++ rest) = Some (length body).
Proof.
  assert (no_nul []) by (unfold no_nul; set_solver).
  intros [].
  - destruct_or!; subst; dispatch mandatoryLenSubmitDeliverSM; walk_encoded.
  - rewrite EncodeSubmitSM_layout, decide_False by lia.
    destruct_or!; subst; dispatch mandatoryLenSubmitDeliverSM; walk_encoded.
  - destruct mode; dispatch mandatoryLenBind; unfold EncodeBind; walk_encoded.
  - rewrite WriteCStringBytes_eq.
    assert (mandatoryLenCStringOnly ((s ++ [0]) ++ rest) = Some (length (s ++ [0]))).
    { unfold mandatoryLenCStringOnly. rewrite decide_False by len.
      apply (walked (λ b, skipCString b 0)). 
      rewrite <-app_assoc; cbn [app].
      eexists. by apply skipCString_At; [apply At_start|]. }
    destruct_or!; subst; dispatch mandatoryLenCStringOnly; assumption.
  - dispatch mandatoryLenQuerySM; unfold EncodeQuerySM; walk_encoded.
  - dispatch mandatoryLenCancelSM; unfold EncodeCancelSM; walk_encoded.
  - dispatch mandatoryLenReplaceSM; unfold EncodeReplaceSM; walk_encoded.
  - dispatch mandatoryLenDataSM; unfold EncodeDataSM; walk_encoded.
  - dispatch mandatoryLenBroadcastSM; unfold EncodeBroadcastSM; walk_encoded.
  - dispatch mandatoryLenQueryBroadcastSM; unfold EncodeQueryBroadcastSM; walk_encoded.
  - dispatch mandatoryLenCancelBroadcastSM; unfold EncodeCancelBroadcastSM; walk_encoded.
  - destruct_or!; subst; reflexivity.
Qed.

(** ** Properties *)

(** [MandatoryBodyLen] returns -1 or an offset inside the body for every
    command id and every body, and [ExtractTLVs] therefore never slices out of
    range: it returns a set, nil, or a TLV error. *)
Theorem ExtractTLVs_safe pdu :
  (MandatoryBodyLen (CommandID pdu) (Body pdu) = -1 ∨
   0 <= MandatoryBodyLen (CommandID pdu) (Body pdu) <= zlen (Body pdu)) ∧
  ExtractTLVs pdu ≠ Panic.
Proof.
  unfold ExtractTLVs, MandatoryBodyLen.
  pose proof (mandatory_len_in_body (CommandID pdu) (Body pdu)) as Hb.
  destruct (mandatory_len _ _) as [n|]; simpl in Hb.
  - split; [right; unfold zlen; lia|].
    rewrite decide_False by lia. case_decide; [done|].
    rewrite decide_False by (unfold zlen; lia).
    pose proof (DecodeTLVs_no_panic (drop (Z.to_nat (Z.of_nat n)) (Body pdu))).
    by destruct (DecodeTLVs _).
  - split; [by left|]. by rewrite decide_True by lia.
Qed.

(** TLVs survive the wire.  For every body an encoder of this library produces
    (NUL-free strings, a short message no longer than its length byte) and every
    TLV set, encoding the PDU, decoding the bytes and extracting the TLVs gives
    the set back: the walker of the PDU's type finds exactly the end of the
    mandatory fields. *)
Theorem TLVs_end_to_end id status seq body t :
  encoded_body id body → TLVSet_ok t →
  let pdu := mkPDU 0 id status seq body (Some t) in
  PDU_ok pdu → pdu_fits pdu →
  MandatoryBodyLen id (body ++ TLVSet_Encode t) = zlen body ∧
  ∃ pdu' data p, EncodePDU pdu = Ret (pdu', data) ∧ DecodePDU data = Ret p ∧
    ExtractTLVs p = Ret (Some t).
Proof.
  intros Hb Ht pdu Hok Hfit.
  assert (MandatoryBodyLen id (body ++ TLVSet_Encode t) = zlen body) as Hm.
  { unfold MandatoryBodyLen. by rewrite mandatory_len_encoded. }
  split; [done|]. rewrite EncodePDU_eq by done. do 3 eexists. split; [done|].
  split; [by apply DecodePDU_wire|]. unfold ExtractTLVs, pdu_decoded, pdu_payload.
  cbn [CommandID Body TLVs pdu]. rewrite Hm, zlen_app.
  pose proof (zlen_nonneg body). pose proof (zlen_nonneg (TLVSet_Encode t)).
  rewrite decide_False by lia. case_decide as Hz.
  - assert (TLVSet_Encode t = []) as He by (apply nil_length_inv; unfold zlen in Hz; lia).
    pose proof (DecodeTLVs_Encode t Ht) as Hd. rewrite He in Hd. injection Hd as <-. done.
  - rewrite decide_False by lia. unfold zlen at 1. rewrite Nat2Z.id, drop_app_length.
    by rewrite DecodeTLVs_Encode.
Qed.

Lemma TLVs_end_to_end_witness :
  let body := EncodeSubmitSM (str "A") 5 0 (str "2782") 1 1 0 0 0 1 (str "hi") in
  encoded_body CmdSubmitSM body ∧ TLVSet_ok tlv_example ∧
  PDU_ok (mkPDU 0 CmdSubmitSM 0 1 body (Some tlv_example)) ∧
  pdu_fits (mkPDU 0 CmdSubmitSM 0 1 body (Some tlv_example)) ∧
  ∃ pdu' data p,
    EncodePDU (mkPDU 0 CmdSubmitSM 0 1 body (Some tlv_example)) = Ret (pdu', data) ∧
    DecodePDU data = Ret p ∧ ExtractTLVs p = Ret (Some tlv_example).
Proof.
  intros body.
  assert (encoded_body CmdSubmitSM body) as H1.
  { apply eb_submit_sm; [by left| | |simpl; lia];
      apply (bool_decide_unpack _); vm_compute; exact I. }
  assert (TLVSet_ok tlv_example) as H2.
  { unfold TLVSet_ok. apply (bool_decide_unpack _). vm_compute. exact I. }
  assert (PDU_ok (mkPDU 0 CmdSubmitSM 0 1 body (Some tlv_example))) as H3.
  { unfold PDU_ok, u32_ok. apply (bool_decide_unpack _). vm_compute. exact I. }
  assert (pdu_fits (mkPDU 0 CmdSubmitSM 0 1 body (Some tlv_example))) as H4
    by (vm_compute; reflexivity).
  split; [exact H1|split; [exact H2|split; [exact H3|split; [exact H4|]]]].
  exact (proj2 (TLVs_end_to_end CmdSubmitSM 0 1 body tlv_example H1 H2 H3 H4)).
Defined.

(** The message_payload TLV that [EncodeSubmitSM] appends to a long message. *)
Lemma DecodeTLVs_message_payload sm :
  zlen sm < 2 ^ 16 →
  DecodeTLVs (PutUint16 0x0424 ++ PutUint16 (u16 (zlen sm)) ++ sm) =
  Ret {[ TagMessagePayload := sm ]}.
Proof.
  intros Hl. pose proof (zlen_nonneg sm).
  assert (tlv_ok (TagMessagePayload, sm)) as Hok.
  { unfold tlv_ok, u16_ok, TagMessagePayload. simpl. lia. }
  rewrite u16_id by (unfold u16_ok; lia).
  pose proof (tlv_stream_concat [(TagMessagePayload, sm)]
    (Forall_cons_2 _ _ _ Hok (Forall_nil_2 _))) as Hs.
  cbn [fmap list_fmap concat] in Hs. rewrite app_nil_r in Hs.
  unfold DecodeTLVs. pose proof (tlv_stream_length _ _ Hs).
  change (PutUint16 0x0424 ++ PutUint16 (zlen sm) ++ sm)
    with (enc_tlv (TagMessagePayload, sm)).
  by rewrite (decode_tlvs_stream _ _ Hs _ []) by lia.
Qed.

(** A message longer than 254 bytes and shorter than 64 KiB is not lost:
    [ExtractTLVs] on the submit_sm that [EncodeSubmitSM] built for it returns the
    whole message as the message_payload TLV, and no other TLV. *)
Theorem long_message_in_payload cl status seq tlvs src ston snpi dst dton dnpi esm pid dc rd sm :
  no_nul src → no_nul dst → (254 < length sm)%nat → zlen sm < 2 ^ 16 →
  ExtractTLVs (mkPDU cl CmdSubmitSM status seq
    (EncodeSubmitSM src ston snpi dst dton dnpi esm pid dc rd sm) tlvs) =
  Ret (Some {[ TagMessagePayload := sm ]}).
Proof.
  intros Hs Hd Hlong Hlen. assert (no_nul []) by (unfold no_nul; set_solver).
  rewrite EncodeSubmitSM_layout, decide_True by done.
  set (payload := PutUint16 _ ++ PutUint16 _ ++ sm).
  set (head := sm_body [] ston snpi src dton dnpi dst esm pid 0 [] [] rd 0 dc 0 (zlen (@nil Z)) []).
  assert (sm_body [] ston snpi src dton dnpi dst esm pid 0 [] [] rd 0 dc 0 0 payload =
    head ++ payload) as ->.
  { unfold head, sm_body. cbn [app]. by rewrite <-!app_assoc; cbn [app];
      rewrite <-!app_assoc. }
  assert (encoded_body CmdSubmitSM head) as Hb by (apply eb_sm; [by left|done..]).
  unfold ExtractTLVs, MandatoryBodyLen. cbn [CommandID Body].
  rewrite mandatory_len_encoded by done.
  assert (0 < zlen payload) by (unfold payload, zlen; len).
  rewrite zlen_app. fold (zlen head). pose proof (zlen_nonneg head).
  rewrite !decide_False by lia. unfold zlen at 1. rewrite Nat2Z.id, drop_app_length.
  unfold payload. by rewrite DecodeTLVs_message_payload.
Qed.

Lemma long_message_in_payload_witness :
  let sm := replicate 300 65 in
  (254 < length sm)%nat ∧ zlen sm < 2 ^ 16 ∧
  ExtractTLVs (mkPDU 0 CmdSubmitSM 0 1
    (EncodeSubmitSM (str "A") 5 0 (str "2782") 1 1 0 0 0 1 sm) None) =
  Ret (Some {[ TagMessagePayload := sm ]}).
Proof.
  intros sm.
  assert (no_nul (str "A") ∧ no_nul (str "2782")) as [H1 H2].
  { split; apply (bool_decide_unpack _); vm_compute; exact I. }
  assert (254 < length sm)%nat as H3 by (apply (bool_decide_unpack _); vm_compute; exact I).
  assert (zlen sm < 2 ^ 16) as H4 by (vm_compute; reflexivity).
  split; [exact H3|split; [exact H4|]].
  exact (long_message_in_payload 0 0 1 None (str "A") 5 0 (str "2782") 1 1 0 0 0 1 sm
    H1 H2 H3 H4).
Defined.
