(* ===== verification/Utf8.v ===== *)
(** * Strings as sequences of runes

    The parts of Go's string semantics and of packages unicode/utf8 and
    unicode/utf16 that smpp/coding.go and smpp/segment.go rely on: ranging over a
    string, converting between strings and rune slices, and the UTF-16 encoding. *)

From S2P Require Import Prelude.

Local Open Scope Z_scope.

Abbreviation rune := Z.

Definition RuneError : rune := 0xFFFD.
Definition MaxRune : rune := 0x10FFFF.

Definition valid_rune (r : rune) : Prop := 0 <= r < 0xD800 ∨ 0xE000 <= r <= MaxRune.

#[export] Instance valid_rune_dec r : Decision (valid_rune r).
Proof. unfold valid_rune. apply _. Defined.

(** ** UTF-8 *)

(** utf8's table of lead bytes: the length of the sequence and the range its
    second byte must lie in; [None] for a byte that starts no sequence. *)
Definition lead (b : byte) : option (nat * Z * Z) :=
  if decide (0xC2 <= b <= 0xDF) then Some (2%nat, 0x80, 0xBF)
  else if decide (b = 0xE0) then Some (3%nat, 0xA0, 0xBF)
  else if decide (b = 0xED) then Some (3%nat, 0x80, 0x9F)
  else if decide (0xE1 <= b <= 0xEF) then Some (3%nat, 0x80, 0xBF)
  else if decide (b = 0xF0) then Some (4%nat, 0x90, 0xBF)
  else if decide (0xF1 <= b <= 0xF3) then Some (4%nat, 0x80, 0xBF)
  else if decide (b = 0xF4) then Some (4%nat, 0x80, 0x8F)
  else None.

Definition cont (b : byte) : Prop := 0x80 <= b <= 0xBF.
#[export] Instance cont_dec b : Decision (cont b).
Proof. unfold cont. apply _. Defined.

(** [utf8.DecodeRuneInString]: the rune and the number of bytes it took. *)
Definition DecodeRune (s : bytes) : rune * nat :=
  match s with
  | [] => (RuneError, 0%nat)
  | b0 :: s =>
      if decide (b0 < 0x80) then (b0, 1%nat)
      else
        match lead b0, s with
        | Some (sz, lo, hi), b1 :: s =>
            if decide (¬ (lo <= b1 <= hi)) then (RuneError, 1%nat)
            else if decide (sz = 2%nat) then
              (Z.lor (Z.land b1 0x3F) (Z.shiftl (Z.land b0 0x1F) 6), 2%nat)
            else
              match s with
              | b2 :: s =>
                  if decide (¬ cont b2) then (RuneError, 1%nat)
                  else if decide (sz = 3%nat) then
                    (Z.lor (Z.lor (Z.land b2 0x3F) (Z.shiftl (Z.land b1 0x3F) 6))
                       (Z.shiftl (Z.land b0 0x0F) 12), 3%nat)
                  else
                    match s with
                    | b3 :: _ =>
                        if decide (¬ cont b3) then (RuneError, 1%nat)
                        else
                          (Z.lor (Z.lor (Z.lor (Z.land b3 0x3F) (Z.shiftl (Z.land b2 0x3F) 6))
                             (Z.shiftl (Z.land b1 0x3F) 12)) (Z.shiftl (Z.land b0 0x07) 18),
                           4%nat)
                    | [] => (RuneError, 1%nat)
                    end
              | [] => (RuneError, 1%nat)
              end
        | _, _ => (RuneError, 1%nat)
        end
  end.

(** [utf8.AppendRune]: the bytes of a rune; an invalid rune gives those of
    [RuneError]. *)
Definition enc3 (r : rune) : bytes :=
  [Z.lor 0xE0 (Z.shiftr r 12); Z.lor 0x80 (Z.land (Z.shiftr r 6) 0x3F);
   Z.lor 0x80 (Z.land r 0x3F)].
Definition EncodeRune (r : rune) : bytes :=
  if decide (0 <= r <= 0x7F) then [r]
  else if decide (0 <= r <= 0x7FF) then
    [Z.lor 0xC0 (Z.shiftr r 6); Z.lor 0x80 (Z.land r 0x3F)]
  else if decide (¬ valid_rune r) then enc3 RuneError
  else if decide (r <= 0xFFFF) then enc3 r
  else
    [Z.lor 0xF0 (Z.shiftr r 18); Z.lor 0x80 (Z.land (Z.shiftr r 12) 0x3F);
     Z.lor 0x80 (Z.land (Z.shiftr r 6) 0x3F); Z.lor 0x80 (Z.land r 0x3F)].

(** [for _, r := range s] and [[]rune(s)]: a round consumes at least one byte. *)
Fixpoint runes_loop (fuel : nat) (s : bytes) : list rune :=
  match fuel, s with
  | S fuel, _ :: _ => let '(r, sz) := DecodeRune s in r :: runes_loop fuel (drop sz s)
  | _, _ => []
  end.
Definition runes (s : bytes) : list rune := runes_loop (length s) s.

(** [string(rs)]. *)
Definition string_of_runes (rs : list rune) : bytes := concat (EncodeRune <$> rs).

(** ** UTF-16 *)

(** [utf16.Encode]. *)
Definition utf16_units (r : rune) : list Z :=
  if decide (0 <= r < 0xD800 ∨ 0xE000 <= r < 0x10000) then [r]
  else if decide (0x10000 <= r <= MaxRune) then
    let r := r - 0x10000 in
    [0xD800 + Z.land (Z.shiftr r 10) 0x3FF; 0xDC00 + Z.land r 0x3FF]
  else [RuneError].
Definition utf16_Encode (rs : list rune) : list Z := concat (utf16_units <$> rs).

(** [utf16.Decode]. *)
Fixpoint utf16_Decode (us : list Z) : list rune :=
  match us with
  | [] => []
  | u :: us' =>
      if decide (u < 0xD800 ∨ 0xE000 <= u) then u :: utf16_Decode us'
      else
        match us' with
        | v :: us'' =>
            if decide (0xD800 <= u < 0xDC00 ∧ 0xDC00 <= v < 0xE000) then
              (Z.lor (v - 0xDC00) (Z.shiftl (u - 0xD800) 10) + 0x10000) :: utf16_Decode us''
            else RuneError :: utf16_Decode us'
        | [] => RuneError :: utf16_Decode us'
        end
  end.

(** ** Bit fields as arithmetic *)

Lemma land_ones_mod r n m : 0 <= n → m = 2 ^ n - 1 → Z.land r m = r mod 2 ^ n.
Proof. intros Hn ->. rewrite <-Z.land_ones by done. by rewrite Z.ones_equiv, Z.sub_1_r. Qed.

Lemma lor_base c x n : 0 <= n → 0 <= x < 2 ^ n → Z.lor (c * 2 ^ n) x = c * 2 ^ n + x.
Proof.
  intros. rewrite Z.lor_comm, <-Z.shiftl_mul_pow2, lor_shiftl_add by lia.
  rewrite Z.shiftl_mul_pow2 by lia. lia.
Qed.

Lemma land_3F r : Z.land r 0x3F = r mod 64.
Proof. by apply (land_ones_mod r 6). Qed.
Lemma land_1F r : Z.land r 0x1F = r mod 32.
Proof. by apply (land_ones_mod r 5). Qed.
Lemma land_0F r : Z.land r 0x0F = r mod 16.
Proof. by apply (land_ones_mod r 4). Qed.
Lemma land_07 r : Z.land r 0x07 = r mod 8.
Proof. by apply (land_ones_mod r 3). Qed.
Lemma land_7F r : Z.land r 0x7F = r mod 128.
Proof. by apply (land_ones_mod r 7). Qed.
Lemma land_3FF r : Z.land r 0x3FF = r mod 1024.
Proof. by apply (land_ones_mod r 10). Qed.
Lemma shiftr_6 r : Z.shiftr r 6 = r / 64.
Proof. by rewrite Z.shiftr_div_pow2. Qed.
Lemma shiftr_10 r : Z.shiftr r 10 = r / 1024.
Proof. by rewrite Z.shiftr_div_pow2. Qed.
Lemma shiftr_12 r : Z.shiftr r 12 = r / 4096.
Proof. by rewrite Z.shiftr_div_pow2. Qed.
Lemma shiftr_18 r : Z.shiftr r 18 = r / 262144.
Proof. by rewrite Z.shiftr_div_pow2. Qed.
Lemma lor_80 x : 0 <= x < 64 → Z.lor 0x80 x = 0x80 + x.
Proof. intros. by apply (lor_base 2 x 6). Qed.
Lemma lor_C0 x : 0 <= x < 32 → Z.lor 0xC0 x = 0xC0 + x.
Proof. intros. by apply (lor_base 6 x 5). Qed.
Lemma lor_E0 x : 0 <= x < 16 → Z.lor 0xE0 x = 0xE0 + x.
Proof. intros. by apply (lor_base 14 x 4). Qed.
Lemma lor_F0 x : 0 <= x < 8 → Z.lor 0xF0 x = 0xF0 + x.
Proof. intros. by apply (lor_base 30 x 3). Qed.

Create Rewrite HintDb bits.
#[export] Hint Rewrite land_3F land_1F land_0F land_07 land_7F land_3FF
  shiftr_6 shiftr_10 shiftr_12 shiftr_18 : bits.

(** Division facts by constants, for linear arithmetic. *)
Ltac zdiv := Z.to_euclidean_division_equations; lia.

(** The four encodings, as arithmetic. *)
Lemma EncodeRune_2 r : 0x80 <= r <= 0x7FF →
  EncodeRune r = [0xC0 + r / 64; 0x80 + r mod 64].
Proof.
  intros. unfold EncodeRune. rewrite decide_False, decide_True by lia.
  autorewrite with bits. rewrite lor_C0, lor_80 by zdiv. done.
Qed.
Lemma enc3_arith r : 0 <= r <= 0xFFFF →
  enc3 r = [0xE0 + r / 4096; 0x80 + (r / 64) mod 64; 0x80 + r mod 64].
Proof.
  intros. unfold enc3. autorewrite with bits. rewrite lor_E0, !lor_80 by zdiv. done.
Qed.
Lemma EncodeRune_3 r : 0x800 <= r <= 0xFFFF → valid_rune r →
  EncodeRune r = [0xE0 + r / 4096; 0x80 + (r / 64) mod 64; 0x80 + r mod 64].
Proof.
  intros ? Hv. unfold EncodeRune. rewrite decide_False, decide_False by lia.
  rewrite decide_False by naive_solver. rewrite decide_True by lia. apply enc3_arith. lia.
Qed.
Lemma EncodeRune_4 r : 0x10000 <= r <= MaxRune →
  EncodeRune r = [0xF0 + r / 262144; 0x80 + (r / 4096) mod 64; 0x80 + (r / 64) mod 64;
    0x80 + r mod 64].
Proof.
  unfold MaxRune. intros. unfold EncodeRune. rewrite decide_False, decide_False by lia.
  rewrite decide_False by (unfold valid_rune, MaxRune; lia). rewrite decide_False by lia.
  autorewrite with bits. rewrite lor_F0, !lor_80 by zdiv. done.
Qed.

(** ** Decoding inverts encoding, and conversely *)

Lemma lead_spec b sz lo hi : lead b = Some (sz, lo, hi) →
  (sz = 2%nat ∧ 0xC2 <= b <= 0xDF ∧ lo = 0x80 ∧ hi = 0xBF) ∨
  (sz = 3%nat ∧ 0xE0 <= b <= 0xEF ∧ 0x80 <= lo ∧ hi <= 0xBF ∧
    (b = 0xE0 → lo = 0xA0) ∧ (b = 0xED → hi = 0x9F)) ∨
  (sz = 4%nat ∧ 0xF0 <= b <= 0xF4 ∧ 0x80 <= lo ∧ hi <= 0xBF ∧
    (b = 0xF0 → lo = 0x90) ∧ (b = 0xF4 → hi = 0x8F)).
Proof. unfold lead. intros. case_all; lia. Qed.

Lemma lead_2 b : 0xC2 <= b <= 0xDF → lead b = Some (2%nat, 0x80, 0xBF).
Proof. intros. unfold lead. by rewrite decide_True. Qed.

Lemma lead_3 b : 0xE0 <= b <= 0xEF → ∃ lo hi, lead b = Some (3%nat, lo, hi) ∧
  (lo = if decide (b = 0xE0) then 0xA0 else 0x80) ∧
  (hi = if decide (b = 0xED) then 0x9F else 0xBF).
Proof.
  intros. unfold lead. rewrite decide_False by lia.
  case_all; try lia; do 2 eexists; (split; [done|]); by rewrite ?decide_True, ?decide_False by lia.
Qed.

Lemma lead_4 b : 0xF0 <= b <= 0xF4 → ∃ lo hi, lead b = Some (4%nat, lo, hi) ∧
  (lo = if decide (b = 0xF0) then 0x90 else 0x80) ∧
  (hi = if decide (b = 0xF4) then 0x8F else 0xBF).
Proof.
  intros. unfold lead. rewrite decide_False by lia.
  case_all; try lia; do 2 eexists; (split; [done|]); by rewrite ?decide_True, ?decide_False by lia.
Qed.

Lemma lor_2 x y : Z.lor (x mod 64) (Z.shiftl y 6) = x mod 64 + y * 64.
Proof. rewrite lor_shiftl_add by zdiv. lia. Qed.
Lemma lor_3 x y z :
  Z.lor (Z.lor (x mod 64) (Z.shiftl (y mod 64) 6)) (Z.shiftl z 12) =
  x mod 64 + (y mod 64) * 64 + z * 4096.
Proof. rewrite lor_2, lor_shiftl_add by zdiv. lia. Qed.
Lemma lor_4 x y z w :
  Z.lor (Z.lor (Z.lor (x mod 64) (Z.shiftl (y mod 64) 6)) (Z.shiftl (z mod 64) 12))
    (Z.shiftl w 18) = x mod 64 + (y mod 64) * 64 + (z mod 64) * 4096 + w * 262144.
Proof. rewrite lor_3, lor_shiftl_add by zdiv. lia. Qed.

Lemma DecodeRune_Encode r s :
  valid_rune r → DecodeRune (EncodeRune r ++ s) = (r, length (EncodeRune r)).
Proof.
  intros Hv. destruct (decide (r <= 0x7F)) as [H1|H1].
  { assert (0 <= r) by (unfold valid_rune in Hv; lia).
    unfold EncodeRune. rewrite decide_True by lia. simpl. by rewrite decide_True by lia. }
  destruct (decide (r <= 0x7FF)) as [H2|H2].
  { rewrite EncodeRune_2 by lia. cbn [app DecodeRune].
    rewrite decide_False, lead_2, decide_False, decide_True by zdiv.
    autorewrite with bits. rewrite lor_2. f_equal. zdiv. }
  destruct (decide (r <= 0xFFFF)) as [H3|H3].
  { rewrite EncodeRune_3 by (done || lia). cbn [app DecodeRune].
    destruct (lead_3 (0xE0 + r / 4096)) as (lo & hi & -> & Hlo & Hhi); [zdiv|].
    unfold valid_rune, MaxRune in Hv.
    rewrite decide_False by zdiv.
    rewrite decide_False by (repeat case_decide; zdiv).
    rewrite decide_False by done. rewrite decide_False by (unfold cont; zdiv).
    rewrite decide_True by done. autorewrite with bits. rewrite lor_3. f_equal. zdiv. }
  assert (0x10000 <= r <= MaxRune) as H4 by (unfold valid_rune, MaxRune in *; lia).
  rewrite EncodeRune_4 by done. unfold MaxRune in H4. cbn [app DecodeRune].
  destruct (lead_4 (0xF0 + r / 262144)) as (lo & hi & -> & Hlo & Hhi); [zdiv|].
  rewrite decide_False by zdiv.
  rewrite decide_False by (repeat case_decide; zdiv).
  rewrite decide_False by done. rewrite decide_False by (unfold cont; zdiv).
  rewrite decide_False by done. rewrite decide_False by (unfold cont; zdiv).
  autorewrite with bits. rewrite lor_4. f_equal. zdiv.
Qed.

(** A decoding step either rejects one byte or reads exactly a valid rune. *)
Lemma DecodeRune_shape s r sz :
  bytes_ok s → s ≠ [] → DecodeRune s = (r, sz) →
  (r = RuneError ∧ sz = 1%nat) ∨
  (valid_rune r ∧ s = EncodeRune r ++ drop sz s ∧ sz = length (EncodeRune r)).
Proof.
  unfold bytes_ok. intros Hb Hne. destruct s as [|b0 s]; [done|]. cbn [DecodeRune].
  apply Forall_cons in Hb as [H0 Hb]. unfold byte_ok in H0.
  case_decide as Hlt.
  { intros [= <- <-]. right. split; [unfold valid_rune; lia|].
    unfold EncodeRune. by rewrite decide_True by lia. }
  destruct (lead b0) as [[[sz0 lo] hi]|] eqn:El; [|intros [= <- <-]; by left].
  apply lead_spec in El.
  destruct s as [|b1 s]; [intros [= <- <-]; by left|].
  apply Forall_cons in Hb as [H1 Hb]. unfold byte_ok in H1.
  case_decide as Hr1; [intros [= <- <-]; by left|].
  case_decide as H2.
  { intros [= <- <-]. right. autorewrite with bits. rewrite lor_2. subst sz0.
    assert (0xC2 <= b0 <= 0xDF ∧ 0x80 <= b1 <= 0xBF) as [? ?] by lia. clear El.
    split; [unfold valid_rune; zdiv|]. rewrite EncodeRune_2 by zdiv.
    cbn [app drop]. split; [|done]. repeat f_equal; zdiv. }
  destruct s as [|b2 s]; [intros [= <- <-]; by left|].
  apply Forall_cons in Hb as [_ Hb].
  case_decide as Hr2; [intros [= <- <-]; by left|]. unfold cont in Hr2.
  case_decide as H3.
  { intros [= <- <-]. right. autorewrite with bits. rewrite lor_3. subst sz0.
    assert (0xE0 <= b0 <= 0xEF ∧ 0x80 <= b1 <= 0xBF ∧
      (b0 = 0xE0 → 0xA0 <= b1) ∧ (b0 = 0xED → b1 <= 0x9F)) as (? & ? & ? & ?) by lia. clear El.
    assert (b2 mod 64 = b2 - 0x80 ∧ b1 mod 64 = b1 - 0x80 ∧ b0 mod 16 = b0 - 0xE0)
      as (-> & -> & ->) by zdiv.
    set (r0 := _ + _ + _).
    assert (valid_rune r0 ∧ 0x800 <= r0 <= 0xFFFF) as [Hv ?] by (unfold valid_rune, MaxRune, r0; lia).
    split; [done|]. rewrite EncodeRune_3 by done.
    cbn [app drop]. split; [|done].
    assert (r0 / 4096 = b0 - 0xE0 ∧ (r0 / 64) mod 64 = b1 - 0x80 ∧ r0 mod 64 = b2 - 0x80)
      as (-> & -> & ->) by (unfold r0; zdiv). repeat f_equal; lia. }
  destruct s as [|b3 s]; [intros [= <- <-]; by left|].
  case_decide as Hr3; [intros [= <- <-]; by left|]. unfold cont in Hr3.
  intros [= <- <-]. right. autorewrite with bits. rewrite lor_4.
  assert (0xF0 <= b0 <= 0xF4 ∧ 0x80 <= b1 <= 0xBF ∧
    (b0 = 0xF0 → 0x90 <= b1) ∧ (b0 = 0xF4 → b1 <= 0x8F)) as (? & ? & ? & ?) by lia. clear El.
  assert (b3 mod 64 = b3 - 0x80 ∧ b2 mod 64 = b2 - 0x80 ∧ b1 mod 64 = b1 - 0x80 ∧
    b0 mod 8 = b0 - 0xF0) as (-> & -> & -> & ->) by zdiv.
  set (r0 := _ + _ + _).
  assert (0x10000 <= r0 <= MaxRune) as ? by (unfold MaxRune, r0; lia).
  split; [unfold valid_rune; lia|]. rewrite EncodeRune_4 by done.
  cbn [app drop]. split; [|done].
  assert (r0 / 262144 = b0 - 0xF0 ∧ (r0 / 4096) mod 64 = b1 - 0x80 ∧
    (r0 / 64) mod 64 = b2 - 0x80 ∧ r0 mod 64 = b3 - 0x80)
    as (-> & -> & -> & ->) by (unfold r0; zdiv). repeat f_equal; lia.
Qed.

Lemma EncodeRune_high r : valid_rune r → 128 <= r → Forall (λ b, 128 <= b) (EncodeRune r).
Proof.
  intros Hv Hr. unfold valid_rune, MaxRune in Hv.
  destruct (decide (r <= 0x7FF)) as [H2|]; [rewrite EncodeRune_2 by lia|].
  { repeat constructor; pose proof (Z.div_pos r 64); pose proof (Z.mod_pos_bound r 64); lia. }
  destruct (decide (r <= 0xFFFF)); [rewrite EncodeRune_3 by (unfold valid_rune, MaxRune; lia)|rewrite EncodeRune_4 by (unfold MaxRune; lia)].
  all: repeat constructor; zdiv.
Qed.

Lemma EncodeRune_nonempty r : (0 < length (EncodeRune r))%nat.
Proof. unfold EncodeRune, enc3. case_all; simpl; lia. Qed.

Lemma DecodeRune_size s r sz :
  bytes_ok s → s ≠ [] → DecodeRune s = (r, sz) → (0 < sz)%nat.
Proof.
  intros Hb Hne E. pose proof (EncodeRune_nonempty r).
  destruct (DecodeRune_shape s r sz Hb Hne E) as [[_ ->]|(_ & _ & ->)]; lia.
Qed.

(** The loop over a string has enough rounds. *)
Lemma runes_loop_fuel : ∀ f1 f2 s,
  bytes_ok s → (length s <= f1)%nat → (length s <= f2)%nat → runes_loop f1 s = runes_loop f2 s.
Proof.
  induction f1 as [|f1 IH]; intros [|f2] [|b s] Hb H1 H2; simpl in H1, H2; try done; try lia.
  cbn [runes_loop]. destruct (DecodeRune (b :: s)) as [r sz] eqn:E.
  pose proof (DecodeRune_size _ _ _ Hb ltac:(done) E). f_equal. apply IH.
  - by apply bytes_ok_drop.
  - rewrite length_drop. simpl. lia.
  - rewrite length_drop. simpl. lia.
Qed.

Lemma runes_nil : runes [] = [].
Proof. done. Qed.

(** Ranging over a non-empty string: the first rune, then the rest. *)
Lemma runes_step s r sz :
  bytes_ok s → s ≠ [] → DecodeRune s = (r, sz) → runes s = r :: runes (drop sz s).
Proof.
  intros Hb Hne E. pose proof (DecodeRune_size s r sz Hb Hne E). unfold runes.
  destruct s as [|b s]; [done|]. cbn [length runes_loop]. rewrite E. f_equal.
  apply runes_loop_fuel; [by apply bytes_ok_drop| |]; rewrite length_drop; simpl; lia.
Qed.

Ltac bytes_arith :=
  repeat (apply bytes_ok_cons; [unfold byte_ok; zdiv|]); apply bytes_ok_nil.

Lemma EncodeRune_ok r : bytes_ok (EncodeRune r).
Proof.
  unfold EncodeRune.
  destruct (decide (0 <= r <= 127)); [by auto with smpp|].
  destruct (decide (0 <= r <= 2047)) as [H2|H2].
  { pose proof (EncodeRune_2 r ltac:(lia)) as E. unfold EncodeRune in E.
    rewrite decide_False, decide_True in E by lia. rewrite E.
    bytes_arith. }
  case_decide as Hv; [unfold RuneError; rewrite enc3_arith by done; bytes_arith|].
  unfold valid_rune, MaxRune in Hv. case_decide as H3.
  - rewrite enc3_arith by lia. bytes_arith.
  - autorewrite with bits. rewrite lor_F0, !lor_80 by zdiv.
    bytes_arith.
Qed.

Lemma string_of_runes_app rs1 rs2 :
  string_of_runes (rs1 ++ rs2) = string_of_runes rs1 ++ string_of_runes rs2.
Proof. unfold string_of_runes. by rewrite fmap_app, concat_app. Qed.

Lemma string_of_runes_ok rs : bytes_ok (string_of_runes rs).
Proof.
  unfold string_of_runes. induction rs as [|r rs IH]; [constructor|].
  rewrite fmap_cons. simpl. apply bytes_ok_app_2; [apply EncodeRune_ok|done].
Qed.
#[export] Hint Resolve EncodeRune_ok string_of_runes_ok : smpp.

Lemma runes_Encode_cons r s :
  valid_rune r → bytes_ok s → runes (EncodeRune r ++ s) = r :: runes s.
Proof.
  intros Hv Hs. pose proof (EncodeRune_nonempty r).
  rewrite (runes_step _ r (length (EncodeRune r))).
  - by rewrite drop_app_length.
  - auto with smpp.
  - destruct (EncodeRune r); [simpl in *; lia|done].
  - by apply DecodeRune_Encode.
Qed.

(** [[]rune(string(rs)) = rs] for valid runes. *)
Lemma runes_string_of_runes rs : Forall valid_rune rs → runes (string_of_runes rs) = rs.
Proof.
  induction 1 as [|r rs Hr Hrs IH]; [done|].
  unfold string_of_runes. rewrite fmap_cons. cbn [concat].
  fold (string_of_runes rs). rewrite runes_Encode_cons by auto with smpp. by rewrite IH.
Qed.

(** Strings by induction over their decoding steps. *)
Lemma string_ind (P : bytes → Prop) :
  P [] →
  (∀ s r sz, bytes_ok s → s ≠ [] → DecodeRune s = (r, sz) → P (drop sz s) → P s) →
  ∀ s, bytes_ok s → P s.
Proof.
  intros Hnil Hstep s. induction s as [s IH] using (induction_ltof1 _ (@length Z)); intros Hs.
  destruct (decide (s = [])) as [->|Hne]; [done|].
  destruct (DecodeRune s) as [r sz] eqn:E. apply (Hstep s r sz); [done..|].
  pose proof (DecodeRune_size s r sz Hs Hne E). apply IH; [|by apply bytes_ok_drop].
  unfold ltof. rewrite length_drop. destruct s; [done|simpl; lia].
Qed.

Lemma RuneError_valid : valid_rune RuneError.
Proof. unfold valid_rune, RuneError, MaxRune. lia. Qed.

(** Every rune read from a string is valid. *)
Lemma runes_valid s : bytes_ok s → Forall valid_rune (runes s).
Proof.
  revert s. apply (string_ind (λ s, Forall valid_rune (runes s))); [constructor|].
  intros s r sz Hs Hne E IH. rewrite (runes_step s r sz) by done. constructor; [|done].
  destruct (DecodeRune_shape s r sz Hs Hne E) as [[-> _]|[? _]]; [apply RuneError_valid|done].
Qed.

(** [string([]rune(s)) = s] when no step of the loop met an encoding error. *)
Lemma string_of_runes_runes s :
  bytes_ok s → RuneError ∉ runes s → string_of_runes (runes s) = s.
Proof.
  revert s. apply (string_ind (λ s, RuneError ∉ runes s → string_of_runes (runes s) = s)); [done|].
  intros s r sz Hs Hne E IH. rewrite (runes_step s r sz) by done. intros Hn.
  unfold string_of_runes. rewrite fmap_cons. cbn [concat]. fold (string_of_runes (runes (drop sz s))).
  rewrite IH by set_solver.
  destruct (DecodeRune_shape s r sz Hs Hne E) as [[-> _]|(_ & Es & _)]; [set_solver|done].
Qed.

(** ** UTF-16 round trip *)

Lemma utf16_units_decode r us :
  valid_rune r → utf16_Decode (utf16_units r ++ us) = r :: utf16_Decode us.
Proof.
  intros Hv. unfold utf16_units, valid_rune, MaxRune in *. case_decide as H1.
  { cbn [app utf16_Decode]. by rewrite decide_True by lia. }
  rewrite decide_True by lia. autorewrite with bits. cbn [app utf16_Decode].
  rewrite decide_False by zdiv. rewrite decide_True by zdiv.
  f_equal. rewrite lor_shiftl_add by zdiv. zdiv.
Qed.

Lemma utf16_roundtrip rs : Forall valid_rune rs → utf16_Decode (utf16_Encode rs) = rs.
Proof.
  induction 1 as [|r rs Hr Hrs IH]; [done|].
  unfold utf16_Encode. rewrite fmap_cons. cbn [concat]. rewrite utf16_units_decode by done.
  f_equal. apply IH.
Qed.

Lemma utf16_units_range r : Forall u16_ok (utf16_units r).
Proof.
  unfold utf16_units, MaxRune, RuneError, u16_ok. autorewrite with bits.
  repeat case_decide; repeat constructor; try lia; zdiv.
Qed.

Lemma utf16_Encode_range rs : Forall u16_ok (utf16_Encode rs).
Proof.
  unfold utf16_Encode. induction rs as [|r rs IH]; [constructor|].
  rewrite fmap_cons. simpl. apply Forall_app_2; [apply utf16_units_range|done].
Qed.
