(* ===== verification/Coding.v ===== *)
(** * Message text encodings (smpp/coding.go)

    The GSM 7-bit default alphabet with its septet packing, UCS-2, Latin-1 and
    IA5, the dispatch on data_coding, and the choice of a coding for a text. *)

From Stdlib Require Import ZifyNat.
From S2P Require Import Prelude Utf8.

Local Open Scope Z_scope.

Definition DataCodingDefault : Z := 0x00.
Definition DataCodingIA5 : Z := 0x01.
Definition DataCodingLatin1 : Z := 0x03.
Definition DataCodingBinary : Z := 0x04.
Definition DataCodingUCS2 : Z := 0x08.

Inductive coding_err :=
| NotGSM7 (r : rune)
| GSM7TooShort (bytePos : nat) (have : nat)
| OddUCS2 (len : nat)
| NotLatin1 (r : rune)
| NotIA5 (r : rune)
| UnsupportedCoding (coding : Z).

(** ** The GSM 7-bit alphabet *)

Definition gsm7Default : list rune :=
  [0x40; 0xA3; 0x24; 0xA5; 0xE8; 0xE9; 0xF9; 0xEC;
   0xF2; 0xC7; 0x0A; 0xD8; 0xF8; 0x0D; 0xC5; 0xE5;
   0x394; 0x5F; 0x3A6; 0x393; 0x39B; 0x3A9; 0x3A0; 0x3A8;
   0x3A3; 0x398; 0x39E; 0x1B; 0xC6; 0xE6; 0xDF; 0xC9;
   0x20; 0x21; 0x22; 0x23; 0xA4; 0x25; 0x26; 0x27;
   0x28; 0x29; 0x2A; 0x2B; 0x2C; 0x2D; 0x2E; 0x2F;
   0x30; 0x31; 0x32; 0x33; 0x34; 0x35; 0x36; 0x37;
   0x38; 0x39; 0x3A; 0x3B; 0x3C; 0x3D; 0x3E; 0x3F;
   0xA1; 0x41; 0x42; 0x43; 0x44; 0x45; 0x46; 0x47;
   0x48; 0x49; 0x4A; 0x4B; 0x4C; 0x4D; 0x4E; 0x4F;
   0x50; 0x51; 0x52; 0x53; 0x54; 0x55; 0x56; 0x57;
   0x58; 0x59; 0x5A; 0xC4; 0xD6; 0xD1; 0xDC; 0xA7;
   0xBF; 0x61; 0x62; 0x63; 0x64; 0x65; 0x66; 0x67;
   0x68; 0x69; 0x6A; 0x6B; 0x6C; 0x6D; 0x6E; 0x6F;
   0x70; 0x71; 0x72; 0x73; 0x74; 0x75; 0x76; 0x77;
   0x78; 0x79; 0x7A; 0xE4; 0xF6; 0xF1; 0xFC; 0xE0].

Definition gsm7Extension : gmap Z rune :=
  list_to_map
    [(0x0A, 0x0C); (0x14, 0x5E); (0x28, 0x7B); (0x29, 0x7D); (0x2F, 0x5C);
     (0x3C, 0x5B); (0x3D, 0x7E); (0x3E, 0x5D); (0x40, 0x7C); (0x65, 0x20AC)].

(** The reverse maps that [init] fills: every code but the escape character. *)
Definition unicodeToGSM7 : gmap rune Z :=
  foldl (λ m '(i, r), if decide (i = 0x1B) then m else <[r := i]> m) ∅
    (imap (λ i r, (Z.of_nat i, r)) gsm7Default).

Definition unicodeToGSM7Ext : gmap rune Z :=
  foldl (λ m '(code, r), <[r := code]> m) ∅ (map_to_list gsm7Extension).

Definition isGSM7 (r : rune) : bool :=
  match unicodeToGSM7 !! r with
  | Some _ => true
  | None => bool_decide (is_Some (unicodeToGSM7Ext !! r))
  end.

Definition gsm7Len (r : rune) : Z :=
  match unicodeToGSM7 !! r with
  | Some _ => 1
  | None => match unicodeToGSM7Ext !! r with Some _ => 2 | None => -1 end
  end.

(** ** Packing septets *)

(** The first pass of [EncodeGSM7]. *)
Fixpoint gsm7_septets (rs : list rune) (septets : bytes) : outcome coding_err bytes :=
  match rs with
  | [] => Ret septets
  | r :: rs =>
      match unicodeToGSM7 !! r with
      | Some code => gsm7_septets rs (septets ++ [code])
      | None =>
          match unicodeToGSM7Ext !! r with
          | Some ext => gsm7_septets rs (septets ++ [0x1B; ext])
          | None => Fail (NotGSM7 r)
          end
      end
  end.

(** [buf[i] |= v]; [None] where the index is out of range. *)
Definition or_at (i : nat) (v : Z) (buf : bytes) : option bytes :=
  match buf !! i with
  | Some b => Some (<[i := Z.lor b v]> buf)
  | None => None
  end.

(** One round of the packing loop: [s << bitPos] is a byte, its high bits are
    dropped. *)
Definition pack_septet (i : nat) (s : Z) (packed : bytes) : option bytes :=
  let bitOffset := (i * 7)%nat in
  let bytePos := (bitOffset `div` 8)%nat in
  let bitPos := Z.of_nat (bitOffset `mod` 8)%nat in
  packed ← or_at bytePos (u8 (Z.shiftl s bitPos)) packed;
  if decide (1 < bitPos ∧ (bytePos + 1 < length packed)%nat) then
    or_at (bytePos + 1) (Z.shiftr s (8 - bitPos)) packed
  else Some packed.

Fixpoint pack_loop (i : nat) (septets packed : bytes) : option bytes :=
  match septets with
  | [] => Some packed
  | s :: septets => packed ← pack_septet i s packed; pack_loop (S i) septets packed
  end.

(** The loop that writes the CR into seven fill bits. *)
Fixpoint pad_loop (startBit : nat) (is_ : list nat) (packed : bytes) : option bytes :=
  match is_ with
  | [] => Some packed
  | i :: is_ =>
      let bitIdx := (startBit + i)%nat in
      let bytePos := (bitIdx `div` 8)%nat in
      let bitPos := Z.of_nat (bitIdx `mod` 8)%nat in
      packed ←
        (if decide (bytePos < length packed)%nat then
           or_at bytePos (u8 (Z.shiftl (Z.land (Z.shiftr 0x0D (Z.of_nat i)) 1) bitPos)) packed
         else Some packed);
      pad_loop startBit is_ packed
  end.

(** The packed bytes and the number of septets. *)
Definition EncodeGSM7 (text : bytes) : outcome coding_err (bytes * nat) :=
  septets ← gsm7_septets (runes text) [];
  let numSeptets := length septets in
  let packedLen := ((numSeptets * 7 + 7) `div` 8)%nat in
  packed ← index (pack_loop 0 septets (replicate packedLen 0));
  let fillBits := (packedLen * 8 - numSeptets * 7)%nat in
  packed ← index
    (if decide (fillBits = 7 ∧ 0 < packedLen)%nat then
       pad_loop (numSeptets * 7) (seq 0 7) packed
     else Some packed);
  Ret (packed, numSeptets).

(** ** Unpacking *)

Definition unpack_septet (data : bytes) (i : nat) : outcome coding_err Z :=
  let bitOffset := (i * 7)%nat in
  let bytePos := (bitOffset `div` 8)%nat in
  let bitPos := Z.of_nat (bitOffset `mod` 8)%nat in
  match data !! bytePos with
  | None => Fail (GSM7TooShort bytePos (length data))
  | Some b =>
      let s := Z.land (Z.shiftr b bitPos) 0x7F in
      match data !! (bytePos + 1)%nat with
      | Some b' =>
          if decide (1 < bitPos) then
            Ret (Z.lor s (Z.land (u8 (Z.shiftl b' (8 - bitPos))) 0x7F))
          else Ret s
      | None => Ret s
      end
  end.

Fixpoint unpack_loop (data : bytes) (is_ : list nat) : outcome coding_err bytes :=
  match is_ with
  | [] => Ret []
  | i :: is_ => s ← unpack_septet data i; ss ← unpack_loop data is_; Ret (s :: ss)
  end.

(** The second loop; [None] where [gsm7Default] would be indexed out of range. *)
Fixpoint gsm7_runes (escape : bool) (septets : bytes) : option (list rune) :=
  match septets with
  | [] => Some []
  | s :: septets =>
      if escape then
        let r := match gsm7Extension !! s with Some r => r | None => 0x20 end in
        rs ← gsm7_runes false septets; Some (r :: rs)
      else if decide (s = 0x1B) then gsm7_runes true septets
      else
        r ← gsm7Default !! Z.to_nat s;
        rs ← gsm7_runes false septets; Some (r :: rs)
  end.

(** [make([]byte, numSeptets)] panics for a negative count. *)
Definition DecodeGSM7 (data : bytes) (numSeptets : Z) : outcome coding_err bytes :=
  if decide (numSeptets < 0) then Panic
  else
    septets ← unpack_loop data (seq 0 (Z.to_nat numSeptets));
    rs ← index (gsm7_runes false septets);
    Ret (string_of_runes rs).

(** ** UCS-2, Latin-1 and IA5 *)

Definition EncodeUCS2 (text : bytes) : outcome coding_err bytes :=
  Ret (concat (PutUint16 <$> utf16_Encode (runes text))).

(** The big-endian 16-bit units of a byte sequence of even length. *)
Fixpoint u16_units (data : bytes) : list Z :=
  match data with
  | b0 :: b1 :: data => Z.lor b1 (Z.shiftl b0 8) :: u16_units data
  | _ => []
  end.

Definition DecodeUCS2 (data : bytes) : outcome coding_err bytes :=
  if decide (length data `mod` 2 ≠ 0)%nat then Fail (OddUCS2 (length data))
  else Ret (string_of_runes (utf16_Decode (u16_units data))).

Fixpoint latin1_bytes (rs : list rune) : outcome coding_err bytes :=
  match rs with
  | [] => Ret []
  | r :: rs =>
      if decide (0xFF < r) then Fail (NotLatin1 r)
      else bs ← latin1_bytes rs; Ret (u8 r :: bs)
  end.
Definition EncodeLatin1 (text : bytes) : outcome coding_err bytes := latin1_bytes (runes text).
Definition DecodeLatin1 (data : bytes) : outcome coding_err bytes := Ret (string_of_runes data).

Fixpoint ia5_bytes (rs : list rune) : outcome coding_err bytes :=
  match rs with
  | [] => Ret []
  | r :: rs =>
      if decide (0x7F < r) then Fail (NotIA5 r)
      else bs ← ia5_bytes rs; Ret (u8 r :: bs)
  end.
Definition EncodeIA5 (text : bytes) : outcome coding_err bytes := ia5_bytes (runes text).
Definition DecodeIA5 (data : bytes) : outcome coding_err bytes := Ret data.

(** ** Dispatch *)

Definition Encode (text : bytes) (coding : Z) : outcome coding_err bytes :=
  if decide (coding = DataCodingDefault) then pn ← EncodeGSM7 text; Ret (pn.1)
  else if decide (coding = DataCodingIA5) then EncodeIA5 text
  else if decide (coding = DataCodingLatin1) then EncodeLatin1 text
  else if decide (coding = DataCodingBinary) then Ret text
  else if decide (coding = DataCodingUCS2) then EncodeUCS2 text
  else Fail (UnsupportedCoding coding).

Definition Decode (data : bytes) (coding : Z) : outcome coding_err bytes :=
  if decide (coding = DataCodingDefault) then
    let numSeptets := zlen data * 8 / 7 in
    DecodeGSM7 data numSeptets
  else if decide (coding = DataCodingIA5) then DecodeIA5 data
  else if decide (coding = DataCodingLatin1) then DecodeLatin1 data
  else if decide (coding = DataCodingBinary) then Ret data
  else if decide (coding = DataCodingUCS2) then DecodeUCS2 data
  else Fail (UnsupportedCoding coding).

(** The loop of [DetectCoding]: a round consumes at least one byte. *)
Fixpoint detect_loop (fuel : nat) (text : bytes) : Z :=
  match fuel, text with
  | S fuel, _ :: _ =>
      let '(r, size) := DecodeRune text in
      if isGSM7 r then detect_loop fuel (drop size text) else DataCodingUCS2
  | _, _ => DataCodingDefault
  end.
Definition DetectCoding (text : bytes) : Z := detect_loop (length text) text.

(** ** Bit streams

    The packed form is the sequence of the septets' bits, lowest first, cut into
    bytes. *)

(** Bit [k] of a byte sequence and of a septet sequence. *)
Definition byte_bit (l : bytes) (k : nat) : bool :=
  Z.testbit (default 0 (l !! (k `div` 8)%nat)) (Z.of_nat (k `mod` 8)%nat).
Definition septet_bit (ss : bytes) (k : nat) : bool :=
  Z.testbit (default 0 (ss !! (k `div` 7)%nat)) (Z.of_nat (k `mod` 7)%nat).

Definition septet_ok (s : Z) : Prop := 0 <= s < 128.

Ltac ndiv := zify; Z.to_euclidean_division_equations; lia.

Lemma testbit_above x n i : 0 <= x < 2 ^ n → n <= i → Z.testbit x i = false.
Proof.
  intros Hx Hi. destruct (decide (x = 0)) as [->|]; [apply Z.bits_0|].
  apply Z.bits_above_log2; [lia|]. apply Z.log2_lt_pow2; [lia|].
  apply Z.lt_le_trans with (2 ^ n); [lia|]. apply Z.pow_le_mono_r; lia.
Qed.

Lemma lor_byte a b : byte_ok a → byte_ok b → byte_ok (Z.lor a b).
Proof.
  unfold byte_ok. intros Ha Hb.
  assert (0 <= Z.lor a b) as H0 by (apply Z.lor_nonneg; lia).
  assert (∀ x, 0 <= x < 256 → x = 0 ∨ Z.log2 x < 8) as Hlog.
  { intros x Hx. destruct (decide (x = 0)); [by left|right]. apply Z.log2_lt_pow2; lia. }
  split; [done|]. destruct (decide (Z.lor a b = 0)) as [->|]; [lia|].
  apply (Z.log2_lt_pow2 _ 8); [lia|]. rewrite Z.log2_lor by lia.
  destruct (Hlog a Ha) as [->|], (Hlog b Hb) as [->|]; simpl; try lia.
Qed.

Lemma u8_testbit z i : 0 <= i < 8 → Z.testbit (u8 z) i = Z.testbit z i.
Proof. intros. unfold u8. apply Z.mod_pow2_bits_low. lia. Qed.

(** What [buf[i] |= v] does to the bit stream. *)
Lemma or_at_spec i v buf :
  (i < length buf)%nat → bytes_ok buf → byte_ok v →
  ∃ buf', or_at i v buf = Some buf' ∧ length buf' = length buf ∧ bytes_ok buf' ∧
    ∀ k, byte_bit buf' k =
         byte_bit buf k || (bool_decide (k `div` 8 = i)%nat && Z.testbit v (Z.of_nat (k `mod` 8))).
Proof.
  intros Hi Hb Hv. unfold or_at. destruct (lookup_lt_is_Some_2 buf i Hi) as [b Eb]. rewrite Eb.
  eexists. split; [done|]. split; [apply length_insert|]. split.
  { apply Forall_insert; [done|]. apply lor_byte; [|done]. by eapply Forall_lookup_1. }
  intros k. unfold byte_bit. case_bool_decide as Hk.
  - rewrite Hk, list_lookup_insert_eq, Eb by done. simpl. by rewrite Z.lor_spec.
  - rewrite list_lookup_insert_ne by done. by rewrite orb_false_r.
Qed.

(** Packing a septet sets its seven bits. *)
Lemma pack_septet_spec i s packed :
  septet_ok s → ((i * 7) `div` 8 < length packed)%nat → bytes_ok packed →
  ∃ packed', pack_septet i s packed = Some packed' ∧ length packed' = length packed ∧
    bytes_ok packed' ∧
    ∀ k, (k < 8 * length packed)%nat → byte_bit packed' k =
      byte_bit packed k || (bool_decide (i * 7 <= k)%nat && Z.testbit s (Z.of_nat (k - i * 7))).
Proof.
  unfold septet_ok. intros Hs Hi Hb. unfold pack_septet.
  set (bp := ((i * 7) `div` 8)%nat) in *. set (bo := ((i * 7) `mod` 8)%nat).
  assert (i * 7 = 8 * bp + bo ∧ bo < 8)%nat as [Hio Hbo] by (unfold bp, bo; ndiv).
  destruct (or_at_spec bp (u8 (Z.shiftl s (Z.of_nat bo))) packed Hi Hb (u8_ok _))
    as (p1 & -> & Hl1 & Hb1 & Hk1). cbn [mbind option_bind].
  assert (∀ k, k `div` 8 = bp → Z.testbit (u8 (Z.shiftl s (Z.of_nat bo))) (Z.of_nat (k `mod` 8))
    = bool_decide (i * 7 <= k) && Z.testbit s (Z.of_nat (k - i * 7)))%nat as Hlow.
  { intros k Hk. assert (k = 8 * bp + k `mod` 8 ∧ k `mod` 8 < 8)%nat as [? ?] by (rewrite <-Hk; ndiv).
    rewrite u8_testbit by lia. case_bool_decide.
    - rewrite Z.shiftl_spec by lia. cbn [andb]. f_equal. lia.
    - rewrite Z.shiftl_spec_low by lia. done. }
  assert (∀ k, Z.testbit s (Z.of_nat (k - i * 7)) = true → i * 7 <= k → k < i * 7 + 7)%nat as Hhigh.
  { intros k Ht Hk. destruct (decide (k < i * 7 + 7)%nat); [done|].
    rewrite (testbit_above s 7) in Ht by lia. done. }
  case_decide as Hc.
  - assert (byte_ok (Z.shiftr s (8 - Z.of_nat bo))) as Hsb.
    { unfold byte_ok. rewrite Z.shiftr_div_pow2 by lia.
      pose proof (Z.pow_pos_nonneg 2 (8 - Z.of_nat bo)). split.
      - apply Z.div_pos; lia.
      - apply Z.div_lt_upper_bound; nia. }
    destruct (or_at_spec (bp + 1) _ p1 ltac:(lia) Hb1 Hsb) as (p2 & -> & Hl2 & Hb2 & Hk2).
    eexists. split; [done|]. split; [lia|]. split; [done|]. intros k Hk.
    rewrite Hk2, Hk1. rewrite <-orb_assoc. f_equal.
    assert (k = 8 * (k `div` 8) + k `mod` 8 ∧ k `mod` 8 < 8)%nat as [? ?] by ndiv.
    case_bool_decide as E1; case_bool_decide as E2; try lia.
    + rewrite Hlow by done. by rewrite orb_false_r.
    + cbn [andb orb]. rewrite Z.shiftr_spec by lia. rewrite bool_decide_eq_true_2 by lia.
      cbn [andb]. f_equal. lia.
    + cbn [andb orb]. case_bool_decide; [|done]. cbn [andb].
      destruct (Z.testbit s _) eqn:Et; [|done]. apply Hhigh in Et; lia.
  - eexists. split; [done|]. split; [done|]. split; [done|]. intros k Hk.
    rewrite Hk1. f_equal.
    assert (k = 8 * (k `div` 8) + k `mod` 8 ∧ k `mod` 8 < 8)%nat as [? ?] by ndiv.
    case_bool_decide as E1; [by rewrite Hlow|]. cbn [andb].
    case_bool_decide; [|done]. cbn [andb].
    destruct (Z.testbit s _) eqn:Et; [|done]. apply Hhigh in Et; lia.
Qed.

Lemma septet_bit_cons s ss k :
  septet_bit (s :: ss) k =
  if decide (k < 7)%nat then Z.testbit s (Z.of_nat k) else septet_bit ss (k - 7).
Proof.
  unfold septet_bit. case_decide as Hk.
  - rewrite Nat.div_small, Nat.mod_small by lia. done.
  - replace (k `div` 7)%nat with (S ((k - 7) `div` 7))%nat by ndiv.
    replace (k `mod` 7)%nat with ((k - 7) `mod` 7)%nat by ndiv. done.
Qed.

Lemma septet_bit_nil k : septet_bit [] k = false.
Proof. apply Z.bits_0. Qed.

Lemma byte_bit_zero n k : byte_bit (replicate n 0) k = false.
Proof.
  unfold byte_bit. destruct (replicate n 0 !! _) as [b|] eqn:E; [|apply Z.bits_0].
  apply lookup_replicate in E as [-> _]. apply Z.bits_0.
Qed.

(** The packing loop appends the bits of its septets. *)
Lemma pack_loop_spec septets : ∀ i packed,
  Forall septet_ok septets → ((i + length septets) * 7 <= 8 * length packed)%nat →
  bytes_ok packed →
  ∃ packed', pack_loop i septets packed = Some packed' ∧ length packed' = length packed ∧
    bytes_ok packed' ∧
    ∀ k, (k < 8 * length packed)%nat → byte_bit packed' k =
      byte_bit packed k || (bool_decide (i * 7 <= k)%nat && septet_bit septets (k - i * 7)).
Proof.
  induction septets as [|s ss IH]; intros i packed Hss Hlen Hb; cbn [length pack_loop] in *.
  - eexists. split; [done|]. split; [done|]. split; [done|]. intros k _.
    by rewrite septet_bit_nil, andb_false_r, orb_false_r.
  - apply Forall_cons in Hss as [Hs Hss].
    destruct (pack_septet_spec i s packed Hs ltac:(ndiv) Hb) as (p1 & -> & Hl1 & Hb1 & Hk1).
    cbn [mbind option_bind].
    destruct (IH (S i) p1 Hss ltac:(lia) Hb1) as (p2 & -> & Hl2 & Hb2 & Hk2).
    eexists. split; [done|]. split; [lia|]. split; [done|]. intros k Hk.
    rewrite Hk2, Hk1, <-orb_assoc by lia. f_equal. rewrite septet_bit_cons.
    destruct (decide (i * 7 <= k)%nat) as [H1|H1].
    + rewrite (bool_decide_eq_true_2 (i * 7 <= k)%nat) by done. cbn [andb].
      case_decide as H2.
      * rewrite (bool_decide_eq_false_2 (S i * 7 <= k)%nat) by lia. apply orb_false_r.
      * rewrite (bool_decide_eq_true_2 (S i * 7 <= k)%nat) by lia. cbn [andb].
        unfold septet_ok in Hs. rewrite (testbit_above s 7) by lia. cbn [orb]. f_equal. lia.
    + by rewrite !bool_decide_eq_false_2 by lia.
Qed.

Lemma land_shiftr_1 x i : 0 <= i → Z.land (Z.shiftr x i) 1 = Z.b2z (Z.testbit x i).
Proof.
  intros Hi. rewrite (land_ones_mod _ 1) by done.
  by rewrite Z.testbit_spec', Z.shiftr_div_pow2 by done.
Qed.

Lemma testbit_b2z_shiftl b n m :
  0 <= n → 0 <= m → Z.testbit (Z.shiftl (Z.b2z b) n) m = bool_decide (m = n) && b.
Proof.
  intros Hn Hm. case_bool_decide as E.
  - subst m. rewrite Z.shiftl_spec, Z.sub_diag by lia. by destruct b.
  - destruct (decide (m < n)); [by rewrite Z.shiftl_spec_low|].
    rewrite Z.shiftl_spec by lia. destruct b; [|apply Z.bits_0].
    apply Z.bits_above_log2; simpl; lia.
Qed.

(** The padding loop sets the bits of the carriage return. *)
Lemma pad_loop_spec start is_ : ∀ packed,
  Forall (λ i, start + i < 8 * length packed)%nat is_ → bytes_ok packed →
  ∃ packed', pad_loop start is_ packed = Some packed' ∧ length packed' = length packed ∧
    bytes_ok packed' ∧
    ∀ k, byte_bit packed' k =
      byte_bit packed k ||
      existsb (λ i, bool_decide (k = start + i)%nat && Z.testbit 0x0D (Z.of_nat i)) is_.
Proof.
  induction is_ as [|i is_ IH]; intros packed Hi Hb; cbn [pad_loop existsb].
  - eexists. split; [done|]. split; [done|]. split; [done|]. intros k. by rewrite orb_false_r.
  - apply Forall_cons in Hi as [Hi0 Hi].
    rewrite decide_True by ndiv.
    destruct (or_at_spec ((start + i) `div` 8)%nat (u8 (Z.shiftl (Z.land (Z.shiftr 0x0D
      (Z.of_nat i)) 1) (Z.of_nat ((start + i) `mod` 8)%nat))) packed ltac:(ndiv) Hb (u8_ok _))
      as (p1 & -> & Hl1 & Hb1 & Hk1). cbn [mbind option_bind].
    destruct (IH p1) as (p2 & -> & Hl2 & Hb2 & Hk2); [by rewrite Hl1|done|].
    eexists. split; [done|]. split; [lia|]. split; [done|]. intros k.
    rewrite Hk2, Hk1, <-orb_assoc. do 2 f_equal.
    assert (k `mod` 8 < 8)%nat by ndiv.
    rewrite u8_testbit by lia.
    rewrite land_shiftr_1, testbit_b2z_shiftl by lia. rewrite andb_assoc. f_equal.
    repeat case_bool_decide; try done; exfalso; ndiv.
Qed.

Lemma existsb_cr start k :
  existsb (λ i, bool_decide (k = start + i)%nat && Z.testbit 0x0D (Z.of_nat i)) (seq 0 7) =
  bool_decide (start <= k)%nat && septet_bit [0x0D] (k - start).
Proof.
  rewrite septet_bit_cons, septet_bit_nil. destruct (decide (start <= k)%nat) as [H1|H1].
  - rewrite (bool_decide_eq_true_2 (start <= k)%nat) by done. cbn [andb].
    assert (∃ j, k = start + j)%nat as [j ->] by (exists (k - start)%nat; lia).
    replace (start + j - start)%nat with j by lia.
    case_decide as H2.
    + destruct j as [|[|[|[|[|[|[|j]]]]]]]; [..|lia]; cbn [seq existsb];
        repeat case_bool_decide; try lia; reflexivity.
    + cbn [seq existsb]. by repeat rewrite bool_decide_eq_false_2 by lia.
  - rewrite (bool_decide_eq_false_2 (start <= k)%nat) by done.
    cbn [seq existsb]. by repeat rewrite bool_decide_eq_false_2 by lia.
Qed.

Lemma septet_bit_app ss r k :
  septet_bit (ss ++ r) k =
  if decide (k < 7 * length ss)%nat then septet_bit ss k else septet_bit r (k - 7 * length ss).
Proof.
  unfold septet_bit. case_decide as Hk.
  - by rewrite lookup_app_l by ndiv.
  - rewrite lookup_app_r by ndiv.
    replace ((k - 7 * length ss) `div` 7)%nat with (k `div` 7 - length ss)%nat by ndiv.
    by replace ((k - 7 * length ss) `mod` 7)%nat with (k `mod` 7)%nat by ndiv.
Qed.

Lemma septet_bit_beyond ss k : (7 * length ss <= k)%nat → septet_bit ss k = false.
Proof.
  intros. unfold septet_bit. rewrite lookup_ge_None_2 by ndiv. apply Z.bits_0.
Qed.

(** The septets on the wire: a CR fills the last byte when seven bits are left. *)
Definition wire_septets (ss : bytes) : bytes :=
  if decide (length ss `mod` 8 = 7)%nat then ss ++ [0x0D] else ss.

Lemma EncodeGSM7_septets text ss :
  gsm7_septets (runes text) [] = Ret ss → Forall septet_ok ss →
  ∃ packed, EncodeGSM7 text = Ret (packed, length ss) ∧
    length packed = ((length ss * 7 + 7) `div` 8)%nat ∧ bytes_ok packed ∧
    ∀ k, (k < 8 * length packed)%nat → byte_bit packed k = septet_bit (wire_septets ss) k.
Proof.
  intros Ess Hss. unfold EncodeGSM7. rewrite Ess. cbn [mbind outcome_bind].
  set (n := length ss). set (L := ((n * 7 + 7) `div` 8)%nat).
  destruct (pack_loop_spec ss 0 (replicate L 0)) as (p1 & E1 & Hl1 & Hb1 & Hk1); [done| | |].
  { rewrite length_replicate. unfold L, n. ndiv. }
  { apply Forall_replicate. unfold byte_ok. lia. }
  rewrite length_replicate in Hl1, Hk1. rewrite E1. cbn [index mbind outcome_bind].
  assert (∀ k, (k < 8 * L)%nat → byte_bit p1 k = septet_bit ss k) as Hk1'.
  { intros k Hk. rewrite Hk1, byte_bit_zero by done. cbn. by rewrite Nat.sub_0_r. }
  unfold wire_septets. fold n. case_decide as Hf.
  - rewrite decide_True by (unfold L in *; ndiv).
    destruct (pad_loop_spec (n * 7) (seq 0 7) p1) as (p2 & E2 & Hl2 & Hb2 & Hk2); [|done|].
    { apply Forall_seq. intros j Hj. rewrite Hl1. unfold L in *. ndiv. }
    rewrite E2. cbn [index mbind outcome_bind]. eexists. split; [done|].
    split; [lia|]. split; [done|]. intros k Hk.
    rewrite Hk2, existsb_cr, Hk1', septet_bit_app by lia. fold n.
    replace (7 * n)%nat with (n * 7)%nat by lia. case_decide as Hc.
    + rewrite bool_decide_eq_false_2 by lia. by rewrite orb_false_r.
    + rewrite bool_decide_eq_true_2 by lia. by rewrite septet_bit_beyond by lia.
  - rewrite decide_False by (unfold L in *; ndiv). eexists. split; [done|].
    split; [done|]. split; [done|]. intros k Hk. apply Hk1'. lia.
Qed.

(** Unpacking reads seven consecutive bits. *)
Lemma unpack_septet_spec data i :
  bytes_ok data → ((i * 7) `div` 8 < length data)%nat →
  ∃ s, unpack_septet data i = Ret s ∧ septet_ok s ∧
    ∀ j, (j < 7)%nat → Z.testbit s (Z.of_nat j) = byte_bit data (i * 7 + j).
Proof.
  intros Hb Hi. unfold unpack_septet.
  set (bp := ((i * 7) `div` 8)%nat) in *. set (bo := ((i * 7) `mod` 8)%nat).
  assert (i * 7 = 8 * bp + bo ∧ bo < 8)%nat as [Hio Hbo] by (unfold bp, bo; ndiv).
  destruct (lookup_lt_is_Some_2 data bp Hi) as [b Eb]. rewrite Eb.
  assert (∀ x, septet_ok (Z.land x 0x7F)) as Hland.
  { intros x. rewrite land_7F. unfold septet_ok. zdiv. }
  assert (∀ x j, (j < 7)%nat → Z.testbit (Z.land x 0x7F) (Z.of_nat j) = Z.testbit x (Z.of_nat j))
    as Htb.
  { intros x j Hj. rewrite land_7F. change 128 with (2 ^ 7). apply Z.mod_pow2_bits_low. lia. }
  assert (byte_ok b) as Hbb by (by eapply Forall_lookup_1). unfold byte_ok in Hbb.
  assert (∀ j, (bo + j < 8)%nat → byte_bit data (i * 7 + j) = Z.testbit b (Z.of_nat (bo + j))) as Hin.
  { intros j Hj. unfold byte_bit. replace ((i * 7 + j) `div` 8)%nat with bp by ndiv.
    rewrite Eb. cbn [default]. f_equal. ndiv. }
  assert (∀ j, (j < 7)%nat → ¬ (bo + j < 8)%nat →
    byte_bit data (i * 7 + j) =
    Z.testbit (default 0 (data !! (bp + 1)%nat)) (Z.of_nat (bo + j - 8))) as Hout.
  { intros j Hj Hj'. unfold byte_bit. replace ((i * 7 + j) `div` 8)%nat with (bp + 1)%nat by ndiv.
    f_equal. ndiv. }
  assert (∀ j, (j < 7)%nat → (bo <= 1 ∨ length data <= bp + 1)%nat →
    Z.testbit (Z.land (Z.shiftr b (Z.of_nat bo)) 0x7F) (Z.of_nat j) = byte_bit data (i * 7 + j))
    as Hone.
  { intros j Hj Hor. rewrite Htb, Z.shiftr_spec by lia.
    destruct (decide (bo + j < 8)%nat) as [Hc|Hc].
    - rewrite Hin by done. f_equal. lia.
    - rewrite Hout, (testbit_above b 8) by lia. rewrite lookup_ge_None_2 by lia.
      by rewrite Z.bits_0. }
  destruct (data !! (bp + 1)%nat) as [b'|] eqn:Eb'.
  - case_decide as Hc.
    + eexists. split; [done|]. split.
      { unfold septet_ok. rewrite !land_7F. split; [apply Z.lor_nonneg; split; zdiv|].
        rewrite <-(Z.mod_small _ (2 ^ 8)).
        2: { apply lor_byte; unfold byte_ok; zdiv. }
        change 128 with (2 ^ 7). rewrite <-!Z.land_ones by lia.
        rewrite <-Z.land_lor_distr_l, Z.land_ones, Z.land_ones by lia. zdiv. }
      intros j Hj. rewrite Z.lor_spec, !Htb, Z.shiftr_spec, u8_testbit by lia.
      destruct (decide (bo + j < 8)%nat) as [Hd|Hd].
      * rewrite Hin, Z.shiftl_spec_low by lia. rewrite orb_false_r. f_equal. lia.
      * rewrite Hout, (testbit_above b 8), Z.shiftl_spec by lia. simpl. f_equal. lia.
    + eexists. split; [done|]. split; [done|]. intros j Hj. apply Hone; lia.
  - apply lookup_ge_None in Eb'. eexists. split; [done|]. split; [done|].
    intros j Hj. apply Hone; lia.
Qed.

Lemma septet_eq s t :
  septet_ok s → septet_ok t →
  (∀ j, (j < 7)%nat → Z.testbit s (Z.of_nat j) = Z.testbit t (Z.of_nat j)) → s = t.
Proof.
  unfold septet_ok. intros Hs Ht H. apply Z.bits_inj'. intros i Hi.
  destruct (decide (i < 7)).
  - rewrite <-(Z2Nat.id i) by done. apply H. lia.
  - rewrite !(testbit_above _ 7) by lia. done.
Qed.

(** Unpacking the stream of some septets gives them back. *)
Lemma unpack_loop_spec data ss n : ∀ i,
  bytes_ok data → Forall septet_ok ss →
  (∀ k, (k < 8 * length data)%nat → byte_bit data k = septet_bit ss k) →
  (i + n <= length ss)%nat → ((i + n) * 7 <= 8 * length data)%nat →
  unpack_loop data (seq i n) = Ret (take n (drop i ss)).
Proof.
  induction n as [|n IH]; intros i Hb Hss Hk Hn Hl; [done|]. cbn [seq unpack_loop].
  destruct (unpack_septet_spec data i Hb ltac:(ndiv)) as (s & -> & Hs & Hj).
  cbn [mbind outcome_bind]. rewrite IH by (done || lia). cbn [mbind outcome_bind].
  destruct (lookup_lt_is_Some_2 ss i ltac:(lia)) as [t Et].
  rewrite (drop_S ss t i Et). cbn [take]. do 2 f_equal.
  apply septet_eq; [done|by eapply Forall_lookup_1|]. intros j Hj7.
  rewrite Hj, Hk by lia. unfold septet_bit.
  replace ((i * 7 + j) `div` 7)%nat with i by ndiv.
  replace ((i * 7 + j) `mod` 7)%nat with j by ndiv. by rewrite Et.
Qed.

(** ** The alphabet tables *)

Lemma unicodeToGSM7_spec r c :
  unicodeToGSM7 !! r = Some c →
  septet_ok c ∧ c ≠ 0x1B ∧ gsm7Default !! Z.to_nat c = Some r ∧ r ≠ RuneError.
Proof.
  assert (map_Forall (λ r c, 0 <= c < 128 ∧ c ≠ 0x1B ∧
    gsm7Default !! Z.to_nat c = Some r ∧ r ≠ RuneError) unicodeToGSM7) as H.
  { apply (bool_decide_unpack _). vm_compute. exact I. }
  apply H.
Qed.

Lemma unicodeToGSM7Ext_spec r c :
  unicodeToGSM7Ext !! r = Some c →
  septet_ok c ∧ gsm7Extension !! c = Some r ∧ r ≠ RuneError.
Proof.
  assert (map_Forall (λ r c, 0 <= c < 128 ∧ gsm7Extension !! c = Some r ∧ r ≠ RuneError)
    unicodeToGSM7Ext) as H.
  { apply (bool_decide_unpack _). vm_compute. exact I. }
  apply H.
Qed.

(** The septets of one rune. *)
Definition rune_septets (r : rune) : bytes :=
  match unicodeToGSM7 !! r with
  | Some c => [c]
  | None => match unicodeToGSM7Ext !! r with Some e => [0x1B; e] | None => [] end
  end.

#[global] Arguments unicodeToGSM7 : simpl never.
#[global] Arguments unicodeToGSM7Ext : simpl never.
#[global] Arguments isGSM7 : simpl never.
#[global] Arguments gsm7Len : simpl never.
#[global] Arguments rune_septets : simpl never.

Lemma isGSM7_true r : isGSM7 r = true ↔ rune_septets r ≠ [].
Proof.
  unfold isGSM7, rune_septets. destruct (unicodeToGSM7 !! r); [by split|].
  destruct (unicodeToGSM7Ext !! r); [by split|]. split; [|done].
  rewrite bool_decide_eq_true. by intros [? [=]].
Qed.

Lemma gsm7Len_septets r :
  gsm7Len r = if isGSM7 r then zlen (rune_septets r) else -1.
Proof.
  unfold gsm7Len, isGSM7, rune_septets. destruct (unicodeToGSM7 !! r); [done|].
  by destruct (unicodeToGSM7Ext !! r).
Qed.

(** The first pass, on all branches. *)
Lemma gsm7_septets_spec rs : ∀ acc,
  gsm7_septets rs acc =
  match list_find (λ r, isGSM7 r = false) rs with
  | Some (_, r) => Fail (NotGSM7 r)
  | None => Ret (acc ++ concat (rune_septets <$> rs))
  end.
Proof.
  induction rs as [|r rs IH]; intros acc; cbn [gsm7_septets list_find].
  - by rewrite app_nil_r.
  - rewrite fmap_cons. cbn [concat]. unfold rune_septets at 1.
    destruct (decide (isGSM7 r = false)) as [Hg|Hg]; unfold isGSM7 in Hg;
      destruct (unicodeToGSM7 !! r) as [c|] eqn:Ec;
      destruct (unicodeToGSM7Ext !! r) as [e|] eqn:Ee; try done.
    all: rewrite IH; destruct (list_find _ rs) as [[? ?]|]; simpl; [done|];
      by rewrite <-app_assoc.
Qed.

Lemma rune_septets_ok r : Forall septet_ok (rune_septets r).
Proof.
  unfold rune_septets. destruct (unicodeToGSM7 !! r) as [c|] eqn:Ec.
  { apply unicodeToGSM7_spec in Ec as [? _]. by apply Forall_singleton. }
  destruct (unicodeToGSM7Ext !! r) as [e|] eqn:Ee; [|constructor].
  apply unicodeToGSM7Ext_spec in Ee as [? _].
  constructor; [unfold septet_ok; lia|by apply Forall_singleton].
Qed.

Lemma septets_ok rs : Forall septet_ok (concat (rune_septets <$> rs)).
Proof.
  induction rs as [|r rs IH]; [constructor|]. rewrite fmap_cons. cbn [concat].
  apply Forall_app_2; [apply rune_septets_ok|done].
Qed.

(** Reading the septets of one rune. *)
Lemma gsm7_runes_rune r rest :
  isGSM7 r = true →
  gsm7_runes false (rune_septets r ++ rest) = (r ::.) <$> gsm7_runes false rest.
Proof.
  intros Hg. rewrite isGSM7_true in Hg. unfold rune_septets in *.
  destruct (unicodeToGSM7 !! r) as [c|] eqn:Ec.
  { apply unicodeToGSM7_spec in Ec as (_ & Hne & El & _). cbn [app gsm7_runes].
    rewrite decide_False, El by done. by destruct (gsm7_runes false rest). }
  destruct (unicodeToGSM7Ext !! r) as [e|] eqn:Ee; [|done].
  apply unicodeToGSM7Ext_spec in Ee as (_ & El & _). cbn [app gsm7_runes].
  rewrite decide_True, El by done. by destruct (gsm7_runes false rest).
Qed.

Lemma gsm7_runes_septets rs rest :
  Forall (λ r, isGSM7 r = true) rs →
  gsm7_runes false (concat (rune_septets <$> rs) ++ rest) = (rs ++.) <$> gsm7_runes false rest.
Proof.
  induction 1 as [|r rs Hr _ IH].
  - simpl. by destruct (gsm7_runes false rest).
  - rewrite fmap_cons. cbn [concat]. rewrite <-app_assoc, gsm7_runes_rune, IH by done.
    by destruct (gsm7_runes false rest).
Qed.

Lemma isGSM7_not_error r : isGSM7 r = true → r ≠ RuneError.
Proof.
  rewrite isGSM7_true. unfold rune_septets. destruct (unicodeToGSM7 !! r) as [c|] eqn:Ec.
  { by apply unicodeToGSM7_spec in Ec as (_ & _ & _ & ?). }
  destruct (unicodeToGSM7Ext !! r) as [e|] eqn:Ee; [|done].
  by apply unicodeToGSM7Ext_spec in Ee as (_ & _ & ?).
Qed.

Lemma list_find_all_GSM7 rs :
  list_find (λ r, isGSM7 r = false) rs = None → Forall (λ r, isGSM7 r = true) rs.
Proof.
  intros H. apply list_find_None in H. eapply Forall_impl; [done|]. intros r. simpl.
  by destruct (isGSM7 r).
Qed.

(** All there is to know of a successful encoding. *)
Lemma EncodeGSM7_spec text :
  match list_find (λ r, isGSM7 r = false) (runes text) with
  | Some (_, r) => EncodeGSM7 text = Fail (NotGSM7 r)
  | None =>
      let ss := concat (rune_septets <$> runes text) in
      ∃ packed, EncodeGSM7 text = Ret (packed, length ss) ∧
        length packed = ((length ss * 7 + 7) `div` 8)%nat ∧ bytes_ok packed ∧
        ∀ k, (k < 8 * length packed)%nat → byte_bit packed k = septet_bit (wire_septets ss) k
  end.
Proof.
  pose proof (gsm7_septets_spec (runes text) []) as H.
  destruct (list_find _ (runes text)) as [[? r]|].
  - unfold EncodeGSM7. by rewrite H.
  - apply EncodeGSM7_septets; [done|apply septets_ok].
Qed.

Lemma wire_septets_ok ss : Forall septet_ok ss → Forall septet_ok (wire_septets ss).
Proof.
  intros. unfold wire_septets. case_decide; [|done].
  apply Forall_app_2; [done|]. constructor; [unfold septet_ok; lia|constructor].
Qed.

(** Decoding [n] septets of the stream of some septets. *)
Lemma DecodeGSM7_stream data ss n :
  bytes_ok data → Forall septet_ok ss →
  (∀ k, (k < 8 * length data)%nat → byte_bit data k = septet_bit ss k) →
  (n <= length ss)%nat → (n * 7 <= 8 * length data)%nat →
  DecodeGSM7 data (Z.of_nat n) =
  rs ← index (gsm7_runes false (take n ss)); Ret (string_of_runes rs).
Proof.
  intros. unfold DecodeGSM7. rewrite decide_False by lia. rewrite Nat2Z.id.
  by rewrite (unpack_loop_spec data ss n 0) by done.
Qed.

Lemma GSM7_text text :
  bytes_ok text → Forall (λ r, isGSM7 r = true) (runes text) →
  string_of_runes (runes text) = text.
Proof.
  intros Hb Hg. apply string_of_runes_runes; [done|]. intros Hin.
  rewrite Forall_forall in Hg. by apply Hg, isGSM7_not_error in Hin.
Qed.

Lemma DecodeGSM7_EncodeGSM7 text packed n :
  bytes_ok text → EncodeGSM7 text = Ret (packed, n) → DecodeGSM7 packed (Z.of_nat n) = Ret text.
Proof.
  intros Hb He. pose proof (EncodeGSM7_spec text) as H.
  destruct (list_find _ (runes text)) as [[i r]|] eqn:E; [by rewrite H in He|].
  destruct H as (packed' & He' & Hl & Hok & Hk). rewrite He' in He. injection He as -> <-.
  apply list_find_all_GSM7 in E. set (ss := concat _) in *.
  rewrite (DecodeGSM7_stream packed (wire_septets ss)).
  - assert (take (length ss) (wire_septets ss) = ss ++ []) as ->.
    { rewrite app_nil_r. unfold wire_septets.
      case_decide; [apply take_app_length|by apply take_ge]. }
    unfold ss. rewrite gsm7_runes_septets by done. simpl. rewrite app_nil_r.
    by rewrite GSM7_text.
  - done.
  - apply wire_septets_ok, septets_ok.
  - done.
  - unfold wire_septets. case_decide; len.
  - rewrite Hl. ndiv.
Qed.

(** ** The other codings *)

Lemma u16_units_Put us r : Forall u16_ok us →
  u16_units (concat (PutUint16 <$> us) ++ r) = us ++ u16_units r.
Proof.
  induction 1 as [|u us Hu _ IH]; [done|].
  rewrite fmap_cons. cbn [concat app]. rewrite <-IH.
  pose proof (Uint16_Put u (concat (PutUint16 <$> us) ++ r)) as E.
  rewrite (u16_id u Hu) in E. unfold PutUint16 in *. cbn [app] in *.
  cbn [u16_units]. f_equal. simpl in E. by injection E.
Qed.

Lemma length_concat_PutUint16 us : length (concat (PutUint16 <$> us)) = (2 * length us)%nat.
Proof. induction us as [|u us IH]; [done|]. rewrite fmap_cons. simpl. lia. Qed.

Lemma latin1_bytes_spec rs : Forall valid_rune rs → ∀ bs,
  latin1_bytes rs = Ret bs → bs = rs ∧ Forall (λ r, r <= 0xFF) rs.
Proof.
  induction 1 as [|r rs Hr _ IH]; intros bs H; cbn [latin1_bytes] in H.
  { injection H as <-. done. }
  case_decide; [done|]. destruct (latin1_bytes rs) as [bs'| |]; try done.
  injection H as <-. destruct (IH bs' eq_refl) as [-> ?].
  split; [|constructor; [lia|done]]. f_equal. apply u8_id.
  unfold valid_rune, byte_ok in *. lia.
Qed.

Lemma ia5_bytes_spec rs : Forall valid_rune rs → ∀ bs,
  ia5_bytes rs = Ret bs → bs = rs ∧ Forall (λ r, r <= 0x7F) rs.
Proof.
  induction 1 as [|r rs Hr _ IH]; intros bs H; cbn [ia5_bytes] in H.
  { injection H as <-. done. }
  case_decide; [done|]. destruct (ia5_bytes rs) as [bs'| |]; try done.
  injection H as <-. destruct (IH bs' eq_refl) as [-> ?].
  split; [|constructor; [lia|done]]. f_equal. apply u8_id.
  unfold valid_rune, byte_ok in *. lia.
Qed.

Lemma small_not_error m rs : m < RuneError → Forall (λ r, r <= m) rs → RuneError ∉ rs.
Proof. intros Hm Hs Hin. rewrite Forall_forall in Hs. apply Hs in Hin. lia. Qed.

Lemma string_of_ascii rs :
  Forall valid_rune rs → Forall (λ r, r <= 0x7F) rs → string_of_runes rs = rs.
Proof.
  induction 1 as [|r rs Hr _ IH]; intros Hs; [done|]. apply Forall_cons in Hs as [H0 Hs].
  unfold string_of_runes. rewrite fmap_cons. cbn [concat]. fold (string_of_runes rs).
  rewrite IH by done. unfold EncodeRune. unfold valid_rune in Hr.
  by rewrite decide_True by lia.
Qed.

(** The text consists of valid UTF-8 sequences, none of them U+FFFD. *)
Definition valid_text (text : bytes) : Prop := bytes_ok text ∧ RuneError ∉ runes text.

Lemma detect_loop_runes fuel : ∀ text,
  bytes_ok text → (length text <= fuel)%nat →
  detect_loop fuel text =
  if decide (Forall (λ r, isGSM7 r = true) (runes text)) then DataCodingDefault
  else DataCodingUCS2.
Proof.
  induction fuel as [|fuel IH]; intros [|b text] Hb Hl; try (simpl in Hl; lia); [done..|].
  cbn [detect_loop]. destruct (DecodeRune (b :: text)) as [r sz] eqn:E.
  pose proof (DecodeRune_size _ _ _ Hb ltac:(done) E).
  rewrite (runes_step _ r sz) by done. destruct (isGSM7 r) eqn:Er.
  - rewrite IH.
    + apply decide_ext. rewrite Forall_cons, Er. naive_solver.
    + by apply bytes_ok_drop.
    + rewrite length_drop. simpl in *. lia.
  - rewrite decide_False; [done|]. rewrite Forall_cons, Er. naive_solver.
Qed.

Lemma DetectCoding_GSM7 text :
  bytes_ok text →
  DetectCoding text = DataCodingDefault ↔ Forall (λ r, isGSM7 r = true) (runes text).
Proof.
  intros Hb. unfold DetectCoding. rewrite detect_loop_runes by done. by case_decide.
Qed.

(** ** Properties *)

(** C40: GSM 7-bit round trip.  Whenever [EncodeGSM7] accepts a text, it returns the
    septets packed into [ceil(7n/8)] bytes, and [DecodeGSM7] with the septet count
    gives the text back; otherwise it reports the first character outside the
    alphabet. *)
Theorem GSM7_roundtrip text :
  bytes_ok text →
  match EncodeGSM7 text with
  | Ret (packed, n) =>
      bytes_ok packed ∧ length packed = ((n * 7 + 7) `div` 8)%nat ∧
      DecodeGSM7 packed (Z.of_nat n) = Ret text
  | Fail e => ∃ i r, e = NotGSM7 r ∧ runes text !! i = Some r ∧ isGSM7 r = false ∧
      ∀ j r', (j < i)%nat → runes text !! j = Some r' → isGSM7 r' = true
  | Panic => False
  end.
Proof.
  intros Hb. pose proof (EncodeGSM7_spec text) as H.
  destruct (list_find _ (runes text)) as [[i r]|] eqn:E.
  - rewrite H. apply list_find_Some in E as (Hi & Hr & Hbefore). exists i, r.
    split; [done|]. split; [done|]. split; [done|]. intros j r' Hj Hl.
    specialize (Hbefore j r' Hl Hj). by destruct (isGSM7 r').
  - destruct H as (packed & He & Hl & Hok & Hk). rewrite He. split; [done|]. split; [done|].
    by apply DecodeGSM7_EncodeGSM7.
Qed.

Lemma GSM7_roundtrip_witness :
  bytes_ok (str "Hello [World]") ∧
  match EncodeGSM7 (str "Hello [World]") with
  | Ret (packed, n) => n = 15%nat ∧ DecodeGSM7 packed (Z.of_nat n) = Ret (str "Hello [World]")
  | _ => False
  end.
Proof.
  assert (bytes_ok (str "Hello [World]")) as Hb by apply str_ok.
  split; [exact Hb|]. pose proof (GSM7_roundtrip (str "Hello [World]") Hb) as H.
  destruct (EncodeGSM7 (str "Hello [World]")) as [[packed n]|e|] eqn:E;
    [|vm_compute in E; discriminate E|vm_compute in E; discriminate E].
  destruct H as (_ & _ & H). split; [|exact H].
  vm_compute in E. injection E as _ <-. reflexivity.
Defined.

(** The generic [Decode] does not know the septet count and recovers the text up
    to the padding: exactly when the septet count is 7 modulo 8 the decoded text
    ends in the carriage return the encoder filled the last byte with. *)
Theorem Decode_Encode_default text packed n :
  bytes_ok text → EncodeGSM7 text = Ret (packed, n) →
  Encode text DataCodingDefault = Ret packed ∧
  Decode packed DataCodingDefault =
    Ret (text ++ if decide (n `mod` 8 = 7)%nat then [0x0D] else []).
Proof.
  intros Hb He. split; [unfold Encode; simpl; by rewrite He|].
  pose proof (EncodeGSM7_spec text) as H.
  destruct (list_find _ (runes text)) as [[i r]|] eqn:E; [by rewrite H in He|].
  destruct H as (packed' & He' & Hl & Hok & Hk). rewrite He' in He. injection He as -> <-.
  apply list_find_all_GSM7 in E. set (ss := concat _) in *.
  change (Decode packed DataCodingDefault) with (DecodeGSM7 packed (zlen packed * 8 / 7)).
  assert (zlen packed * 8 / 7 = Z.of_nat (length (wire_septets ss))) as ->.
  { unfold zlen, wire_septets. rewrite Hl. case_decide; [rewrite length_app; cbn [length]|]; ndiv. }
  rewrite (DecodeGSM7_stream packed (wire_septets ss)).
  - rewrite take_ge by done. unfold wire_septets. case_decide.
    + unfold ss. rewrite gsm7_runes_septets by done.
      change (gsm7_runes false [13]) with (Some [13]).
      cbn [fmap option_fmap option_map index mbind outcome_bind].
      by rewrite string_of_runes_app, GSM7_text.
    + rewrite <-(app_nil_r ss). unfold ss at 1. rewrite gsm7_runes_septets by done.
      cbn [gsm7_runes fmap option_fmap option_map index mbind outcome_bind].
      by rewrite !app_nil_r, GSM7_text.
  - done.
  - apply wire_septets_ok, septets_ok.
  - done.
  - lia.
  - rewrite Hl. unfold wire_septets. case_decide; [rewrite length_app; cbn [length]|]; ndiv.
Qed.

Lemma Decode_Encode_default_witness :
  bytes_ok (str "1234567") ∧
  (∃ packed, EncodeGSM7 (str "1234567") = Ret (packed, 7%nat) ∧
    Decode packed DataCodingDefault = Ret (str "1234567" ++ [0x0D])) ∧
  (∃ packed, EncodeGSM7 (str "12345678") = Ret (packed, 8%nat) ∧
    Decode packed DataCodingDefault = Ret (str "12345678" ++ [])).
Proof.
  split; [apply str_ok|]. split.
  - eexists. split; [vm_compute; reflexivity|].
    refine (proj2 (Decode_Encode_default (str "1234567") _ 7 (str_ok _) _)).
    vm_compute. reflexivity.
  - eexists. split; [vm_compute; reflexivity|].
    refine (proj2 (Decode_Encode_default (str "12345678") _ 8 (str_ok _) _)).
    vm_compute. reflexivity.
Defined.

(** Round trip of the other codings: what [Encode] accepts for IA5, Latin-1,
    binary or UCS-2 decodes to the text it came from.  For UCS-2 the text must be
    valid UTF-8; the narrower codings reject any other text but binary, which
    passes every byte. *)
Theorem Decode_Encode_other text coding data :
  bytes_ok text → coding ≠ DataCodingDefault →
  (coding = DataCodingUCS2 → valid_text text) →
  Encode text coding = Ret data → Decode data coding = Ret text.
Proof.
  intros Hb Hd Hv. pose proof (runes_valid text Hb) as Hr. unfold Encode, Decode.
  rewrite !(decide_False (P := coding = DataCodingDefault)) by done.
  destruct (decide (coding = DataCodingIA5)).
  { intros [-> Hs]%(ia5_bytes_spec _ Hr). unfold DecodeIA5. f_equal.
    rewrite <-(string_of_ascii (runes text)) by done. apply string_of_runes_runes; [done|].
    by apply (small_not_error 0x7F). }
  destruct (decide (coding = DataCodingLatin1)).
  { intros [-> Hs]%(latin1_bytes_spec _ Hr). unfold DecodeLatin1. f_equal.
    apply string_of_runes_runes; [done|]. by apply (small_not_error 0xFF). }
  case_decide; [by intros [= ->]|].
  case_decide as Hu; [|done]. intros [= <-]. unfold DecodeUCS2.
  rewrite length_concat_PutUint16, decide_False by ndiv.
  rewrite <-(app_nil_r (concat _)), u16_units_Put by apply utf16_Encode_range.
  cbn [u16_units]. rewrite app_nil_r, utf16_roundtrip by done.
  f_equal. apply string_of_runes_runes; [done|]. by apply Hv.
Qed.

Lemma Decode_Encode_other_witness :
  let text := string_of_runes [0x48; 0xE9; 0x4F60; 0x1F600] in
  valid_text text ∧
  ∃ data, Encode text DataCodingUCS2 = Ret data ∧ Decode data DataCodingUCS2 = Ret text.
Proof.
  intros text.
  assert (valid_text text) as Hv.
  { split; [apply string_of_runes_ok|apply (bool_decide_unpack _); vm_compute; exact I]. }
  split; [exact Hv|]. eexists. split; [reflexivity|].
  exact (Decode_Encode_other text DataCodingUCS2 _ (proj1 Hv) ltac:(done) (λ _, Hv) eq_refl).
Defined.

(** [DetectCoding] picks the default alphabet exactly when [EncodeGSM7] accepts
    the text and UCS-2 otherwise, so encoding with the detected coding never
    fails and, for valid text, round-trips. *)
Theorem DetectCoding_sound text :
  bytes_ok text →
  (DetectCoding text = DataCodingDefault ↔ ∃ pn, EncodeGSM7 text = Ret pn) ∧
  (DetectCoding text = DataCodingUCS2 ↔ ∃ r, EncodeGSM7 text = Fail (NotGSM7 r)) ∧
  ∃ data, Encode text (DetectCoding text) = Ret data.
Proof.
  intros Hb. unfold DetectCoding. rewrite detect_loop_runes by done.
  pose proof (EncodeGSM7_spec text) as H.
  destruct (list_find _ (runes text)) as [[i r]|] eqn:E.
  - apply list_find_Some in E as (Hi & Hr & _). rewrite decide_False.
    2: { rewrite Forall_forall. intros Hf. apply list_elem_of_lookup_2 in Hi.
         apply Hf in Hi. congruence. }
    rewrite H. split; [|split].
    + split; [done|by intros [? [=]]].
    + split; [by eexists|done].
    + by eexists.
  - destruct H as (packed & He & _). apply list_find_all_GSM7 in E.
    rewrite decide_True by done. rewrite He. split; [|split].
    + split; [by eexists|done].
    + split; [done|by intros [? [=]]].
    + eexists. unfold Encode. simpl. by rewrite He.
Qed.

Lemma DetectCoding_sound_witness :
  bytes_ok (str "price: 5") ∧ DetectCoding (str "price: 5") = DataCodingDefault ∧
  (∃ data, Encode (str "price: 5") (DetectCoding (str "price: 5")) = Ret data) ∧
  DetectCoding (string_of_runes [0x4F60]) = DataCodingUCS2.
Proof.
  split; [apply str_ok|]. split; [vm_compute; reflexivity|].
  split; [|vm_compute; reflexivity].
  exact (proj2 (proj2 (DetectCoding_sound (str "price: 5") (str_ok _)))).
Defined.
