(* ===== verification/Segment.v ===== *)
(** * Long-message segmentation (smpp/segment.go)

    Splitting a text into GSM 7-bit or UCS-2 segments, with the concatenation user
    data header or SAR metadata, and the shared reference-number counter. *)

From Stdlib Require Import ZifyNat.
From S2P Require Import Prelude Utf8 Coding.

Local Open Scope Z_scope.

Record Segment := mkSegment {
  seg_Data : bytes;
  seg_RefNum : Z;
  seg_SeqNum : Z;
  seg_TotalParts : Z;
  seg_DataCoding : Z
}.

Inductive SplitMethod := SplitSAR | SplitUDH.

Inductive seg_err :=
| EmptyText
| TextNotGSM7
| SegCodingErr (e : coding_err)
| SegUnsupported (coding : Z).

(** [segmentRefCounter.Add(1) & 0xFFFF]: the reference number and the counter's
    new 32-bit value. *)
Definition nextSegmentRef (counter : Z) : Z * Z :=
  let counter := u32 (counter + 1) in
  (Z.land counter 0xFFFF, counter).

Fixpoint gsm7_count (rs : list rune) (count : Z) : Z :=
  match rs with
  | [] => count
  | r :: rs => let n := gsm7Len r in if decide (n < 0) then -1 else gsm7_count rs (count + n)
  end.
Definition gsm7CharCount (text : bytes) : Z := gsm7_count (runes text) 0.

Definition gsm7SingleMax : Z := 160.
Definition gsm7SegmentMax : Z := 153.
Definition ucs2SingleMax : Z := 70.
Definition ucs2SegmentMax : Z := 67.
Definition udhConcatLen : Z := 6.

Definition prependUDH (payload : bytes) (refNum totalParts seqNum : Z) : bytes :=
  let udh := [0x05; 0x00; 0x03; u8 refNum; totalParts; seqNum] in
  let result := replicate (length udh + length payload) 0 in
  let result := copy_at 0 udh result in
  copy_at (length udh) payload result.

Fixpoint split_septets_loop (rs : list rune) (maxSeptets : Z) (parts : list bytes)
    (current : list rune) (currentSeptets : Z) : list bytes :=
  match rs with
  | [] => if decide (0 < length current)%nat then parts ++ [string_of_runes current] else parts
  | r :: rs =>
      let n := gsm7Len r in
      if decide (maxSeptets < currentSeptets + n) then
        split_septets_loop rs maxSeptets (parts ++ [string_of_runes current]) [r] n
      else
        split_septets_loop rs maxSeptets parts (current ++ [r]) (currentSeptets + n)
  end.
Definition splitTextBySeptets (text : bytes) (maxSeptets : Z) : list bytes :=
  split_septets_loop (runes text) maxSeptets [] [] 0.

(** The body of the segment loop. *)
Definition make_segment (method : SplitMethod) (refNum totalParts coding : Z) (i : nat)
    (payload : bytes) : Segment :=
  let data :=
    match method with
    | SplitUDH => prependUDH payload refNum totalParts (u8 (Z.of_nat i + 1))
    | SplitSAR => payload
    end in
  mkSegment data refNum (u8 (Z.of_nat i + 1)) totalParts coding.

Fixpoint segment_loop (enc : bytes → outcome coding_err bytes) (method : SplitMethod)
    (refNum totalParts coding : Z) (i : nat) (parts : list bytes)
    : outcome seg_err (list Segment) :=
  match parts with
  | [] => Ret []
  | part :: parts =>
      match enc part with
      | Ret packed =>
          segs ← segment_loop enc method refNum totalParts coding (S i) parts;
          Ret (make_segment method refNum totalParts coding i packed :: segs)
      | Fail e => Fail (SegCodingErr e)
      | Panic => Panic
      end
  end.

Definition gsm7_bytes (text : bytes) : outcome coding_err bytes :=
  pn ← EncodeGSM7 text; Ret (pn.1).

Definition splitGSM7 (text : bytes) (method : SplitMethod) (counter : Z)
    : outcome seg_err (list Segment) * Z :=
  let totalSeptets := gsm7CharCount text in
  if decide (totalSeptets < 0) then (Fail TextNotGSM7, counter)
  else if decide (totalSeptets <= gsm7SingleMax) then
    (match gsm7_bytes text with
     | Ret packed => Ret [mkSegment packed 0 1 1 DataCodingDefault]
     | Fail e => Fail (SegCodingErr e)
     | Panic => Panic
     end, counter)
  else
    let parts := splitTextBySeptets text gsm7SegmentMax in
    let '(refNum, counter) := nextSegmentRef counter in
    let totalParts := u8 (zlen parts) in
    (segment_loop gsm7_bytes method refNum totalParts DataCodingDefault 0 parts, counter).

(** [for i := 0; i < len(runes); i += chunkSize]. *)
Fixpoint rune_chunks_loop (fuel : nat) (rs : list rune) (chunkSize i : nat) : list (list rune) :=
  match fuel with
  | O => []
  | S fuel =>
      if decide (i < length rs)%nat then
        let e := (i + chunkSize)%nat in
        let e := if decide (length rs < e)%nat then length rs else e in
        slice i e rs :: rune_chunks_loop fuel rs chunkSize (i + chunkSize)
      else []
  end.
Definition splitRuneChunks (rs : list rune) (chunkSize : nat) : list (list rune) :=
  rune_chunks_loop (S (length rs)) rs chunkSize 0.

Definition splitUCS2 (text : bytes) (method : SplitMethod) (counter : Z)
    : outcome seg_err (list Segment) * Z :=
  let rs := runes text in
  let charCount := zlen rs in
  if decide (charCount <= ucs2SingleMax) then
    (match EncodeUCS2 text with
     | Ret encoded => Ret [mkSegment encoded 0 1 1 DataCodingUCS2]
     | Fail e => Fail (SegCodingErr e)
     | Panic => Panic
     end, counter)
  else
    let parts := splitRuneChunks rs (Z.to_nat ucs2SegmentMax) in
    let '(refNum, counter) := nextSegmentRef counter in
    let totalParts := u8 (zlen parts) in
    (segment_loop EncodeUCS2 method refNum totalParts DataCodingUCS2 0
       (string_of_runes <$> parts), counter).

(** The result and the new value of the reference counter. *)
Definition SplitMessage (text : bytes) (coding : Z) (method : SplitMethod) (counter : Z)
    : outcome seg_err (list Segment) * Z :=
  if decide (length text = 0%nat) then (Fail EmptyText, counter)
  else if decide (coding = DataCodingDefault) then splitGSM7 text method counter
  else if decide (coding = DataCodingUCS2) then splitUCS2 text method counter
  else (Fail (SegUnsupported coding), counter).

(** ** Counting septets *)

#[local] Opaque unicodeToGSM7 unicodeToGSM7Ext.

Definition septet_count (rs : list rune) : Z := zlen (concat (rune_septets <$> rs)).

Lemma septet_count_cons r rs :
  septet_count (r :: rs) = zlen (rune_septets r) + septet_count rs.
Proof. unfold septet_count. rewrite fmap_cons. cbn [concat]. unfold zlen. rewrite length_app. lia. Qed.

Lemma septet_count_app rs1 rs2 :
  septet_count (rs1 ++ rs2) = septet_count rs1 + septet_count rs2.
Proof. unfold septet_count. rewrite fmap_app, concat_app. unfold zlen. rewrite length_app. lia. Qed.

Lemma rune_septets_len r : isGSM7 r = true → 1 <= zlen (rune_septets r) <= 2.
Proof.
  rewrite isGSM7_true. unfold rune_septets, zlen.
  destruct (unicodeToGSM7 !! r); [cbn [length]; lia|].
  destruct (unicodeToGSM7Ext !! r); [cbn [length]; lia|congruence].
Qed.

Lemma gsm7Len_GSM7 r : isGSM7 r = true → gsm7Len r = zlen (rune_septets r).
Proof. intros H. by rewrite gsm7Len_septets, H. Qed.

Lemma gsm7_count_spec rs : ∀ c, 0 <= c →
  (gsm7_count rs c = -1 ∧ ¬ Forall (λ r, isGSM7 r = true) rs) ∨
  (gsm7_count rs c = c + septet_count rs ∧ Forall (λ r, isGSM7 r = true) rs).
Proof.
  induction rs as [|r rs IH]; intros c Hc; cbn [gsm7_count].
  - right. split; [unfold septet_count, zlen; simpl; lia|done].
  - rewrite gsm7Len_septets. destruct (isGSM7 r) eqn:Er.
    + pose proof (rune_septets_len r Er). rewrite decide_False by lia.
      destruct (IH (c + zlen (rune_septets r))) as [[-> Hn]|[-> Hf]]; [lia| |].
      * left. split; [done|]. rewrite Forall_cons. naive_solver.
      * right. rewrite septet_count_cons. split; [lia|by constructor].
    + rewrite decide_True by lia. left. split; [done|]. rewrite Forall_cons, Er. naive_solver.
Qed.

(** ** Splitting by septets *)

Lemma split_septets_spec rs max : ∀ parts current,
  Forall (λ r, isGSM7 r = true) rs → Forall (λ r, isGSM7 r = true) current →
  2 <= max → septet_count current <= max →
  ∃ chunks,
    split_septets_loop rs max parts current (septet_count current) =
      parts ++ (string_of_runes <$> chunks) ∧
    concat chunks = current ++ rs ∧
    Forall (λ ch, ch ≠ [] ∧ septet_count ch <= max ∧ Forall (λ r, isGSM7 r = true) ch) chunks.
Proof.
  induction rs as [|r rs IH]; intros parts current Hrs Hcur Hmax Hc; cbn [split_septets_loop].
  - rewrite app_nil_r. case_decide as Hl.
    + exists [current]. simpl. rewrite app_nil_r. split; [done|]. split; [done|].
      constructor; [|done]. split; [by destruct current; [simpl in Hl; lia|]|done].
    + destruct current; [|simpl in Hl; lia]. exists []. simpl. by rewrite app_nil_r.
  - apply Forall_cons in Hrs as [Hr Hrs]. rewrite (gsm7Len_GSM7 r Hr).
    pose proof (rune_septets_len r Hr) as Hlen.
    assert (septet_count [r] = zlen (rune_septets r)) as Hone.
    { rewrite septet_count_cons. change (septet_count []) with 0. lia. }
    case_decide as Hcut.
    + rewrite <-Hone.
      destruct (IH (parts ++ [string_of_runes current]) [r] Hrs) as (chunks & -> & Hcat & Hall);
        [by apply Forall_singleton|lia|lia|].
      exists (current :: chunks). rewrite fmap_cons, <-app_assoc. split; [done|].
      split; [simpl; by rewrite Hcat|]. constructor; [|done]. split; [|done].
      intros ->. change (septet_count []) with 0 in Hcut. lia.
    + replace (septet_count current + zlen (rune_septets r)) with (septet_count (current ++ [r]))
        by (rewrite septet_count_app; lia).
      destruct (IH parts (current ++ [r]) Hrs) as (chunks & -> & Hcat & Hall);
        [apply Forall_app_2; [done|by apply Forall_singleton]|lia|rewrite septet_count_app; lia|].
      exists chunks. split; [done|]. split; [|done]. by rewrite Hcat, <-app_assoc.
Qed.

Lemma isGSM7_valid r : isGSM7 r = true → valid_rune r.
Proof.
  assert (Forall valid_rune (gsm7Default ++ (map_to_list gsm7Extension).*2)) as H.
  { apply (bool_decide_unpack _). vm_compute. exact I. }
  rewrite Forall_app in H. destruct H as [H1 H2].
  rewrite isGSM7_true. unfold rune_septets. destruct (unicodeToGSM7 !! r) as [c|] eqn:Ec.
  { intros _. apply unicodeToGSM7_spec in Ec as (_ & _ & El & _).
    exact (Forall_lookup_1 _ _ _ _ H1 El). }
  destruct (unicodeToGSM7Ext !! r) as [e|] eqn:Ee; [|done].
  intros _. apply unicodeToGSM7Ext_spec in Ee as (_ & El & _).
  rewrite Forall_forall in H2. apply H2, list_elem_of_fmap. exists (e, r).
  split; [done|]. by apply elem_of_map_to_list.
Qed.

Lemma concat_string_of_runes chunks :
  concat (string_of_runes <$> chunks) = string_of_runes (concat chunks).
Proof.
  induction chunks as [|c chunks IH]; [done|].
  rewrite fmap_cons. cbn [concat]. by rewrite string_of_runes_app, IH.
Qed.

(** A GSM 7-bit text encodes to as many septets as its runes need. *)
Lemma EncodeGSM7_count rs :
  Forall (λ r, isGSM7 r = true) rs →
  ∃ packed, EncodeGSM7 (string_of_runes rs) = Ret (packed, Z.to_nat (septet_count rs)) ∧
    zlen packed = (septet_count rs * 7 + 7) / 8.
Proof.
  intros Hg. assert (Forall valid_rune rs) as Hv.
  { eapply Forall_impl; [done|]. intros r. apply isGSM7_valid. }
  pose proof (EncodeGSM7_spec (string_of_runes rs)) as H.
  rewrite runes_string_of_runes in H by done.
  destruct (list_find _ rs) as [[i r]|] eqn:E.
  { apply list_find_Some in E as (Hi & Hr & _).
    pose proof (Forall_lookup_1 _ _ _ _ Hg Hi) as Hr'. simpl in Hr'. congruence. }
  destruct H as (packed & He & Hl & _). exists packed.
  unfold septet_count, zlen. rewrite Nat2Z.id. split; [done|]. rewrite Hl. ndiv.
Qed.

(** The segment loop, when every part encodes. *)
Lemma segment_loop_spec enc method ref total coding parts datas : ∀ i,
  Forall2 (λ p d, enc p = Ret d) parts datas →
  segment_loop enc method ref total coding i parts =
  Ret (imap (λ j d, make_segment method ref total coding (i + j) d) datas).
Proof.
  intros i H. revert i. induction H as [|p d ps ds Hp _ IH]; intros i; [done|].
  cbn [segment_loop imap]. rewrite Hp, IH. cbn [mbind outcome_bind].
  rewrite Nat.add_0_r. do 2 f_equal. apply imap_ext. intros j d' _.
  by replace (S i + j)%nat with (i + S j)%nat by lia.
Qed.

Lemma prependUDH_eq payload ref total seq :
  prependUDH payload ref total seq = [0x05; 0x00; 0x03; u8 ref; total; seq] ++ payload.
Proof.
  unfold prependUDH. rewrite replicate_add.
  rewrite (copy_at_0 (replicate _ 0)) by done.
  rewrite <-(app_nil_r (replicate _ 0)).
  rewrite (copy_at_at [_; _; _; _; _; _]) by (done || by rewrite length_replicate).
  by rewrite app_nil_r.
Qed.

(** The user data header of a segment. *)
Definition udh (method : SplitMethod) (ref total seq : Z) : bytes :=
  match method with SplitUDH => [0x05; 0x00; 0x03; u8 ref; total; seq] | SplitSAR => [] end.

Lemma make_segment_eq method ref total coding i d :
  make_segment method ref total coding i d =
  mkSegment (udh method ref total (u8 (Z.of_nat i + 1)) ++ d) ref (u8 (Z.of_nat i + 1)) total
    coding.
Proof. unfold make_segment, udh. destruct method; [done|]. by rewrite prependUDH_eq. Qed.

(** What a message that needs several segments is split into. *)
Definition numbered (method : SplitMethod) (counter : Z) (coding : Z) (datas : list bytes)
    : list Segment :=
  let ref := u32 counter `mod` 65536 in
  let total := u8 (zlen datas) in
  imap (λ i d, let seq := u8 (Z.of_nat i + 1) in
          mkSegment (udh method ref total seq ++ d) ref seq total coding) datas.

Lemma numbered_bound method counter coding datas m :
  Forall (λ d, zlen d <= m) datas →
  Forall (λ s, zlen (seg_Data s) <= m + 6) (numbered method counter coding datas).
Proof.
  intros Hd. unfold numbered. apply Forall_lookup_2. intros i s Hs.
  apply list_lookup_imap_Some in Hs as (d & Hl & ->). cbn [seg_Data].
  pose proof (Forall_lookup_1 _ _ _ _ Hd Hl). simpl in *.
  unfold zlen, udh in *. rewrite length_app. destruct method; cbn [length]; lia.
Qed.

Lemma segment_loop_numbered enc method counter coding parts datas :
  Forall2 (λ p d, enc p = Ret d) parts datas →
  let '(ref, counter') := nextSegmentRef counter in
  segment_loop enc method ref (u8 (zlen parts)) coding 0 parts =
    Ret (numbered method (counter + 1) coding datas) ∧ counter' = u32 (counter + 1).
Proof.
  intros H. unfold nextSegmentRef. split; [|done].
  rewrite (segment_loop_spec _ _ _ _ _ _ datas) by done. f_equal. unfold numbered, zlen.
  rewrite (Forall2_length _ _ _ H). apply imap_ext. intros i d _.
  rewrite make_segment_eq. by rewrite (land_ones_mod _ 16).
Qed.

(** ** Splitting by runes *)

Lemma rune_chunks_spec rs k fuel : ∀ i,
  (0 < k)%nat → (length rs - i < fuel)%nat →
  concat (rune_chunks_loop fuel rs k i) = drop i rs ∧
  Forall (λ ch, ch ≠ [] ∧ (length ch <= k)%nat ∧ ch ⊆ rs) (rune_chunks_loop fuel rs k i).
Proof.
  induction fuel as [|fuel IH]; intros i Hk Hf; [lia|]. cbn [rune_chunks_loop].
  case_decide as Hi; [|rewrite drop_ge by lia; done].
  destruct (IH (i + k)%nat) as [Hcat Hall]; [done|lia|]. cbn [concat]. rewrite Hcat.
  assert (∀ e, slice i e rs ⊆ rs) as Hsub.
  { intros e. unfold slice. etrans; [apply subseteq_take|apply subseteq_drop]. }
  case_decide as He.
  - split.
    + unfold slice. rewrite take_ge by (rewrite length_drop; lia).
      rewrite (drop_ge rs (i + k)) by lia. apply app_nil_r.
    + constructor; [|done]. split; [|split; [|apply Hsub]].
      * intros E. apply (f_equal length) in E. rewrite length_slice in E by lia. simpl in E. lia.
      * rewrite length_slice by lia. lia.
  - split.
    + unfold slice. replace (i + k - i)%nat with k by lia.
      rewrite <-(drop_drop rs k i).
      apply take_drop.
    + constructor; [|done]. split; [|split; [|apply Hsub]].
      * intros E. apply (f_equal length) in E. rewrite length_slice in E by lia. simpl in E. lia.
      * rewrite length_slice by lia. lia.
Qed.

Lemma utf16_units_len r : 
  length (utf16_units r) = if decide (0x10000 <= r <= MaxRune) then 2%nat else 1%nat.
Proof. unfold utf16_units, MaxRune. repeat case_decide; try lia; reflexivity. Qed.

Lemma utf16_Encode_bmp rs : Forall (λ r, r < 0x10000) rs → length (utf16_Encode rs) = length rs.
Proof.
  induction 1 as [|r rs Hr _ IH]; [done|]. unfold utf16_Encode. rewrite fmap_cons. cbn [concat].
  rewrite length_app. fold (utf16_Encode rs). rewrite IH, utf16_units_len, decide_False by lia.
  done.
Qed.

Lemma utf16_Encode_len rs : (length (utf16_Encode rs) <= 2 * length rs)%nat.
Proof.
  induction rs as [|r rs IH]; [done|]. unfold utf16_Encode. rewrite fmap_cons. cbn [concat].
  rewrite length_app. fold (utf16_Encode rs). rewrite utf16_units_len.
  case_decide; cbn [length]; lia.
Qed.

Definition ucs2_data (rs : list rune) : bytes := concat (PutUint16 <$> utf16_Encode rs).

Lemma EncodeUCS2_runes rs :
  Forall valid_rune rs → EncodeUCS2 (string_of_runes rs) = Ret (ucs2_data rs).
Proof. intros. unfold EncodeUCS2, ucs2_data. by rewrite runes_string_of_runes. Qed.

Lemma ucs2_data_decode rs :
  Forall valid_rune rs → DecodeUCS2 (ucs2_data rs) = Ret (string_of_runes rs).
Proof.
  intros. unfold DecodeUCS2, ucs2_data. rewrite length_concat_PutUint16, decide_False by ndiv.
  rewrite <-(app_nil_r (concat _)), u16_units_Put by apply utf16_Encode_range.
  cbn [u16_units]. by rewrite app_nil_r, utf16_roundtrip.
Qed.

Lemma ucs2_data_len rs m : (length rs <= m)%nat → zlen (ucs2_data rs) <= 4 * Z.of_nat m.
Proof.
  intros Hm. unfold ucs2_data, zlen. rewrite length_concat_PutUint16.
  pose proof (utf16_Encode_len rs). lia.
Qed.

Lemma ucs2_data_bmp all rs m :
  Forall (λ r, r < 0x10000) all → rs ⊆ all → (length rs <= m)%nat →
  zlen (ucs2_data rs) <= 2 * Z.of_nat m.
Proof.
  intros Ha Hs Hm. unfold ucs2_data, zlen.
  rewrite length_concat_PutUint16, utf16_Encode_bmp; [lia|].
  rewrite Forall_forall in *. auto.
Qed.

(** Chunks that respect the septet limit encode into 134 bytes each. *)
Lemma gsm7_chunks_encode chunks :
  Forall (λ ch, ch ≠ [] ∧ septet_count ch <= gsm7SegmentMax ∧
    Forall (λ r, isGSM7 r = true) ch) chunks →
  ∃ datas, Forall2 (λ p d, p ≠ [] ∧ ∃ n, EncodeGSM7 p = Ret (d, n) ∧ (n <= 153)%nat ∧
      DecodeGSM7 d (Z.of_nat n) = Ret p) (string_of_runes <$> chunks) datas ∧
    Forall (λ d, zlen d <= 134) datas.
Proof.
  induction 1 as [|ch chunks (Hn & Hm & Hgc) _ IH]; [by exists []|].
  destruct IH as (ds & Hds & Hls). unfold gsm7SegmentMax in Hm.
  destruct (EncodeGSM7_count ch Hgc) as (d & He & Hl). exists (d :: ds).
  rewrite fmap_cons. split; [|constructor; [zdiv|done]]. constructor; [|done]. split.
  - destruct ch as [|r ch]; [done|]. unfold string_of_runes. rewrite fmap_cons. cbn [concat].
    pose proof (EncodeRune_nonempty r). destruct (EncodeRune r); [simpl in *; lia|done].
  - eexists. split; [done|]. split; [lia|]. apply DecodeGSM7_EncodeGSM7; auto with smpp.
Qed.

(** ** Properties *)

(** Splitting a GSM 7-bit text.  A text of at most 160 septets gives one plain
    segment and leaves the reference counter alone.  A longer one is cut at
    character boundaries into at least two non-empty parts of at most 153 septets
    that concatenate to the text; segment [i] carries part [i] (after the user
    data header, for UDH) and its number, all segments share the next reference
    number, and no segment exceeds the 140 bytes of a short message. *)
Theorem SplitMessage_GSM7 text method counter :
  bytes_ok text → text ≠ [] → DetectCoding text = DataCodingDefault →
  if decide (gsm7CharCount text <= 160) then
    ∃ packed n, EncodeGSM7 text = Ret (packed, n) ∧ zlen packed <= 140 ∧
      SplitMessage text DataCodingDefault method counter =
        (Ret [mkSegment packed 0 1 1 DataCodingDefault], counter)
  else
    ∃ parts datas, concat parts = text ∧ (2 <= length parts)%nat ∧
      Forall2 (λ p d, p ≠ [] ∧ ∃ n, EncodeGSM7 p = Ret (d, n) ∧ (n <= 153)%nat ∧
        DecodeGSM7 d (Z.of_nat n) = Ret p) parts datas ∧
      SplitMessage text DataCodingDefault method counter =
        (Ret (numbered method (counter + 1) DataCodingDefault datas), u32 (counter + 1)) ∧
      Forall (λ s, zlen (seg_Data s) <= 140)
        (numbered method (counter + 1) DataCodingDefault datas).
Proof.
  intros Hb Hne Hg. apply DetectCoding_GSM7 in Hg; [|done].
  pose proof (GSM7_text text Hb Hg) as Htext.
  assert (SplitMessage text DataCodingDefault method counter = splitGSM7 text method counter) as ->.
  { unfold SplitMessage. rewrite decide_False by (by destruct text). done. }
  unfold splitGSM7. pose proof (gsm7_count_spec (runes text) 0 ltac:(lia)) as Hc.
  fold (gsm7CharCount text) in Hc. destruct Hc as [[_ ?]|[Hc _]]; [done|].
  pose proof (zlen_nonneg (concat (rune_septets <$> runes text))) as H0.
  fold (septet_count (runes text)) in H0.
  rewrite (decide_False (P := gsm7CharCount text < 0)) by lia.
  unfold gsm7SingleMax. case_decide as Hs.
  - destruct (EncodeGSM7_count (runes text) Hg) as (packed & He & Hl). rewrite Htext in He.
    exists packed, (Z.to_nat (septet_count (runes text))). split; [done|]. split; [zdiv|].
    unfold gsm7_bytes. by rewrite He.
  - unfold splitTextBySeptets.
    destruct (split_septets_spec (runes text) gsm7SegmentMax [] []) as (chunks & Hp & Hcat & Hall);
      [done|done|unfold gsm7SegmentMax; lia|done|].
    change (septet_count []) with 0 in Hp. rewrite Hp. cbn [app] in Hcat |- *.
    destruct (gsm7_chunks_encode chunks Hall) as (datas & Hd & Hlen).
    exists (string_of_runes <$> chunks), datas. split; [by rewrite concat_string_of_runes, Hcat|].
    split; [|split; [done|split]].
    + rewrite length_fmap. destruct chunks as [|c1 [|c2 ?]]; simpl; try lia.
      * simpl in Hcat. rewrite <-Hcat in Hc. change (septet_count []) with 0 in Hc. lia.
      * simpl in Hcat. rewrite app_nil_r in Hcat. subst c1.
        apply Forall_singleton in Hall as (_ & Hm & _). unfold gsm7SegmentMax in Hm. lia.
    + assert (Forall2 (λ p d, gsm7_bytes p = Ret d) (string_of_runes <$> chunks) datas) as Hd'.
      { eapply Forall2_impl; [done|]. intros p d (_ & n & He & _). unfold gsm7_bytes.
        by rewrite He. }
      pose proof (segment_loop_numbered gsm7_bytes method counter DataCodingDefault _ _ Hd') as Hseg.
      destruct (nextSegmentRef counter) as [ref counter']. destruct Hseg as [-> ->]. done.
    + apply (numbered_bound _ _ _ _ 134). done.
Qed.

Definition gsm7_long : bytes := str (String.concat "" (repeat "0123456789" 17)).

Lemma SplitMessage_GSM7_witness :
  bytes_ok gsm7_long ∧ DetectCoding gsm7_long = DataCodingDefault ∧
  ∃ parts datas, concat parts = gsm7_long ∧ (2 <= length parts)%nat ∧
    SplitMessage gsm7_long DataCodingDefault SplitUDH 41 =
      (Ret (numbered SplitUDH 42 DataCodingDefault datas), 42).
Proof.
  assert (DetectCoding gsm7_long = DataCodingDefault) as Hd by (vm_compute; reflexivity).
  split; [apply str_ok|]. split; [exact Hd|].
  pose proof (SplitMessage_GSM7 gsm7_long SplitUDH 41 (str_ok _) ltac:(done) Hd) as H.
  destruct (decide (gsm7CharCount gsm7_long <= 160)) as [Hc|_];
    [exfalso; revert Hc; vm_compute; intros Hc; apply Hc; reflexivity|].
  destruct H as (parts & datas & H1 & H2 & _ & H4 & _).
  exists parts, datas. split; [exact H1|]. split; [exact H2|exact H4].
Defined.

(** Splitting a UCS-2 text.  A valid text of at most 70 runes gives one plain
    segment; a longer one is cut into parts of at most 67 runes that concatenate
    to the text and decode from their segments.  The limits count runes, so a
    segment fits 140 bytes when the text has no rune beyond U+FFFF, and is only
    bounded by twice that otherwise. *)
Theorem SplitMessage_UCS2 text method counter :
  valid_text text → text ≠ [] →
  let limit := if decide (Forall (λ r, r < 0x10000) (runes text)) then 140 else 280 in
  if decide (zlen (runes text) <= 70) then
    ∃ data, DecodeUCS2 data = Ret text ∧ zlen data <= limit ∧
      SplitMessage text DataCodingUCS2 method counter =
        (Ret [mkSegment data 0 1 1 DataCodingUCS2], counter)
  else
    ∃ parts datas, concat parts = text ∧
      Forall2 (λ p d, p ≠ [] ∧ zlen (runes p) <= 67 ∧ DecodeUCS2 d = Ret p) parts datas ∧
      SplitMessage text DataCodingUCS2 method counter =
        (Ret (numbered method (counter + 1) DataCodingUCS2 datas), u32 (counter + 1)) ∧
      Forall (λ s, zlen (seg_Data s) <= limit)
        (numbered method (counter + 1) DataCodingUCS2 datas).
Proof.
  intros [Hb Hn] Hne limit. pose proof (runes_valid text Hb) as Hv.
  pose proof (string_of_runes_runes text Hb Hn) as Htext.
  assert (SplitMessage text DataCodingUCS2 method counter = splitUCS2 text method counter) as ->.
  { unfold SplitMessage. rewrite decide_False by (by destruct text). done. }
  unfold splitUCS2, ucs2SingleMax. case_decide as Hs.
  - exists (ucs2_data (runes text)). split; [by rewrite ucs2_data_decode, Htext|]. split; [|done].
    unfold limit, zlen in *. case_decide.
    + apply (ucs2_data_bmp (runes text) _ 70); [done|done|lia].
    + apply (ucs2_data_len _ 70). lia.
  - change (Z.to_nat ucs2SegmentMax) with 67%nat. unfold splitRuneChunks.
    destruct (rune_chunks_spec (runes text) 67 (S (length (runes text))) 0) as [Hcat Hall];
      [lia..|]. set (chunks := rune_chunks_loop _ _ _ _) in *. rewrite drop_0 in Hcat.
    assert (Forall (λ ch, Forall valid_rune ch) chunks) as Hcv.
    { eapply Forall_impl; [exact Hall|]. intros ch (_ & _ & Hsub). rewrite Forall_forall in *. auto. }
    exists (string_of_runes <$> chunks), (ucs2_data <$> chunks).
    split; [by rewrite concat_string_of_runes, Hcat|].
    assert (Forall2 (λ p d, EncodeUCS2 p = Ret d) (string_of_runes <$> chunks)
      (ucs2_data <$> chunks)) as Henc.
    { apply Forall2_fmap, Forall_Forall2_diag.
      eapply Forall_impl; [exact Hcv|]. apply EncodeUCS2_runes. }
    split; [|split].
    + apply Forall2_fmap, Forall_Forall2_diag. apply Forall_forall. intros ch Hch.
      rewrite Forall_forall in Hall, Hcv. destruct (Hall ch Hch) as (Hc1 & Hc2 & _).
      specialize (Hcv ch Hch). rewrite runes_string_of_runes, ucs2_data_decode by done.
      split; [|split; [unfold zlen; lia|done]].
      intros E. apply (f_equal runes) in E. by rewrite runes_string_of_runes in E.
    + pose proof (segment_loop_numbered EncodeUCS2 method counter DataCodingUCS2 _ _ Henc) as Hseg.
      unfold zlen in Hseg |- *. rewrite length_fmap in Hseg.
      destruct (nextSegmentRef counter) as [ref counter']. destruct Hseg as [-> ->]. done.
    + unfold limit. case_decide as Hl.
      * apply (numbered_bound _ _ _ _ 134), Forall_fmap. eapply Forall_impl; [exact Hall|].
        intros ch (_ & Hc & Hsub). simpl. by apply (ucs2_data_bmp (runes text) _ 67).
      * eapply Forall_impl; [apply (numbered_bound _ _ _ _ 268), Forall_fmap|intros s; simpl; lia].
        eapply Forall_impl; [exact Hall|]. intros ch (_ & Hc & _). simpl. by apply (ucs2_data_len _ 67).
Qed.

Lemma SplitMessage_UCS2_witness :
  let text := string_of_runes (replicate 71 0x4F60) in
  valid_text text ∧
  ∃ parts datas, concat parts = text ∧
    SplitMessage text DataCodingUCS2 SplitSAR 65535 =
      (Ret (numbered SplitSAR 65536 DataCodingUCS2 datas), 65536) ∧
    Forall (λ s, zlen (seg_Data s) <= 140) (numbered SplitSAR 65536 DataCodingUCS2 datas).
Proof.
  intros text.
  assert (valid_text text) as Hv.
  { split; [apply string_of_runes_ok|apply (bool_decide_unpack _); vm_compute; exact I]. }
  assert (runes text = replicate 71 0x4F60) as Hr by (vm_compute; reflexivity).
  split; [exact Hv|]. pose proof (SplitMessage_UCS2 text SplitSAR 65535 Hv ltac:(done)) as H.
  cbv zeta in H. rewrite Hr in H. rewrite decide_False in H by (vm_compute; congruence).
  destruct H as (parts & datas & H1 & _ & H3 & H4). exists parts, datas.
  split; [exact H1|]. split; [exact H3|].
  rewrite decide_True in H4 by (apply (bool_decide_unpack _); vm_compute; exact I). exact H4.
Defined.

(** Runes beyond U+FFFF take two code units, so 70 of them make a segment of twice
    the size of a short message. *)
Lemma SplitMessage_UCS2_astral :
  ∃ s, SplitMessage (string_of_runes (replicate 70 0x1F600)) DataCodingUCS2 SplitUDH 0 =
    (Ret [s], 0) ∧ zlen (seg_Data s) = 280.
Proof. eexists. split; vm_compute; reflexivity. Qed.

Lemma splitGSM7_shape text method counter segs counter' :
  splitGSM7 text method counter = (Ret segs, counter') →
  (∃ d, segs = [mkSegment d 0 1 1 DataCodingDefault] ∧ counter' = counter) ∨
  (∃ parts ref total, segment_loop gsm7_bytes method ref total DataCodingDefault 0 parts = Ret segs ∧
    (ref, counter') = nextSegmentRef counter ∧ total = u8 (zlen parts)).
Proof.
  unfold splitGSM7. intros H. case_decide; [done|]. case_decide.
  { left. destruct (gsm7_bytes text); simplify_eq/=. by eexists. }
  right. simplify_eq/=. by do 3 eexists.
Qed.

Lemma splitUCS2_shape text method counter segs counter' :
  splitUCS2 text method counter = (Ret segs, counter') →
  (∃ d, segs = [mkSegment d 0 1 1 DataCodingUCS2] ∧ counter' = counter) ∨
  (∃ parts ref total, segment_loop EncodeUCS2 method ref total DataCodingUCS2 0 parts = Ret segs ∧
    (ref, counter') = nextSegmentRef counter ∧ total = u8 (zlen parts)).
Proof.
  unfold splitUCS2. intros H. case_decide.
  { left. simplify_eq/=. by eexists. }
  right. simplify_eq/=. eexists (string_of_runes <$> _), _, _. split; [done|].
  split; [done|]. unfold zlen. by rewrite length_fmap.
Qed.

Lemma segment_loop_inv enc method ref total coding parts : ∀ i segs,
  segment_loop enc method ref total coding i parts = Ret segs →
  length segs = length parts ∧
  ∀ j s, segs !! j = Some s →
    seg_SeqNum s = u8 (Z.of_nat (i + j) + 1) ∧ seg_TotalParts s = total ∧ seg_RefNum s = ref ∧
    seg_DataCoding s = coding.
Proof.
  induction parts as [|p ps IH]; intros i segs H; cbn [segment_loop] in H.
  { injection H as <-. done. }
  destruct (enc p) as [d| |]; try done.
  destruct (segment_loop enc _ _ _ _ _ ps) as [segs'| |] eqn:E; try done. injection H as <-.
  destruct (IH _ _ E) as [Hl Hj]. split; [simpl; lia|]. intros [|j] s Hs; simpl in Hs.
  - injection Hs as <-. rewrite make_segment_eq. by rewrite Nat.add_0_r.
  - replace (i + S j)%nat with (S i + j)%nat by lia. by apply Hj.
Qed.

(** Numbering.  Whatever the coding and method, when a message is split into at
    most 255 segments they are numbered 1..n, each carries the total n, and all
    share one 16-bit reference number: 0 for a single segment, otherwise the
    counter's next value, so that consecutive messages get different ones. *)
Theorem SplitMessage_numbering text coding method counter segs counter' :
  SplitMessage text coding method counter = (Ret segs, counter') → (length segs <= 255)%nat →
  (1 <= length segs)%nat → 0 <= counter < 2 ^ 32 →
  ∃ ref, u16_ok ref ∧
    (∀ i s, segs !! i = Some s →
      seg_SeqNum s = Z.of_nat i + 1 ∧ seg_TotalParts s = zlen segs ∧ seg_RefNum s = ref ∧
      seg_DataCoding s = coding) ∧
    ((ref = 0 ∧ counter' = counter ∧ length segs = 1%nat) ∨
     (ref = counter' mod 65536 ∧ ref ≠ counter mod 65536 ∧ 0 <= counter' < 2 ^ 32)).
Proof.
  intros H Hle Hge Hcnt. unfold SplitMessage in H. case_decide; [done|].
  assert ((∃ d, segs = [mkSegment d 0 1 1 coding] ∧ counter' = counter) ∨
    (∃ enc parts ref total, segment_loop enc method ref total coding 0 parts = Ret segs ∧
      (ref, counter') = nextSegmentRef counter ∧ total = u8 (zlen parts)))
    as [(d & -> & ->)|(enc & parts & ref & total & Hseg & Href & ->)].
  { case_decide; [apply splitGSM7_shape in H|case_decide; [apply splitUCS2_shape in H|done]];
      subst coding; naive_solver. }
  - exists 0. split; [unfold u16_ok; lia|]. split; [|by left].
    intros [|i] s [= <-]. done.
  - apply segment_loop_inv in Hseg as [Hl Hj]. unfold nextSegmentRef in Href.
    injection Href as Href ->. rewrite (land_ones_mod _ 16) in Href by done.
    exists ref. split; [unfold u16_ok; zdiv|]. split.
    + intros i s Hs. destruct (Hj i s Hs) as (-> & -> & -> & ->).
      apply lookup_lt_Some in Hs. unfold zlen in *.
      rewrite !u8_id by (unfold byte_ok; lia). repeat split; lia.
    + right. unfold u32 in *. split; [done|]. split; zdiv.
Qed.

Lemma SplitMessage_numbering_witness :
  ∃ segs ref,
    SplitMessage gsm7_long DataCodingDefault SplitSAR 7 = (Ret segs, 8) ∧ u16_ok ref ∧
    (length segs = 2)%nat ∧
    ∀ i s, segs !! i = Some s →
      seg_SeqNum s = Z.of_nat i + 1 ∧ seg_TotalParts s = zlen segs ∧ seg_RefNum s = ref ∧
      seg_DataCoding s = DataCodingDefault.
Proof.
  destruct (SplitMessage gsm7_long DataCodingDefault SplitSAR 7) as [[segs|e|] c'] eqn:E;
    [|vm_compute in E; discriminate E|vm_compute in E; discriminate E].
  assert (length segs = 2%nat ∧ c' = 8) as [Hl ->]
    by (vm_compute in E; injection E as <- <-; split; reflexivity).
  destruct (SplitMessage_numbering gsm7_long DataCodingDefault SplitSAR 7 segs 8 E
    ltac:(lia) ltac:(lia) ltac:(lia)) as (ref & H1 & H2 & _).
  exists segs, ref. split; [reflexivity|]. split; [exact H1|]. split; [exact Hl|exact H2].
Defined.
