(* ===== verification/ShardMap.v ===== *)
(** * The sharded concurrent map (gateway/shardmap.go)

    64 lock-protected Go maps selected by an FNV-1a hash of the key, and an atomic
    counter that is updated outside the shard lock.  The sequential operations
    refine a flat map; the interleaving of concurrent operations is a step
    relation whose steps are the two atomic parts of [Set] and [Delete]. *)

From S2P Require Import Prelude.

Local Open Scope Z_scope.

Definition numShards : nat := 64.

(** hash/fnv's 32-bit FNV-1a. *)
Definition fnv32a (key : bytes) : Z :=
  foldl (λ h c, u32 (Z.lxor h c * 16777619)) 2166136261 key.

Definition shardIndex (key : bytes) : nat :=
  Z.to_nat (Z.land (fnv32a key) (Z.of_nat numShards - 1)).

Section shardmap.
Context {V : Type}.

Record ShardMap := mkShardMap {
  sm_shards : list (gmap bytes V);
  sm_count : Z
}.

Definition NewShardMap : ShardMap := mkShardMap (replicate numShards ∅) 0.

(** [sm.shards[i].m]; the array has 64 elements and the index is masked. *)
Definition shard_at (sm : ShardMap) (i : nat) : gmap bytes V := default ∅ (sm_shards sm !! i).

Definition ShardMap_Get (sm : ShardMap) (key : bytes) : option V :=
  shard_at sm (shardIndex key) !! key.

(** The part of [Set] under the shard lock: the new shards and the counter
    update that is still to be made. *)
Definition set_locked (key : bytes) (val : V) (shards : list (gmap bytes V))
    : list (gmap bytes V) * Z :=
  let i := shardIndex key in
  let m := default ∅ (shards !! i) in
  let existed := bool_decide (is_Some (m !! key)) in
  (<[i := <[key := val]> m]> shards, if existed then 0 else 1).

Definition delete_locked (key : bytes) (shards : list (gmap bytes V))
    : list (gmap bytes V) * Z :=
  let i := shardIndex key in
  let m := default ∅ (shards !! i) in
  let existed := bool_decide (is_Some (m !! key)) in
  (if existed then <[i := delete key m]> shards else shards, if existed then -1 else 0).

(** [count.Add]: 64-bit signed addition. *)
Definition count_add (c d : Z) : Z := i64 (c + d).

Definition ShardMap_Set (sm : ShardMap) (key : bytes) (val : V) : ShardMap :=
  let '(shards, d) := set_locked key val (sm_shards sm) in
  mkShardMap shards (if decide (d = 0) then sm_count sm else count_add (sm_count sm) d).

Definition ShardMap_Delete (sm : ShardMap) (key : bytes) : ShardMap :=
  let '(shards, d) := delete_locked key (sm_shards sm) in
  mkShardMap shards (if decide (d = 0) then sm_count sm else count_add (sm_count sm) d).

Definition ShardMap_Len (sm : ShardMap) : Z := sm_count sm.

(** [Range]: [iters] are the orders in which the runtime iterates the shards; the
    callback threads a state and stops the whole iteration by returning false. *)
Fixpoint range_loop {S} (fn : S → bytes → V → S * bool) (kvs : list (bytes * V)) (s : S) : S :=
  match kvs with
  | [] => s
  | (k, v) :: kvs => let '(s, go) := fn s k v in if go then range_loop fn kvs s else s
  end.
Definition ShardMap_Range {S} (iters : list (list (bytes * V)))
    (fn : S → bytes → V → S * bool) (s : S) : S :=
  range_loop fn (concat iters) s.

(** ** Abstraction to a flat map *)

Definition total_size (shards : list (gmap bytes V)) : Z :=
  foldr (λ m n, Z.of_nat (size m) + n) 0 shards.

(** Every key sits in its own shard, and the shards hold exactly the flat map. *)
Record shards_rel (shards : list (gmap bytes V)) (m : gmap bytes V) : Prop := {
  sr_len : length shards = numShards;
  sr_get : ∀ k, default ∅ (shards !! shardIndex k) !! k = m !! k;
  sr_home : ∀ i sh k, shards !! i = Some sh → is_Some (sh !! k) → i = shardIndex k;
  sr_size : total_size shards = Z.of_nat (size m)
}.

Lemma shardIndex_lt key : (shardIndex key < numShards)%nat.
Proof.
  unfold shardIndex, numShards. change (Z.of_nat 64 - 1) with (Z.ones 6).
  rewrite Z.land_ones by lia. pose proof (Z.mod_pos_bound (fnv32a key) (2 ^ 6)). lia.
Qed.

Lemma total_size_insert shards i old new :
  shards !! i = Some old →
  total_size (<[i := new]> shards) =
  total_size shards + Z.of_nat (size new) - Z.of_nat (size old).
Proof.
  revert i. induction shards as [|sh shards IH]; intros [|i] H; simplify_eq/=; [lia|].
  rewrite (IH i) by done. lia.
Qed.

Lemma shard_lookup shards m k :
  shards_rel shards m → ∃ sh, shards !! shardIndex k = Some sh ∧ sh !! k = m !! k.
Proof.
  intros R. pose proof (shardIndex_lt k). pose proof (sr_len _ _ R).
  destruct (lookup_lt_is_Some_2 shards (shardIndex k)) as [sh Hsh]; [lia|].
  exists sh. split; [done|]. rewrite <-(sr_get _ _ R). by rewrite Hsh.
Qed.

Lemma NewShardMap_rel : shards_rel (sm_shards NewShardMap) ∅.
Proof.
  split.
  - done.
  - intros k. unfold NewShardMap. cbn [sm_shards].
    rewrite lookup_replicate_2 by apply shardIndex_lt. by rewrite lookup_empty.
  - intros i sh k Hi [v Hv]. apply lookup_replicate in Hi as [-> _]. by rewrite lookup_empty in Hv.
  - done.
Qed.

(** An update of one key in its shard is the same update of the flat map. *)
Lemma shards_rel_update shards m k sh sh' m' :
  shards_rel shards m → shards !! shardIndex k = Some sh →
  (∀ k', k' ≠ k → sh' !! k' = sh !! k' ∧ m' !! k' = m !! k') → sh' !! k = m' !! k →
  Z.of_nat (size m') - Z.of_nat (size m) = Z.of_nat (size sh') - Z.of_nat (size sh) →
  shards_rel (<[shardIndex k := sh']> shards) m'.
Proof.
  intros R Hsh Hother Hk Hsize. split.
  - rewrite length_insert. apply (sr_len _ _ R).
  - intros k'. destruct (decide (k' = k)) as [->|Hne].
    { rewrite list_lookup_insert_eq; [done|by eapply lookup_lt_Some]. }
    destruct (Hother k' Hne) as [H1 ->]. rewrite <-(sr_get _ _ R).
    destruct (decide (shardIndex k' = shardIndex k)) as [E|E].
    + rewrite E, list_lookup_insert_eq, Hsh by (by eapply lookup_lt_Some). done.
    + by rewrite list_lookup_insert_ne.
  - intros i s k' Hi Hk'. destruct (decide (i = shardIndex k)) as [->|E].
    + rewrite list_lookup_insert_eq in Hi by (by eapply lookup_lt_Some). injection Hi as <-.
      destruct (decide (k' = k)) as [->|Hne]; [done|].
      destruct (Hother k' Hne) as [H1 _]. rewrite H1 in Hk'. by eapply (sr_home _ _ R).
    + rewrite list_lookup_insert_ne in Hi by done. by eapply (sr_home _ _ R).
  - rewrite (total_size_insert _ _ sh) by done. rewrite (sr_size _ _ R). lia.
Qed.

Lemma set_locked_rel shards m k v :
  shards_rel shards m →
  shards_rel (set_locked k v shards).1 (<[k := v]> m) ∧
  (set_locked k v shards).2 = Z.of_nat (size (<[k := v]> m)) - Z.of_nat (size m).
Proof.
  intros R. destruct (shard_lookup shards m k R) as (sh & Hsh & Hk).
  unfold set_locked. rewrite Hsh. cbn [default fst snd from_option id].
  rewrite Hk. split.
  - apply (shards_rel_update _ m _ sh); [done|done| | |].
    + intros k' Hne. by rewrite !lookup_insert_ne by done.
    + by rewrite !lookup_insert_eq.
    + rewrite !map_size_insert, Hk. destruct (m !! k); simpl; lia.
  - rewrite map_size_insert. destruct (m !! k); simpl; lia.
Qed.

Lemma delete_locked_rel shards m k :
  shards_rel shards m →
  shards_rel (delete_locked k shards).1 (delete k m) ∧
  (delete_locked k shards).2 = Z.of_nat (size (delete k m)) - Z.of_nat (size m).
Proof.
  intros R. destruct (shard_lookup shards m k R) as (sh & Hsh & Hk).
  unfold delete_locked. rewrite Hsh. cbn [default fst snd from_option id].
  rewrite Hk. case_bool_decide as Hex.
  - assert (0 < size m)%nat as Hpos.
    { destruct Hex as [v Hv]. destruct (size m) eqn:E; [|lia].
      apply map_size_empty_inv in E as ->. by rewrite lookup_empty in Hv. }
    assert (0 < size sh)%nat as Hpos'.
    { destruct Hex as [v Hv]. rewrite <-Hk in Hv. destruct (size sh) eqn:E; [|lia].
      apply map_size_empty_inv in E as ->. by rewrite lookup_empty in Hv. }
    destruct Hex as [v Hv]. split.
    + apply (shards_rel_update _ m _ sh); [done|done| | |].
      * intros k' Hne. by rewrite !lookup_delete_ne by done.
      * by rewrite !lookup_delete_eq.
      * rewrite !map_size_delete, Hk, Hv. lia.
    + rewrite map_size_delete, Hv. lia.
  - rewrite <-eq_None_not_Some in Hex. rewrite delete_id by done. split; [done|lia].
Qed.

(** ** The map laws, for the components that use the map *)

Definition sm_ok (sm : ShardMap) : Prop := ∃ m, shards_rel (sm_shards sm) m.

Lemma ShardMap_Get_rel sm m k : shards_rel (sm_shards sm) m → ShardMap_Get sm k = m !! k.
Proof. intros R. unfold ShardMap_Get, shard_at. apply (sr_get _ _ R). Qed.

Lemma ShardMap_Set_rel sm m k v :
  shards_rel (sm_shards sm) m → shards_rel (sm_shards (ShardMap_Set sm k v)) (<[k := v]> m).
Proof.
  intros R. unfold ShardMap_Set. pose proof (proj1 (set_locked_rel _ m k v R)) as H'.
  by destruct (set_locked k v (sm_shards sm)).
Qed.

Lemma ShardMap_Delete_rel sm m k :
  shards_rel (sm_shards sm) m → shards_rel (sm_shards (ShardMap_Delete sm k)) (delete k m).
Proof.
  intros R. unfold ShardMap_Delete. pose proof (proj1 (delete_locked_rel _ m k R)) as H'.
  by destruct (delete_locked k (sm_shards sm)).
Qed.

Lemma sm_ok_New : sm_ok NewShardMap.
Proof. exists ∅. apply NewShardMap_rel. Qed.
Lemma sm_ok_Set sm k v : sm_ok sm → sm_ok (ShardMap_Set sm k v).
Proof. intros [m R]. eexists. by apply ShardMap_Set_rel. Qed.
Lemma sm_ok_Delete sm k : sm_ok sm → sm_ok (ShardMap_Delete sm k).
Proof. intros [m R]. eexists. by apply ShardMap_Delete_rel. Qed.

Lemma ShardMap_Get_New k : ShardMap_Get NewShardMap k = None.
Proof. rewrite (ShardMap_Get_rel _ ∅) by apply NewShardMap_rel. apply lookup_empty. Qed.
Lemma ShardMap_Get_Set sm k v k' : sm_ok sm →
  ShardMap_Get (ShardMap_Set sm k v) k' = if decide (k = k') then Some v else ShardMap_Get sm k'.
Proof.
  intros [m R]. rewrite (ShardMap_Get_rel _ _ _ (ShardMap_Set_rel _ _ k v R)), (ShardMap_Get_rel _ _ _ R).
  case_decide; [subst; apply lookup_insert_eq|by apply lookup_insert_ne].
Qed.
Lemma ShardMap_Get_Delete sm k k' : sm_ok sm →
  ShardMap_Get (ShardMap_Delete sm k) k' = if decide (k = k') then None else ShardMap_Get sm k'.
Proof.
  intros [m R]. rewrite (ShardMap_Get_rel _ _ _ (ShardMap_Delete_rel _ _ k R)), (ShardMap_Get_rel _ _ _ R).
  case_decide; [subst; apply lookup_delete_eq|by apply lookup_delete_ne].
Qed.

(** ** Sequences of operations and their interleavings *)

Inductive map_op := OpSet (k : bytes) (v : V) | OpDelete (k : bytes).

(** The flat map the operations are meant to implement. *)
Definition flat_op (m : gmap bytes V) (o : map_op) : gmap bytes V :=
  match o with OpSet k v => <[k := v]> m | OpDelete k => delete k m end.

Definition sm_op (sm : ShardMap) (o : map_op) : ShardMap :=
  match o with OpSet k v => ShardMap_Set sm k v | OpDelete k => ShardMap_Delete sm k end.

Definition locked_op (shards : list (gmap bytes V)) (o : map_op) : list (gmap bytes V) * Z :=
  match o with OpSet k v => set_locked k v shards | OpDelete k => delete_locked k shards end.

(** The shared state of concurrent callers: the shards, the counter, and the
    counter updates of callers that have released the lock and not yet added. *)
Record conc_state := mkConc {
  c_shards : list (gmap bytes V);
  c_count : Z;
  c_pending : list Z
}.

Inductive conc_step : conc_state → option map_op → conc_state → Prop :=
| conc_locked o shards count pending shards' d :
    locked_op shards o = (shards', d) →
    conc_step (mkConc shards count pending) (Some o)
      (mkConc shards' count (if decide (d = 0) then pending else d :: pending))
| conc_add shards count d before after :
    conc_step (mkConc shards count (before ++ d :: after)) None
      (mkConc shards (count_add count d) (before ++ after)).

Inductive conc_steps : conc_state → list map_op → conc_state → Prop :=
| conc_refl s : conc_steps s [] s
| conc_trans s1 l tr s2 s3 :
    conc_steps s1 tr s2 → conc_step s2 l s3 →
    conc_steps s1 (tr ++ option_list l) s3.

Definition conc_init : conc_state := mkConc (sm_shards NewShardMap) 0 [].

Lemma locked_op_rel shards m o :
  shards_rel shards m →
  shards_rel (locked_op shards o).1 (flat_op m o) ∧
  (locked_op shards o).2 = Z.of_nat (size (flat_op m o)) - Z.of_nat (size m).
Proof. destruct o; [apply set_locked_rel|apply delete_locked_rel]. Qed.

Lemma i64_add a b : i64 (i64 a + b) = i64 (a + b).
Proof.
  unfold i64. f_equal.
  replace ((a + 2 ^ 63) mod 2 ^ 64 - 2 ^ 63 + b + 2 ^ 63) with ((a + 2 ^ 63) mod 2 ^ 64 + b) by lia.
  rewrite Zplus_mod_idemp_l. f_equal. lia.
Qed.

Lemma i64_idem a : i64 (i64 a) = i64 a.
Proof. rewrite <-(Z.add_0_r (i64 a)) at 1. rewrite i64_add. f_equal. lia. Qed.

Definition sum_list_Z (l : list Z) : Z := foldr Z.add 0 l.
Lemma sum_list_Z_app l1 l2 : sum_list_Z (l1 ++ l2) = sum_list_Z l1 + sum_list_Z l2.
Proof. induction l1 as [|x l1 IH]; simpl; lia. Qed.

(** The invariant of every interleaving. *)
Lemma conc_inv tr s :
  conc_steps conc_init tr s →
  let m := foldl flat_op ∅ tr in
  shards_rel (c_shards s) m ∧
  i64 (c_count s + sum_list_Z (c_pending s)) = i64 (Z.of_nat (size m)) ∧
  c_count s = i64 (c_count s).
Proof.
  intros H. remember conc_init as s0 eqn:E0.
  induction H as [s|s1 l tr s2 s3 H IH Hstep]; subst.
  { split; [apply NewShardMap_rel|done]. }
  destruct (IH eq_refl) as (R & Hc & Hi). rewrite foldl_app. cbv zeta in *.
  set (m := foldl flat_op ∅ tr) in *. inversion Hstep as [o sh c p sh' d Hl|sh c d p1 p2]; subst.
  - change (foldl flat_op m (option_list (Some o))) with (flat_op m o).
    cbn [c_shards c_count c_pending] in *. pose proof (locked_op_rel sh m o R) as [R' Hd]. rewrite Hl in R', Hd. cbn [fst snd] in R', Hd.
    split; [done|]. split; [|done]. case_decide as Hz.
    + rewrite Hc. apply (f_equal i64). lia.
    + cbn [sum_list_Z foldr]. fold (sum_list_Z p).
      replace (c + (d + sum_list_Z p)) with (c + sum_list_Z p + d) by lia.
      rewrite <-i64_add, Hc, i64_add. f_equal. lia.
  - change (foldl flat_op m (option_list None)) with m.
    cbn [c_shards c_count c_pending] in *. split; [done|].
    rewrite sum_list_Z_app in *. cbn [sum_list_Z foldr] in Hc. fold (sum_list_Z p2) in Hc.
    unfold count_add. rewrite i64_add. split.
    + rewrite <-Hc. f_equal. lia.
    + by rewrite i64_idem.
Qed.

(** The sequential operations are interleavings without pending updates. *)
Lemma sm_ops_conc ops :
  let sm := foldl sm_op NewShardMap ops in
  conc_steps conc_init ops (mkConc (sm_shards sm) (sm_count sm) []).
Proof.
  induction ops as [|o ops IH] using rev_ind; [constructor|]. cbv zeta in *.
  rewrite foldl_app. cbn [foldl]. set (sm := foldl sm_op NewShardMap ops) in *.
  destruct (locked_op (sm_shards sm) o) as [shards' d] eqn:E.
  assert (conc_steps conc_init (ops ++ [o]) (mkConc shards' (sm_count sm)
    (if decide (d = 0) then [] else [d]))) as H1.
  { apply (conc_trans _ (Some o) _ _ _ IH). by constructor. }
  assert (sm_op sm o = mkShardMap shards'
    (if decide (d = 0) then sm_count sm else count_add (sm_count sm) d)) as ->.
  { destruct o; simpl in *; unfold ShardMap_Set, ShardMap_Delete; by rewrite E. }
  case_decide; [done|]. cbn [sm_shards sm_count].
  rewrite <-(app_nil_r (ops ++ [o])). apply (conc_trans _ None _ _ _ H1).
  apply (conc_add _ _ _ [] []).
Qed.

(** Iterating the shards visits the entries of the flat map, each once. *)
Lemma shards_entries shards m :
  shards_rel shards m → concat (map_to_list <$> shards) ≡ₚ map_to_list m.
Proof.
  intros R. apply NoDup_Permutation.
  - assert (∀ j, (∀ i sh k, shards !! i = Some sh → is_Some (sh !! k) → (j + i = shardIndex k)%nat) →
      NoDup (concat (map_to_list <$> shards))) as Hgen.
    { clear R. induction shards as [|sh shards IH]; intros j Hh; [constructor|].
      rewrite fmap_cons. cbn [concat]. apply NoDup_app. split; [apply NoDup_map_to_list|].
      split.
      - intros [k v] H1 H2. apply elem_of_map_to_list in H1.
        apply list_elem_of_In, in_concat in H2 as (l & Hl & H2).
        apply list_elem_of_In, list_elem_of_fmap in Hl as (sh' & -> & Hsh').
        apply list_elem_of_In, elem_of_map_to_list in H2.
        apply list_elem_of_lookup in Hsh' as [i Hi].
        pose proof (Hh 0%nat sh k eq_refl ltac:(by eexists)).
        pose proof (Hh (S i) sh' k Hi ltac:(by eexists)). lia.
      - apply (IH (S j)). intros i sh' k Hi Hk. pose proof (Hh (S i) sh' k Hi Hk). lia. }
    apply (Hgen 0%nat). intros i sh k Hi Hk. by apply (sr_home _ _ R i sh k).
  - apply NoDup_map_to_list.
  - intros [k v]. rewrite elem_of_map_to_list. split.
    + intros H%list_elem_of_In%in_concat. destruct H as (l & Hl & H).
      apply list_elem_of_In, list_elem_of_fmap in Hl as (sh & -> & Hsh).
      apply list_elem_of_In, elem_of_map_to_list in H.
      apply list_elem_of_lookup in Hsh as [i Hi].
      pose proof (sr_home _ _ R i sh k Hi ltac:(by eexists)) as ->.
      destruct (shard_lookup shards m k R) as (sh' & Hsh' & <-). by simplify_eq.
    + intros Hk. destruct (shard_lookup shards m k R) as (sh & Hsh & E).
      apply list_elem_of_In, in_concat. exists (map_to_list sh).
      rewrite <-!list_elem_of_In. split.
      * apply list_elem_of_fmap. exists sh. split; [done|]. by eapply list_elem_of_lookup_2.
      * apply elem_of_map_to_list. by rewrite E.
Qed.

Lemma flat_ops_size ops : Z.of_nat (size (foldl flat_op ∅ ops)) <= zlen ops.
Proof.
  induction ops as [|o ops IH] using rev_ind; [done|].
  rewrite foldl_app, zlen_app. change (zlen [o]) with 1. cbn [foldl].
  set (m := foldl flat_op ∅ ops) in *.
  destruct o as [k v|k]; cbn [flat_op]; [rewrite map_size_insert|rewrite map_size_delete];
    destruct (m !! k); cbn [from_option id]; lia.
Qed.

(** ** Properties *)

(** The sharded map is a map.  After any sequence of [Set] and [Delete], [Get]
    answers like the flat map with the same updates, [Len] is its size, and
    [Range] with a callback that goes on visits each entry exactly once, in
    whatever order the shards are iterated. *)
Theorem ShardMap_refines_map ops iters :
  zlen ops < 2 ^ 63 →
  let sm := foldl sm_op NewShardMap ops in
  let m := foldl flat_op ∅ ops in
  Forall2 (λ it sh, it ≡ₚ map_to_list sh) iters (sm_shards sm) →
  (∀ k, ShardMap_Get sm k = m !! k) ∧ ShardMap_Len sm = Z.of_nat (size m) ∧
  ShardMap_Range iters (λ acc k v, (acc ++ [(k, v)], true)) [] ≡ₚ map_to_list m.
Proof.
  intros Hlen sm m Hit. pose proof (sm_ops_conc ops) as H. cbv zeta in H. fold sm in H.
  destruct (conc_inv _ _ H) as (R & Hc & Hi). cbn [c_shards c_count c_pending sum_list_Z foldr] in *.
  fold m in R, Hc. split; [|split].
  - intros k. apply (sr_get _ _ R).
  - unfold ShardMap_Len. rewrite Hi. rewrite Z.add_0_r in Hc. rewrite Hc. apply i64_id.
    assert (Z.of_nat (size m) <= zlen ops) as Hs; [|lia].
    apply flat_ops_size.
  - assert (∀ kvs acc, range_loop (λ acc k v, (acc ++ [(k, v)], true)) kvs acc = acc ++ kvs) as Hr.
    { induction kvs as [|[k v] kvs IH]; intros acc; simpl; [by rewrite app_nil_r|].
      by rewrite IH, <-app_assoc. }
    unfold ShardMap_Range. rewrite Hr. simpl. rewrite <-(shards_entries _ _ R). clear -Hit.
    induction Hit as [|it sh its shs Hp _ IH]; [done|]. rewrite fmap_cons. simpl. by rewrite Hp, IH.
Qed.

(** C35: concurrent use.  However the callers' lock sections and counter updates
    interleave, the shards always hold the flat map with the updates in the order
    of their lock sections, and the counter differs from its size by exactly the
    updates still to be added; once none is pending, [Len] is the size. *)
Theorem ShardMap_concurrent tr s :
  conc_steps conc_init tr s →
  let m := foldl flat_op ∅ tr in
  (∀ k, ShardMap_Get (mkShardMap (c_shards s) (c_count s)) k = m !! k) ∧
  i64 (c_count s + sum_list_Z (c_pending s)) = i64 (Z.of_nat (size m)) ∧
  (c_pending s = [] → zlen tr < 2 ^ 63 →
   ShardMap_Len (mkShardMap (c_shards s) (c_count s)) = Z.of_nat (size m)).
Proof.
  intros H m. destruct (conc_inv tr s H) as (R & Hc & Hi). fold m in R, Hc.
  split; [|split; [done|]].
  - intros k. apply (sr_get _ _ R).
  - intros Hp Hs. pose proof (flat_ops_size tr). unfold ShardMap_Len. cbn [sm_count]. rewrite Hi. rewrite Hp in Hc.
    cbn [sum_list_Z foldr] in Hc. rewrite Z.add_0_r in Hc. rewrite Hc. apply i64_id. unfold m. lia.
Qed.

End shardmap.

Arguments ShardMap V : clear implicits.
Arguments conc_state V : clear implicits.
Arguments map_op V : clear implicits.

Definition sm_example_ops : list (map_op Z) :=
  [OpSet (str "a") 1; OpSet (str "b") 2; OpSet (str "a") 3; OpDelete (str "b"); OpDelete (str "x")].

Lemma ShardMap_refines_map_witness :
  let sm := foldl sm_op NewShardMap sm_example_ops in
  ShardMap_Get sm (str "a") = Some 3 ∧ ShardMap_Len sm = 1 ∧
  ShardMap_Range (map_to_list <$> sm_shards sm) (λ acc k v, (acc ++ [(k, v)], true)) []
    ≡ₚ [(str "a", 3)].
Proof.
  intros sm.
  assert (Forall2 (λ it sh, it ≡ₚ map_to_list sh) (map_to_list <$> sm_shards sm) (sm_shards sm))
    as Hit by (apply Forall2_fmap_l, Forall_Forall2_diag, Forall_true; intros sh; simpl; reflexivity).
  destruct (ShardMap_refines_map sm_example_ops _ ltac:(vm_compute; reflexivity) Hit)
    as (H1 & H2 & H3).
  split; [|split].
  - refine (eq_trans (H1 (str "a")) _). vm_compute. reflexivity.
  - refine (eq_trans H2 _). vm_compute. reflexivity.
  - refine (transitivity H3 _). vm_compute. reflexivity.
Defined.

(** A set and a delete whose counter updates are both still pending. *)
Definition conc_example : conc_state Z :=
  let sh1 := (locked_op (sm_shards NewShardMap) (OpSet (str "a") 1)).1 in
  mkConc (locked_op sh1 (OpDelete (str "a"))).1 0 [-1; 1].

Lemma ShardMap_concurrent_witness :
  conc_steps conc_init [OpSet (str "a") 1; OpDelete (str "a")] conc_example ∧
  ∀ k, ShardMap_Get (mkShardMap (c_shards conc_example) (c_count conc_example)) k =
    (foldl flat_op ∅ [OpSet (str "a") 1; OpDelete (str "a")]) !! k.
Proof.
  assert (conc_steps conc_init [OpSet (str "a") 1; OpDelete (str "a")] conc_example) as H.
  { refine (conc_trans conc_init (Some (OpDelete (str "a"))) [OpSet (str "a") 1]
      (mkConc (locked_op (sm_shards NewShardMap) (OpSet (str "a") 1)).1 0 [1]) _ _ _).
    - refine (conc_trans conc_init (Some (OpSet (str "a") 1)) [] conc_init _ (conc_refl _) _).
      exact (conc_locked (OpSet (str "a") 1) (sm_shards NewShardMap) 0 []
        (locked_op (sm_shards NewShardMap) (OpSet (str "a") 1)).1 1
        ltac:(vm_compute; reflexivity)).
    - exact (conc_locked (OpDelete (str "a"))
        (locked_op (sm_shards NewShardMap) (OpSet (str "a") 1)).1 0 [1] _ (-1)
        ltac:(vm_compute; reflexivity)). }
  split; [exact H|]. exact (proj1 (ShardMap_concurrent _ _ H)).
Defined.
