(* ===== verification/Client.v ===== *)
(** * The SMPP client (smpp/client.go)

    The request methods with their sequence numbers and pending-response channels,
    the dispatch of incoming PDUs, the deliver queue and its workers, connecting,
    disconnecting and closing.  The goroutines that share a client are the steps of
    a transition system: a step is a section the source runs under a lock or as one
    atomic or channel operation. *)

From S2P Require Import Prelude Constants Tlv Pdu Operations.

Local Open Scope Z_scope.

(** ** Configuration and data *)

Record Config := mkConfig {
  cfg_Host : bytes; cfg_Port : Z; cfg_SystemID : bytes; cfg_Password : bytes;
  cfg_SystemType : bytes; cfg_SourceAddr : bytes; cfg_SourceAddrTON : Z;
  cfg_SourceAddrNPI : Z; cfg_EnquireLinkSec : Z; cfg_TLSEnabled : bool;
  cfg_TLSInsecureSkipVerify : bool; cfg_BindMode : BindMode; cfg_InterfaceVersion : Z
}.

Record SubmitRequest := mkSubmitRequest {
  sr_MSISDN : bytes; sr_DestTON : Z; sr_DestNPI : Z; sr_ESMClass : Z; sr_ProtocolID : Z;
  sr_DataCoding : Z; sr_Payload : bytes; sr_RegisterDLR : bool
}.

(** The response's error is the status of a rejected submit. *)
Record SubmitResponse := mkSubmitResponse { resp_MessageID : bytes; resp_Error : option Z }.

Record QuerySMResponse := mkQuerySMResponse {
  qr_MessageID : bytes; qr_FinalDate : bytes; qr_MessageState : Z; qr_ErrorCode : Z
}.

Record deliverMessage := mkDeliver {
  dm_sourceAddr : bytes; dm_destAddr : bytes; dm_esmClass : Z; dm_payload : bytes;
  dm_seqNum : Z
}.

(** A response channel has a buffer of one PDU; channels are numbered in the order
    they are made.  [c_written] lists the PDUs written to the connection, and
    [c_done] says that the done channel is closed. *)
Record Client := mkClient {
  c_config : Config;
  c_hasHandler : bool;
  c_deliverWorkers : Z;
  c_deliverQueueSize : Z;
  c_negotiatedVersion : Z;
  c_bound : bool;
  c_seqNum : Z;
  c_pending : gmap Z nat;
  c_chans : list (option PDU);
  c_done : bool;
  c_deliverQ : list deliverMessage;
  c_connOpen : bool;
  c_written : list PDU
}.

Definition NewClientWithWorkers (config : Config) (hasHandler : bool)
    (deliverWorkers deliverQueueSize : Z) : Client :=
  let config :=
    mkConfig (cfg_Host config) (cfg_Port config) (cfg_SystemID config) (cfg_Password config)
      (cfg_SystemType config) (cfg_SourceAddr config) (cfg_SourceAddrTON config)
      (cfg_SourceAddrNPI config)
      (if decide (cfg_EnquireLinkSec config <= 0) then 30 else cfg_EnquireLinkSec config)
      (cfg_TLSEnabled config) (cfg_TLSInsecureSkipVerify config) (cfg_BindMode config)
      (if decide (cfg_InterfaceVersion config = 0) then 0x34 else cfg_InterfaceVersion config) in
  let deliverWorkers := if decide (deliverWorkers <= 0) then 8 else deliverWorkers in
  let deliverQueueSize := if decide (deliverQueueSize <= 0) then 25000 else deliverQueueSize in
  mkClient config hasHandler deliverWorkers deliverQueueSize 0 false 0 ∅ [] false [] false [].

Definition NewClient (config : Config) (hasHandler : bool) : Client :=
  NewClientWithWorkers config hasHandler 8 25000.

(** ** Field updates *)

Definition with_seq (c : Client) (s : Z) : Client :=
  mkClient (c_config c) (c_hasHandler c) (c_deliverWorkers c) (c_deliverQueueSize c)
    (c_negotiatedVersion c) (c_bound c) s (c_pending c) (c_chans c) (c_done c) (c_deliverQ c)
    (c_connOpen c) (c_written c).
Definition with_pending (c : Client) (p : gmap Z nat) (ch : list (option PDU)) : Client :=
  mkClient (c_config c) (c_hasHandler c) (c_deliverWorkers c) (c_deliverQueueSize c)
    (c_negotiatedVersion c) (c_bound c) (c_seqNum c) p ch (c_done c) (c_deliverQ c)
    (c_connOpen c) (c_written c).
Definition with_queue (c : Client) (q : list deliverMessage) : Client :=
  mkClient (c_config c) (c_hasHandler c) (c_deliverWorkers c) (c_deliverQueueSize c)
    (c_negotiatedVersion c) (c_bound c) (c_seqNum c) (c_pending c) (c_chans c) (c_done c) q
    (c_connOpen c) (c_written c).
Definition with_written (c : Client) (w : list PDU) : Client :=
  mkClient (c_config c) (c_hasHandler c) (c_deliverWorkers c) (c_deliverQueueSize c)
    (c_negotiatedVersion c) (c_bound c) (c_seqNum c) (c_pending c) (c_chans c) (c_done c)
    (c_deliverQ c) (c_connOpen c) w.
(** Version, bound flag, done channel, queue and connection. *)
Definition with_session (c : Client) (version : Z) (bound done_ : bool)
    (q : list deliverMessage) (open : bool) : Client :=
  mkClient (c_config c) (c_hasHandler c) (c_deliverWorkers c) (c_deliverQueueSize c)
    version bound (c_seqNum c) (c_pending c) (c_chans c) done_ q open (c_written c).

(** ** Sequence numbers and pending responses *)

Definition nextSeq (c : Client) : Z * Client :=
  let s := u32 (c_seqNum c + 1) in (s, with_seq c s).

Definition registerPending (c : Client) (seq : Z) : nat * Client :=
  let ch := length (c_chans c) in
  (ch, with_pending c (<[seq := ch]> (c_pending c)) (c_chans c ++ [None])).

Definition unregisterPending (c : Client) (seq : Z) : option nat * Client :=
  (c_pending c !! seq, with_pending c (delete seq (c_pending c)) (c_chans c)).

(** [ch <- pdu] on a channel with a buffer of one: [None] if it would block. *)
Definition send_chan (ch : nat) (pdu : PDU) (chans : list (option PDU))
    : option (list (option PDU)) :=
  match chans !! ch with
  | Some None => Some (<[ch := Some pdu]> chans)
  | _ => None
  end.

(** Whether the connection accepts a write is up to the network ([ok]). *)
Definition writePDU (ok : bool) (c : Client) (pdu : PDU) : bool * Client :=
  if ok then (true, with_written c (c_written c ++ [pdu])) else (false, c).

(** ** The request methods

    Each method builds a PDU for a sequence number and reads its result from the
    response. *)

Inductive call_err :=
| NotBound
| SendFailed
| StatusErr (status : Z)
| ResponseTimeout.

Definition mkReq (id seq : Z) (body : bytes) : PDU := mkPDU 0 id StatusOK seq body None.

Definition Submit_pdu (cfg : Config) (req : SubmitRequest) (seq : Z) : PDU :=
  let registeredDelivery := if sr_RegisterDLR req then 0x01 else 0 in
  mkReq CmdSubmitSM seq
    (EncodeSubmitSM (cfg_SourceAddr cfg) (cfg_SourceAddrTON cfg) (cfg_SourceAddrNPI cfg)
       (sr_MSISDN req) (sr_DestTON req) (sr_DestNPI req) (sr_ESMClass req)
       (sr_ProtocolID req) (sr_DataCoding req) registeredDelivery (sr_Payload req)).

(** A rejected submit is a response carrying the error, not an error. *)
Definition Submit_result (resp : PDU) : call_err + SubmitResponse :=
  if decide (CommandStatus resp ≠ StatusOK) then
    inr (mkSubmitResponse [] (Some (CommandStatus resp)))
  else inr (mkSubmitResponse (ParseSubmitSMResp (Body resp)) None).

Definition SubmitRaw_pdu (body : bytes) (seq : Z) : PDU := mkReq CmdSubmitSM seq body.
Definition SubmitRaw_result (resp : PDU) : call_err + SubmitResponse := Submit_result resp.

Definition QuerySM_pdu (messageID sourceAddr : bytes) (sourceTON sourceNPI seq : Z) : PDU :=
  mkReq CmdQuerySM seq (EncodeQuerySM messageID sourceAddr sourceTON sourceNPI).
Definition QuerySM_result (resp : PDU) : call_err + QuerySMResponse :=
  if decide (CommandStatus resp ≠ StatusOK) then inl (StatusErr (CommandStatus resp))
  else
    let '(msgID, finalDate, msgState, errCode) := ParseQuerySMResp (Body resp) in
    inr (mkQuerySMResponse msgID finalDate msgState errCode).

(** The methods that only report success. *)
Definition unit_result (resp : PDU) : call_err + unit :=
  if decide (CommandStatus resp ≠ StatusOK) then inl (StatusErr (CommandStatus resp))
  else inr tt.

Definition CancelSM_pdu (serviceType messageID sourceAddr : bytes) (sourceTON sourceNPI : Z)
    (destAddr : bytes) (destTON destNPI seq : Z) : PDU :=
  mkReq CmdCancelSM seq (EncodeCancelSM serviceType messageID sourceAddr sourceTON sourceNPI
    destAddr destTON destNPI).

Definition ReplaceSM_pdu (messageID sourceAddr : bytes) (sourceTON sourceNPI : Z)
    (scheduleDeliveryTime validityPeriod : bytes) (registeredDelivery dataCoding : Z)
    (shortMessage : bytes) (seq : Z) : PDU :=
  let smLength := u8 (zlen shortMessage) in
  mkReq CmdReplaceSM seq (EncodeReplaceSM messageID sourceAddr sourceTON sourceNPI
    scheduleDeliveryTime validityPeriod registeredDelivery dataCoding smLength shortMessage).

Definition BroadcastSM_pdu (serviceType : bytes) (sourceTON sourceNPI : Z)
    (sourceAddr messageID : bytes) (priorityFlag : Z)
    (scheduleDeliveryTime validityPeriod : bytes)
    (replaceIfPresent dataCoding smDefaultMsgID : Z) (tlvs : option TLVSet) (seq : Z) : PDU :=
  mkPDU 0 CmdBroadcastSM StatusOK seq
    (EncodeBroadcastSM serviceType sourceTON sourceNPI sourceAddr messageID priorityFlag
       scheduleDeliveryTime validityPeriod replaceIfPresent dataCoding smDefaultMsgID) tlvs.
Definition BroadcastSM_result (resp : PDU) : call_err + bytes :=
  if decide (CommandStatus resp ≠ StatusOK) then inl (StatusErr (CommandStatus resp))
  else inr (ParseBroadcastSMResp (Body resp)).

Definition QueryBroadcastSM_pdu (messageID : bytes) (sourceTON sourceNPI : Z)
    (sourceAddr : bytes) (seq : Z) : PDU :=
  mkReq CmdQueryBroadcastSM seq (EncodeQueryBroadcastSM messageID sourceTON sourceNPI sourceAddr).
Definition QueryBroadcastSM_result (resp : PDU) : call_err + (bytes * Z) :=
  if decide (CommandStatus resp ≠ StatusOK) then inl (StatusErr (CommandStatus resp))
  else inr (ParseQueryBroadcastSMResp (Body resp)).

Definition CancelBroadcastSM_pdu (serviceType messageID : bytes) (sourceTON sourceNPI : Z)
    (sourceAddr : bytes) (seq : Z) : PDU :=
  mkReq CmdCancelBroadcastSM seq
    (EncodeCancelBroadcastSM serviceType messageID sourceTON sourceNPI sourceAddr).

(** ** Incoming PDUs *)

(** [select] between the closed done channel and the queue picks either when both
    are ready ([pick_done]); [None] means the caller blocks. *)
Definition enqueueDeliver (pick_done : bool) (c : Client) (msg : deliverMessage)
    : option Client :=
  if c_done c && pick_done then Some c
  else if decide (zlen (c_deliverQ c) < c_deliverQueueSize c) then
    Some (with_queue c (c_deliverQ c ++ [msg]))
  else if c_done c then Some c
  else None.

Definition disconnect_pdu : PDU := mkPDU 0 CmdGenericNack StatusSysErr 0 [] None.

(** The drain loop of [handleDisconnect] over the pending map, in the order [seqs]
    the runtime iterates it. *)
Fixpoint drain_pending (seqs : list Z) (pending : gmap Z nat) (chans : list (option PDU))
    : option (gmap Z nat * list (option PDU)) :=
  match seqs with
  | [] => Some (pending, chans)
  | seq :: seqs =>
      match pending !! seq with
      | Some ch =>
          chans ← send_chan ch disconnect_pdu chans;
          drain_pending seqs (delete seq pending) chans
      | None => drain_pending seqs pending chans
      end
  end.

Definition handleDisconnect (c : Client) : option Client :=
  if c_bound c then
    let c := with_session c (c_negotiatedVersion c) false true (c_deliverQ c) (c_connOpen c) in
    pc ← drain_pending (map_to_list (c_pending c)).*1 (c_pending c) (c_chans c);
    let c := with_pending c pc.1 pc.2 in
    Some (with_session c (c_negotiatedVersion c) (c_bound c) (c_done c) (c_deliverQ c) false)
  else Some c.

(** The response commands that [dispatchPDU] delivers to a pending request. *)
Definition is_response (id : Z) : Prop :=
  id = CmdBindTransceiverResp ∨ id = CmdBindTransmitterResp ∨ id = CmdBindReceiverResp ∨
  id = CmdSubmitSMResp ∨ id = CmdUnbindResp ∨ id = CmdQuerySMResp ∨ id = CmdCancelSMResp ∨
  id = CmdReplaceSMResp ∨ id = CmdDataSMResp ∨ id = CmdSubmitMultiResp ∨
  id = CmdBroadcastSMResp ∨ id = CmdQueryBroadcastSMResp ∨ id = CmdCancelBroadcastSMResp.
#[export] Instance is_response_dec id : Decision (is_response id).
Proof. unfold is_response. apply _. Defined.

(** [ok] is the fate of a write this makes, [pick_done] the choice in
    [enqueueDeliver]; [None] means the read loop blocks. *)
Definition dispatchPDU (ok pick_done : bool) (c : Client) (pdu : PDU) : option Client :=
  if decide (is_response (CommandID pdu)) then
    let '(ch, c) := unregisterPending c (SequenceNumber pdu) in
    match ch with
    | Some ch =>
        chans ← send_chan ch pdu (c_chans c);
        Some (with_pending c (c_pending c) chans)
    | None => Some c
    end
  else if decide (CommandID pdu = CmdDeliverSM) then
    let '(sourceAddr, destAddr, esmClass, shortMessage) := ParseDeliverSM (Body pdu) in
    enqueueDeliver pick_done c
      (mkDeliver sourceAddr destAddr esmClass shortMessage (SequenceNumber pdu))
  else if decide (CommandID pdu = CmdEnquireLink) then
    Some (writePDU ok c (mkPDU 0 CmdEnquireLinkResp StatusOK (SequenceNumber pdu) [] None)).2
  else if decide (CommandID pdu = CmdEnquireLinkResp) then Some c
  else if decide (CommandID pdu = CmdUnbind) then
    let c := (writePDU ok c (mkPDU 0 CmdUnbindResp StatusOK (SequenceNumber pdu) [] None)).2 in
    handleDisconnect c
  else Some c.

(** ** Connecting and closing *)

(** From the dial to the bind request that has been written: fresh done channel
    and deliver queue, a sequence number, a pending channel.  [None] when the
    client is already bound, the dial fails or the bind cannot be written. *)
Definition connect_begin (dial_ok write_ok : bool) (c : Client) : Client * option (Z * nat) :=
  if c_bound c then (c, None)
  else if dial_ok then
    let c := with_session c (c_negotiatedVersion c) (c_bound c) false [] true in
    let '(seq, c) := nextSeq c in
    let cfg := c_config c in
    let bindPDU := mkReq (bindCommandID (cfg_BindMode cfg)) seq
      (EncodeBind (cfg_BindMode cfg) (cfg_SystemID cfg) (cfg_Password cfg) (cfg_SystemType cfg)
         (cfg_InterfaceVersion cfg)) in
    let '(respCh, c) := registerPending c seq in
    let '(ok, c) := writePDU write_ok c bindPDU in
    if ok then (c, Some (seq, respCh))
    else
      let c := (unregisterPending c seq).2 in
      (with_session c (c_negotiatedVersion c) (c_bound c) (c_done c) (c_deliverQ c) false, None)
  else (c, None).

Definition close_conn (c : Client) : Client :=
  with_session c (c_negotiatedVersion c) (c_bound c) (c_done c) (c_deliverQ c) false.

(** After the wait: a bind response, or a timeout or cancelled context ([None]). *)
Definition connect_end (resp : option PDU) (c : Client) : Client * bool :=
  match resp with
  | Some resp =>
      if decide (CommandStatus resp ≠ StatusOK) then (close_conn c, false)
      else
        let '(smscID, tlvs) := ParseBindResp (bindRespCommandID (cfg_BindMode (c_config c)))
                                 (Body resp) in
        let version :=
          match tlvs with
          | Some t =>
              match TLVSet_GetUint8 t TagSCInterfaceVersion with
              | Some ver => ver
              | None => cfg_InterfaceVersion (c_config c)
              end
          | None => cfg_InterfaceVersion (c_config c)
          end in
        (with_session c version true (c_done c) (c_deliverQ c) (c_connOpen c), true)
  | None => (close_conn c, false)
  end.

Definition Client_Close (ok : bool) (c : Client) : Client :=
  if c_bound c then
    let '(seq, c) := nextSeq c in
    let c := (writePDU ok c (mkPDU 0 CmdUnbind StatusOK seq [] None)).2 in
    with_session c (c_negotiatedVersion c) false true (c_deliverQ c) false
  else c.

Definition IsBound (c : Client) : bool := c_bound c.
Definition NegotiatedVersion (c : Client) : Z := c_negotiatedVersion c.

(** One tick of the keep-alive loop. *)
Definition enquireLink_tick (ok : bool) (c : Client) : Client :=
  let '(seq, c) := nextSeq c in
  (writePDU ok c (mkPDU 0 CmdEnquireLink StatusOK seq [] None)).2.

(** What a deliver worker does with a message once the handler has returned
    ([handlerOk]): it answers the SMSC. *)
Definition deliver_answer (ok handlerOk : bool) (c : Client) (msg : deliverMessage) : Client :=
  let handlerOk := if c_hasHandler c then handlerOk else true in
  let status := if handlerOk then StatusOK else StatusSysErr in
  (writePDU ok c (EncodeDeliverSMRespWithStatus (dm_seqNum msg) status)).2.

(** ** The goroutines that share a client

    A process is a goroutine inside a request method or inside [Connect]; it is at
    one of the points between the atomic sections of the source.  [s_mu] says that
    [Connect] holds the client's mutex, [s_draws] counts the sequence numbers
    drawn so far, [s_stale] are the queued messages of earlier sessions, each with
    whether the done channel of its session was closed, [s_handled] logs what the
    handler returned, and [s_lost] are the messages that were left in a queue whose
    workers have returned. *)

Inductive proc :=
| PChecked (mk : Z → PDU)
| PSeq (mk : Z → PDU) (seq : Z)
| PRegistered (mk : Z → PDU) (seq : Z) (ch : nat)
| PWaiting (seq : Z) (ch : nat)
| PBinding (seq : Z) (ch : nat)
| PDone (seq : option Z) (r : call_err + PDU).

Record sys := mkSys {
  s_client : Client;
  s_procs : gmap nat proc;
  s_mu : bool;
  s_draws : Z;
  s_working : list deliverMessage;
  s_stale : list (deliverMessage * bool);
  s_handled : list (deliverMessage * bool);
  s_lost : list deliverMessage
}.

(** The queue that [Connect] replaces joins the earlier ones. *)
Definition replaced_queue (σ : sys) : list (deliverMessage * bool) :=
  s_stale σ ++ ((λ m, (m, c_done (s_client σ))) <$> c_deliverQ (s_client σ)).

Definition sys_client (σ : sys) (c : Client) : sys :=
  mkSys c (s_procs σ) (s_mu σ) (s_draws σ) (s_working σ) (s_stale σ) (s_handled σ) (s_lost σ).
Definition sys_proc (σ : sys) (c : Client) (id : nat) (p : proc) : sys :=
  mkSys c (<[id := p]> (s_procs σ)) (s_mu σ) (s_draws σ) (s_working σ) (s_stale σ) (s_handled σ) (s_lost σ).

(** The PDU builders of the request methods. *)
Inductive is_request (cfg : Config) : (Z → PDU) → Prop :=
| rq_submit req : is_request cfg (Submit_pdu cfg req)
| rq_raw body : is_request cfg (SubmitRaw_pdu body)
| rq_query id src ton npi : is_request cfg (QuerySM_pdu id src ton npi)
| rq_cancel svc id src ton npi dst dton dnpi :
    is_request cfg (CancelSM_pdu svc id src ton npi dst dton dnpi)
| rq_replace id src ton npi sched valid rd dc sm :
    is_request cfg (ReplaceSM_pdu id src ton npi sched valid rd dc sm)
| rq_broadcast svc ton npi src id prio sched valid rep dc dmi tlvs :
    is_request cfg (BroadcastSM_pdu svc ton npi src id prio sched valid rep dc dmi tlvs)
| rq_query_broadcast id ton npi src : is_request cfg (QueryBroadcastSM_pdu id ton npi src)
| rq_cancel_broadcast svc id ton npi src :
    is_request cfg (CancelBroadcastSM_pdu svc id ton npi src).

Inductive client_step : sys → sys → Prop :=
(** A request method is called and tests the bound flag under the mutex. *)
| cs_start σ id mk :
    s_mu σ = false → s_procs σ !! id = None → is_request (c_config (s_client σ)) mk →
    client_step σ (sys_proc σ (s_client σ) id
      (if c_bound (s_client σ) then PChecked mk else PDone None (inl NotBound)))
| cs_seq σ id mk seq c' :
    s_procs σ !! id = Some (PChecked mk) → nextSeq (s_client σ) = (seq, c') →
    client_step σ (mkSys c' (<[id := PSeq mk seq]> (s_procs σ)) (s_mu σ) (s_draws σ + 1)
      (s_working σ) (s_stale σ) (s_handled σ) (s_lost σ))
| cs_register σ id mk seq ch c' :
    s_procs σ !! id = Some (PSeq mk seq) → registerPending (s_client σ) seq = (ch, c') →
    client_step σ (sys_proc σ c' id (PRegistered mk seq ch))
| cs_write σ id mk seq ch c' :
    s_procs σ !! id = Some (PRegistered mk seq ch) →
    writePDU true (s_client σ) (mk seq) = (true, c') →
    client_step σ (sys_proc σ c' id (PWaiting seq ch))
| cs_write_fail σ id mk seq ch c' :
    s_procs σ !! id = Some (PRegistered mk seq ch) →
    writePDU false (s_client σ) (mk seq) = (false, c') →
    client_step σ (sys_proc σ (unregisterPending c' seq).2 id
      (PDone (Some seq) (inl SendFailed)))
| cs_receive σ id seq ch p :
    s_procs σ !! id = Some (PWaiting seq ch) → c_chans (s_client σ) !! ch = Some (Some p) →
    client_step σ (sys_proc σ
      (with_pending (s_client σ) (c_pending (s_client σ)) (<[ch := None]> (c_chans (s_client σ))))
      id (PDone (Some seq) (inr p)))
| cs_timeout σ id seq ch :
    s_procs σ !! id = Some (PWaiting seq ch) →
    client_step σ (sys_proc σ (unregisterPending (s_client σ) seq).2 id
      (PDone (Some seq) (inl ResponseTimeout)))
(** The read loop; an unbind from the SMSC needs the mutex. *)
| cs_dispatch σ ok pick_done pdu c' :
    s_mu σ = false ∨ CommandID pdu ≠ CmdUnbind →
    dispatchPDU ok pick_done (s_client σ) pdu = Some c' →
    client_step σ (sys_client σ c')
| cs_read_error σ c' :
    s_mu σ = false → handleDisconnect (s_client σ) = Some c' →
    client_step σ (sys_client σ c')
| cs_enquire σ ok :
    c_done (s_client σ) = false →
    client_step σ (mkSys (enquireLink_tick ok (s_client σ)) (s_procs σ) (s_mu σ) (s_draws σ + 1)
      (s_working σ) (s_stale σ) (s_handled σ) (s_lost σ))
(** The deliver workers. *)
| cs_take σ m q :
    c_deliverQ (s_client σ) = m :: q →
    client_step σ (mkSys (with_queue (s_client σ) q) (s_procs σ) (s_mu σ) (s_draws σ)
      (m :: s_working σ) (s_stale σ) (s_handled σ) (s_lost σ))
| cs_take_stale σ m over q1 q2 :
    s_stale σ = q1 ++ (m, over) :: q2 →
    client_step σ (mkSys (s_client σ) (s_procs σ) (s_mu σ) (s_draws σ)
      (m :: s_working σ) (q1 ++ q2) (s_handled σ) (s_lost σ))
| cs_answer σ ok h m w1 w2 :
    s_working σ = w1 ++ m :: w2 →
    client_step σ (mkSys (deliver_answer ok h (s_client σ) m) (s_procs σ) (s_mu σ) (s_draws σ)
      (w1 ++ w2) (s_stale σ)
      (s_handled σ ++ [(m, if c_hasHandler (s_client σ) then h else true)]) (s_lost σ))
(** The done channel of a session is closed, its workers have all returned, and what
    is left in its queue has no reader any more: the current session, an earlier one. *)
| cs_workers_stop σ :
    c_done (s_client σ) = true →
    client_step σ (mkSys (with_queue (s_client σ) []) (s_procs σ) (s_mu σ) (s_draws σ)
      (s_working σ) (s_stale σ) (s_handled σ) (s_lost σ ++ c_deliverQ (s_client σ)))
| cs_old_workers_stop σ q1 q q2 :
    s_stale σ = q1 ++ q ++ q2 → Forall (λ x, x.2 = true) q →
    client_step σ (mkSys (s_client σ) (s_procs σ) (s_mu σ) (s_draws σ)
      (s_working σ) (q1 ++ q2) (s_handled σ) (s_lost σ ++ q.*1))
(** [Connect] and [Close]. *)
| cs_connect σ id dial_ok write_ok c' seq ch :
    s_mu σ = false → s_procs σ !! id = None →
    connect_begin dial_ok write_ok (s_client σ) = (c', Some (seq, ch)) →
    client_step σ (mkSys c' (<[id := PBinding seq ch]> (s_procs σ)) true (s_draws σ + 1)
      (s_working σ) (replaced_queue σ) (s_handled σ) (s_lost σ))
| cs_connect_fail σ dial_ok write_ok c' :
    s_mu σ = false → connect_begin dial_ok write_ok (s_client σ) = (c', None) →
    client_step σ (mkSys c' (s_procs σ) (s_mu σ)
      (if c_bound (s_client σ) then s_draws σ else if dial_ok then s_draws σ + 1 else s_draws σ)
      (s_working σ)
      (if c_bound (s_client σ) then s_stale σ
       else if dial_ok then replaced_queue σ else s_stale σ)
      (s_handled σ) (s_lost σ))
| cs_bind_resp σ id seq ch p :
    s_procs σ !! id = Some (PBinding seq ch) → c_chans (s_client σ) !! ch = Some (Some p) →
    client_step σ (mkSys
      (connect_end (Some p)
        (with_pending (s_client σ) (c_pending (s_client σ))
           (<[ch := None]> (c_chans (s_client σ))))).1
      (<[id := PDone (Some seq) (inr p)]> (s_procs σ)) false (s_draws σ)
      (s_working σ) (s_stale σ) (s_handled σ) (s_lost σ))
| cs_bind_timeout σ id seq ch :
    s_procs σ !! id = Some (PBinding seq ch) →
    client_step σ (mkSys (connect_end None (s_client σ)).1
      (<[id := PDone (Some seq) (inl ResponseTimeout)]> (s_procs σ)) false (s_draws σ)
      (s_working σ) (s_stale σ) (s_handled σ) (s_lost σ))
| cs_close σ ok :
    s_mu σ = false →
    client_step σ (mkSys (Client_Close ok (s_client σ)) (s_procs σ) (s_mu σ)
      (if c_bound (s_client σ) then s_draws σ + 1 else s_draws σ)
      (s_working σ) (s_stale σ) (s_handled σ) (s_lost σ)).

Definition sys_init (config : Config) (hasHandler : bool) (workers queue : Z) : sys :=
  mkSys (NewClientWithWorkers config hasHandler workers queue) ∅ false 0 [] [] [] [].

Inductive reachable (σ0 : sys) : sys → Prop :=
| reach_refl : reachable σ0 σ0
| reach_step σ σ' : reachable σ0 σ → client_step σ σ' → reachable σ0 σ'.

(** ** The invariant *)

Definition p_seq (p : proc) : option Z :=
  match p with
  | PChecked _ => None
  | PSeq _ s | PRegistered _ s _ | PWaiting s _ | PBinding s _ => Some s
  | PDone s _ => s
  end.
Definition p_wait (p : proc) : option (Z * nat) :=
  match p with
  | PRegistered _ s ch | PWaiting s ch | PBinding s ch => Some (s, ch)
  | _ => None
  end.

(** A PDU that answers the request with sequence number [seq]. *)
Definition answers (p : PDU) (seq : Z) : Prop := SequenceNumber p = seq ∨ p = disconnect_pdu.

(** A request that waits is still registered, or its answer is in its channel. *)
Definition wait_ok (c : Client) (seq : Z) (ch : nat) : Prop :=
  (ch < length (c_chans c))%nat ∧
  (c_pending c !! seq = Some ch ∨ ∃ p, c_chans c !! ch = Some (Some p) ∧ answers p seq).

Record pending_ok (c : Client) : Prop := {
  po_empty : ∀ seq ch, c_pending c !! seq = Some ch → c_chans c !! ch = Some None;
  po_inj : ∀ s1 s2 ch, c_pending c !! s1 = Some ch → c_pending c !! s2 = Some ch → s1 = s2
}.

Record procs_ok (c : Client) (procs : gmap nat proc) (draws : Z) : Prop := {
  pr_range : ∀ id p s, procs !! id = Some p → p_seq p = Some s → 1 <= s <= draws;
  pr_seq : ∀ i j p q s, procs !! i = Some p → procs !! j = Some q →
    p_seq p = Some s → p_seq q = Some s → i = j;
  pr_chan : ∀ i j p q s1 s2 ch, procs !! i = Some p → procs !! j = Some q →
    p_wait p = Some (s1, ch) → p_wait q = Some (s2, ch) → i = j;
  pr_wait : ∀ id p s ch, procs !! id = Some p → p_wait p = Some (s, ch) → wait_ok c s ch;
  pr_done : ∀ id s p, procs !! id = Some (PDone (Some s) (inr p)) → answers p s
}.

Record client_inv (σ : sys) : Prop := {
  ci_draws : 0 <= s_draws σ;
  ci_seqNum : s_draws σ < 2 ^ 32 → c_seqNum (s_client σ) = s_draws σ;
  ci_pending : pending_ok (s_client σ);
  ci_bound : c_bound (s_client σ) = true → c_done (s_client σ) = false ∧ s_mu σ = false;
  ci_mu : s_mu σ = true → c_done (s_client σ) = false;
  ci_procs : s_draws σ < 2 ^ 32 → procs_ok (s_client σ) (s_procs σ) (s_draws σ)
}.

(** *** Updates of the pending map and the channels *)

(** Two clients with the same pending map and channels. *)
Definition same_chans (c c' : Client) : Prop :=
  c_pending c' = c_pending c ∧ c_chans c' = c_chans c.

Lemma pending_ok_same c c' : same_chans c c' → pending_ok c → pending_ok c'.
Proof. intros [Hp Hc] [H1 H2]. split; rewrite Hp, ?Hc; done. Qed.
Lemma wait_ok_same c c' s ch : same_chans c c' → wait_ok c s ch → wait_ok c' s ch.
Proof. intros [Hp Hc]. unfold wait_ok. by rewrite Hp, Hc. Qed.

Lemma send_chan_pending c seq ch p :
  pending_ok c → c_pending c !! seq = Some ch →
  send_chan ch p (c_chans c) = Some (<[ch := Some p]> (c_chans c)).
Proof. intros Hok Hp. unfold send_chan. by rewrite (po_empty _ Hok _ _ Hp). Qed.

(** Answering a pending request takes it out of the map and fills its channel. *)
Lemma answer_pending c seq ch p :
  pending_ok c → c_pending c !! seq = Some ch → answers p seq →
  let c' := with_pending c (delete seq (c_pending c)) (<[ch := Some p]> (c_chans c)) in
  pending_ok c' ∧ ∀ s' ch', wait_ok c s' ch' → wait_ok c' s' ch'.
Proof.
  intros Hok Hp Ha c'.
  pose proof (po_empty _ Hok _ _ Hp) as He. pose proof (lookup_lt_Some _ _ _ He) as Hlt.
  assert (∀ s' ch', delete seq (c_pending c) !! s' = Some ch' →
    c_pending c !! s' = Some ch' ∧ ch' ≠ ch) as Hdel.
  { intros s' ch' [Hne Hs]%lookup_delete_Some. split; [done|]. intros ->.
    by apply Hne, (po_inj _ Hok _ _ ch). }
  split; [split|].
  - intros s' ch' [Hs Hne]%Hdel. simpl. rewrite list_lookup_insert_ne by done.
    by apply (po_empty _ Hok s').
  - intros s1 s2 ch' [H1 _]%Hdel [H2 _]%Hdel. by apply (po_inj _ Hok _ _ ch').
  - intros s' ch' [Hl Hw]. split; [simpl; by rewrite length_insert|]. simpl.
    destruct Hw as [Hw|(q & Hq & Hqa)].
    + destruct (decide (s' = seq)) as [->|Hne].
      * right. rewrite Hw in Hp. injection Hp as ->. exists p.
        by rewrite list_lookup_insert_eq.
      * left. by rewrite lookup_delete_ne.
    + right. exists q. split; [|done]. rewrite list_lookup_insert_ne; [done|].
      intros ->. by rewrite He in Hq.
Qed.

Lemma unregister_ok c seq :
  pending_ok c →
  pending_ok (unregisterPending c seq).2 ∧
  ∀ s' ch', s' ≠ seq → wait_ok c s' ch' → wait_ok (unregisterPending c seq).2 s' ch'.
Proof.
  intros Hok. split; [split|]; simpl.
  - intros s' ch' [_ Hs]%lookup_delete_Some. by apply (po_empty _ Hok s').
  - intros s1 s2 ch [_ H1]%lookup_delete_Some [_ H2]%lookup_delete_Some.
    by apply (po_inj _ Hok _ _ ch).
  - intros s' ch' Hne [Hl Hw]. split; [done|]. simpl. rewrite lookup_delete_ne by done. done.
Qed.

Lemma register_ok c seq :
  pending_ok c →
  let c' := (registerPending c seq).2 in
  let ch := (registerPending c seq).1 in
  pending_ok c' ∧ wait_ok c' seq ch ∧
  ∀ s' ch', s' ≠ seq → wait_ok c s' ch' → wait_ok c' s' ch'.
Proof.
  intros Hok. simpl. split; [split|split]; simpl.
  - intros s' ch' [[<- <-]|[Hne Hs]]%lookup_insert_Some.
    + by rewrite lookup_app_r, Nat.sub_diag by lia.
    + rewrite lookup_app_l by (by eapply lookup_lt_Some, (po_empty _ Hok)).
      by apply (po_empty _ Hok s').
  - intros s1 s2 ch [[<- <-]|[Hne1 H1]]%lookup_insert_Some [[<- E]|[Hne2 H2]]%lookup_insert_Some.
    + done.
    + apply (po_empty _ Hok), lookup_lt_Some in H2. lia.
    + subst ch. apply (po_empty _ Hok), lookup_lt_Some in H1. lia.
    + by apply (po_inj _ Hok _ _ ch).
  - split; simpl; [rewrite length_app; simpl; lia|]. left. apply lookup_insert_eq.
  - intros s' ch' Hne [Hl Hw]. split; simpl; [rewrite length_app; simpl; lia|].
    rewrite lookup_insert_ne by done. rewrite lookup_app_l by done. done.
Qed.

Lemma receive_ok c ch p :
  pending_ok c → c_chans c !! ch = Some (Some p) →
  let c' := with_pending c (c_pending c) (<[ch := None]> (c_chans c)) in
  pending_ok c' ∧ ∀ s' ch', ch' ≠ ch → wait_ok c s' ch' → wait_ok c' s' ch'.
Proof.
  intros Hok Hc. split; [split|]; simpl.
  - intros s' ch' Hs. pose proof (po_empty _ Hok _ _ Hs) as He.
    rewrite list_lookup_insert_ne; [done|]. intros ->. congruence.
  - apply (po_inj _ Hok).
  - intros s' ch' Hne [Hl Hw]. split; simpl; [by rewrite length_insert|].
    by rewrite list_lookup_insert_ne by done.
Qed.

(** The drain never blocks; it answers every request it visits. *)
Lemma drain_ok seqs : ∀ c,
  pending_ok c →
  ∃ pend chans, drain_pending seqs (c_pending c) (c_chans c) = Some (pend, chans) ∧
    pending_ok (with_pending c pend chans) ∧
    (∀ s ch, wait_ok c s ch → wait_ok (with_pending c pend chans) s ch) ∧
    pend ⊆ c_pending c ∧ (∀ s, s ∈ seqs → pend !! s = None).
Proof.
  induction seqs as [|seq seqs IH]; intros c Hok; cbn [drain_pending].
  - exists (c_pending c), (c_chans c). split; [done|].
    split; [by apply (pending_ok_same c)|].
    split; [intros s ch; by apply (wait_ok_same c)|]. split; [done|set_solver].
  - destruct (c_pending c !! seq) as [ch|] eqn:Ep.
    + rewrite (send_chan_pending c seq) by done. cbn [mbind option_bind].
      destruct (answer_pending c seq ch disconnect_pdu Hok Ep (or_intror eq_refl)) as [Hok' Hw].
      destruct (IH _ Hok') as (pend & chans & E & H1 & H2 & H3 & H4). simpl in E, H3.
      exists pend, chans. split; [done|]. split; [by apply (pending_ok_same _ _ (conj eq_refl eq_refl) H1)|].
      split; [|split].
      * intros s ch' Hs. apply (wait_ok_same _ _ s ch' (conj eq_refl eq_refl) (H2 s ch' (Hw s ch' Hs))).
      * etrans; [done|]. apply delete_subseteq.
      * intros s [->|Hin]%elem_of_cons; [|by apply H4].
        destruct (pend !! seq) eqn:E'; [|done].
        eapply lookup_weaken in E'; [|done]. by rewrite lookup_delete_eq in E'.
    + destruct (IH c Hok) as (pend & chans & E & H1 & H2 & H3 & H4).
      exists pend, chans. do 4 (split; [done|]).
      intros s [->|Hin]%elem_of_cons; [|by apply H4].
      destruct (pend !! seq) eqn:E'; [|done]. eapply lookup_weaken in E'; [|done]. congruence.
Qed.

(** [handleDisconnect] never blocks and answers every pending request. *)
Lemma handleDisconnect_ok c :
  pending_ok c →
  ∃ c', handleDisconnect c = Some c' ∧ pending_ok c' ∧
    (∀ s ch, wait_ok c s ch → wait_ok c' s ch) ∧ c_seqNum c' = c_seqNum c ∧
    c_bound c' = false ∧ (c_bound c = true → c_pending c' = ∅) ∧
    (c_bound c = false → c' = c) ∧ c_deliverQ c' = c_deliverQ c ∧ c_written c' = c_written c.
Proof.
  intros Hok. unfold handleDisconnect. destruct (c_bound c) eqn:Eb; [|by exists c].
  destruct (drain_ok (map_to_list (c_pending c)).*1 c Hok)
    as (pend & chans & E & H1 & H2 & H3 & H4). simpl. rewrite E. simpl.
  eexists. split; [done|]. split; [by apply (pending_ok_same (with_pending c pend chans))|].
  split; [intros s ch Hs; apply (wait_ok_same (with_pending c pend chans)); [done|by apply H2]|].
  do 2 (split; [done|]).
  split; [|done]. intros _. apply map_empty. intros s. simpl.
  destruct (c_pending c !! s) as [ch|] eqn:Es.
  - apply H4, list_elem_of_fmap. exists (s, ch). split; [done|]. by apply elem_of_map_to_list.
  - destruct (pend !! s) eqn:E'; [|done]. eapply lookup_weaken in E'; [|done]. congruence.
Qed.

(** *** Steps preserve the invariant *)

(** What a step of the read loop may do to the client. *)
Record harmless (c c' : Client) : Prop := {
  h_pending : pending_ok c';
  h_wait : ∀ s ch, wait_ok c s ch → wait_ok c' s ch;
  h_seq : c_seqNum c' = c_seqNum c;
  h_bound : c_bound c' = true → c_bound c = true ∧ c_done c' = c_done c
}.

Lemma harmless_same c c' :
  pending_ok c → same_chans c c' → c_seqNum c' = c_seqNum c → c_bound c' = c_bound c →
  c_done c' = c_done c → harmless c c'.
Proof.
  intros Hok Hs Hq Hb Hd. split.
  - by eapply pending_ok_same.
  - intros s ch. by apply wait_ok_same.
  - done.
  - by rewrite Hb.
Qed.

Lemma dispatch_response ok pd c pdu :
  pending_ok c → is_response (CommandID pdu) →
  ∃ c', dispatchPDU ok pd c pdu = Some c' ∧ harmless c c' ∧ c_done c' = c_done c ∧
    c_deliverQ c' = c_deliverQ c ∧ c_written c' = c_written c ∧
    match c_pending c !! SequenceNumber pdu with
    | Some ch => c' = with_pending c (delete (SequenceNumber pdu) (c_pending c))
                        (<[ch := Some pdu]> (c_chans c))
    | None => same_chans c c'
    end.
Proof.
  intros Hok Hr. unfold dispatchPDU. rewrite decide_True by done. simpl.
  destruct (c_pending c !! SequenceNumber pdu) as [ch|] eqn:Ep.
  - rewrite (send_chan_pending c (SequenceNumber pdu)) by done. simpl. eexists. split; [done|].
    destruct (answer_pending c _ ch pdu Hok Ep (or_introl eq_refl)) as [H1 H2].
    split; [by split|done].
  - eexists. split; [done|]. destruct (unregister_ok c (SequenceNumber pdu) Hok) as [H1 H2].
    assert (same_chans c (unregisterPending c (SequenceNumber pdu)).2) as Hs.
    { split; [|done]. simpl. by apply delete_id. }
    split; [|done]. by apply harmless_same.
Qed.

Lemma dispatch_harmless ok pd c pdu c' :
  pending_ok c → dispatchPDU ok pd c pdu = Some c' →
  harmless c c' ∧ (CommandID pdu ≠ CmdUnbind → c_done c' = c_done c).
Proof.
  intros Hok. destruct (decide (is_response (CommandID pdu))) as [Hr|Hr].
  { destruct (dispatch_response ok pd c pdu Hok Hr) as (c1 & -> & Hh & Hd & _).
    intros [= <-]. done. }
  unfold dispatchPDU. rewrite decide_False by done. intros H. case_decide.
  { destruct (ParseDeliverSM (Body pdu)) as [[[sa da] esm] sm]. unfold enqueueDeliver in H.
    repeat case_match; simplify_eq; (split; [by apply harmless_same|done]). }
  case_decide. { simplify_eq. split; [|by destruct ok]. by apply harmless_same; destruct ok. }
  case_decide. { simplify_eq. split; [by apply harmless_same|done]. }
  case_decide; [|simplify_eq; split; [by apply harmless_same|done]].
  set (c1 := (writePDU ok c _).2) in *.
  assert (harmless c c1) as [K1 K2 K3 K4] by (apply harmless_same; by destruct ok).
  destruct (handleDisconnect_ok c1 K1) as (c2 & E & G1 & G2 & G3 & G4 & _).
  cbv zeta in H. rewrite E in H. injection H as <-. split; [|done].
  split; [done|auto|congruence|congruence].
Qed.

Lemma procs_ok_mono c c' procs d d' :
  procs_ok c procs d → d <= d' → (∀ s ch, wait_ok c s ch → wait_ok c' s ch) →
  procs_ok c' procs d'.
Proof.
  intros [H1 H2 H3 H4 H5] Hd Hw. split; [|done|done| |done].
  - intros id p s Hp Hs. specialize (H1 id p s Hp Hs). lia.
  - intros id p s ch Hp Hs. by eapply Hw, H4.
Qed.

(** One process moves; the others keep their numbers and channels. *)
Lemma procs_ok_update c c' procs d d' id old new :
  procs_ok c procs d → procs !! id = old → 0 <= d <= d' →
  (∀ s, p_seq new = Some s → (∃ o, old = Some o ∧ p_seq o = Some s) ∨ d < s <= d') →
  (∀ s ch, p_wait new = Some (s, ch) → wait_ok c' s ch ∧
    ((∃ o s', old = Some o ∧ p_wait o = Some (s', ch)) ∨ (length (c_chans c) <= ch)%nat)) →
  (∀ j p s ch, j ≠ id → procs !! j = Some p → p_wait p = Some (s, ch) →
    wait_ok c s ch → wait_ok c' s ch) →
  (∀ s p, new = PDone (Some s) (inr p) → answers p s) →
  procs_ok c' (<[id := new]> procs) d'.
Proof.
  intros [H1 H2 H3 H4 H5] Hold Hd Hseq Hwait Hother Hdone.
  assert (∀ j p s, j ≠ id → procs !! j = Some p → p_seq p = Some s → p_seq new ≠ Some s) as Hs.
  { intros j p s Hne Hp Hps Hns. destruct (Hseq s Hns) as [(o & -> & Ho)|Hfresh].
    - by apply Hne, (H2 j id p o s).
    - specialize (H1 j p s Hp Hps). lia. }
  assert (∀ j p s1 s2 ch, j ≠ id → procs !! j = Some p → p_wait p = Some (s1, ch) →
    p_wait new ≠ Some (s2, ch)) as Hc.
  { intros j p s1 s2 ch Hne Hp Hps Hns. destruct (Hwait s2 ch Hns) as [_ [(o & s' & -> & Ho)|Hf]].
    - by apply Hne, (H3 j id p o s1 s' ch).
    - destruct (H4 j p s1 ch Hp Hps) as [? _]. lia. }
  split.
  - intros j p s [[<- <-]|[Hne Hp]]%lookup_insert_Some Hps.
    + destruct (Hseq s Hps) as [(o & -> & Ho)|?]; [|lia].
      specialize (H1 id o s Hold Ho). lia.
    + specialize (H1 j p s Hp Hps). lia.
  - intros i j p q s [[<- <-]|[Hi Hp]]%lookup_insert_Some [[<- <-]|[Hj Hq]]%lookup_insert_Some Eps Eqs;
      [done| | |by apply (H2 i j p q s)].
    + by destruct (Hs j q s (not_eq_sym Hj) Hq Eqs).
    + by destruct (Hs i p s (not_eq_sym Hi) Hp Eps).
  - intros i j p q s1 s2 ch [[<- <-]|[Hi Hp]]%lookup_insert_Some [[<- <-]|[Hj Hq]]%lookup_insert_Some
      Eps Eqs; [done| | |by apply (H3 i j p q s1 s2 ch)].
    + by destruct (Hc j q s2 s1 ch (not_eq_sym Hj) Hq Eqs).
    + by destruct (Hc i p s1 s2 ch (not_eq_sym Hi) Hp Eps).
  - intros j p s ch [[<- <-]|[Hne Hp]]%lookup_insert_Some Hw; [by apply Hwait|].
    by apply (Hother j p s ch (not_eq_sym Hne) Hp Hw), (H4 j p s ch Hp).
  - intros j s p [[<- E]|[Hne Hp]]%lookup_insert_Some; [by apply Hdone|by apply (H5 j)].
Qed.

(** A step that touches neither processes nor sequence numbers. *)
Lemma inv_client σ c' σ' :
  client_inv σ → harmless (s_client σ) c' →
  (s_mu σ = true → c_done c' = false) →
  s_client σ' = c' → s_procs σ' = s_procs σ → s_mu σ' = s_mu σ → s_draws σ' = s_draws σ →
  client_inv σ'.
Proof.
  intros [I1 I2 I3 I4 I5 I6] [H1 H2 H3 H4] Hmu Ec Ep Em Ed. split; rewrite ?Ec, ?Ep, ?Em, ?Ed.
  - done.
  - rewrite H3. done.
  - done.
  - intros [Hb Hd]%H4. destruct (I4 Hb). by rewrite Hd.
  - done.
  - intros Hlt. eapply procs_ok_mono; [by apply I6|lia|done].
Qed.

(** A step that only moves messages between the queue and the workers. *)
Lemma inv_same σ σ' :
  client_inv σ → same_chans (s_client σ) (s_client σ') →
  c_seqNum (s_client σ') = c_seqNum (s_client σ) →
  c_bound (s_client σ') = c_bound (s_client σ) → c_done (s_client σ') = c_done (s_client σ) →
  s_procs σ' = s_procs σ → s_mu σ' = s_mu σ → s_draws σ' = s_draws σ → client_inv σ'.
Proof.
  intros I Hs Hq Hb Hd Hp Hm Hn. apply (inv_client σ (s_client σ')); try done.
  - by apply harmless_same; [apply (ci_pending _ I)|..].
  - rewrite Hd. apply (ci_mu _ I).
Qed.

(** A step of one process that draws [k] sequence numbers. *)
Lemma inv_proc σ c' id new k σ' :
  client_inv σ →
  s_client σ' = c' → s_procs σ' = <[id := new]> (s_procs σ) → s_draws σ' = s_draws σ + k →
  0 <= k → pending_ok c' →
  (s_draws σ + k < 2 ^ 32 → c_seqNum c' = s_draws σ + k) →
  (c_bound c' = true → c_done c' = false ∧ s_mu σ' = false) →
  (s_mu σ' = true → c_done c' = false) →
  (s_draws σ + k < 2 ^ 32 → ∀ s, p_seq new = Some s →
    (∃ o, s_procs σ !! id = Some o ∧ p_seq o = Some s) ∨ s_draws σ < s <= s_draws σ + k) →
  (s_draws σ + k < 2 ^ 32 → ∀ s ch, p_wait new = Some (s, ch) → wait_ok c' s ch ∧
    ((∃ o s', s_procs σ !! id = Some o ∧ p_wait o = Some (s', ch)) ∨
     (length (c_chans (s_client σ)) <= ch)%nat)) →
  (s_draws σ + k < 2 ^ 32 → ∀ j p s ch, j ≠ id → s_procs σ !! j = Some p →
    p_wait p = Some (s, ch) → wait_ok (s_client σ) s ch → wait_ok c' s ch) →
  (s_draws σ + k < 2 ^ 32 → ∀ s p, new = PDone (Some s) (inr p) → answers p s) →
  client_inv σ'.
Proof.
  intros [I1 I2 I3 I4 I5 I6] Ec Ep Ed Hk H1 H2 H3 H4 H5 H6 H7 H8.
  split; rewrite ?Ec, ?Ep, ?Ed; [lia|done..|].
  intros Hlt. assert (s_draws σ < 2 ^ 32) as Hlt' by lia.
  apply (procs_ok_update (s_client σ) c' _ (s_draws σ) _ id (s_procs σ !! id));
    [by apply I6|done|lia|by apply H5|by apply H6|by apply H7|by apply H8].
Qed.

(** Sequence and channel numbers of the other processes. *)
Lemma other_seq σ id j p q s ch s' :
  client_inv σ → s_draws σ < 2 ^ 32 → j ≠ id → s_procs σ !! id = Some p → s_procs σ !! j = Some q →
  p_seq p = Some s → p_wait q = Some (s', ch) → s' ≠ s.
Proof.
  intros I Hlt Hne Hp Hq Hs Hw ->. apply Hne.
  apply (pr_seq _ _ _ (ci_procs _ I Hlt) j id q p s); [done|done| |done].
  destruct q; simplify_eq/=; done.
Qed.

Lemma other_chan σ id j p q s ch s' ch' :
  client_inv σ → s_draws σ < 2 ^ 32 → j ≠ id → s_procs σ !! id = Some p → s_procs σ !! j = Some q →
  p_wait p = Some (s, ch) → p_wait q = Some (s', ch') → ch' ≠ ch.
Proof.
  intros I Hlt Hne Hp Hq Hs Hw ->. apply Hne.
  by apply (pr_chan _ _ _ (ci_procs _ I Hlt) j id q p s' s ch).
Qed.

Lemma nextSeq_inv σ seq c' :
  client_inv σ → nextSeq (s_client σ) = (seq, c') →
  same_chans (s_client σ) c' ∧ c_bound c' = c_bound (s_client σ) ∧
  c_done c' = c_done (s_client σ) ∧ pending_ok c' ∧
  (s_draws σ + 1 < 2 ^ 32 → seq = s_draws σ + 1 ∧ c_seqNum c' = s_draws σ + 1).
Proof.
  intros I [= <- <-]. do 3 (split; [done|]). split.
  { by eapply pending_ok_same, (ci_pending _ I). }
  intros Hlt. pose proof (ci_draws _ I). simpl.
  rewrite (ci_seqNum _ I) by lia. rewrite u32_id by (unfold u32_ok; lia). done.
Qed.

(** [proc_step id k] sets up a step of process [id] that draws [k] numbers. *)
Ltac proc_step id k :=
  match goal with I : client_inv ?σ |- _ =>
    eapply (inv_proc σ _ id _ k); [exact I|reflexivity|reflexivity|simpl; lia|lia|..];
    simpl; try (rewrite Z.add_0_r)
  end.

Lemma inv_start σ id mk :
  client_inv σ → s_procs σ !! id = None →
  client_inv (sys_proc σ (s_client σ) id
    (if c_bound (s_client σ) then PChecked mk else PDone None (inl NotBound))).
Proof.
  intros I Hn. proc_step id 0.
  - apply (ci_pending _ I).
  - apply (ci_seqNum _ I).
  - apply (ci_bound _ I).
  - apply (ci_mu _ I).
  - intros _ s. by destruct (c_bound _).
  - intros _ s ch. by destruct (c_bound _).
  - done.
  - intros _ s p. by destruct (c_bound _).
Qed.

Lemma inv_seq σ id mk seq c' :
  client_inv σ → s_procs σ !! id = Some (PChecked mk) → nextSeq (s_client σ) = (seq, c') →
  client_inv (mkSys c' (<[id := PSeq mk seq]> (s_procs σ)) (s_mu σ) (s_draws σ + 1)
    (s_working σ) (s_stale σ) (s_handled σ) (s_lost σ)).
Proof.
  intros I Hp Hq. destruct (nextSeq_inv σ seq c' I Hq) as (Hs & Hb & Hd & Hok & Hn).
  proc_step id 1.
  - done.
  - intros. by apply Hn.
  - rewrite Hb, Hd. apply (ci_bound _ I).
  - rewrite Hd. apply (ci_mu _ I).
  - intros Hlt s [= <-]. right. destruct (Hn Hlt). lia.
  - done.
  - intros _ j p s ch _ _ _. by apply wait_ok_same.
  - done.
Qed.

Lemma inv_register σ id mk seq ch c' :
  client_inv σ → s_procs σ !! id = Some (PSeq mk seq) →
  registerPending (s_client σ) seq = (ch, c') →
  client_inv (sys_proc σ c' id (PRegistered mk seq ch)).
Proof.
  intros I Hp Hr. destruct (register_ok (s_client σ) seq (ci_pending _ I)) as (H1 & H2 & H3).
  rewrite Hr in H1, H2, H3. simpl in H1, H2, H3. injection Hr as Ech Ec. proc_step id 0.
  - done.
  - intros. subst c'. by apply (ci_seqNum _ I).
  - subst c'. apply (ci_bound _ I).
  - subst c'. apply (ci_mu _ I).
  - intros _ s [= <-]. left. by eexists.
  - intros _ s ch' [= <- <-]. split; [done|]. right. lia.
  - intros Hlt j p s ch' Hne Hj Hw. apply H3. by eapply (other_seq σ id j).
  - done.
Qed.

Lemma inv_write σ id mk seq ch c' :
  client_inv σ → s_procs σ !! id = Some (PRegistered mk seq ch) →
  writePDU true (s_client σ) (mk seq) = (true, c') →
  client_inv (sys_proc σ c' id (PWaiting seq ch)).
Proof.
  intros I Hp [= <-]. proc_step id 0.
  - apply (pending_ok_same (s_client σ)), (ci_pending _ I). done.
  - apply (ci_seqNum _ I).
  - apply (ci_bound _ I).
  - apply (ci_mu _ I).
  - intros _ s [= <-]. left. by eexists.
  - intros Hlt s ch' [= <- <-]. split; [|left; by do 2 eexists].
    apply (wait_ok_same (s_client σ)); [done|].
    by apply (pr_wait _ _ _ (ci_procs _ I Hlt) id (PRegistered mk seq ch)).
  - intros _ j p s ch' _ _ _. by apply wait_ok_same.
  - done.
Qed.

(** A request that gives up takes its number out of the pending map. *)
Lemma inv_give_up σ id p seq e :
  client_inv σ → s_procs σ !! id = Some p → p_seq p = Some seq →
  client_inv (sys_proc σ (unregisterPending (s_client σ) seq).2 id (PDone (Some seq) (inl e))).
Proof.
  intros I Hp Hs. destruct (unregister_ok (s_client σ) seq (ci_pending _ I)) as [H1 H2].
  proc_step id 0.
  - done.
  - apply (ci_seqNum _ I).
  - apply (ci_bound _ I).
  - apply (ci_mu _ I).
  - intros _ s [= <-]. left. by eexists.
  - done.
  - intros Hlt j q s ch' Hne Hj Hw. apply H2. by eapply (other_seq σ id j).
  - done.
Qed.

(** A process that takes the answer out of its channel. *)
Lemma inv_take_answer σ id p0 seq ch p c' mu :
  client_inv σ → s_procs σ !! id = Some p0 → p_wait p0 = Some (seq, ch) →
  c_chans (s_client σ) !! ch = Some (Some p) →
  same_chans (with_pending (s_client σ) (c_pending (s_client σ))
    (<[ch := None]> (c_chans (s_client σ)))) c' →
  c_seqNum c' = c_seqNum (s_client σ) →
  (c_bound c' = true → c_done c' = false ∧ mu = false) → (mu = true → c_done c' = false) →
  client_inv (mkSys c' (<[id := PDone (Some seq) (inr p)]> (s_procs σ)) mu (s_draws σ)
    (s_working σ) (s_stale σ) (s_handled σ) (s_lost σ)).
Proof.
  intros I Hp Hw Hc Hsame Hq Hb Hm.
  destruct (receive_ok (s_client σ) ch p (ci_pending _ I) Hc) as [H1 H2]. proc_step id 0.
  - by eapply pending_ok_same.
  - rewrite Hq. apply (ci_seqNum _ I).
  - done.
  - done.
  - intros _ s [= <-]. left. exists p0. split; [done|]. by destruct p0; simplify_eq/=.
  - done.
  - intros Hlt j q s ch' Hne Hj Hwj Hok. eapply wait_ok_same; [done|]. apply H2; [|done].
    by eapply (other_chan σ id j).
  - intros Hlt s p' [= <- <-].
    destruct (pr_wait _ _ _ (ci_procs _ I Hlt) id p0 seq ch Hp Hw) as [_ [Hpend|(q & Hq' & Ha)]].
    + apply (po_empty _ (ci_pending _ I)) in Hpend. congruence.
    + rewrite Hc in Hq'. by injection Hq' as <-.
Qed.

(** A step that draws [k] numbers and leaves the processes alone. *)
Lemma inv_draw σ k σ' :
  client_inv σ → s_procs σ' = s_procs σ → s_draws σ' = s_draws σ + k → 0 <= k →
  pending_ok (s_client σ') →
  (s_draws σ + k < 2 ^ 32 → c_seqNum (s_client σ') = s_draws σ + k) →
  (c_bound (s_client σ') = true → c_done (s_client σ') = false ∧ s_mu σ' = false) →
  (s_mu σ' = true → c_done (s_client σ') = false) →
  (s_draws σ + k < 2 ^ 32 → ∀ s ch, s <= s_draws σ → wait_ok (s_client σ) s ch →
    wait_ok (s_client σ') s ch) →
  client_inv σ'.
Proof.
  intros [I1 I2 I3 I4 I5 I6] Ep Ed Hk H1 H2 H3 H4 H5. split; rewrite ?Ep, ?Ed; [lia|done..|].
  intros Hlt. destruct (I6 ltac:(lia)) as [K1 K2 K3 K4 K5]. split; [|done|done| |done].
  - intros id p s Hp Hs. specialize (K1 id p s Hp Hs). lia.
  - intros id p s ch Hp Hs. apply H5; [done| |by eapply K4].
    assert (p_seq p = Some s) as Hps by (by destruct p; simplify_eq/=).
    specialize (K1 id p s Hp Hps). lia.
Qed.

Lemma inv_enquire σ ok :
  client_inv σ →
  client_inv (mkSys (enquireLink_tick ok (s_client σ)) (s_procs σ) (s_mu σ) (s_draws σ + 1)
    (s_working σ) (s_stale σ) (s_handled σ) (s_lost σ)).
Proof.
  intros I. destruct (nextSeq (s_client σ)) as [seq c1] eqn:En.
  destruct (nextSeq_inv σ seq c1 I En) as (Hs & Hb & Hd & Hok & Hn).
  assert (enquireLink_tick ok (s_client σ) =
    (writePDU ok c1 (mkPDU 0 CmdEnquireLink StatusOK seq [] None)).2) as E.
  { unfold enquireLink_tick. by rewrite En. }
  eapply (inv_draw σ 1); [done|reflexivity|done|lia|simpl; rewrite E; destruct ok; simpl..].
  - by apply (pending_ok_same c1).
  - done.
  - intros. by apply Hn.
  - intros. by apply Hn.
  - rewrite Hb, Hd. apply (ci_bound _ I).
  - rewrite Hb, Hd. apply (ci_bound _ I).
  - rewrite Hd. apply (ci_mu _ I).
  - rewrite Hd. apply (ci_mu _ I).
  - intros _ s ch _ Hw. apply (wait_ok_same c1); [done|]. by eapply wait_ok_same.
  - intros _ s ch _ Hw. by eapply wait_ok_same.
Qed.

(** The client between [Connect]'s registration and its write. *)
Lemma connect_begin_inv σ dial_ok write_ok c' r :
  client_inv σ → connect_begin dial_ok write_ok (s_client σ) = (c', r) →
  c_bound (s_client σ) = false → dial_ok = true →
  pending_ok c' ∧ c_bound c' = false ∧ c_done c' = false ∧
  (s_draws σ + 1 < 2 ^ 32 → c_seqNum c' = s_draws σ + 1 ∧
    (∀ s ch, s <= s_draws σ → wait_ok (s_client σ) s ch → wait_ok c' s ch) ∧
    match r with
    | Some (seq, ch) => seq = s_draws σ + 1 ∧ ch = length (c_chans (s_client σ)) ∧
        wait_ok c' seq ch
    | None => True
    end).
Proof.
  intros I H Hb ->. unfold connect_begin in H. rewrite Hb in H.
  set (c1 := with_session _ _ _ _ _ _) in H.
  assert (pending_ok c1) as Hok1 by (apply (pending_ok_same (s_client σ)), (ci_pending _ I); done).
  set (seq := u32 (c_seqNum c1 + 1)) in *.
  change (nextSeq c1) with (seq, with_seq c1 seq) in H. set (c2 := with_seq c1 seq) in *.
  assert (pending_ok c2) as Hok2 by (by apply (pending_ok_same c1)).
  destruct (register_ok c2 seq Hok2) as (G1 & G2 & G3).
  pose (c3 := (registerPending c2 seq).2). fold c3 in G1, G2, G3.
  assert (s_draws σ + 1 < 2 ^ 32 → seq = s_draws σ + 1) as Hseq.
  { intros Hlt. pose proof (ci_draws _ I). unfold seq. simpl.
    rewrite (ci_seqNum _ I) by lia. apply u32_id. unfold u32_ok. lia. }
  assert (∀ s ch, wait_ok (s_client σ) s ch → wait_ok c2 s ch) as Hw12
    by (intros s ch'; by apply wait_ok_same).
  destruct write_ok; cbn [writePDU] in H; injection H as <- <-.
  - split; [by apply (pending_ok_same c3)|]. do 2 (split; [done|]). intros Hlt.
    specialize (Hseq Hlt). split; [simpl; congruence|]. split.
    + intros s ch' Hle Hw. apply (wait_ok_same c3); [done|]. apply G3; [lia|by apply Hw12].
    + split; [done|]. split; [done|]. by apply (wait_ok_same c3).
  - destruct (unregister_ok c3 seq G1) as [U1 U2].
    split; [by apply (pending_ok_same (unregisterPending c3 seq).2)|].
    do 2 (split; [done|]). intros Hlt. specialize (Hseq Hlt). split; [simpl; congruence|].
    split; [|done]. intros s ch' Hle Hw.
    apply (wait_ok_same (unregisterPending c3 seq).2); [done|].
    apply U2; [lia|]. apply G3; [lia|by apply Hw12].
Qed.

Lemma inv_connect σ id dial_ok write_ok c' seq ch :
  client_inv σ → s_procs σ !! id = None →
  connect_begin dial_ok write_ok (s_client σ) = (c', Some (seq, ch)) →
  client_inv (mkSys c' (<[id := PBinding seq ch]> (s_procs σ)) true (s_draws σ + 1)
    (s_working σ) (replaced_queue σ) (s_handled σ) (s_lost σ)).
Proof.
  intros I Hn Hc. assert (c_bound (s_client σ) = false ∧ dial_ok = true) as [Hb Hd].
  { unfold connect_begin in Hc. destruct (c_bound _), dial_ok; simplify_eq; done. }
  destruct (connect_begin_inv σ _ _ _ _ I Hc Hb Hd) as (H1 & H2 & H3 & H4). proc_step id 1.
  - done.
  - intros Hlt. by apply H4.
  - congruence.
  - done.
  - intros Hlt s [= <-]. destruct (H4 Hlt) as (_ & _ & -> & _). right. lia.
  - intros Hlt s ch' [= <- <-]. destruct (H4 Hlt) as (_ & _ & _ & -> & ?). auto with lia.
  - intros Hlt j p s ch' Hne Hj Hw Hok. apply H4; [done| |done].
    assert (p_seq p = Some s) as Hps by (by destruct p; simplify_eq/=).
    pose proof (pr_range _ _ _ (ci_procs _ I ltac:(lia)) j p s Hj Hps). lia.
  - done.
Qed.

Lemma inv_connect_fail σ dial_ok write_ok c' :
  client_inv σ → s_mu σ = false → connect_begin dial_ok write_ok (s_client σ) = (c', None) →
  client_inv (mkSys c' (s_procs σ) (s_mu σ)
    (if c_bound (s_client σ) then s_draws σ else if dial_ok then s_draws σ + 1 else s_draws σ)
    (s_working σ)
    (if c_bound (s_client σ) then s_stale σ
     else if dial_ok then replaced_queue σ else s_stale σ)
    (s_handled σ) (s_lost σ)).
Proof.
  intros I Hmu Hc. destruct (c_bound (s_client σ)) eqn:Hb.
  { unfold connect_begin in Hc. rewrite Hb in Hc. injection Hc as <-.
    by apply (inv_same σ). }
  destruct dial_ok.
  - destruct (connect_begin_inv σ _ _ _ _ I Hc Hb eq_refl) as (H1 & H2 & H3 & H4).
    eapply (inv_draw σ 1); [done|reflexivity|done|lia|done|..]; simpl.
    + intros Hlt. by apply H4.
    + congruence.
    + done.
    + intros Hlt. by apply H4.
  - unfold connect_begin in Hc. rewrite Hb in Hc. injection Hc as <-.
    by apply (inv_same σ).
Qed.

Lemma inv_close σ ok :
  client_inv σ → s_mu σ = false →
  client_inv (mkSys (Client_Close ok (s_client σ)) (s_procs σ) (s_mu σ)
    (if c_bound (s_client σ) then s_draws σ + 1 else s_draws σ)
    (s_working σ) (s_stale σ) (s_handled σ) (s_lost σ)).
Proof.
  intros I Hmu. unfold Client_Close. destruct (c_bound (s_client σ)) eqn:Hb.
  - destruct (nextSeq (s_client σ)) as [seq c1] eqn:En.
    destruct (nextSeq_inv σ seq c1 I En) as (Hs & _ & _ & Hok & Hn).
    eapply (inv_draw σ 1); [done|reflexivity|done|lia|..]; simpl.
    + apply (pending_ok_same c1); [by destruct ok|done].
    + intros. destruct ok; by apply Hn.
    + done.
    + congruence.
    + intros _ s ch _ Hw. apply (wait_ok_same c1); [by destruct ok|]. by eapply wait_ok_same.
  - by apply (inv_same σ).
Qed.

Lemma inv_bind_resp σ id seq ch p :
  client_inv σ → s_procs σ !! id = Some (PBinding seq ch) → s_mu σ = true →
  c_chans (s_client σ) !! ch = Some (Some p) →
  client_inv (mkSys
    (connect_end (Some p)
      (with_pending (s_client σ) (c_pending (s_client σ))
         (<[ch := None]> (c_chans (s_client σ))))).1
    (<[id := PDone (Some seq) (inr p)]> (s_procs σ)) false (s_draws σ)
    (s_working σ) (s_stale σ) (s_handled σ) (s_lost σ)).
Proof.
  intros I Hp Hmu Hc. pose proof (ci_mu _ I Hmu) as Hd.
  set (c1 := with_pending _ _ _).
  assert (same_chans c1 (connect_end (Some p) c1).1 ∧
    c_seqNum (connect_end (Some p) c1).1 = c_seqNum c1 ∧
    c_done (connect_end (Some p) c1).1 = c_done c1) as (H1 & H2 & H3).
  { unfold connect_end. case_decide; [done|]. by destruct (ParseBindResp _ _). }
  apply (inv_take_answer σ id (PBinding seq ch) seq ch); [done|done|done|done|done|done|..].
  - intros _. by rewrite H3.
  - done.
Qed.

Lemma inv_bind_timeout σ id seq ch :
  client_inv σ → s_procs σ !! id = Some (PBinding seq ch) → s_mu σ = true →
  client_inv (mkSys (connect_end None (s_client σ)).1
    (<[id := PDone (Some seq) (inl ResponseTimeout)]> (s_procs σ)) false (s_draws σ)
    (s_working σ) (s_stale σ) (s_handled σ) (s_lost σ)).
Proof.
  intros I Hp Hmu. pose proof (ci_mu _ I Hmu) as Hd. proc_step id 0.
  - by apply (pending_ok_same (s_client σ)), (ci_pending _ I).
  - apply (ci_seqNum _ I).
  - done.
  - done.
  - intros _ s [= <-]. left. by eexists.
  - done.
  - intros _ j p s ch' _ _ _. by apply wait_ok_same.
  - done.
Qed.

(** The mutex is held exactly while a process is binding. *)
Definition mu_ok (σ : sys) : Prop :=
  ∀ id seq ch, s_procs σ !! id = Some (PBinding seq ch) → s_mu σ = true ∧
    ∀ id' seq' ch', s_procs σ !! id' = Some (PBinding seq' ch') → id' = id.

Lemma mu_ok_insert (procs : gmap nat proc) (mu : bool) (id : nat) (new : proc) (mu' : bool) :
  (∀ i s ch, procs !! i = Some (PBinding s ch) → mu = true ∧
    ∀ i' s' ch', procs !! i' = Some (PBinding s' ch') → i' = i) →
  ((∃ s ch, new = PBinding s ch) → mu = false ∧ mu' = true) →
  (mu' = mu ∨ mu = false ∨ ∃ s ch, procs !! id = Some (PBinding s ch)) →
  ∀ i s ch, <[id := new]> procs !! i = Some (PBinding s ch) → mu' = true ∧
    ∀ i' s' ch', <[id := new]> procs !! i' = Some (PBinding s' ch') → i' = i.
Proof.
  intros Hmu Hnew Hold.
  assert (∀ i s ch, procs !! i = Some (PBinding s ch) → i ≠ id →
    ¬ (∃ s ch, new = PBinding s ch) ∧ mu' = true) as Hother.
  { intros i s ch Hi Hne. destruct (Hmu i s ch Hi) as [-> Hu]. split.
    - by intros [[=] _]%Hnew.
    - destruct Hold as [->|[[=]|(s' & ch' & Hid)]]; [done|]. by destruct Hne; symmetry; eapply Hu. }
  intros i s ch [[<- Hi]|[Hne Hi]]%lookup_insert_Some.
  - destruct Hnew as [_ Hmu']; [by eauto|]. split; [done|].
    intros i' s' ch' [[<- _]|[Hne' Hi']]%lookup_insert_Some; [done|].
    destruct (Hother _ _ _ Hi' (not_eq_sym Hne')) as [[] _]. by eauto.
  - destruct (Hother _ _ _ Hi (not_eq_sym Hne)) as [Hn Hm]. split; [done|].
    intros i' s' ch' [[<- Hi']|[Hne' Hi']]%lookup_insert_Some; [destruct Hn; by eauto|].
    by eapply (Hmu i s ch Hi).
Qed.

Lemma mu_ok_step σ σ' : mu_ok σ → client_step σ σ' → mu_ok σ'.
Proof.
  unfold mu_ok. intros Hmu Hs. destruct Hs; simpl; try done.
  all: eapply mu_ok_insert; [exact Hmu| |].
  all: try (intros (? & ? & E); try destruct (c_bound _); discriminate E).
  all: try (by left). all: try (by intros _). all: try (by right; left).
  all: right; right; eauto.
Qed.

Lemma client_inv_step σ σ' : client_inv σ → mu_ok σ → client_step σ σ' → client_inv σ'.
Proof.
  intros I Hmu Hs. destruct Hs.
  - by apply inv_start.
  - by eapply inv_seq.
  - by eapply inv_register.
  - by eapply inv_write.
  - cbn [writePDU] in H0. injection H0 as <-. by eapply inv_give_up.
  - eapply inv_take_answer; try done; [apply (ci_bound _ I)|apply (ci_mu _ I)].
  - by eapply inv_give_up.
  - destruct (dispatch_harmless _ _ _ _ _ (ci_pending _ I) H0) as [Hh Hd].
    eapply inv_client; [done|done| |done..].
    intros Hm. destruct H as [H|H]; [congruence|]. rewrite Hd by done. by apply (ci_mu _ I).
  - destruct (handleDisconnect_ok _ (ci_pending _ I)) as (c1 & E & G1 & G2 & G3 & G4 & _).
    rewrite E in H0. injection H0 as <-.
    eapply (inv_client σ c1); [done|by split; [| | |congruence]|congruence|done..].
  - by apply inv_enquire.
  - by apply (inv_same σ).
  - by apply (inv_same σ).
  - apply (inv_same σ); try done; unfold deliver_answer; by destruct ok.
  - by apply (inv_same σ).
  - by apply (inv_same σ).
  - by eapply inv_connect.
  - by eapply inv_connect_fail.
  - eapply inv_bind_resp; try done. by eapply (Hmu id seq ch).
  - eapply inv_bind_timeout; [done|done|]. by eapply (Hmu id seq ch).
  - by apply inv_close.
Qed.

Lemma reachable_inv config h w q σ :
  reachable (sys_init config h w q) σ → client_inv σ ∧ mu_ok σ.
Proof.
  induction 1 as [|σ σ' _ [I Hmu] Hs].
  - assert (∀ id p, (∅ : gmap nat proc) !! id = Some p → False) as He
      by (intros id p; by rewrite lookup_empty).
    assert (∀ s ch, (∅ : gmap Z nat) !! s = Some ch → False) as Hp
      by (intros s ch; by rewrite lookup_empty).
    split; [|intros id seq ch H; by apply He in H].
    split; [done|done| |done|done|intros _]; split; simpl; naive_solver.
  - split; [by eapply client_inv_step|by eapply mu_ok_step].
Qed.

(** *** The deliver path *)

Lemma is_request_pdu cfg mk seq :
  is_request cfg mk → SequenceNumber (mk seq) = seq ∧ CommandID (mk seq) ≠ CmdDeliverSMResp.
Proof. by destruct 1. Qed.

Definition is_deliver_resp (p : PDU) : Prop := CommandID p = CmdDeliverSMResp.
#[export] Instance is_deliver_resp_dec p : Decision (is_deliver_resp p).
Proof. unfold is_deliver_resp. apply _. Defined.

(** The answer that a handler's result calls for. *)
Definition answer_of (mh : deliverMessage * bool) : PDU :=
  EncodeDeliverSMRespWithStatus (dm_seqNum mh.1) (if mh.2 then StatusOK else StatusSysErr).

(** The builder a process will write is one of the request methods'. *)
Definition procs_requests (σ : sys) : Prop :=
  ∀ id p, s_procs σ !! id = Some p →
    match p with
    | PChecked mk | PSeq mk _ | PRegistered mk _ _ => ∃ cfg, is_request cfg mk
    | _ => True
    end.

Definition deliver_inv (σ : sys) : Prop :=
  procs_requests σ ∧
  filter is_deliver_resp (c_written (s_client σ)) `sublist_of` (answer_of <$> s_handled σ).

(** The message of a deliver_sm. *)
Definition message_of (pdu : PDU) : deliverMessage :=
  let '(src, dst, esm, sm) := ParseDeliverSM (Body pdu) in mkDeliver src dst esm sm (SequenceNumber pdu).

(** Where the messages are: in the queue of the session, in the queue of an earlier
    one, with a worker, handled, or lost. *)
Record placed := mkPlaced {
  in_queue : list deliverMessage;
  in_stale : list (deliverMessage * bool);
  in_work : list deliverMessage;
  in_log : list (deliverMessage * bool);
  in_lost : list deliverMessage
}.
Definition places (σ : sys) : placed :=
  mkPlaced (c_deliverQ (s_client σ)) (s_stale σ) (s_working σ) (s_handled σ) (s_lost σ).

(** What a step does to them: nothing, or one move of one message from one place to
    the next; only [Connect] moves more, the queue it replaces, and what is left in a
    queue is lost, once the done channel of its session is closed.  The messages that
    come in are those of the deliver_sm PDUs that are read. *)
Inductive deliver_move (σ σ' : sys) : list deliverMessage → Prop :=
| mv_none : places σ' = places σ → deliver_move σ σ' []
| mv_accept ok pick_done pdu c' q s w h l :
    CommandID pdu = CmdDeliverSM → dispatchPDU ok pick_done (s_client σ) pdu = Some c' → σ' = sys_client σ c' →
    places σ = mkPlaced q s w h l → places σ' = mkPlaced (q ++ [message_of pdu]) s w h l →
    deliver_move σ σ' [message_of pdu]
| mv_take m q s w h l :
    places σ = mkPlaced (m :: q) s w h l → places σ' = mkPlaced q s (m :: w) h l → deliver_move σ σ' []
| mv_take_stale m over q s1 s2 w h l :
    places σ = mkPlaced q (s1 ++ (m, over) :: s2) w h l → places σ' = mkPlaced q (s1 ++ s2) (m :: w) h l →
    deliver_move σ σ' []
| mv_handle m ok q s w1 w2 h l :
    places σ = mkPlaced q s (w1 ++ m :: w2) h l → places σ' = mkPlaced q s (w1 ++ w2) (h ++ [(m, ok)]) l →
    deliver_move σ σ' []
| mv_replace q s w h l :
    places σ = mkPlaced q s w h l →
    places σ' = mkPlaced [] (s ++ ((λ m, (m, c_done (s_client σ))) <$> q)) w h l → deliver_move σ σ' []
| mv_lose q s w h l :
    c_done (s_client σ) = true →
    places σ = mkPlaced q s w h l → places σ' = mkPlaced [] s w h (l ++ q) → deliver_move σ σ' []
| mv_lose_stale q s1 s s2 w h l :
    Forall (λ x, x.2 = true) s →
    places σ = mkPlaced q (s1 ++ s ++ s2) w h l → places σ' = mkPlaced q (s1 ++ s2) w h (l ++ s.*1) →
    deliver_move σ σ' [].

(** A run, and the messages it has accepted. *)
Inductive deliver_run (σ0 : sys) : list deliverMessage → sys → Prop :=
| dr_start : deliver_run σ0 [] σ0
| dr_step log new σ σ' : deliver_run σ0 log σ → client_step σ σ' → deliver_move σ σ' new → deliver_run σ0 (log ++ new) σ'.

Definition all_delivers (σ : sys) : list deliverMessage :=
  c_deliverQ (s_client σ) ++ (s_stale σ).*1 ++ s_working σ ++ (s_handled σ).*1 ++ s_lost σ.

Lemma writePDU_written ok c p :
  c_written (writePDU ok c p).2 = c_written c ++ (if ok then [p] else []).
Proof. destruct ok; simpl; [done|]. by rewrite app_nil_r. Qed.

Lemma writePDU_not_resp ok c p :
  CommandID p ≠ CmdDeliverSMResp →
  filter is_deliver_resp (c_written (writePDU ok c p).2) = filter is_deliver_resp (c_written c).
Proof.
  intros Hne. rewrite writePDU_written, filter_app. destruct ok; [|by rewrite app_nil_r].
  rewrite filter_cons_False by done. by rewrite app_nil_r.
Qed.

Lemma dispatch_deliver ok pd c pdu c' :
  pending_ok c → dispatchPDU ok pd c pdu = Some c' →
  filter is_deliver_resp (c_written c') = filter is_deliver_resp (c_written c) ∧
  (c_deliverQ c' = c_deliverQ c ∨
   CommandID pdu = CmdDeliverSM ∧ ∃ m, c_deliverQ c' = c_deliverQ c ++ [m] ∧
     dm_seqNum m = SequenceNumber pdu ∧
     (dm_sourceAddr m, dm_destAddr m, dm_esmClass m, dm_payload m) = ParseDeliverSM (Body pdu)).
Proof.
  intros Hok. destruct (decide (is_response (CommandID pdu))) as [Hr|Hr].
  { destruct (dispatch_response ok pd c pdu Hok Hr) as (c1 & -> & _ & _ & Eq & Ew & _).
    intros [= <-]. rewrite Ew. auto. }
  unfold dispatchPDU. rewrite decide_False by done. intros H.
  case_decide as Hd.
  { destruct (ParseDeliverSM (Body pdu)) as [[[sa da] esm] sm] eqn:Ep.
    unfold enqueueDeliver in H. repeat case_match; simplify_eq; (split; [done|]); auto.
    right. split; [done|]. by eexists. }
  case_decide. { injection H as <-. rewrite writePDU_not_resp by done. by destruct ok; auto. }
  case_decide. { injection H as <-. auto. }
  case_decide; [|injection H as <-; auto].
  set (c1 := (writePDU ok c _).2) in *.
  assert (pending_ok c1) as Hok1 by (apply (pending_ok_same c); by destruct ok).
  destruct (handleDisconnect_ok c1 Hok1) as (c2 & E & _ & _ & _ & _ & _ & _ & G1 & G2).
  cbv zeta in H. rewrite E in H. injection H as <-. rewrite G1, G2. unfold c1.
  rewrite writePDU_not_resp by done. split; [done|]. by destruct ok; auto.
Qed.

Lemma sublist_fmap_snoc {A B} (f : A → B) l1 l2 (x : A) (b : bool) :
  l1 `sublist_of` (f <$> l2) → l1 ++ (if b then [f x] else []) `sublist_of` (f <$> l2 ++ [x]).
Proof.
  intros H. rewrite fmap_app. apply sublist_app; [done|]. simpl.
  destruct b; [done|apply sublist_nil_l].
Qed.

Lemma procs_requests_insert (procs : gmap nat proc) id new :
  (∀ i p, procs !! i = Some p →
    match p with
    | PChecked mk | PSeq mk _ | PRegistered mk _ _ => ∃ cfg, is_request cfg mk
    | _ => True
    end) →
  match new with
  | PChecked mk | PSeq mk _ | PRegistered mk _ _ => ∃ cfg, is_request cfg mk
  | _ => True
  end →
  ∀ i p, <[id := new]> procs !! i = Some p →
    match p with
    | PChecked mk | PSeq mk _ | PRegistered mk _ _ => ∃ cfg, is_request cfg mk
    | _ => True
    end.
Proof. intros H Hn i p [[<- <-]|[_ Hi]]%lookup_insert_Some; [done|by apply (H i)]. Qed.

Lemma procs_requests_step σ σ' : procs_requests σ → client_step σ σ' → procs_requests σ'.
Proof.
  unfold procs_requests. intros Hr Hs. destruct Hs; simpl; try exact Hr;
    (apply procs_requests_insert; [exact Hr|]); try done.
  - destruct (c_bound _); [by eexists|done].
  - by apply (Hr id (PChecked mk)).
  - by apply (Hr id (PSeq mk seq)).
Qed.

Lemma connect_begin_written d w c c' r :
  connect_begin d w c = (c', r) →
  filter is_deliver_resp (c_written c') = filter is_deliver_resp (c_written c) ∧
  (c_bound c = false → d = true → c_deliverQ c' = []) ∧
  (c_bound c = true ∨ d = false → c' = c).
Proof.
  unfold connect_begin. destruct (c_bound c); [intros [= <- <-]; by split_and!|].
  destruct d; [|intros [= <- <-]; by split_and!]. cbn -[filter].
  destruct w; cbn -[filter]; intros [= <- <-]; cbn -[filter]; (split; [|naive_solver]).
  - rewrite filter_app, filter_cons_False; [by rewrite filter_nil, app_nil_r|].
    unfold is_deliver_resp. simpl. by destruct (cfg_BindMode _).
  - done.
Qed.

Lemma Close_written ok c :
  filter is_deliver_resp (c_written (Client_Close ok c)) = filter is_deliver_resp (c_written c) ∧
  c_deliverQ (Client_Close ok c) = c_deliverQ c.
Proof.
  unfold Client_Close. destruct (c_bound c); [|done]. cbn -[filter writePDU].
  rewrite writePDU_not_resp by done. by destruct ok.
Qed.

Lemma connect_end_written r c :
  c_written (connect_end r c).1 = c_written c ∧ c_deliverQ (connect_end r c).1 = c_deliverQ c.
Proof.
  unfold connect_end. destruct r as [p|]; [|done]. case_decide; [done|].
  by destruct (ParseBindResp _ _).
Qed.

(** How a step changes the written answers and the log of handled messages. *)
Lemma step_answers σ σ' :
  pending_ok (s_client σ) → procs_requests σ → client_step σ σ' →
  (filter is_deliver_resp (c_written (s_client σ')) =
     filter is_deliver_resp (c_written (s_client σ)) ∧ s_handled σ' = s_handled σ) ∨
  (∃ mh (ok : bool), s_handled σ' = s_handled σ ++ [mh] ∧
     filter is_deliver_resp (c_written (s_client σ')) =
     filter is_deliver_resp (c_written (s_client σ)) ++ (if ok then [answer_of mh] else [])).
Proof.
  intros Hok Hr Hs.
  destruct Hs; cbn [sys_proc sys_client s_client s_handled]; try (left; by split).
  - left. injection H0 as <- <-. by split.
  - left. injection H0 as <- <-. by split.
  - left. destruct (Hr _ _ H) as [cfg Hq]. split; [|done].
    change c' with (true, c').2. rewrite <-H0. rewrite writePDU_not_resp; [done|].
    by apply (is_request_pdu cfg).
  - left. injection H0 as <-. by split.
  - left. destruct (dispatch_deliver _ _ _ _ _ Hok H0) as [E _]. by split.
  - left. destruct (handleDisconnect_ok _ Hok) as (c2 & E & _ & _ & _ & _ & _ & _ & _ & G2).
    rewrite E in H0. injection H0 as <-. by rewrite G2.
  - left. unfold enquireLink_tick. cbn -[filter writePDU]. by rewrite writePDU_not_resp.
  - right. exists (m, if c_hasHandler (s_client σ) then h else true), ok. split; [done|].
    unfold deliver_answer. rewrite writePDU_written, filter_app. f_equal.
    destruct ok; [|done]. by rewrite filter_cons_True.
  - left. by destruct (connect_begin_written _ _ _ _ _ H1) as [-> _].
  - left. by destruct (connect_begin_written _ _ _ _ _ H0) as [-> _].
  - left. by rewrite (proj1 (connect_end_written _ _)).
  - left. by destruct (Close_written ok (s_client σ)) as [-> _].
Qed.

Lemma reachable_deliver config h w q σ :
  reachable (sys_init config h w q) σ → deliver_inv σ.
Proof.
  intros H. induction H as [|σ σ' H [Hr Hsub] Hs].
  - split; [|apply sublist_nil]. intros id p Hp. simpl in Hp. by rewrite lookup_empty in Hp.
  - destruct (reachable_inv _ _ _ _ _ H) as [I _].
    split; [by eapply procs_requests_step|].
    destruct (step_answers σ σ' (ci_pending _ I) Hr Hs) as [[-> ->]|(mh & ok & -> & ->)]; [done|].
    by apply sublist_fmap_snoc.
Qed.

Lemma places_same σ σ' :
  c_deliverQ (s_client σ') = c_deliverQ (s_client σ) → s_stale σ' = s_stale σ →
  s_working σ' = s_working σ → s_handled σ' = s_handled σ → s_lost σ' = s_lost σ → deliver_move σ σ' [].
Proof. intros E1 E2 E3 E4 E5. apply mv_none. unfold places. by rewrite E1, E2, E3, E4, E5. Qed.

(** Every step is such a move. *)
Lemma step_delivers σ σ' :
  pending_ok (s_client σ) → client_step σ σ' → ∃ new, deliver_move σ σ' new.
Proof.
  intros Hok Hs.
  destruct Hs; try (exists []; by apply places_same).
  - injection H0 as <- <-. exists []. by apply places_same.
  - injection H0 as <- <-. exists []. by apply places_same.
  - injection H0 as <-. exists []. by apply places_same.
  - injection H0 as <-. exists []. by apply places_same.
  - destruct (dispatch_deliver _ _ _ _ _ Hok H0) as [_ [E|(Hd & m & E & Hseq & Hp)]].
    + exists []. by apply places_same.
    + exists [message_of pdu]. eapply mv_accept; [exact Hd|exact H0|done|reflexivity|].
      unfold places, message_of. cbn [s_client sys_client s_stale s_working s_handled s_lost]. rewrite E, <-Hp, <-Hseq. by destruct m.
  - destruct (handleDisconnect_ok _ Hok) as (c2 & E & _ & _ & _ & _ & _ & _ & G1 & _).
    rewrite E in H0. injection H0 as <-. exists []. by apply places_same.
  - exists []. apply places_same; by destruct ok.
  - exists []. eapply mv_take; [unfold places; by rewrite H|reflexivity].
  - exists []. eapply mv_take_stale; [unfold places; by rewrite H|reflexivity].
  - exists []. eapply mv_handle; [unfold places; by rewrite H|]. unfold places. cbn [s_client s_stale s_working s_handled s_lost].
    assert (c_deliverQ (deliver_answer ok h (s_client σ) m) = c_deliverQ (s_client σ)) as ->
      by (unfold deliver_answer; by destruct ok). reflexivity.
  - exists []. by eapply mv_lose.
  - exists []. eapply mv_lose_stale; [done|unfold places; by rewrite H|reflexivity].
  - exists []. destruct (connect_begin_written _ _ _ _ _ H1) as (_ & E & _).
    assert (c_bound (s_client σ) = false ∧ dial_ok = true) as [Hb Hd].
    { unfold connect_begin in H1. destruct (c_bound _), dial_ok; simplify_eq; done. }
    eapply mv_replace; [reflexivity|]. unfold places. cbn [s_client s_stale s_working s_handled s_lost]. by rewrite E.
  - exists []. destruct (connect_begin_written _ _ _ _ _ H0) as (_ & E & E').
    destruct (c_bound (s_client σ)) eqn:Hb; [apply places_same; try done; cbn; by rewrite E' by (by left)|].
    destruct dial_ok; [|apply places_same; try done; cbn; by rewrite E' by (by right)].
    eapply mv_replace; [reflexivity|]. unfold places. cbn [s_client s_stale s_working s_handled s_lost]. by rewrite E.
  - exists []. apply places_same; try done. cbn [s_client].
    by rewrite (proj2 (connect_end_written (Some p) _)).
  - exists []. apply places_same; try done. apply (proj2 (Close_written _ _)).
Qed.

Lemma all_delivers_places σ :
  all_delivers σ = let '(mkPlaced q s w h l) := places σ in q ++ s.*1 ++ w ++ h.*1 ++ l.
Proof. done. Qed.

(** A move keeps the accepted messages, with the new one. *)
Lemma move_conserves σ σ' new : deliver_move σ σ' new → all_delivers σ' ≡ₚ all_delivers σ ++ new.
Proof.
  intros Hm. rewrite !all_delivers_places.
  destruct Hm as [->|ok pd pdu c' q s w h l _ _ _ -> ->|m q s w h l -> ->|m over q s1 s2 w h l -> ->
    |m ok q s w1 w2 h l -> ->|q s w h l -> ->|q s w h l _ -> ->|q s1 s s2 w h l _ -> ->];
    rewrite ?app_nil_r, ?fmap_app, ?fmap_cons, <-?list_fmap_compose; simpl; rewrite ?list_fmap_id; try done;
    solve_Permutation.
Qed.

Lemma run_conserves σ0 log σ : all_delivers σ0 = [] → deliver_run σ0 log σ → log ≡ₚ all_delivers σ.
Proof.
  intros H0'. induction 1 as [|log new σ σ' _ IH _ Hm]; [by rewrite H0'|]. by rewrite (move_conserves _ _ _ Hm), IH.
Qed.

Lemma reachable_run config h w q σ :
  reachable (sys_init config h w q) σ → ∃ log, deliver_run (sys_init config h w q) log σ.
Proof.
  intros Hr. induction Hr as [|σ σ' Hr [log Hl] Hs]; [exists []; constructor|].
  destruct (reachable_inv _ _ _ _ _ Hr) as [I _]. destruct (step_delivers σ σ' (ci_pending _ I) Hs) as [new Hn].
  exists (log ++ new). by econstructor.
Qed.

(** A connected client accepts what it reads, or waits for room. *)
Lemma dispatch_accepts ok pd c pdu c' : CommandID pdu = CmdDeliverSM → c_done c = false →
  dispatchPDU ok pd c pdu = Some c' → c_deliverQ c' = c_deliverQ c ++ [message_of pdu].
Proof.
  intros Hd Hn. unfold dispatchPDU, message_of. rewrite Hd.
  rewrite decide_False by (unfold is_response; intros Hr; repeat destruct Hr as [Hr|Hr]; discriminate Hr).
  rewrite decide_True by done. destruct (ParseDeliverSM (Body pdu)) as [[[sa da] esm] sm].
  unfold enqueueDeliver. rewrite Hn. cbn [andb]. case_decide; [|done]. by intros [= <-].
Qed.

(** ** Properties *)

(** C9: responses reach the request they answer.  In every reachable state (before
    the 32-bit sequence counter wraps), concurrent requests have distinct sequence
    numbers, a finished request that got a response got one with its own sequence
    number or the error a disconnect hands out, and a request still waiting is
    registered or has its answer in its channel: no response is lost, duplicated
    or delivered to another request. *)
Theorem client_responses_correlate config h w q σ :
  reachable (sys_init config h w q) σ → s_draws σ < 2 ^ 32 →
  (∀ i j p p' s, s_procs σ !! i = Some p → s_procs σ !! j = Some p' →
    p_seq p = Some s → p_seq p' = Some s → i = j) ∧
  (∀ id s p, s_procs σ !! id = Some (PDone (Some s) (inr p)) → answers p s) ∧
  (∀ id s ch, s_procs σ !! id = Some (PWaiting s ch) →
    c_pending (s_client σ) !! s = Some ch ∨
    ∃ p, c_chans (s_client σ) !! ch = Some (Some p) ∧ answers p s).
Proof.
  intros H Hlt. destruct (reachable_inv _ _ _ _ _ H) as [I _].
  pose proof (ci_procs _ I Hlt) as P. split; [|split].
  - apply (pr_seq _ _ _ P).
  - apply (pr_done _ _ _ P).
  - intros id s ch Hp. by destruct (pr_wait _ _ _ P id (PWaiting s ch) s ch Hp eq_refl).
Qed.

(** C10: the read loop never blocks on a response channel, and a lost connection
    wakes everyone.  Every response PDU is dispatched; one that matches a waiting
    request is put in that request's channel.  When the connection of a bound
    client is lost, the drain of the pending map completes, the map is empty
    afterwards, every waiting request has its answer, and the done channel that
    is closed was open. *)
Theorem client_never_stuck config h w q σ :
  reachable (sys_init config h w q) σ → s_draws σ < 2 ^ 32 →
  (∀ ok pd pdu, is_response (CommandID pdu) →
    ∃ c', dispatchPDU ok pd (s_client σ) pdu = Some c' ∧
      ∀ id ch, s_procs σ !! id = Some (PWaiting (SequenceNumber pdu) ch) →
        c_pending (s_client σ) !! SequenceNumber pdu = Some ch →
        c_chans c' !! ch = Some (Some pdu)) ∧
  (c_bound (s_client σ) = true → c_done (s_client σ) = false ∧
    ∃ c', handleDisconnect (s_client σ) = Some c' ∧ c_bound c' = false ∧ c_pending c' = ∅ ∧
      ∀ id s ch, s_procs σ !! id = Some (PWaiting s ch) →
        ∃ p, c_chans c' !! ch = Some (Some p) ∧ answers p s).
Proof.
  intros H Hlt. destruct (reachable_inv _ _ _ _ _ H) as [I _].
  pose proof (ci_pending _ I) as Hok. split.
  - intros ok pd pdu Hr.
    destruct (dispatch_response ok pd _ pdu Hok Hr) as (c' & E & _ & _ & _ & _ & Hm).
    exists c'. split; [done|]. intros id ch _ Hp. rewrite Hp in Hm. subst c'. simpl.
    apply list_lookup_insert_eq. eapply lookup_lt_Some, (po_empty _ Hok), Hp.
  - intros Hb. split; [by apply (ci_bound _ I)|].
    destruct (handleDisconnect_ok _ Hok) as (c' & E & _ & Hw & _ & Hb' & He & _).
    exists c'. split; [done|]. split; [done|]. split; [by apply He|]. intros id s ch Hp.
    pose proof (pr_wait _ _ _ (ci_procs _ I Hlt) id (PWaiting s ch) s ch Hp eq_refl) as Hwait.
    destruct (Hw s ch Hwait) as [_ [Hpend|?]]; [|done].
    rewrite (He Hb), lookup_empty in Hpend. done.
Qed.

(** C11: deliver_sm is acknowledged after the handler, by its result.  In every
    reachable state the deliver_sm_resp PDUs written so far are, in order, answers
    to messages whose handler has returned, each with the message's sequence
    number and StatusOK exactly if the handler reported success, at most one per
    handler call. *)
Theorem client_acks_after_handler config h w q σ :
  reachable (sys_init config h w q) σ →
  filter is_deliver_resp (c_written (s_client σ)) `sublist_of` (answer_of <$> s_handled σ).
Proof. intros H. apply (reachable_deliver _ _ _ _ _ H). Qed.

(** C12: inside the client a deliver_sm is never made up or handled twice, and is lost
    only when its session is over.  Every step
    of the concurrent client leaves the messages where they are or makes exactly one
    move: the message of a deliver_sm that is read is put at the end of the queue, a
    worker takes the first message out of the queue, or one out of the queue of an
    earlier session, a message goes from a worker to the log of handled ones, once, with
    the handler's result, [Connect] replaces the queue, whose messages stay in the
    old one until a worker of the old session takes them, or what is left in a queue is
    lost, which takes a closed done channel.  So the messages accepted in a run are, as a
    multiset, those in the queue, in replaced queues, with a worker, handled or lost; and
    a client whose session is not over accepts the message of every deliver_sm, or waits
    for room. *)
Theorem client_delivers_conserved config h w q σ :
  reachable (sys_init config h w q) σ →
  (∀ σ', client_step σ σ' → ∃ new, deliver_move σ σ' new) ∧
  (∃ log, deliver_run (sys_init config h w q) log σ) ∧
  (∀ log, deliver_run (sys_init config h w q) log σ →
     log ≡ₚ c_deliverQ (s_client σ) ++ (s_stale σ).*1 ++ s_working σ ++ (s_handled σ).*1 ++ s_lost σ) ∧
  ∀ ok pick_done pdu c', CommandID pdu = CmdDeliverSM → c_done (s_client σ) = false →
    dispatchPDU ok pick_done (s_client σ) pdu = Some c' →
    c_deliverQ c' = c_deliverQ (s_client σ) ++ [message_of pdu].
Proof.
  intros Hr. destruct (reachable_inv _ _ _ _ _ Hr) as [I _]. split; [|split; [|split]].
  - intros σ'. apply step_delivers, (ci_pending _ I).
  - by apply reachable_run.
  - intros log. by apply run_conserves.
  - intros ok pd pdu c'. apply dispatch_accepts.
Qed.

(** An example session: bind, submit and its response, an incoming message. *)
Definition ex_config : Config :=
  mkConfig (str "smsc") 2775 (str "user") (str "pw") [] (str "src") 5 0 0 false false
    BindTransceiver 0.
Definition ex_init : sys := sys_init ex_config true 1 10.
Definition ex_req : SubmitRequest :=
  mkSubmitRequest (str "2782") 1 1 0 0 0 (str "hi") true.
Definition ex_deliver : PDU :=
  mkPDU 0 CmdDeliverSM 0 77 (EncodeSubmitSM (str "2782") 1 1 (str "1234") 1 1 0 0 0 0 (str "yo"))
    None.

(** The binding is waiting for its response. *)
Definition ex_binding : sys :=
  mkSys (connect_begin true true (s_client ex_init)).1 (<[0%nat := PBinding 1 0]> ∅) true 1
    [] [] [] [].
Definition ex_bind_resp : PDU :=
  mkPDU 0 CmdBindTransceiverResp 0 1 (str "smsc" ++ [0; 2; 16; 0; 1; 0x50]) None.
Definition ex_dispatch (σ : sys) (p : PDU) : sys :=
  sys_client σ (default (s_client σ) (dispatchPDU true false (s_client σ) p)).
(** The bind response has been read and [Connect] has returned. *)
Definition ex_bound : sys :=
  let σ := ex_dispatch ex_binding ex_bind_resp in
  mkSys (connect_end (Some ex_bind_resp)
      (with_pending (s_client σ) (c_pending (s_client σ)) (<[0%nat := None]> (c_chans (s_client σ))))).1
    (<[0%nat := PDone (Some 1) (inr ex_bind_resp)]> (s_procs σ)) false 1 [] [] [] [].
(** A submit waits for its response. *)
Definition ex_mk : Z → PDU := Submit_pdu (c_config (s_client ex_bound)) ex_req.
Definition ex_waiting : sys :=
  let c := (registerPending (nextSeq (s_client ex_bound)).2 2).2 in
  mkSys (writePDU true c (ex_mk 2)).2
    (<[1%nat := PWaiting 2 1]> (<[1%nat := PRegistered ex_mk 2 1]> (<[1%nat := PSeq ex_mk 2]>
      (<[1%nat := PChecked ex_mk]> (s_procs ex_bound))))) false 2 [] [] [] [].
(** A deliver_sm has arrived and its handler has returned an error. *)
Definition ex_delivered : sys := ex_dispatch ex_waiting ex_deliver.
Definition ex_msg : deliverMessage := mkDeliver (str "2782") (str "1234") 0 (str "yo") 77.
Definition ex_taken : sys :=
  mkSys (with_queue (s_client ex_delivered) []) (s_procs ex_delivered) (s_mu ex_delivered)
    (s_draws ex_delivered) [ex_msg] (s_stale ex_delivered) (s_handled ex_delivered) [].
Definition ex_answered : sys :=
  mkSys (deliver_answer true false (s_client ex_taken) ex_msg) (s_procs ex_taken)
    (s_mu ex_taken) (s_draws ex_taken) [] (s_stale ex_taken)
    (s_handled ex_taken ++ [(ex_msg, if c_hasHandler (s_client ex_taken) then false else true)]) [].

Ltac ex_eval := vm_compute; reflexivity.

Lemma ex_bound_reachable : reachable ex_init ex_bound.
Proof.
  assert (reachable ex_init ex_binding) as R1.
  { apply (reach_step _ ex_init); [apply reach_refl|].
    apply (cs_connect ex_init 0 true true _ 1 0); ex_eval. }
  assert (reachable ex_init (ex_dispatch ex_binding ex_bind_resp)) as R2.
  { apply (reach_step _ ex_binding); [done|].
    apply (cs_dispatch ex_binding true false ex_bind_resp); [by right|ex_eval]. }
  apply (reach_step _ _ _ R2).
  apply (cs_bind_resp (ex_dispatch ex_binding ex_bind_resp) 0 1 0 ex_bind_resp); ex_eval.
Qed.

Lemma ex_waiting_reachable : reachable ex_init ex_waiting.
Proof.
  pose proof ex_bound_reachable as R0.
  pose (s1 := sys_proc ex_bound (s_client ex_bound) 1 (PChecked ex_mk)).
  assert (reachable ex_init s1) as R1.
  { apply (reach_step _ ex_bound); [done|].
    apply (cs_start ex_bound 1 ex_mk); [ex_eval|ex_eval|]. apply rq_submit. }
  pose (s2 := mkSys (nextSeq (s_client s1)).2 (<[1%nat := PSeq ex_mk 2]> (s_procs s1)) false 2 [] [] [] []).
  assert (reachable ex_init s2) as R2.
  { apply (reach_step _ s1); [done|]. apply (cs_seq s1 1 ex_mk 2); [reflexivity|ex_eval]. }
  pose (s3 := sys_proc s2 (registerPending (s_client s2) 2).2 1 (PRegistered ex_mk 2 1)).
  assert (reachable ex_init s3) as R3.
  { apply (reach_step _ s2); [done|]. apply (cs_register s2 1 ex_mk 2 1); [reflexivity|ex_eval]. }
  apply (reach_step _ s3); [done|].
  apply (cs_write s3 1 ex_mk 2 1); [reflexivity|ex_eval].
Qed.

Lemma ex_answered_reachable : reachable ex_init ex_answered.
Proof.
  assert (reachable ex_init ex_delivered) as R1.
  { apply (reach_step _ ex_waiting); [apply ex_waiting_reachable|].
    apply (cs_dispatch ex_waiting true false ex_deliver); [by left|ex_eval]. }
  assert (reachable ex_init ex_taken) as R2.
  { apply (reach_step _ ex_delivered); [done|].
    apply (cs_take ex_delivered ex_msg []). ex_eval. }
  apply (reach_step _ ex_taken); [done|].
  apply (cs_answer ex_taken true false ex_msg [] []). reflexivity.
Qed.

Lemma client_responses_correlate_witness :
  reachable ex_init ex_waiting ∧
  s_procs ex_waiting !! 0%nat = Some (PDone (Some 1) (inr ex_bind_resp)) ∧
  answers ex_bind_resp 1.
Proof.
  assert (s_draws ex_waiting < 2 ^ 32) as Hd by (vm_compute; reflexivity).
  destruct (client_responses_correlate ex_config true 1 10 _ ex_waiting_reachable Hd) as (_ & H & _).
  split; [exact ex_waiting_reachable|]. split; [reflexivity|].
  apply (H 0%nat 1 ex_bind_resp). reflexivity.
Defined.

Lemma client_never_stuck_witness :
  reachable ex_init ex_waiting ∧
  ∃ c', handleDisconnect (s_client ex_waiting) = Some c' ∧
    ∃ p, c_chans c' !! 1%nat = Some (Some p) ∧ answers p 2.
Proof.
  assert (s_draws ex_waiting < 2 ^ 32) as Hd by (vm_compute; reflexivity).
  destruct (client_never_stuck ex_config true 1 10 _ ex_waiting_reachable Hd) as [_ H].
  split; [exact ex_waiting_reachable|].
  destruct (H ltac:(vm_compute; reflexivity)) as (_ & c' & E & _ & _ & Hw).
  exists c'. split; [exact E|]. apply (Hw 1%nat 2 1%nat). reflexivity.
Defined.

Lemma client_acks_after_handler_witness :
  reachable ex_init ex_answered ∧
  (filter is_deliver_resp (c_written (s_client ex_answered)) =
    [EncodeDeliverSMRespWithStatus 77 StatusSysErr]) ∧
  filter is_deliver_resp (c_written (s_client ex_answered))
    `sublist_of` (answer_of <$> s_handled ex_answered).
Proof.
  split; [exact ex_answered_reachable|]. split; [vm_compute; reflexivity|].
  exact (client_acks_after_handler ex_config true 1 10 ex_answered ex_answered_reachable).
Defined.

(** The message of the example was accepted once, and handled once. *)
Lemma client_delivers_conserved_witness :
  ∃ log, deliver_run ex_init log ex_answered ∧ log ≡ₚ [ex_msg] ∧ s_handled ex_answered = [(ex_msg, false)].
Proof.
  destruct (client_delivers_conserved ex_config true 1 10 _ ex_answered_reachable) as (_ & (log & Hl) & Hp & _).
  exists log. split; [exact Hl|]. split; [exact (Hp log Hl)|reflexivity].
Defined.

(** The connection is lost with the message in the queue.  The workers see the closed
    channel as well as the message, and may all return; [Connect] makes a new queue, and
    nothing hands the message on: it is neither handled nor answered. *)
Definition ex_over : sys := sys_client ex_delivered (default (s_client ex_delivered) (handleDisconnect (s_client ex_delivered))).
Definition ex_reconnecting : sys :=
  mkSys (connect_begin true true (s_client ex_over)).1 (<[2%nat := PBinding 3 2]> (s_procs ex_over)) true 3
    [] [(ex_msg, true)] [] [].
Definition ex_lost : sys :=
  mkSys (s_client ex_reconnecting) (s_procs ex_reconnecting) true 3 [] [] [] [ex_msg].

Theorem queued_delivers_abandoned :
  reachable ex_init ex_lost ∧
  places ex_delivered = mkPlaced [ex_msg] [] [] [] [] ∧ places ex_lost = mkPlaced [] [] [] [] [ex_msg].
Proof.
  split; [|split; vm_compute; reflexivity].
  assert (reachable ex_init ex_delivered) as R1.
  { apply (reach_step _ ex_waiting); [apply ex_waiting_reachable|].
    apply (cs_dispatch ex_waiting true false ex_deliver); [by left|ex_eval]. }
  assert (reachable ex_init ex_over) as R2.
  { apply (reach_step _ ex_delivered); [done|]. apply (cs_read_error ex_delivered); [ex_eval|ex_eval]. }
  assert (reachable ex_init ex_reconnecting) as R3.
  { apply (reach_step _ ex_over); [done|]. apply (cs_connect ex_over 2 true true _ 3 2); ex_eval. }
  apply (reach_step _ ex_reconnecting); [done|].
  apply (cs_old_workers_stop ex_reconnecting [] [(ex_msg, true)] []); [reflexivity|by repeat constructor].
Qed.

(** Connecting.  [Connect] binds the client exactly when the SMSC answers the
    bind with StatusOK; the negotiated version is then the one-byte
    sc_interface_version TLV of the response if there is one, and otherwise the
    configured version; a rejected or missing response closes the connection and
    leaves the client unbound. *)
Theorem connect_negotiates c smscID t status ver :
  no_nul smscID → TLVSet_ok t → c_bound c = false →
  (∀ v, t !! TagSCInterfaceVersion = Some v ↔ v = [ver]) →
  let resp body := mkPDU 0 (bindRespCommandID (cfg_BindMode (c_config c))) status 1 body None in
  let with_tlvs := connect_end (Some (resp (smscID ++ 0 :: TLVSet_Encode t))) c in
  let plain := connect_end (Some (resp (smscID ++ [0]))) c in
  with_tlvs.2 = bool_decide (status = StatusOK) ∧ plain.2 = bool_decide (status = StatusOK) ∧
  c_bound with_tlvs.1 = with_tlvs.2 ∧ c_bound plain.1 = plain.2 ∧
  (with_tlvs.2 = true → c_negotiatedVersion with_tlvs.1 = ver ∧
    c_negotiatedVersion plain.1 = cfg_InterfaceVersion (c_config c)) ∧
  (with_tlvs.2 = false → c_connOpen with_tlvs.1 = false ∧ c_connOpen plain.1 = false) ∧
  (connect_end None c).2 = false ∧ c_bound (connect_end None c).1 = false ∧
  c_connOpen (connect_end None c).1 = false.
Proof.
  intros Hn Ht Hb Hv resp.
  assert (t ≠ ∅) as Hne.
  { intros ->. destruct (Hv [ver]) as [_ H]. specialize (H eq_refl).
    by rewrite lookup_empty in H. }
  unfold connect_end, resp. cbn -[bool_decide TLVSet_Encode ParseBindResp].
  case_decide as Hs; [by rewrite bool_decide_eq_false_2 by done|].
  rewrite bool_decide_eq_true_2 by done.
  rewrite ParseBindResp_tlvs, ParseBindResp_plain by done.
  assert (TLVSet_GetUint8 t TagSCInterfaceVersion = Some ver) as ->.
  { unfold TLVSet_GetUint8. by rewrite (proj2 (Hv [ver]) eq_refl). }
  by split_and!.
Qed.

Lemma connect_negotiates_witness :
  let c := s_client ex_init in
  let t : TLVSet := {[ TagSCInterfaceVersion := [0x50] ]} in
  TLVSet_ok t ∧
  c_negotiatedVersion (connect_end (Some (mkPDU 0 CmdBindTransceiverResp 0 1
    (str "smsc" ++ 0 :: TLVSet_Encode t) None)) c).1 = 0x50 ∧
  c_bound (connect_end (Some (mkPDU 0 CmdBindTransceiverResp StatusBindFail 1
    (str "smsc" ++ 0 :: TLVSet_Encode t) None)) c).1 = false.
Proof.
  intros c t.
  assert (no_nul (str "smsc")) as H1 by (apply (bool_decide_unpack _); vm_compute; exact I).
  assert (TLVSet_ok t) as H2.
  { unfold TLVSet_ok. apply (bool_decide_unpack _). vm_compute. exact I. }
  assert (∀ v, t !! TagSCInterfaceVersion = Some v ↔ v = [0x50]) as H3.
  { intros v. unfold t. rewrite lookup_singleton_eq. split; [intros [= <-]|intros ->]; reflexivity. }
  split; [exact H2|].
  destruct (connect_negotiates c (str "smsc") t 0 0x50 H1 H2 eq_refl H3)
    as (Ha & _ & _ & _ & Hv & _).
  destruct (connect_negotiates c (str "smsc") t StatusBindFail 0x50 H1 H2 eq_refl H3)
    as (Hb & _ & Hc & _).
  split; [exact (proj1 (Hv Ha))|exact (eq_trans Hc Hb)].
Defined.
