(* ===== verification/Pool.v ===== *)
(** * The connection pool (smpp/pool.go)

    Round-robin selection of a bound connection with a free window slot, the
    windows as counting semaphores shared by concurrent submitters, connecting and
    closing the members. *)

From Stdlib Require Import ZifyNat.
From S2P Require Import Prelude Constants Tlv Pdu Operations Client.

Local Open Scope Z_scope.

(** Durations are nanoseconds. *)
Record PoolConfig := mkPoolConfig {
  pcfg_Connections : Z; pcfg_WindowSize : Z; pcfg_DeliverWorkers : Z;
  pcfg_DeliverQueueSize : Z; pcfg_ReconnectDelay : Z; pcfg_SubmitTimeout : Z
}.

Definition second : Z := 1000000000.

Definition DefaultPoolConfig : PoolConfig := mkPoolConfig 5 1000 8 0 (5 * second) (60 * second).

(** [window] is a buffered channel used as a counting semaphore: its length and its
    capacity. *)
Record poolConn := mkPoolConn {
  pc_client : Client;
  pc_window : Z;
  pc_cap : Z;
  pc_index : nat
}.

(** An element of the [conns] slice is nil until [Connect] has created it. *)
Record Pool := mkPool {
  p_config : Config;
  p_poolConfig : PoolConfig;
  p_conns : list (option poolConn);
  p_nextConn : Z;
  p_done : bool
}.

Definition NewPool (smppConfig : Config) (poolConfig : PoolConfig) : Pool :=
  let dflt := DefaultPoolConfig in
  let pos v d := if decide (v <= 0) then d else v in
  mkPool smppConfig
    (mkPoolConfig (pos (pcfg_Connections poolConfig) (pcfg_Connections dflt))
       (pos (pcfg_WindowSize poolConfig) (pcfg_WindowSize dflt))
       (pos (pcfg_DeliverWorkers poolConfig) (pcfg_DeliverWorkers dflt))
       (pcfg_DeliverQueueSize poolConfig)
       (pos (pcfg_ReconnectDelay poolConfig) (pcfg_ReconnectDelay dflt))
       (pos (pcfg_SubmitTimeout poolConfig) (pcfg_SubmitTimeout dflt)))
    [] 0 false.

Inductive pool_err := AllConnectionsFailed | ContextDone | PoolNotConnected | NoCapacity.

Definition with_conns (p : Pool) (conns : list (option poolConn)) : Pool :=
  mkPool (p_config p) (p_poolConfig p) conns (p_nextConn p) (p_done p).

(** ** Connecting

    [cancelled i] says that the context is done when the stagger delay before
    member [i] is over; [dial i c] is the outcome of [client.Connect] for it. *)

Section connect.
Variable cancelled : nat → bool.
Variable dial : nat → Client → Client * bool.

(** [k] members are left from member [i] on; the result is the slice, the number
    of bound members, and whether the context stopped the loop. *)
Fixpoint connect_loop (p : Pool) (k i : nat) (conns : list (option poolConn)) (success : nat)
    : list (option poolConn) * nat * bool :=
  match k with
  | O => (conns, success, false)
  | S k =>
      if bool_decide (0 < i)%nat && cancelled i then (conns, success, true)
      else
        let client := NewClientWithWorkers (p_config p) true
                        (pcfg_DeliverWorkers (p_poolConfig p))
                        (pcfg_DeliverQueueSize (p_poolConfig p)) in
        let '(client, ok) := dial i client in
        let pc := mkPoolConn client 0 (pcfg_WindowSize (p_poolConfig p)) i in
        connect_loop p k (S i) (<[i := Some pc]> conns) (if ok then S success else success)
  end.

Definition Pool_Connect (p : Pool) : Pool * option pool_err :=
  let n := Z.to_nat (pcfg_Connections (p_poolConfig p)) in
  let '(conns, success, stopped) := connect_loop p n 0 (replicate n None) 0 in
  let p := with_conns p conns in
  if stopped then (p, if decide (0 < success)%nat then None else Some ContextDone)
  else if decide (success = 0)%nat then (p, Some AllConnectionsFailed)
  else (p, None).
End connect.

(** ** Reading the members: a nil element panics *)

Fixpoint count_bound (conns : list (option poolConn)) (count : Z) : outcome Empty_set Z :=
  match conns with
  | [] => Ret count
  | None :: _ => Panic
  | Some pc :: conns =>
      count_bound conns (if IsBound (pc_client pc) then count + 1 else count)
  end.
Definition ActiveConnections (p : Pool) : outcome Empty_set Z := count_bound (p_conns p) 0.

(** (used slots, capacity), the two numbers [WindowUtilization] divides. *)
Fixpoint window_totals (conns : list (option poolConn)) (used cap : Z)
    : outcome Empty_set (Z * Z) :=
  match conns with
  | [] => Ret (used, cap)
  | None :: _ => Panic
  | Some pc :: conns => window_totals conns (used + pc_window pc) (cap + pc_cap pc)
  end.
Definition WindowUtilization (p : Pool) : outcome Empty_set (Z * Z) :=
  window_totals (p_conns p) 0 0.

(** ** Submitting

    [Submit] and [SubmitRaw] run the same loop.  One attempt on the connection at
    position [i] of a round that started at [start]: *)

Inductive attempt := Skip | Acquired (idx : nat) (conns : list (option poolConn)) | AttemptPanic.

Definition try_conn (conns : list (option poolConn)) (start i : Z) : attempt :=
  let numConns := zlen conns in
  let idx := Z.to_nat (u64 (start + i) mod numConns) in
  match conns !! idx with
  | Some (Some pc) =>
      if IsBound (pc_client pc) then
        if decide (pc_window pc < pc_cap pc) then
          Acquired idx (<[idx := Some (mkPoolConn (pc_client pc) (pc_window pc + 1) (pc_cap pc)
                                          (pc_index pc))]> conns)
        else Skip
      else Skip
  | _ => AttemptPanic
  end.

(** [<-conn.window]: blocks on an empty channel. *)
Definition release_conn (conns : list (option poolConn)) (idx : nat)
    : option (list (option poolConn)) :=
  match conns !! idx with
  | Some (Some pc) =>
      if decide (0 < pc_window pc) then
        Some (<[idx := Some (mkPoolConn (pc_client pc) (pc_window pc - 1) (pc_cap pc)
                               (pc_index pc))]> conns)
      else None
  | _ => None
  end.

(** A round without interference: positions [i .. i+k-1]. *)
Fixpoint sweep (conns : list (option poolConn)) (start i : Z) (k : nat) : attempt :=
  match k with
  | O => Skip
  | S k =>
      match try_conn conns start i with
      | Skip => sweep conns start (i + 1) k
      | r => r
      end
  end.

Definition next_start (p : Pool) : Z * Pool :=
  let s := u64 (p_nextConn p + 1) in
  (s, mkPool (p_config p) (p_poolConfig p) (p_conns p) s (p_done p)).

Definition Pool_acquire (p : Pool) : attempt * Pool :=
  let '(start, p) := next_start p in
  let r := sweep (p_conns p) start 0 (length (p_conns p)) in
  (r, match r with Acquired _ conns => with_conns p conns | _ => p end).

(** ** Closing *)

Definition close_member (oks : nat → bool) (m : option poolConn) : option poolConn :=
  match m with
  | Some pc => Some (mkPoolConn (Client_Close (oks (pc_index pc)) (pc_client pc)) (pc_window pc)
                       (pc_cap pc) (pc_index pc))
  | None => None
  end.

(** A nil member panics at [conn.client]. *)
Definition Pool_Close (oks : nat → bool) (p : Pool) : outcome Empty_set Pool :=
  if decide (Exists (λ m, m = None) (p_conns p)) then Panic
  else Ret (mkPool (p_config p) (p_poolConfig p) (close_member oks <$> p_conns p)
              (p_nextConn p) true).

(** ** Concurrent submitters

    A submitter is trying position [i] of a round, has finished a round without
    success, holds a window slot of a connection while [client.Submit] runs, or is
    done. *)

Inductive submitter :=
| STrying (start i : Z)
| SRoundOver
| SHolding (idx : nat)
| SFinished (ok : bool).

#[export] Instance submitter_eq_dec : EqDecision submitter.
Proof. solve_decision. Defined.

Record pool_sys := mkPoolSys {
  ps_pool : Pool;
  ps_subs : gmap nat submitter
}.

Inductive pool_step : pool_sys → pool_sys → Prop :=
| pst_begin p subs id start p' :
    subs !! id = None ∨ subs !! id = Some SRoundOver → p_conns p ≠ [] →
    next_start p = (start, p') →
    pool_step (mkPoolSys p subs) (mkPoolSys p' (<[id := STrying start 0]> subs))
| pst_skip p subs id start i :
    subs !! id = Some (STrying start i) → try_conn (p_conns p) start i = Skip →
    pool_step (mkPoolSys p subs)
      (mkPoolSys p (<[id := if decide (i + 1 < zlen (p_conns p)) then STrying start (i + 1)
                            else SRoundOver]> subs))
| pst_acquire p subs id start i idx conns :
    subs !! id = Some (STrying start i) → try_conn (p_conns p) start i = Acquired idx conns →
    pool_step (mkPoolSys p subs) (mkPoolSys (with_conns p conns) (<[id := SHolding idx]> subs))
| pst_release p subs id idx conns :
    subs !! id = Some (SHolding idx) → release_conn (p_conns p) idx = Some conns →
    pool_step (mkPoolSys p subs) (mkPoolSys (with_conns p conns) (<[id := SFinished true]> subs))
| pst_timeout p subs id :
    subs !! id = Some SRoundOver →
    pool_step (mkPoolSys p subs) (mkPoolSys p (<[id := SFinished false]> subs))
(** A member's client changes by itself: it disconnects, reconnects, answers. *)
| pst_client p subs idx pc c' :
    p_conns p !! idx = Some (Some pc) →
    pool_step (mkPoolSys p subs)
      (mkPoolSys (with_conns p (<[idx := Some (mkPoolConn c' (pc_window pc) (pc_cap pc)
                                                (pc_index pc))]> (p_conns p))) subs).

Inductive pool_steps : pool_sys → pool_sys → Prop :=
| psteps_refl s : pool_steps s s
| psteps_step s1 s2 s3 : pool_steps s1 s2 → pool_step s2 s3 → pool_steps s1 s3.

(** ** Lemmas *)

(** All members exist, with empty windows of the configured capacity. *)
Definition fresh_members (p : Pool) : Prop :=
  Forall (λ m, ∃ pc, m = Some pc ∧ pc_window pc = 0 ∧ 0 < pc_cap pc) (p_conns p).

Definition holders (subs : gmap nat submitter) (idx : nat) : nat :=
  size (filter (λ kv, kv.2 = SHolding idx) subs).

(** Each window holds one token per submitter inside the connection. *)
Definition windows_ok (σ : pool_sys) : Prop :=
  ∀ idx m, p_conns (ps_pool σ) !! idx = Some m →
    ∃ pc, m = Some pc ∧ pc_window pc = Z.of_nat (holders (ps_subs σ) idx) ∧
      pc_window pc <= pc_cap pc.

Lemma holders_insert subs id new idx :
  Z.of_nat (holders (<[id := new]> subs) idx) =
  Z.of_nat (holders subs idx) - (if decide (subs !! id = Some (SHolding idx)) then 1 else 0) +
  (if decide (new = SHolding idx) then 1 else 0).
Proof.
  unfold holders.
  assert (∀ v (m : gmap nat submitter), m !! id = None →
    Z.of_nat (size (filter (λ kv, kv.2 = SHolding idx) (<[id := v]> m))) =
    Z.of_nat (size (filter (λ kv, kv.2 = SHolding idx) m)) +
      if decide (v = SHolding idx) then 1 else 0) as Hnew.
  { intros v m Hm. case_decide as Hn.
    - rewrite map_filter_insert_True by done. rewrite map_size_insert_None; [lia|].
      rewrite map_lookup_filter_None. by left.
    - rewrite map_filter_insert_False by done. rewrite delete_id by done. lia. }
  destruct (subs !! id) as [old|] eqn:Eo.
  - rewrite <-insert_delete_eq, Hnew by apply lookup_delete_eq.
    rewrite <-(insert_delete_id subs id old Eo) at 2.
    rewrite Hnew by apply lookup_delete_eq.
    repeat case_decide; simplify_eq; try lia; congruence.
  - rewrite Hnew by done. repeat case_decide; simplify_eq; lia.
Qed.

Lemma try_conn_skip conns start i :
  try_conn conns start i = Skip →
  ∃ pc, conns !! Z.to_nat (u64 (start + i) mod zlen conns) = Some (Some pc) ∧
    (IsBound (pc_client pc) = false ∨ pc_cap pc <= pc_window pc).
Proof.
  unfold try_conn. destruct (conns !! _) as [[pc|]|]; [|done..]. intros H. exists pc.
  split; [done|]. destruct (IsBound _); [|by left]. case_decide; [done|]. right. lia.
Qed.

Lemma try_conn_acquired conns start i idx conns' :
  try_conn conns start i = Acquired idx conns' →
  ∃ pc, idx = Z.to_nat (u64 (start + i) mod zlen conns) ∧ conns !! idx = Some (Some pc) ∧
    IsBound (pc_client pc) = true ∧ pc_window pc < pc_cap pc ∧
    conns' = <[idx := Some (mkPoolConn (pc_client pc) (pc_window pc + 1) (pc_cap pc)
                              (pc_index pc))]> conns.
Proof.
  unfold try_conn. destruct (conns !! _) as [[pc|]|] eqn:E; [|done..].
  destruct (IsBound _) eqn:Eb; [|done]. case_decide; [|done]. intros [= <- <-]. by exists pc.
Qed.

(** An update of one member and one submitter that keeps the token count. *)
Lemma windows_ok_update p subs idx pc pc' id new d :
  windows_ok (mkPoolSys p subs) → p_conns p !! idx = Some (Some pc) →
  pc_window pc' = pc_window pc + d → pc_cap pc' = pc_cap pc → pc_window pc' <= pc_cap pc' →
  Z.of_nat (holders (<[id := new]> subs) idx) = Z.of_nat (holders subs idx) + d →
  (∀ j, j ≠ idx → holders (<[id := new]> subs) j = holders subs j) →
  windows_ok (mkPoolSys (with_conns p (<[idx := Some pc']> (p_conns p))) (<[id := new]> subs)).
Proof.
  intros Hok Hpc Hw Hc Hle Hh Ho j m Hm. simpl in Hm.
  destruct (decide (j = idx)) as [->|Hne].
  - rewrite list_lookup_insert_eq in Hm by (by eapply lookup_lt_Some). injection Hm as <-.
    destruct (Hok idx _ Hpc) as (pc0 & [= <-] & Hw0 & _). exists pc'.
    split; [done|]. simpl in *. split; [lia|done].
  - rewrite list_lookup_insert_ne in Hm by done. destruct (Hok j m Hm) as (pc0 & -> & Hw0 & Hle0).
    exists pc0. split; [done|]. simpl in *. by rewrite Ho.
Qed.

Lemma holders_same subs id old new j :
  subs !! id = old → old ≠ Some (SHolding j) → new ≠ SHolding j →
  holders (<[id := new]> subs) j = holders subs j.
Proof.
  intros Ho H1 H2. pose proof (holders_insert subs id new j) as H. rewrite Ho in H.
  rewrite !decide_False in H by done. lia.
Qed.

Lemma windows_ok_sub p subs id old new :
  windows_ok (mkPoolSys p subs) → subs !! id = old → (∀ j, old ≠ Some (SHolding j)) →
  (∀ j, new ≠ SHolding j) → windows_ok (mkPoolSys p (<[id := new]> subs)).
Proof.
  intros Hok Ho H1 H2 j m Hm. destruct (Hok j m Hm) as (pc & -> & Hw & Hle).
  exists pc. split; [done|]. simpl in *. by rewrite (holders_same subs id old).
Qed.

Lemma windows_ok_step σ σ' : windows_ok σ → pool_step σ σ' → windows_ok σ'.
Proof.
  intros Hok Hs. destruct Hs as [p subs id start p' Hid _ Hn|p subs id start i Hid Ht
    |p subs id start i idx conns Hid Ht|p subs id idx conns Hid Hr|p subs id Hid
    |p subs idx pc c' Hpc].
  - injection Hn as <- <-. eapply windows_ok_sub; [done|reflexivity| |done].
    by destruct Hid as [->| ->].
  - eapply windows_ok_sub; [done|exact Hid|done|]. intros j. by case_decide.
  - apply try_conn_acquired in Ht as (pc & -> & Hpc & _ & Hlt & ->).
    apply (windows_ok_update _ _ _ pc _ _ _ 1); try done; simpl; [lia| |].
    + rewrite holders_insert, Hid. rewrite decide_False, decide_True by done. lia.
    + intros j Hne. eapply holders_same; [exact Hid|done|]. intros [= E]. congruence.
  - unfold release_conn in Hr. destruct (p_conns p !! idx) as [[pc|]|] eqn:Hpc; [|done..].
    case_decide; [|done]. injection Hr as <-.
    apply (windows_ok_update _ _ _ pc _ _ _ (-1)); try done; simpl.
    + destruct (Hok idx _ Hpc) as (pc0 & [= <-] & _ & ?). lia.
    + rewrite holders_insert, Hid. rewrite decide_True, decide_False by done. lia.
    + intros j Hne. eapply holders_same; [exact Hid|congruence|done].
  - eapply windows_ok_sub; [done|exact Hid|done|done].
  - intros j m Hm. simpl in Hm. destruct (decide (j = idx)) as [->|Hne].
    + rewrite list_lookup_insert_eq in Hm by (by eapply lookup_lt_Some). injection Hm as <-.
      destruct (Hok idx _ Hpc) as (pc0 & [= <-] & ? & ?). by eexists.
    + rewrite list_lookup_insert_ne in Hm by done. by apply Hok.
Qed.

(** ** Sweeping *)

Definition available (m : option poolConn) : Prop :=
  ∃ pc, m = Some pc ∧ IsBound (pc_client pc) = true ∧ pc_window pc < pc_cap pc.

(** The index a round tries at position [i]. *)
Definition sweep_idx (conns : list (option poolConn)) (start i : Z) : nat :=
  Z.to_nat (u64 (start + i) mod zlen conns).

Lemma try_conn_cases conns start i :
  Forall is_Some conns → (0 < length conns)%nat →
  let idx := sweep_idx conns start i in
  ∃ m, conns !! idx = Some m ∧
    ((¬ available m ∧ try_conn conns start i = Skip) ∨
     (available m ∧ ∃ conns', try_conn conns start i = Acquired idx conns')).
Proof.
  intros Hall Hlen idx.
  assert (idx < length conns)%nat as Hidx.
  { unfold idx, sweep_idx. pose proof (Z.mod_pos_bound (u64 (start + i)) (zlen conns)).
    unfold zlen in *. lia. }
  destruct (lookup_lt_is_Some_2 _ _ Hidx) as [m Hm]. exists m. split; [done|].
  pose proof (Forall_lookup_1 _ _ _ _ Hall Hm) as [pc ->].
  unfold try_conn. fold (sweep_idx conns start i). fold idx. rewrite Hm.
  destruct (IsBound (pc_client pc)) eqn:Eb.
  - case_decide as Hw.
    + right. split; [by exists pc|]. by eexists.
    + left. split; [|done]. intros (pc' & [= <-] & _ & ?). lia.
  - left. split; [|done]. intros (pc' & [= <-] & ? & _). congruence.
Qed.

Lemma sweep_spec conns start k : ∀ i,
  Forall is_Some conns → (0 < length conns)%nat →
  match sweep conns start i k with
  | Skip => ∀ j, i <= j < i + Z.of_nat k → ∀ m, conns !! sweep_idx conns start j = Some m →
      ¬ available m
  | Acquired idx conns' => ∃ j m, i <= j < i + Z.of_nat k ∧ idx = sweep_idx conns start j ∧
      conns !! idx = Some m ∧ available m ∧ try_conn conns start j = Acquired idx conns' ∧
      ∀ j' m', i <= j' < j → conns !! sweep_idx conns start j' = Some m' → ¬ available m'
  | AttemptPanic => False
  end.
Proof.
  induction k as [|k IH]; intros i Hall Hlen; cbn [sweep]; [lia|].
  destruct (try_conn_cases conns start i Hall Hlen) as (m & Hm & [[Hna ->]|(Ha & conns' & E)]).
  - specialize (IH (i + 1) Hall Hlen). destruct (sweep conns start (i + 1) k) as [|idx conns'|].
    + intros j Hj m' Hm'. destruct (decide (j = i)) as [->|Hne]; [congruence|].
      apply (IH j); [lia|done].
    + destruct IH as (j & m' & Hj & Hidx & Hm' & Ha & Ht & Hbefore).
      exists j, m'. split; [lia|]. do 4 (split; [done|]).
      intros j' m0 Hj' Hm0. destruct (decide (j' = i)) as [->|Hne]; [congruence|].
      apply (Hbefore j'); [lia|done].
    + done.
  - rewrite E. exists i, m. split; [lia|]. do 4 (split; [done|]). lia.
Qed.

(** A round that does not cross the counter's wrap-around visits every member. *)
Lemma sweep_covers conns start idx :
  (idx < length conns)%nat → 0 <= start → start + zlen conns <= 2 ^ 64 →
  ∃ j, 0 <= j < zlen conns ∧ sweep_idx conns start j = idx.
Proof.
  intros Hidx Hs Hle. unfold zlen in *. set (n := Z.of_nat (length conns)) in *.
  exists ((Z.of_nat idx - start) mod n).
  pose proof (Z.mod_pos_bound (Z.of_nat idx - start) n ltac:(lia)).
  split; [lia|]. unfold sweep_idx, u64, zlen. fold n.
  rewrite (Z.mod_small _ (2 ^ 64)) by lia.
  rewrite Zplus_mod_idemp_r. replace (start + (Z.of_nat idx - start)) with (Z.of_nat idx) by lia.
  rewrite Z.mod_small by lia. lia.
Qed.

(** ** Connecting *)

Section connect_spec.
Variable cancelled : nat → bool.
Variable dial : nat → Client → Client * bool.

Definition fresh_client (p : Pool) : Client :=
  NewClientWithWorkers (p_config p) true (pcfg_DeliverWorkers (p_poolConfig p))
    (pcfg_DeliverQueueSize (p_poolConfig p)).

Definition member (p : Pool) (i : nat) : option poolConn :=
  Some (mkPoolConn (dial i (fresh_client p)).1 0 (pcfg_WindowSize (p_poolConfig p)) i).

Definition dial_ok (p : Pool) (i : nat) : Prop := (dial i (fresh_client p)).2 = true.
#[global] Instance dial_ok_dec p i : Decision (dial_ok p i).
Proof. unfold dial_ok. apply _. Defined.

(** The loop fills the slice up to the first cancelled delay. *)
Lemma connect_loop_spec p k : ∀ i done_ s,
  length done_ = i →
  ∃ m, (m <= k)%nat ∧
    connect_loop cancelled dial p k i (done_ ++ replicate k None) s =
      (done_ ++ (member p <$> seq i m) ++ replicate (k - m) None,
       (s + length (filter (dial_ok p) (seq i m)))%nat, bool_decide (m < k)%nat) ∧
    (∀ j, (j < m)%nat → (0 < i + j)%nat → cancelled (i + j) = false) ∧
    ((m < k)%nat → (0 < i + m)%nat ∧ cancelled (i + m) = true).
Proof.
  induction k as [|k IH]; intros i done_ s Hi; cbn [connect_loop].
  - exists 0%nat. simpl. rewrite Nat.add_0_r. split; [done|]. split; [done|].
    split; [lia|lia].
  - destruct (bool_decide (0 < i)%nat && cancelled i) eqn:Ec.
    + exists 0%nat. split; [lia|]. simpl. rewrite Nat.add_0_r. split; [done|].
      apply andb_true_iff in Ec as [Ec1 Ec2]. apply bool_decide_eq_true in Ec1.
      rewrite Nat.add_0_r. split; [lia|done].
    + fold (fresh_client p). destruct (dial i (fresh_client p)) as [c ok] eqn:Ed.
      assert (<[i := Some (mkPoolConn c 0 (pcfg_WindowSize (p_poolConfig p)) i)]>
        (done_ ++ replicate (S k) None) = (done_ ++ [member p i]) ++ replicate k None) as ->.
      { cbn [replicate]. subst i. rewrite insert_app_r_alt, Nat.sub_diag by lia. cbn.
        unfold member. by rewrite Ed, <-app_assoc. }
      destruct (IH (S i) (done_ ++ [member p i]) (if ok then S s else s))
        as (m & Hm & -> & Hc & Hstop); [rewrite length_app; simpl; lia|].
      exists (S m). split; [lia|]. split; [|split].
      * cbn [seq]. rewrite fmap_cons, <-app_assoc. cbn [app]. f_equal; [f_equal|].
        -- destruct ok; [rewrite filter_cons_True|rewrite filter_cons_False];
             [cbn [length]; lia|by unfold dial_ok; rewrite Ed|lia|by unfold dial_ok; rewrite Ed].
        -- apply bool_decide_ext. lia.
      * intros [|j] Hj Hij.
        -- rewrite Nat.add_0_r in *. rewrite bool_decide_eq_true_2 in Ec by lia. done.
        -- replace (i + S j)%nat with (S i + j)%nat by lia. apply Hc; lia.
      * intros Hlt. replace (i + S m)%nat with (S i + m)%nat by lia. apply Hstop. lia.
Qed.

Lemma count_bound_members p l count :
  (∀ i, IsBound (dial i (fresh_client p)).1 = (dial i (fresh_client p)).2) →
  count_bound (member p <$> l) count = Ret (count + Z.of_nat (length (filter (dial_ok p) l))).
Proof.
  intros Hd. revert count. induction l as [|i l IH]; intros count; [simpl; f_equal; lia|].
  rewrite fmap_cons. cbn [count_bound member pc_client]. rewrite IH. f_equal.
  rewrite filter_cons. rewrite Hd. destruct (decide (dial_ok p i)) as [Ho|Ho].
  - rewrite Ho. cbn [length]. lia.
  - unfold dial_ok in Ho. apply not_true_is_false in Ho. rewrite Ho. lia.
Qed.

(** Without a cancelled delay every member is created. *)
Lemma Pool_Connect_complete p p' e :
  (∀ i, cancelled i = false) → Pool_Connect cancelled dial p = (p', e) →
  Forall is_Some (p_conns p').
Proof.
  intros Hc. unfold Pool_Connect. set (n := Z.to_nat _).
  destruct (connect_loop_spec p n 0 [] 0 eq_refl) as (m & Hm & E & _ & Hstop).
  cbn [app] in E. rewrite E.
  assert (m = n) as -> by (destruct (decide (m < n)%nat) as [Hlt|]; [|lia];
    destruct (Hstop Hlt) as [_ Hx]; rewrite Hc in Hx; done).
  rewrite Nat.sub_diag. cbn [replicate]. rewrite app_nil_r, bool_decide_eq_false_2 by lia.
  assert (Forall is_Some (member p <$> seq 0 n)) as Hf.
  { apply Forall_fmap, Forall_true. intros i. by eexists. }
  intros H. by case_decide; simplify_eq.
Qed.

Lemma count_bound_nil l1 l2 count : count_bound (l1 ++ None :: l2) count = Panic.
Proof. revert count. induction l1 as [|[pc|] l1 IH]; intros count; simpl; [done|apply IH|done]. Qed.

End connect_spec.

(** ** Properties *)

(** One round of [Submit] or [SubmitRaw] without interference.  On a connected
    pool it takes the first connection, in rotation order from the counter, that
    is bound and has a free window slot; it gives up only when no connection has
    one (as long as the 64-bit counter does not wrap during the round); and it
    never touches a nil member. *)
Theorem Pool_acquire_complete p :
  Forall is_Some (p_conns p) → (0 < length (p_conns p))%nat →
  0 <= p_nextConn p → p_nextConn p + 1 + zlen (p_conns p) <= 2 ^ 64 →
  let start := p_nextConn p + 1 in
  match (Pool_acquire p).1 with
  | Acquired idx conns => ∃ j m, 0 <= j < zlen (p_conns p) ∧
      idx = sweep_idx (p_conns p) start j ∧ p_conns p !! idx = Some m ∧ available m ∧
      p_conns (Pool_acquire p).2 = conns ∧
      ∀ j' m', 0 <= j' < j → p_conns p !! sweep_idx (p_conns p) start j' = Some m' →
        ¬ available m'
  | Skip => ∀ m, m ∈ p_conns p → ¬ available m
  | AttemptPanic => False
  end.
Proof.
  intros Hall Hlen H0 Hle start. unfold Pool_acquire, next_start. cbn [p_conns].
  assert (u64 (p_nextConn p + 1) = start) as ->.
  { unfold u64. apply Z.mod_small. unfold zlen in Hle. lia. }
  pose proof (sweep_spec (p_conns p) start (length (p_conns p)) 0 Hall Hlen) as H.
  destruct (sweep _ _ _ _) as [|idx conns|]; cbn [fst snd p_conns with_conns].
  - intros m [idx Hidx]%list_elem_of_lookup.
    destruct (sweep_covers (p_conns p) start idx) as (j & Hj & Hji);
      [by eapply lookup_lt_Some|unfold start; lia|unfold start; lia|].
    apply (H j); [unfold zlen in Hj; lia|]. by rewrite Hji.
  - destruct H as (j & m & Hj & Hidx & Hm & Ha & _ & Hbefore). exists j, m.
    split; [unfold zlen; lia|]. do 4 (split; [done|]). done.
  - done.
Qed.

(** C27: windows.  However submitters interleave and the members' connections come
    and go, the tokens in a connection's window are exactly the submitters inside
    its client, never more than the configured window size; so the slot a
    submitter returns is always there and the receive from the window channel
    does not block. *)
Theorem Pool_windows p subs σ :
  windows_ok (mkPoolSys p subs) → pool_steps (mkPoolSys p subs) σ →
  (∀ idx m, p_conns (ps_pool σ) !! idx = Some m → ∃ pc, m = Some pc ∧
    pc_window pc = Z.of_nat (holders (ps_subs σ) idx) ∧ pc_window pc <= pc_cap pc) ∧
  (∀ id idx m, ps_subs σ !! id = Some (SHolding idx) → p_conns (ps_pool σ) !! idx = Some m →
    ∃ conns, release_conn (p_conns (ps_pool σ)) idx = Some conns).
Proof.
  intros Hok Hs. remember (mkPoolSys p subs) as s0.
  assert (windows_ok σ) as Hσ.
  { induction Hs as [s|s1 s2 s3 _ IH Hstep]; [done|]. eapply windows_ok_step; [by apply IH|done]. }
  split; [exact Hσ|]. intros id idx m Hid Hm.
  destruct (Hσ idx m Hm) as (pc & -> & Hw & _). unfold release_conn. rewrite Hm.
  rewrite decide_True; [by eexists|]. rewrite Hw. unfold holders.
  assert (filter (λ kv, kv.2 = SHolding idx) (ps_subs σ) !! id = Some (SHolding idx)) as Hf
    by by apply map_lookup_filter_Some.
  destruct (size _) eqn:E; [|lia]. apply map_size_empty_inv in E.
  by rewrite E, lookup_empty in Hf.
Qed.

(** [Connect] when the context is not cancelled: it fails exactly when every
    member fails, and otherwise all members exist with empty windows of the
    configured size and [ActiveConnections] counts the members that connected. *)
Theorem Pool_Connect_ok cancelled dial p :
  0 < pcfg_Connections (p_poolConfig p) →
  (∀ i, cancelled i = false) →
  (∀ i, IsBound (dial i (fresh_client p)).1 = (dial i (fresh_client p)).2) →
  let n := Z.to_nat (pcfg_Connections (p_poolConfig p)) in
  let '(p', err) := Pool_Connect cancelled dial p in
  let ok := filter (λ i, (dial i (fresh_client p)).2 = true) (seq 0 n) in
  p_conns p' = member dial p <$> seq 0 n ∧
  err = (if decide (ok = []) then Some AllConnectionsFailed else None) ∧
  ActiveConnections p' = Ret (zlen ok).
Proof.
  intros Hn Hc Hd n. unfold Pool_Connect. fold n.
  destruct (connect_loop_spec cancelled dial p n 0 [] 0 eq_refl) as (m & Hm & E & _ & Hstop).
  cbn [app] in E. rewrite E.
  assert (m = n) as -> by (destruct (decide (m < n)%nat) as [Hlt|]; [|lia];
    destruct (Hstop Hlt) as [_ Hx]; rewrite Hc in Hx; done).
  rewrite Nat.sub_diag. cbn [replicate]. rewrite app_nil_r, bool_decide_eq_false_2 by lia.
  rewrite Nat.add_0_l. set (ok := filter (dial_ok dial p) (seq 0 n)).
  change (filter (λ i, (dial i (fresh_client p)).2 = true) (seq 0 n)) with ok.
  assert (ActiveConnections (with_conns p (member dial p <$> seq 0 n)) = Ret (zlen ok)) as Ha.
  { unfold ActiveConnections. cbn [with_conns p_conns]. by rewrite count_bound_members. }
  destruct (decide (length ok = 0%nat)) as [H0|H0].
  - rewrite decide_True by (by apply nil_length_inv). done.
  - rewrite decide_False by (intros E0; by rewrite E0 in H0). done.
Qed.

(** A context cancelled during the staggered connect.  If some member has
    connected before the first cancelled delay, [Connect] reports success and
    leaves the remaining members nil: counting the active connections (which every
    health check does) and closing the pool then panic. *)
Theorem Pool_Connect_cancelled cancelled dial p k :
  (0 < k)%nat → (k < Z.to_nat (pcfg_Connections (p_poolConfig p)))%nat →
  cancelled k = true → (∀ i, (i < k)%nat → cancelled i = false) →
  (∃ i, (i < k)%nat ∧ (dial i (fresh_client p)).2 = true) →
  let '(p', err) := Pool_Connect cancelled dial p in
  err = None ∧ ActiveConnections p' = Panic ∧ WindowUtilization p' = Panic ∧
  ∀ oks, Pool_Close oks p' = Panic.
Proof.
  intros Hk Hkn Hck Hbefore (i & Hi & Hdi). unfold Pool_Connect.
  set (n := Z.to_nat _) in *.
  destruct (connect_loop_spec cancelled dial p n 0 [] 0 eq_refl) as (m & Hm & E & Hnc & Hstop).
  cbn [app] in E. rewrite E. rewrite Nat.add_0_l in *.
  assert (m = k) as ->.
  { destruct (decide (m < k)%nat) as [Hlt|Hge].
    - destruct (Hstop ltac:(lia)) as [_ Hx]. simpl in Hx. by rewrite Hbefore in Hx.
    - destruct (decide (k < m)%nat) as [Hlt|]; [|lia].
      specialize (Hnc k Hlt ltac:(simpl; lia)). simpl in Hnc. congruence. }
  rewrite bool_decide_eq_true_2 by lia.
  replace (n - k)%nat with (S (n - k - 1)) by lia. cbn [replicate].
  assert (0 < length (filter (dial_ok dial p) (seq 0 k)))%nat as Hs.
  { destruct (filter _ _) eqn:Ef; [|simpl; lia].
    assert (i ∈ filter (dial_ok dial p) (seq 0 k)) as Hin.
    { apply list_elem_of_filter. split; [done|]. apply elem_of_seq. lia. }
    rewrite Ef in Hin. by apply elem_of_nil in Hin. }
  rewrite decide_True by done. split; [done|]. split; [|split].
  - unfold ActiveConnections. cbn [with_conns p_conns]. apply count_bound_nil.
  - unfold WindowUtilization. cbn [with_conns p_conns]. generalize 0, 0 at 2. clear.
    generalize (seq 0 k). intros l. induction l as [|j l IH]; intros u c; [done|].
    rewrite fmap_cons. simpl. apply IH.
  - intros oks. unfold Pool_Close. cbn [with_conns p_conns]. rewrite decide_True; [done|].
    apply Exists_app. right. by left.
Qed.

(** Three members, of which the second cannot be reached. *)
Definition pex_pool : Pool := NewPool ex_config (mkPoolConfig 3 2 1 10 0 0).
Definition pex_dial (i : nat) (c : Client) : Client * bool :=
  if decide (i = 1%nat) then (c, false)
  else (with_session c 0x34 true false [] true, true).
Definition pex_connected : Pool := (Pool_Connect (λ _, false) pex_dial pex_pool).1.

Lemma Pool_acquire_complete_witness :
  Forall is_Some (p_conns pex_connected) ∧ (0 < length (p_conns pex_connected))%nat ∧
  ∃ conns, (Pool_acquire pex_connected).1 = Acquired 2 conns ∧
    p_conns (Pool_acquire pex_connected).2 = conns.
Proof.
  assert (Forall is_Some (p_conns pex_connected)) as H1
    by (apply (bool_decide_unpack _); vm_compute; exact I).
  assert (0 < length (p_conns pex_connected))%nat as H2 by (apply (bool_decide_unpack _); vm_compute; exact I).
  split; [exact H1|split; [exact H2|]].
  pose proof (Pool_acquire_complete pex_connected H1 H2 ltac:(vm_compute; congruence)
    ltac:(vm_compute; congruence)) as H. cbv zeta in H.
  destruct (Pool_acquire pex_connected).1 as [|idx conns|] eqn:E.
  - vm_compute in E. discriminate E.
  - destruct H as (j & m & _ & _ & _ & _ & Hc & _). exists conns. split; [|exact Hc].
    f_equal. vm_compute in E. injection E as <- _. reflexivity.
  - destruct H.
Defined.

Lemma Pool_windows_witness :
  windows_ok (mkPoolSys pex_connected ∅) ∧
  let p1 := (next_start pex_connected).2 in
  let s1 := mkPoolSys p1 {[ 7%nat := STrying 1 0 ]} in
  pool_steps (mkPoolSys pex_connected ∅) s1 ∧
  ∀ idx m, p_conns p1 !! idx = Some m → ∃ pc, m = Some pc ∧
    pc_window pc = Z.of_nat (holders {[ 7%nat := STrying 1 0 ]} idx) ∧ pc_window pc <= pc_cap pc.
Proof.
  assert (windows_ok (mkPoolSys pex_connected ∅)) as H1.
  { intros idx m Hm. unfold holders. cbn [ps_subs ps_pool] in *. rewrite map_filter_empty.
    assert (Forall (λ m, ∃ pc, m = Some pc ∧ pc_window pc = 0 ∧ pc_window pc <= pc_cap pc)
      (p_conns pex_connected)) as Hf.
    { repeat (apply Forall_cons; split; [eexists; split; [reflexivity|split; [reflexivity|vm_compute; congruence]]|]).
      apply Forall_nil. exact I. }
    exact (Forall_lookup_1 _ _ _ _ Hf Hm). }
  split; [exact H1|]. intros p1 s1.
  assert (pool_steps (mkPoolSys pex_connected ∅) s1) as H2.
  { apply (psteps_step _ (mkPoolSys pex_connected ∅)); [apply psteps_refl|].
    apply (pst_begin pex_connected ∅ 7 1 p1); [by left|vm_compute; congruence|reflexivity]. }
  split; [exact H2|]. exact (proj1 (Pool_windows pex_connected ∅ s1 H1 H2)).
Defined.

Lemma Pool_Connect_ok_witness :
  (Pool_Connect (λ _, false) pex_dial pex_pool).2 = None ∧
  ActiveConnections pex_connected = Ret 2.
Proof.
  pose proof (Pool_Connect_ok (λ _, false) pex_dial pex_pool ltac:(vm_compute; reflexivity)
    (λ _, eq_refl)) as H.
  assert (∀ i, IsBound (pex_dial i (fresh_client pex_pool)).1 =
    (pex_dial i (fresh_client pex_pool)).2) as Hd.
  { intros i. unfold pex_dial. destruct (decide (i = 1%nat)); reflexivity. }
  specialize (H Hd). cbv zeta in H. unfold pex_connected.
  destruct (Pool_Connect (λ _, false) pex_dial pex_pool) as [p' err].
  destruct H as (_ & He & Ha). split; [rewrite He; vm_compute; reflexivity|].
  refine (eq_trans Ha _). vm_compute. reflexivity.
Defined.

Lemma Pool_Connect_cancelled_witness :
  let r := Pool_Connect (λ i, bool_decide (i = 2%nat)) pex_dial pex_pool in
  r.2 = None ∧ ActiveConnections r.1 = Panic.
Proof.
  intros r. unfold r.
  pose proof (Pool_Connect_cancelled (λ i, bool_decide (i = 2%nat)) pex_dial pex_pool 2
    ltac:(lia) ltac:(vm_compute; lia) eq_refl) as H.
  assert (∀ i, (i < 2)%nat → bool_decide (i = 2%nat) = false) as H1.
  { intros i Hi. apply bool_decide_eq_false_2. lia. }
  assert (∃ i, (i < 2)%nat ∧ (pex_dial i (fresh_client pex_pool)).2 = true) as H2
    by (exists 0%nat; split; [lia|reflexivity]).
  specialize (H H1 H2). destruct (Pool_Connect _ pex_dial pex_pool) as [p' err].
  destruct H as (He & Ha & _). split; [exact He|exact Ha].
Defined.
