(* ===== verification/SliceSort.v ===== *)
(** * sort.Slice

    The interface of Go's [sort.Slice] that the gateway relies on: the result is a
    permutation of the slice without inversions for a strict weak order; the sort
    is not stable, so the order of incomparable elements is unspecified.  The
    theorems about the tables hold for every instance; insertion sort is one. *)

From S2P Require Import Prelude.

Record strict_weak {A} (less : A → A → bool) : Prop := {
  sw_irrefl : ∀ a, less a a = false;
  sw_trans : ∀ a b c, less a b = true → less b c = true → less a c = true;
  sw_negtrans : ∀ a b c, less a b = false → less b c = false → less a c = false
}.

(** No element is less than one before it. *)
Definition no_inversion {A} (less : A → A → bool) (l : list A) : Prop :=
  StronglySorted (λ a b, less b a = false) l.

Class SliceSort := {
  sort_slice : ∀ {A}, (A → A → bool) → list A → list A;
  sort_slice_perm : ∀ A (less : A → A → bool) l, sort_slice less l ≡ₚ l;
  sort_slice_sorted : ∀ A (less : A → A → bool) l,
    strict_weak less → no_inversion less (sort_slice less l)
}.

(** ** Insertion sort is an instance *)

Section insertion.
Context {A : Type} (less : A → A → bool).

Fixpoint insert_sorted (x : A) (l : list A) : list A :=
  match l with
  | [] => [x]
  | y :: l => if less y x then y :: insert_sorted x l else x :: y :: l
  end.

Definition insertion_sort (l : list A) : list A := foldr insert_sorted [] l.

Lemma insert_sorted_perm x l : insert_sorted x l ≡ₚ x :: l.
Proof.
  induction l as [|y l IH]; simpl; [done|]. destruct (less y x); [|done].
  rewrite IH. apply Permutation_swap.
Qed.

Lemma insertion_sort_perm l : insertion_sort l ≡ₚ l.
Proof. induction l as [|x l IH]; simpl; [done|]. by rewrite insert_sorted_perm, IH. Qed.

Lemma insert_sorted_sorted x l :
  strict_weak less → no_inversion less l → no_inversion less (insert_sorted x l).
Proof.
  intros Hw. induction 1 as [|y l Hs IH Hy]; simpl.
  - repeat constructor.
  - destruct (less y x) eqn:E.
    + constructor; [done|]. rewrite insert_sorted_perm. constructor; [|done].
      destruct (less x y) eqn:E'; [|done].
      pose proof (sw_trans _ Hw _ _ _ E' E) as H. by rewrite (sw_irrefl _ Hw) in H.
    + constructor; [by constructor|]. constructor; [done|].
      eapply Forall_impl; [exact Hy|]. intros z Hz. simpl in Hz.
      by apply (sw_negtrans _ Hw z y x).
Qed.

Lemma insertion_sort_sorted l : strict_weak less → no_inversion less (insertion_sort l).
Proof.
  intros Hw. induction l as [|x l IH]; simpl; [constructor|]. by apply insert_sorted_sorted.
Qed.
End insertion.

Definition insertion_SliceSort : SliceSort := {|
  sort_slice A := insertion_sort;
  sort_slice_perm A less l := insertion_sort_perm less l;
  sort_slice_sorted A less l := insertion_sort_sorted less l
|}.

(** ** Using the interface *)

Section laws.
Context `{SliceSort} {A : Type}.
Implicit Types (less : A → A → bool) (l : list A).

Lemma sort_slice_elem less l x : x ∈ sort_slice less l ↔ x ∈ l.
Proof. by rewrite sort_slice_perm. Qed.

(** Removing elements cannot create an inversion. *)
Lemma no_inversion_sublist less l l' :
  l' `sublist_of` l → no_inversion less l → no_inversion less l'.
Proof.
  induction 1 as [|x l1 l2 Hs IH|x l1 l2 Hs IH]; intros Hl; [constructor| |].
  - inversion Hl as [|?? Hl2 Hx]; subst. constructor; [by apply IH|].
    rewrite Forall_forall in *. intros y Hy. apply Hx. by eapply elem_of_sublist.
  - inversion Hl as [|?? Hl2 Hx]; subst. by apply IH.
Qed.

Lemma sublist_fmap {B} (f : A → B) l l' : l' `sublist_of` l → f <$> l' `sublist_of` f <$> l.
Proof. induction 1; simpl; by constructor. Qed.

Lemma no_inversion_lookup less l i j a b :
  no_inversion less l → (i < j)%nat → l !! i = Some a → l !! j = Some b → less b a = false.
Proof.
  intros Hl. revert i j. induction Hl as [|x l Hs IH Hx]; intros i j Hij Ha Hb; [done|].
  destruct j as [|j]; [lia|]. destruct i as [|i]; simpl in *.
  - injection Ha as ->. exact (Forall_lookup_1 _ _ _ _ Hx Hb).
  - apply (IH i j); [lia|done..].
Qed.

(** The first element that satisfies [P] in a list without inversions. *)
Lemma first_match_least less l (P : A → Prop) `{∀ x, Decision (P x)} i x :
  no_inversion less l → list_find P l = Some (i, x) →
  x ∈ l ∧ P x ∧ ∀ y, y ∈ l → P y → less y x = false ∨ y = x.
Proof.
  intros Hl. revert i. induction Hl as [|z l Hs IH Hz]; intros i Hf; [done|].
  cbn [list_find] in Hf. case_decide as Hp.
  - injection Hf as <- <-. split; [by left|]. split; [done|].
    intros y [->|Hy]%elem_of_cons _; [by right|]. left. rewrite Forall_forall in Hz. by apply Hz.
  - destruct (list_find P l) as [[j w]|] eqn:E; [|done]. injection Hf as _ <-.
    destruct (IH j eq_refl) as (H1 & H2 & H3). split; [by right|]. split; [done|].
    intros y [->|Hy]%elem_of_cons Hpy; [done|by apply H3].
Qed.
End laws.
