(* ===== verification/PoolManager.v ===== *)
(** * Named southbound pools (gateway/pool_manager.go, gateway/submitter.go,
    gateway/smpp_submitter.go)

    The manager's maps from names to pools, submitters and configurations, and the
    health it reports.  Pools are shared by reference: the maps hold indices into a
    store of pools, which change by themselves (their connections come and go). *)

From S2P Require Import Prelude Constants Tlv Pdu Operations Client Pool SliceSort.

Local Open Scope Z_scope.

Record SouthboundPoolConfig := mkSouthbound {
  sb_Name : bytes; sb_Host : bytes; sb_Port : Z; sb_SystemID : bytes; sb_Password : bytes;
  sb_SourceAddr : bytes; sb_Connections : Z; sb_WindowSize : Z; sb_TLSEnabled : bool;
  sb_TLSInsecureSkipVerify : bool; sb_BindMode : bytes; sb_InterfaceVersion : bytes
}.

Record PoolHealth := mkHealth {
  ph_Name : bytes; ph_ActiveConnections : Z; ph_Healthy : bool
}.

(** An SMPPSubmitter wraps a pool, so a submitter is the index of its pool. *)
Abbreviation pool_ref := nat.

Record PoolManager := mkPoolManager {
  pm_heap : list Pool;
  pm_pools : gmap bytes pool_ref;
  pm_submitters : gmap bytes pool_ref;
  pm_configs : gmap bytes SouthboundPoolConfig
}.

Definition NewPoolManager : PoolManager := mkPoolManager [] ∅ ∅ ∅.

Inductive pm_err :=
| PoolExists (name : bytes)
| PoolConnectFailed (name : bytes) (e : pool_err)
| PoolNotFound (name : bytes).

Definition southbound_bind_mode (cfg : SouthboundPoolConfig) : BindMode :=
  if decide (sb_BindMode cfg = str "transmitter") then BindTransmitter
  else if decide (sb_BindMode cfg = str "receiver") then BindReceiver
  else BindTransceiver.

Definition southbound_version (cfg : SouthboundPoolConfig) : Z :=
  if decide (sb_InterfaceVersion cfg = str "5.0") then 0x50 else 0x34.

(** The client and pool configuration [addSMPP] derives. *)
Definition southbound_client (cfg : SouthboundPoolConfig) : Config :=
  mkConfig (sb_Host cfg) (sb_Port cfg) (sb_SystemID cfg) (sb_Password cfg) []
    (sb_SourceAddr cfg) 0x05 0x00 30 (sb_TLSEnabled cfg) (sb_TLSInsecureSkipVerify cfg)
    (southbound_bind_mode cfg) (southbound_version cfg).

Definition southbound_pool (cfg : SouthboundPoolConfig) : PoolConfig :=
  mkPoolConfig (if decide (sb_Connections cfg <= 0) then 2 else sb_Connections cfg)
    (if decide (sb_WindowSize cfg <= 0) then 10 else sb_WindowSize cfg)
    16 25000 0 (60 * second).

(** [connect] is [pool.Connect] in the environment at hand. *)
Definition addSMPP (connect : Pool → Pool * option pool_err) (cfg : SouthboundPoolConfig)
    (pm : PoolManager) : PoolManager * option pm_err :=
  let pool := NewPool (southbound_client cfg) (southbound_pool cfg) in
  match connect pool with
  | (_, Some e) => (pm, Some (PoolConnectFailed (sb_Name cfg) e))
  | (pool, None) =>
      let r := length (pm_heap pm) in
      (mkPoolManager (pm_heap pm ++ [pool])
         (<[sb_Name cfg := r]> (pm_pools pm)) (<[sb_Name cfg := r]> (pm_submitters pm))
         (<[sb_Name cfg := cfg]> (pm_configs pm)), None)
  end.

Definition pm_Add (connect : Pool → Pool * option pool_err) (cfg : SouthboundPoolConfig)
    (pm : PoolManager) : PoolManager * option pm_err :=
  if decide (is_Some (pm_submitters pm !! sb_Name cfg)) then
    (pm, Some (PoolExists (sb_Name cfg)))
  else if decide (is_Some (pm_pools pm !! sb_Name cfg)) then
    (pm, Some (PoolExists (sb_Name cfg)))
  else addSMPP connect cfg pm.

Definition pm_Get (pm : PoolManager) (name : bytes) : option pool_ref := pm_pools pm !! name.
Definition pm_GetSubmitter (pm : PoolManager) (name : bytes) : option pool_ref :=
  pm_submitters pm !! name.
Definition pm_GetConfig (pm : PoolManager) (name : bytes) : option SouthboundPoolConfig :=
  pm_configs pm !! name.

(** Closing a pool in the store; [oks] are the fates of the unbind writes. *)
Definition close_ref (oks : nat → bool) (heap : list Pool) (r : pool_ref)
    : outcome Empty_set (list Pool) :=
  match heap !! r with
  | Some p => p' ← Pool_Close oks p; Ret (<[r := p']> heap)
  | None => Panic
  end.

Definition pm_Remove (oks : nat → bool) (name : bytes) (pm : PoolManager)
    : outcome pm_err PoolManager :=
  match pm_submitters pm !! name with
  | None =>
      match pm_pools pm !! name with
      | None => Fail (PoolNotFound name)
      | Some r =>
          match close_ref oks (pm_heap pm) r with
          | Ret heap => Ret (mkPoolManager heap (delete name (pm_pools pm)) (pm_submitters pm)
                               (delete name (pm_configs pm)))
          | _ => Panic
          end
      end
  | Some r =>
      match close_ref oks (pm_heap pm) r with
      | Ret heap => Ret (mkPoolManager heap (delete name (pm_pools pm))
                           (delete name (pm_submitters pm)) (delete name (pm_configs pm)))
      | _ => Panic
      end
  end.

(** [ActiveConnections] of the pool behind a reference. *)
Definition ref_active (pm : PoolManager) (r : pool_ref) : outcome Empty_set Z :=
  match pm_heap pm !! r with Some p => ActiveConnections p | None => Panic end.

Definition pm_Health (pm : PoolManager) (name : bytes) : outcome Empty_set PoolHealth :=
  match pm_submitters pm !! name with
  | Some r => active ← ref_active pm r; Ret (mkHealth name active (bool_decide (0 < active)))
  | None =>
      match pm_pools pm !! name with
      | None => Ret (mkHealth name 0 false)
      | Some r => active ← ref_active pm r; Ret (mkHealth name active (bool_decide (0 < active)))
      end
  end.

(** [AllHealth] over the maps in the orders [subs] and [pools] the runtime iterates
    their keys. *)
Fixpoint all_health (pm : PoolManager) (names : list (bytes * pool_ref))
    : outcome Empty_set (list PoolHealth) :=
  match names with
  | [] => Ret []
  | (name, r) :: names =>
      active ← ref_active pm r;
      rest ← all_health pm names;
      Ret (mkHealth name active (bool_decide (0 < active)) :: rest)
  end.
Definition pm_AllHealth (subs pools : list (bytes * pool_ref)) (pm : PoolManager)
    : outcome Empty_set (list PoolHealth) :=
  all_health pm (subs ++ filter (λ nr, nr.1 ∉ subs.*1) pools).

Definition pm_Names (subs pools : list bytes) : list bytes :=
  subs ++ filter (λ n, n ∉ subs) pools.

Definition pm_Close (oks : nat → bool) (pm : PoolManager) : outcome Empty_set PoolManager :=
  heap ← foldl (λ h r, h ← h; close_ref oks h r)
           (Ret (pm_heap pm))
           ((map_to_list (pm_submitters pm)).*2 ++
            (map_to_list (filter (λ nr, pm_submitters pm !! nr.1 = None) (pm_pools pm))).*2);
  Ret (mkPoolManager heap ∅ ∅ ∅).

(** ** What the route table sees of the manager *)

Class PoolView (PM : Type) := {
  pv_Healthy : PM → bytes → outcome Empty_set bool;
  pv_GetSubmitter : PM → bytes → option pool_ref
}.

(** Health never panics, and a healthy name has a submitter. *)
Class PoolViewLaws (PM : Type) `{PoolView PM} (ok : PM → Prop) := {
  pv_healthy_ret : ∀ pm name, ok pm → ∃ b, pv_Healthy pm name = Ret b;
  pv_healthy_some : ∀ pm name, ok pm → pv_Healthy pm name = Ret true →
    is_Some (pv_GetSubmitter pm name)
}.

#[export] Instance PoolManager_view : PoolView PoolManager := {|
  pv_Healthy pm name := h ← pm_Health pm name; Ret (ph_Healthy h);
  pv_GetSubmitter := pm_GetSubmitter
|}.

(** ** The manager's invariant *)

(** The three maps have the same names, references are valid, and every pool in
    the store is completely connected. *)
Record pm_ok (pm : PoolManager) : Prop := {
  pmo_pools : pm_pools pm = pm_submitters pm;
  pmo_configs : dom (pm_configs pm) = dom (pm_submitters pm);
  pmo_refs : ∀ name r, pm_submitters pm !! name = Some r → (r < length (pm_heap pm))%nat;
  pmo_members : Forall (λ p, Forall is_Some (p_conns p)) (pm_heap pm)
}.

Lemma count_bound_ret conns : ∀ count,
  Forall is_Some conns → ∃ n, count_bound conns count = Ret n.
Proof.
  induction conns as [|m conns IH]; intros count H; [by eexists|].
  apply Forall_cons in H as [[pc ->] H]. simpl. by apply IH.
Qed.

Lemma ref_active_ret pm r :
  pm_ok pm → (r < length (pm_heap pm))%nat → ∃ n, ref_active pm r = Ret n.
Proof.
  intros Hok Hr. unfold ref_active. destruct (lookup_lt_is_Some_2 _ _ Hr) as [p Hp]. rewrite Hp.
  apply count_bound_ret. exact (Forall_lookup_1 _ _ _ _ (pmo_members _ Hok) Hp).
Qed.

#[export] Instance PoolManager_laws : PoolViewLaws PoolManager pm_ok.
Proof.
  split.
  - intros pm name Hok. simpl. unfold pm_Health. rewrite (pmo_pools _ Hok).
    destruct (pm_submitters pm !! name) as [r|] eqn:E; [|by eexists].
    destruct (ref_active_ret pm r Hok (pmo_refs _ Hok _ _ E)) as [n ->]. by eexists.
  - intros pm name Hok. simpl. unfold pm_Health, pm_GetSubmitter. rewrite (pmo_pools _ Hok).
    by destruct (pm_submitters pm !! name).
Qed.

Lemma close_ref_ok oks heap r :
  Forall (λ p, Forall is_Some (p_conns p)) heap → (r < length heap)%nat →
  ∃ heap', close_ref oks heap r = Ret heap' ∧ length heap' = length heap ∧
    Forall (λ p, Forall is_Some (p_conns p)) heap'.
Proof.
  intros Hf Hr. unfold close_ref. destruct (lookup_lt_is_Some_2 _ _ Hr) as [p Hp]. rewrite Hp.
  pose proof (Forall_lookup_1 _ _ _ _ Hf Hp) as Hm. simpl in Hm.
  unfold Pool_Close. rewrite decide_False.
  - simpl. eexists. split; [done|]. split; [apply length_insert|]. apply Forall_insert; [done|].
    simpl. apply Forall_fmap. eapply Forall_impl; [exact Hm|]. intros m [pc ->]. by eexists.
  - intros Hex. apply Exists_exists in Hex as (m & Hin & ->). rewrite Forall_forall in Hm.
    by destruct (Hm _ Hin).
Qed.

Lemma pm_Add_ok connect cfg pm :
  pm_ok pm → (∀ p p', connect p = (p', None) → Forall is_Some (p_conns p')) →
  pm_ok (pm_Add connect cfg pm).1.
Proof.
  intros Hok Hc. unfold pm_Add. case_decide; [done|]. case_decide; [done|].
  unfold addSMPP. destruct (connect _) as [p' [e|]] eqn:E; [done|]. destruct Hok as [H1 H2 H3 H4].
  split; simpl.
  - by rewrite H1.
  - rewrite !dom_insert_L. by rewrite H2.
  - intros name r [[_ <-]|[_ Hr]]%lookup_insert_Some; rewrite length_app; simpl; [lia|].
    specialize (H3 _ _ Hr). lia.
  - apply Forall_app. split; [done|]. apply Forall_singleton. by eapply Hc.
Qed.

Lemma pm_Remove_ok oks name pm :
  pm_ok pm →
  match pm_Remove oks name pm with
  | Ret pm' => pm_ok pm' ∧ is_Some (pm_submitters pm !! name) ∧
      pm_submitters pm' = delete name (pm_submitters pm) ∧
      pm_configs pm' = delete name (pm_configs pm)
  | Fail e => e = PoolNotFound name ∧ pm_submitters pm !! name = None
  | Panic => False
  end.
Proof.
  intros Hok. pose proof Hok as [H1 H2 H3 H4]. unfold pm_Remove.
  destruct (pm_submitters pm !! name) as [r|] eqn:E.
  - destruct (close_ref_ok oks (pm_heap pm) r H4 (H3 _ _ E)) as (heap & -> & Hl & Hf).
    split; [|by split_and!; [eexists| |]]. split; simpl.
    + by rewrite H1.
    + rewrite !dom_delete_L. by rewrite H2.
    + intros n r' [_ Hr]%lookup_delete_Some. rewrite Hl. by eapply H3.
    + done.
  - rewrite H1, E. done.
Qed.

(** ** Properties *)

(** The manager.  Its invariant (the three maps name the same pools, all in the
    store and completely connected) holds initially and is kept by [Add] and
    [Remove], neither of which panics.  [Add] fails without changes for a taken
    name or a pool that does not connect, and otherwise makes the pool and its
    configuration visible under its name; [Remove] undoes that, reports an unknown
    name, and a removed pool is unhealthy; other names are untouched. *)
Theorem PoolManager_operations connect cfg oks name pm :
  pm_ok pm → (∀ p p', connect p = (p', None) → Forall is_Some (p_conns p')) →
  pm_ok NewPoolManager ∧
  (let '(pm', e) := pm_Add connect cfg pm in
   pm_ok pm' ∧
   (e = None ↔ pm_GetSubmitter pm (sb_Name cfg) = None ∧
      (connect (NewPool (southbound_client cfg) (southbound_pool cfg))).2 = None) ∧
   match e with
   | Some _ => pm' = pm
   | None => pm_GetSubmitter pm' (sb_Name cfg) = Some (length (pm_heap pm)) ∧
      pm_GetConfig pm' (sb_Name cfg) = Some cfg ∧
      pm_heap pm' =
        pm_heap pm ++ [(connect (NewPool (southbound_client cfg) (southbound_pool cfg))).1]
   end ∧
   ∀ n, n ≠ sb_Name cfg → pm_GetSubmitter pm' n = pm_GetSubmitter pm n) ∧
  match pm_Remove oks name pm with
  | Ret pm' => pm_ok pm' ∧ is_Some (pm_GetSubmitter pm name) ∧
      pm_Health pm' name = Ret (mkHealth name 0 false) ∧ pm_GetConfig pm' name = None ∧
      ∀ n, n ≠ name → pm_GetSubmitter pm' n = pm_GetSubmitter pm n
  | Fail e => e = PoolNotFound name ∧ pm_GetSubmitter pm name = None
  | Panic => False
  end.
Proof.
  intros Hok Hc. split; [|split].
  - split; simpl; [done|done| |done]. intros n r. by rewrite lookup_empty.
  - pose proof (pm_Add_ok connect cfg pm Hok Hc) as Hadd. revert Hadd.
    unfold pm_Add, pm_GetSubmitter, pm_GetConfig. rewrite (pmo_pools _ Hok).
    case_decide as Hex; cbn [fst].
    { intros _. destruct Hex as [r Hr]. rewrite Hr. split; [done|]. split; [naive_solver|done]. }
    apply eq_None_not_Some in Hex. unfold addSMPP.
    destruct (connect _) as [p' [e|]] eqn:E; cbn [fst snd]; intros Hadd.
    { split; [done|]. split; [naive_solver|]. done. }
    split; [done|]. split; [naive_solver|]. simpl. rewrite !lookup_insert_eq.
    split; [done|]. intros n Hn. by rewrite lookup_insert_ne.
  - pose proof (pm_Remove_ok oks name pm Hok) as H. unfold pm_GetSubmitter.
    destruct (pm_Remove oks name pm) as [pm'| |]; [|done..].
    destruct H as (Hok' & Hs & Hsub & Hcfg). split; [done|]. split; [done|]. split; [|split].
    + unfold pm_Health. rewrite (pmo_pools _ Hok'), Hsub, lookup_delete_eq. done.
    + unfold pm_GetConfig. by rewrite Hcfg, lookup_delete_eq.
    + intros n Hn. by rewrite Hsub, lookup_delete_ne.
Qed.

Definition pm_ex_cfg (name : bytes) : SouthboundPoolConfig :=
  mkSouthbound name (str "smsc1") 2775 (str "u") (str "p") (str "src") 2 0 false false [] [].
Definition pm_ex_connect (p : Pool) : Pool * option pool_err :=
  Pool_Connect (λ _, false) (λ _ c, (with_session c 0x34 true false [] true, true)) p.
Definition pm_example : PoolManager := (pm_Add pm_ex_connect (pm_ex_cfg (str "a")) NewPoolManager).1.

Lemma pm_example_ok : pm_ok pm_example.
Proof.
  split; try (vm_compute; reflexivity).
  - intros name r. revert name r. change (map_Forall (λ _ r, (r < length (pm_heap pm_example))%nat)
      (pm_submitters pm_example)). apply (bool_decide_unpack _). vm_compute. exact I.
  - apply (bool_decide_unpack _). vm_compute. exact I.
Qed.

Lemma pm_ex_connect_complete p p' : pm_ex_connect p = (p', None) → Forall is_Some (p_conns p').
Proof. intros E. by apply (Pool_Connect_complete _ _ _ _ _ (λ _, eq_refl) E). Qed.

Lemma PoolManager_operations_witness :
  pm_ok pm_example ∧
  (∃ r, pm_GetSubmitter (pm_Add pm_ex_connect (pm_ex_cfg (str "b")) pm_example).1 (str "b") = Some r) ∧
  match pm_Remove (λ _, true) (str "a") pm_example with
  | Ret pm' => pm_Health pm' (str "a") = Ret (mkHealth (str "a") 0 false)
  | _ => False
  end.
Proof.
  destruct (PoolManager_operations pm_ex_connect (pm_ex_cfg (str "b")) (λ _, true) (str "a")
    pm_example pm_example_ok pm_ex_connect_complete) as (_ & Ha & Hr).
  split; [exact pm_example_ok|]. split.
  - destruct (pm_Add pm_ex_connect (pm_ex_cfg (str "b")) pm_example) as [pm' [e|]] eqn:E.
    + vm_compute in E. discriminate E.
    + destruct Ha as (_ & _ & (Ha & _) & _). eexists. exact Ha.
  - destruct (pm_Remove (λ _, true) (str "a") pm_example) as [pm'|e|] eqn:E.
    + exact (proj1 (proj2 (proj2 Hr))).
    + vm_compute in E. discriminate E.
    + exact Hr.
Defined.
