(* ===== verification/RouteTable.v ===== *)
(** * Message routing (gateway/route_table.go)

    The table of MT routes (longest prefix first, then the route's strategy over
    the pools of the manager) and the table of MO routes (highest priority first).
    The tables see the pool manager only through [PoolView], and sort through
    [SliceSort], whose instances may order incomparable routes differently.

    A table is the list of its routes in evaluation order; a route's round-robin
    counter, which [Resolve] advances, is a field of the route, so [Resolve]
    returns the table it leaves.  Costs, finite floats in the code (they come from
    JSON), are rationals. *)

From Stdlib Require Import QArith.
From S2P Require Import Prelude PoolManager SliceSort.

Local Open Scope Z_scope.

(** ** Data *)

Record RoutePool := mkRoutePool { rp_Name : bytes; rp_Cost : Q }.

Record MTRoute := mkMTRoute {
  mt_Prefix : bytes; mt_Strategy : bytes; mt_Pools : list RoutePool; mt_rrIndex : Z
}.

(** The routes, in evaluation order. *)
Abbreviation MTRouteTable := (list MTRoute).
Definition NewMTRouteTable : MTRouteTable := [].

Inductive strategy_err :=
| UnknownStrategy (s : bytes)
| NoHealthyPool (strategy : bytes)
| NoPools.

Inductive route_err :=
| NoRoute (msisdn : bytes)
| RouteMatchedBut (prefix : bytes) (e : strategy_err).

Definition with_rrIndex (r : MTRoute) (z : Z) : MTRoute :=
  mkMTRoute (mt_Prefix r) (mt_Strategy r) (mt_Pools r) z.

Definition star : bytes := str "*".

(** ** Strategies *)

Section strategies.
Context {PM : Type} `{PoolView PM}.

(** The test of every strategy's loop body: a healthy pool that has a submitter. *)
Definition try_pool (pm : PM) (rp : RoutePool) : outcome strategy_err (option (pool_ref * bytes)) :=
  match pv_Healthy pm (rp_Name rp) with
  | Ret true =>
      match pv_GetSubmitter pm (rp_Name rp) with
      | Some sub => Ret (Some (sub, rp_Name rp))
      | None => Ret None
      end
  | Ret false => Ret None
  | Fail e => match e with end
  | Panic => Panic
  end.

Fixpoint first_healthy (pm : PM) (strategy : bytes) (pools : list RoutePool) :
    outcome strategy_err (pool_ref * bytes) :=
  match pools with
  | [] => Fail (NoHealthyPool strategy)
  | rp :: pools =>
      o ← try_pool pm rp;
      match o with Some res => Ret res | None => first_healthy pm strategy pools end
  end.

Definition resolveFailover (pm : PM) (route : MTRoute) : outcome strategy_err (pool_ref * bytes) :=
  first_healthy pm (str "failover") (mt_Pools route).

(** [route.Pools[(int(idx)+i)%n]]: a negative remainder is out of range. *)
Definition rr_candidate (pools : list RoutePool) (idx i : Z) : outcome strategy_err RoutePool :=
  let k := Z.rem (i64 (i64 idx + i)) (zlen pools) in
  if decide (k < 0) then Panic else index (pools !! Z.to_nat k).

(** The loop, [fuel] iterations before its end. *)
Fixpoint rr_loop (pm : PM) (pools : list RoutePool) (idx i : Z) (fuel : nat) :
    outcome strategy_err (pool_ref * bytes) :=
  match fuel with
  | O => Fail (NoHealthyPool (str "round_robin"))
  | S fuel =>
      candidate ← rr_candidate pools idx i;
      o ← try_pool pm candidate;
      match o with Some res => Ret res | None => rr_loop pm pools idx (i + 1) fuel end
  end.

Definition resolveRoundRobin (pm : PM) (route : MTRoute) :
    MTRoute * outcome strategy_err (pool_ref * bytes) :=
  let n := length (mt_Pools route) in
  if decide (n = O) then (route, Fail NoPools)
  else
    let rr := u64 (mt_rrIndex route + 1) in
    let idx := u64 (rr - 1) in
    (with_rrIndex route rr, rr_loop pm (mt_Pools route) idx 0 n).

Definition cost_less (a b : RoutePool) : bool := negb (Qle_bool (rp_Cost b) (rp_Cost a)).

Definition resolveLeastCost `{SliceSort} (pm : PM) (route : MTRoute) :
    outcome strategy_err (pool_ref * bytes) :=
  first_healthy pm (str "least_cost") (sort_slice cost_less (mt_Pools route)).

Definition applyStrategy `{SliceSort} (pm : PM) (route : MTRoute) :
    MTRoute * outcome strategy_err (pool_ref * bytes) :=
  if decide (mt_Strategy route = str "failover") then (route, resolveFailover pm route)
  else if decide (mt_Strategy route = str "round_robin") then resolveRoundRobin pm route
  else if decide (mt_Strategy route = str "least_cost") then (route, resolveLeastCost pm route)
  else (route, Fail (UnknownStrategy (mt_Strategy route))).

(** ** The MT table *)

Definition mt_matches (msisdn : bytes) (route : MTRoute) : bool :=
  negb (bool_decide (mt_Prefix route ≠ star) && negb (HasPrefix msisdn (mt_Prefix route))).

Definition wrap_err (prefix : bytes) (o : outcome strategy_err (pool_ref * bytes)) :
    outcome route_err (pool_ref * bytes) :=
  match o with
  | Ret res => Ret res
  | Fail e => Fail (RouteMatchedBut prefix e)
  | Panic => Panic
  end.

Fixpoint MT_Resolve `{SliceSort} (pm : PM) (msisdn : bytes) (t : MTRouteTable) :
    MTRouteTable * outcome route_err (pool_ref * bytes) :=
  match t with
  | [] => ([], Fail (NoRoute msisdn))
  | route :: t =>
      if mt_matches msisdn route then
        let '(route', o) := applyStrategy pm route in
        (route' :: t, wrap_err (mt_Prefix route) o)
      else
        let '(t', o) := MT_Resolve pm msisdn t in (route :: t', o)
  end.
End strategies.

Fixpoint removeByPrefixLocked (prefix : bytes) (t : MTRouteTable) : MTRouteTable * bool :=
  match t with
  | [] => ([], false)
  | r :: t =>
      if decide (mt_Prefix r = prefix) then (t, true)
      else let '(t', found) := removeByPrefixLocked prefix t in (r :: t', found)
  end.

Definition mt_less (a b : MTRoute) : bool :=
  if decide (mt_Prefix a = star) then false
  else if decide (mt_Prefix b = star) then true
  else bool_decide (zlen (mt_Prefix b) < zlen (mt_Prefix a)).

Definition MT_AddRoute `{SliceSort} (route : MTRoute) (t : MTRouteTable) : MTRouteTable :=
  sort_slice mt_less ((removeByPrefixLocked (mt_Prefix route) t).1 ++ [route]).

Definition MT_RemoveRoute (prefix : bytes) (t : MTRouteTable) : MTRouteTable * bool :=
  removeByPrefixLocked prefix t.

Definition MT_ListRoutes (t : MTRouteTable) : list MTRoute := t.

(** ** The MO table *)

Record MOTarget := mkMOTarget { mot_Type : bytes; mot_ConnID : bytes; mot_CallbackURL : bytes }.

Record MORoute := mkMORoute {
  mo_DestPattern : bytes; mo_SourcePrefix : bytes; mo_Target : MOTarget; mo_Priority : Z
}.

Abbreviation MORouteTable := (list MORoute).
Definition NewMORouteTable : MORouteTable := [].

Definition mo_matches (sourceAddr destAddr : bytes) (route : MORoute) : bool :=
  (if HasSuffix (mo_DestPattern route) star
   then HasPrefix destAddr (TrimSuffix (mo_DestPattern route) star)
   else bool_decide (destAddr = mo_DestPattern route)) &&
  negb (bool_decide (mo_SourcePrefix route ≠ []) && negb (HasPrefix sourceAddr (mo_SourcePrefix route))).

Fixpoint MO_Resolve (sourceAddr destAddr : bytes) (t : MORouteTable) : option MOTarget :=
  match t with
  | [] => None
  | route :: t =>
      if mo_matches sourceAddr destAddr route then Some (mo_Target route)
      else MO_Resolve sourceAddr destAddr t
  end.

Definition mo_less (a b : MORoute) : bool := bool_decide (mo_Priority b < mo_Priority a).

Definition MO_AddRoute `{SliceSort} (route : MORoute) (t : MORouteTable) : MORouteTable :=
  sort_slice mo_less (t ++ [route]).

Fixpoint MO_RemoveRoute (destPattern sourcePrefix : bytes) (t : MORouteTable) :
    MORouteTable * bool :=
  match t with
  | [] => ([], false)
  | r :: t =>
      if decide (mo_DestPattern r = destPattern ∧ mo_SourcePrefix r = sourcePrefix) then (t, true)
      else let '(t', found) := MO_RemoveRoute destPattern sourcePrefix t in (r :: t', found)
  end.

Definition MO_ListRoutes (t : MORouteTable) : list MORoute := t.

(** ** Orders *)

(** How specific a prefix is: the default route matches least. *)
Definition specificity (p : bytes) : Z := if decide (p = star) then 0 else zlen p + 1.

Lemma mt_less_spec a b :
  mt_less a b = bool_decide (specificity (mt_Prefix b) < specificity (mt_Prefix a)).
Proof.
  unfold mt_less, specificity, zlen.
  destruct (decide (mt_Prefix a = star)), (decide (mt_Prefix b = star)); symmetry;
    first [apply bool_decide_eq_false; lia | apply bool_decide_eq_true; lia | idtac].
  apply bool_decide_ext. lia.
Qed.

(** An order by a measure, greatest first, is a strict weak order. *)
Lemma strict_weak_measure {A} (less : A → A → bool) (f : A → Z) :
  (∀ a b, less a b = bool_decide (f b < f a)) → strict_weak less.
Proof.
  intros H. split; intros *; rewrite ?H, ?bool_decide_eq_false, ?bool_decide_eq_true; lia.
Qed.

Lemma mt_less_weak : strict_weak mt_less.
Proof. exact (strict_weak_measure _ (λ r, specificity (mt_Prefix r)) mt_less_spec). Qed.

Lemma mo_less_weak : strict_weak mo_less.
Proof. by apply (strict_weak_measure _ mo_Priority). Qed.

Lemma cost_less_weak : strict_weak cost_less.
Proof.
  unfold cost_less. split; intros *; rewrite ?negb_true_iff, ?negb_false_iff, ?Qle_bool_iff,
    <-?not_true_iff_false, ?Qle_bool_iff.
  - apply Qle_refl.
  - intros H1 H2 H3. apply H1. apply Qnot_le_lt, Qlt_le_weak in H2.
    by apply (Qle_trans _ (rp_Cost c)).
  - intros H1 H2. by apply (Qle_trans _ (rp_Cost b)).
Qed.

(** ** The MT table's invariant: one route per prefix, in evaluation order *)

Record mt_ok (t : MTRouteTable) : Prop := {
  mt_unique : NoDup (mt_Prefix <$> t);
  mt_sorted : no_inversion mt_less t
}.

Lemma removeByPrefix_elem prefix t r :
  NoDup (mt_Prefix <$> t) →
  r ∈ (removeByPrefixLocked prefix t).1 ↔ r ∈ t ∧ mt_Prefix r ≠ prefix.
Proof.
  induction t as [|r' t IH]; intros Hnd; simpl.
  - rewrite elem_of_nil. tauto.
  - rewrite fmap_cons, NoDup_cons in Hnd. destruct Hnd as [Hr' Hnd]. rewrite elem_of_cons.
    case_decide as Hp; simpl.
    + split; [|naive_solver]. intros Hr. split; [by right|].
      rewrite <-Hp. intros E. apply Hr'. rewrite <-E. by apply list_elem_of_fmap_2.
    + specialize (IH Hnd). destruct (removeByPrefixLocked prefix t). simpl in *.
      rewrite elem_of_cons, IH. naive_solver.
Qed.

Lemma removeByPrefix_sublist prefix t : (removeByPrefixLocked prefix t).1 `sublist_of` t.
Proof.
  induction t as [|r t IH]; simpl; [done|]. case_decide; simpl.
  - by apply sublist_cons.
  - destruct (removeByPrefixLocked prefix t). by apply sublist_skip.
Qed.

Lemma removeByPrefix_found prefix t :
  (removeByPrefixLocked prefix t).2 = true ↔ prefix ∈ mt_Prefix <$> t.
Proof.
  induction t as [|r t IH]; simpl; [by rewrite elem_of_nil|].
  rewrite elem_of_cons. case_decide as Hp; simpl; [naive_solver|].
  destruct (removeByPrefixLocked prefix t). simpl in *. rewrite IH. naive_solver.
Qed.

Lemma removeByPrefix_not_found prefix t :
  (removeByPrefixLocked prefix t).2 = false → (removeByPrefixLocked prefix t).1 = t.
Proof.
  induction t as [|r t IH]; simpl; [done|]. case_decide; [done|].
  destruct (removeByPrefixLocked prefix t). simpl in *. intros Hf. by rewrite IH.
Qed.

Lemma mt_ok_remove prefix t : mt_ok t → mt_ok (removeByPrefixLocked prefix t).1.
Proof.
  intros [Hu Hs]. pose proof (removeByPrefix_sublist prefix t) as Hsub. split.
  - apply (sublist_NoDup _ _ Hu). by apply sublist_fmap.
  - by eapply no_inversion_sublist.
Qed.

Lemma mt_ok_add `{SliceSort} route t : mt_ok t → mt_ok (MT_AddRoute route t).
Proof.
  intros Hok. pose proof (mt_ok_remove (mt_Prefix route) t Hok) as [Hu _].
  unfold MT_AddRoute. split.
  - rewrite sort_slice_perm, fmap_app. apply NoDup_app. split; [done|]. split.
    + intros p Hp ->%list_elem_of_singleton. apply list_elem_of_fmap in Hp as (r & Hr & Hp).
      apply removeByPrefix_elem in Hp as [_ Hp]; [by apply Hp|apply Hok].
    + apply NoDup_singleton.
  - apply sort_slice_sorted, mt_less_weak.
Qed.

(** Editing the MT table.  Adding and removing routes keep one route per prefix
    in an order with longer prefixes first and the default ["*"] last.  [AddRoute]
    replaces the route of its prefix and keeps the others; [RemoveRoute] removes
    exactly the route of the prefix, reports whether there was one, and leaves the
    table alone when there was none. *)
Theorem MTRouteTable_edits `{SliceSort} route prefix t :
  mt_ok t →
  mt_ok NewMTRouteTable ∧ mt_ok (MT_AddRoute route t) ∧ mt_ok (MT_RemoveRoute prefix t).1 ∧
  (∀ r, r ∈ MT_AddRoute route t ↔ r = route ∨ (r ∈ t ∧ mt_Prefix r ≠ mt_Prefix route)) ∧
  (∀ r, r ∈ (MT_RemoveRoute prefix t).1 ↔ r ∈ t ∧ mt_Prefix r ≠ prefix) ∧
  ((MT_RemoveRoute prefix t).2 = true ↔ prefix ∈ mt_Prefix <$> t) ∧
  ((MT_RemoveRoute prefix t).2 = false → (MT_RemoveRoute prefix t).1 = t) ∧
  (∀ i j a b, (i < j)%nat → MT_AddRoute route t !! i = Some a → MT_AddRoute route t !! j = Some b →
     specificity (mt_Prefix b) <= specificity (mt_Prefix a)).
Proof.
  intros Hok. unfold MT_RemoveRoute.
  split; [split; [apply NoDup_nil_2|apply SSorted_nil]|]. split; [by apply mt_ok_add|].
  split; [by apply mt_ok_remove|]. split; [|split; [|split; [|split]]].
  - intros r. unfold MT_AddRoute.
    rewrite sort_slice_elem, elem_of_app, list_elem_of_singleton, removeByPrefix_elem; [tauto|apply Hok].
  - intros r. apply removeByPrefix_elem, Hok.
  - apply removeByPrefix_found.
  - apply removeByPrefix_not_found.
  - intros i j a b Hij Ha Hb.
    pose proof (no_inversion_lookup _ _ i j a b (mt_sorted _ (mt_ok_add route t Hok)) Hij Ha Hb) as Hl.
    rewrite mt_less_spec, bool_decide_eq_false in Hl. lia.
Qed.

(** ** Resolution *)

Lemma mt_matches_spec msisdn r :
  mt_matches msisdn r = true ↔ mt_Prefix r = star ∨ mt_Prefix r `prefix_of` msisdn.
Proof.
  unfold mt_matches, HasPrefix. rewrite negb_true_iff, andb_false_iff, negb_false_iff.
  rewrite bool_decide_eq_false, bool_decide_eq_true.
  destruct (decide (mt_Prefix r = star)); naive_solver.
Qed.

(** [r] is the route of the table with the most specific matching prefix. *)
Definition longest_match (t : MTRouteTable) (msisdn : bytes) (r : MTRoute) : Prop :=
  r ∈ t ∧ mt_matches msisdn r = true ∧
  ∀ r', r' ∈ t → mt_matches msisdn r' = true → r' = r ∨
    specificity (mt_Prefix r') < specificity (mt_Prefix r).

(** Two matching prefixes of the same specificity are the same prefix. *)
Lemma specificity_inj msisdn r r' :
  mt_matches msisdn r = true → mt_matches msisdn r' = true →
  specificity (mt_Prefix r) = specificity (mt_Prefix r') → mt_Prefix r = mt_Prefix r'.
Proof.
  rewrite !mt_matches_spec. unfold specificity, zlen. intros Hr Hr' E.
  do 2 case_decide; [congruence|lia..|].
  destruct Hr as [?|[s1 H1]]; [done|]. destruct Hr' as [?|[s2 H2]]; [done|].
  rewrite H1 in H2. apply app_inj_1 in H2; [tauto|lia].
Qed.

Lemma unique_prefix t (r r' : MTRoute) :
  NoDup (mt_Prefix <$> t) → r ∈ t → r' ∈ t → mt_Prefix r = mt_Prefix r' → r = r'.
Proof.
  intros Hnd [i Hi]%list_elem_of_lookup [j Hj]%list_elem_of_lookup E.
  assert (i = j) as ->.
  { apply (NoDup_lookup _ i j (mt_Prefix r) Hnd); rewrite list_lookup_fmap.
    - by rewrite Hi.
    - by rewrite Hj, E. }
  by simplify_eq.
Qed.

Section resolution.
Context {PM : Type} `{PoolView PM} `{SliceSort}.
Implicit Types (pm : PM) (t : MTRouteTable).

(** [Resolve] is the strategy of the first matching route. *)
Lemma MT_Resolve_find pm msisdn t :
  MT_Resolve pm msisdn t =
  match list_find (λ r, mt_matches msisdn r = true) t with
  | None => (t, Fail (NoRoute msisdn))
  | Some (i, r) => (<[i := (applyStrategy pm r).1]> t, wrap_err (mt_Prefix r) (applyStrategy pm r).2)
  end.
Proof.
  induction t as [|r t IH]; [done|]. cbn [MT_Resolve list_find]. case_decide as Hm.
  - rewrite Hm. by destruct (applyStrategy pm r).
  - apply not_true_is_false in Hm. rewrite Hm, IH.
    by destruct (list_find _ t) as [[i r']|].
Qed.

Lemma find_longest t msisdn i r :
  mt_ok t → list_find (λ r, mt_matches msisdn r = true) t = Some (i, r) → longest_match t msisdn r.
Proof.
  intros [Hu Hs] Hf. destruct (first_match_least _ _ _ _ _ Hs Hf) as (Hin & Hm & Hmin).
  split; [done|]. split; [done|]. intros r' Hin' Hm'. destruct (Hmin r' Hin' Hm') as [Hl|?]; [|by left].
  rewrite mt_less_spec, bool_decide_eq_false in Hl.
  destruct (decide (specificity (mt_Prefix r') = specificity (mt_Prefix r))) as [E|]; [|right; lia].
  left. apply (unique_prefix t); [done..|]. by apply (specificity_inj msisdn).
Qed.

Lemma longest_unique t msisdn r r' :
  longest_match t msisdn r → longest_match t msisdn r' → r = r'.
Proof.
  intros (H1 & H2 & H3) (H1' & H2' & H3').
  destruct (H3 r' H1' H2') as [|L1]; [done|]. destruct (H3' r H1 H2) as [|L2]; [done|]. lia.
Qed.

(** C28: resolution is longest-prefix match.  In a well-formed table either no route
    matches and [Resolve] reports that without changing anything, or there is
    exactly one most specific matching route, at some position of the table;
    [Resolve] answers with the result of that route's strategy, its errors naming
    the route, and changes at most the round-robin counter of that route. *)
Theorem MT_Resolve_longest_prefix pm msisdn t :
  mt_ok t →
  ((∀ r, r ∈ t → mt_matches msisdn r = false) ∧
     MT_Resolve pm msisdn t = (t, Fail (NoRoute msisdn))) ∨
  ∃ i r, t !! i = Some r ∧ longest_match t msisdn r ∧
    (∀ r', longest_match t msisdn r' → r' = r) ∧
    MT_Resolve pm msisdn t =
      (<[i := (applyStrategy pm r).1]> t, wrap_err (mt_Prefix r) (applyStrategy pm r).2) ∧
    ∃ z, (applyStrategy pm r).1 = with_rrIndex r z.
Proof.
  intros Hok. rewrite MT_Resolve_find.
  destruct (list_find _ t) as [[i r]|] eqn:Hf.
  - right. exists i, r. apply (find_longest t msisdn) in Hf as Hl; [|done].
    apply list_find_Some in Hf as (Hi & _ & _). split; [done|]. split; [done|].
    split; [intros r' Hr'; by apply (longest_unique t msisdn)|]. split; [done|].
    assert (∃ z, r = with_rrIndex r z) as Hself by (exists (mt_rrIndex r); by destruct r).
    unfold applyStrategy, resolveRoundRobin. repeat case_decide; simpl; eauto.
  - left. split; [|done]. apply list_find_None in Hf. rewrite Forall_forall in Hf.
    intros r Hr. by apply not_true_is_false, Hf.
Qed.

(** [sort.Slice] is not stable, but resolution does not depend on the order it
    leaves equally long prefixes in: two well-formed tables with the same routes
    resolve every number to the same answer and end with the same routes. *)
Theorem MT_Resolve_order_independent pm msisdn t t' :
  mt_ok t → mt_ok t' → t ≡ₚ t' →
  (MT_Resolve pm msisdn t).2 = (MT_Resolve pm msisdn t').2 ∧
  (MT_Resolve pm msisdn t).1 ≡ₚ (MT_Resolve pm msisdn t').1.
Proof.
  intros Hok Hok' Hp. rewrite !MT_Resolve_find.
  destruct (list_find _ t) as [[i r]|] eqn:Hf, (list_find _ t') as [[i' r']|] eqn:Hf'.
  - assert (r = r') as <-.
    { apply (longest_unique t msisdn); [by eapply find_longest|].
      apply (find_longest _ _ _ _ Hok') in Hf' as (H1 & H2 & H3).
      split; [by rewrite Hp|]. split; [done|]. intros x. rewrite Hp. apply H3. }
    simpl. split; [done|].
    apply list_find_Some in Hf as (Hi & _). apply list_find_Some in Hf' as (Hi' & _).
    rewrite (insert_take_drop t), (insert_take_drop t') by (by eapply lookup_lt_Some).
    rewrite <-!Permutation_middle. constructor.
    rewrite <-(take_drop_middle t i r), <-(take_drop_middle t' i' r) in Hp by done.
    by rewrite <-!Permutation_middle, (inj_iff (r ::.)) in Hp.
  - exfalso. apply list_find_None in Hf'. apply list_find_Some in Hf as (Hi & Hm & _).
    rewrite Forall_forall in Hf'. apply (Hf' r); [|done]. rewrite <-Hp. by eapply list_elem_of_lookup_2.
  - exfalso. apply list_find_None in Hf. apply list_find_Some in Hf' as (Hi & Hm & _).
    rewrite Forall_forall in Hf. apply (Hf r'); [|done]. rewrite Hp. by eapply list_elem_of_lookup_2.
  - done.
Qed.
End resolution.

(** ** Strategies *)

Section strategy_laws.
Context {PM : Type} `{PoolViewLaws PM ok} `{SliceSort}.
Implicit Types (pm : PM) (pools : list RoutePool).

Definition healthy pm (rp : RoutePool) : Prop := pv_Healthy pm (rp_Name rp) = Ret true.

(** The answer that names [rp]: the submitter the manager has for it. *)
Definition answers_with pm (rp : RoutePool) (o : outcome strategy_err (pool_ref * bytes)) : Prop :=
  ∃ sub, pv_GetSubmitter pm (rp_Name rp) = Some sub ∧ o = Ret (sub, rp_Name rp).

Lemma try_pool_spec pm rp :
  ok pm →
  (healthy pm rp ∧ ∃ sub, pv_GetSubmitter pm (rp_Name rp) = Some sub ∧
     try_pool pm rp = Ret (Some (sub, rp_Name rp))) ∨
  (¬ healthy pm rp ∧ try_pool pm rp = Ret None).
Proof.
  intros Hok. unfold healthy, try_pool.
  destruct (pv_healthy_ret pm (rp_Name rp) Hok) as [[|] Hb].
  - left. destruct (pv_healthy_some pm (rp_Name rp) Hok Hb) as [sub Hs]. rewrite Hb, Hs. eauto.
  - right. by rewrite Hb.
Qed.

Lemma first_healthy_spec pm strategy pools :
  ok pm →
  (∃ pre rp post, pools = pre ++ rp :: post ∧ Forall (λ rp, ¬ healthy pm rp) pre ∧
     healthy pm rp ∧ answers_with pm rp (first_healthy pm strategy pools)) ∨
  (Forall (λ rp, ¬ healthy pm rp) pools ∧
     first_healthy pm strategy pools = Fail (NoHealthyPool strategy)).
Proof.
  intros Hok. induction pools as [|rp pools IH]; [by right|]. cbn [first_healthy].
  destruct (try_pool_spec pm rp Hok) as [(Hh & sub & Hs & ->)|[Hh ->]]; simpl.
  - left. exists [], rp, pools. repeat split; [constructor|done|]. by exists sub.
  - destruct IH as [(pre & rp' & post & -> & Hpre & Hh' & Ha)|[Hall ->]].
    + left. exists (rp :: pre), rp', post. repeat split; [by constructor|done..].
    + right. split; [by constructor|done].
Qed.

Lemma first_healthy_not_panic pm strategy pools :
  ok pm → first_healthy pm strategy pools ≠ Panic.
Proof.
  intros Hok. destruct (first_healthy_spec pm strategy pools Hok)
    as [(?&?&?&_&_&_&?&_&->)|[_ ->]]; done.
Qed.

(** Failover and least cost.  Failover answers with the first healthy pool of
    the route; least cost with a healthy pool that no healthy pool undercuts,
    whichever way the sort orders equal costs.  Both fail only when no pool of the
    route is healthy, neither panics, and neither touches the route. *)
Theorem failover_and_least_cost pm route :
  ok pm →
  (mt_Strategy route = str "failover" →
    (applyStrategy pm route).1 = route ∧
    ((∃ pre rp post, mt_Pools route = pre ++ rp :: post ∧ Forall (λ rp, ¬ healthy pm rp) pre ∧
        healthy pm rp ∧ answers_with pm rp (applyStrategy pm route).2) ∨
     (Forall (λ rp, ¬ healthy pm rp) (mt_Pools route) ∧
        (applyStrategy pm route).2 = Fail (NoHealthyPool (str "failover"))))) ∧
  (mt_Strategy route = str "least_cost" →
    (applyStrategy pm route).1 = route ∧
    ((∃ rp, rp ∈ mt_Pools route ∧ healthy pm rp ∧
        (∀ rp', rp' ∈ mt_Pools route → healthy pm rp' → (rp_Cost rp <= rp_Cost rp')%Q) ∧
        answers_with pm rp (applyStrategy pm route).2) ∨
     (Forall (λ rp, ¬ healthy pm rp) (mt_Pools route) ∧
        (applyStrategy pm route).2 = Fail (NoHealthyPool (str "least_cost"))))).
Proof.
  intros Hok. unfold applyStrategy. split; intros ->.
  - rewrite decide_True by done. split; [done|]. by apply first_healthy_spec.
  - rewrite decide_False, decide_False, decide_True by done. split; [done|].
    pose proof (sort_slice_sorted _ cost_less (mt_Pools route) cost_less_weak) as Hs.
    destruct (first_healthy_spec pm (str "least_cost") (sort_slice cost_less (mt_Pools route)) Hok)
      as [(pre & rp & post & Hpp & Hpre & Hh & Ha)|[Hall Hf]].
    + left. exists rp. rewrite Hpp in Hs.
      assert (∀ x, x ∈ mt_Pools route ↔ x ∈ pre ++ rp :: post) as Hel.
      { intros x. by rewrite <-Hpp, sort_slice_elem. }
      split; [apply Hel; set_solver|]. split; [done|]. split; [|done].
      intros rp' [Hin|[->|Hin]%elem_of_cons]%Hel%elem_of_app Hh'.
      * rewrite Forall_forall in Hpre. by destruct (Hpre rp').
      * apply Qle_refl.
      * apply StronglySorted_app in Hs as (_ & _ & Hs). apply StronglySorted_cons in Hs as [Hs _].
        rewrite Forall_forall in Hs. specialize (Hs _ Hin). unfold cost_less in Hs.
        by apply negb_false_iff, Qle_bool_iff in Hs.
    + right. rewrite sort_slice_perm in Hall. done.
Qed.

(** The pool at position [k] of the rotation. *)
Definition rotation pools (k : Z) : option RoutePool := pools !! Z.to_nat (k mod zlen pools).

Lemma rotation_Some pools k : pools ≠ [] → is_Some (rotation pools k).
Proof.
  intros Hn. apply lookup_lt_is_Some. destruct pools as [|p pools]; [done|].
  pose proof (Z.mod_pos_bound k (zlen (p :: pools))). unfold zlen in *. simpl in *. lia.
Qed.

Lemma rr_candidate_ret pools idx i rp :
  0 <= idx → 0 <= i → idx + i < 2 ^ 63 → rotation pools (idx + i) = Some rp →
  rr_candidate pools idx i = Ret rp.
Proof.
  intros Hidx Hi Hb Hr. unfold rr_candidate, rotation in *.
  assert (0 < zlen pools) as Hn.
  { apply lookup_lt_Some in Hr. unfold zlen. lia. }
  rewrite (i64_id idx), (i64_id (idx + i)), Z.rem_mod_nonneg by lia.
  rewrite decide_False by (pose proof (Z.mod_pos_bound (idx + i) (zlen pools)); lia).
  by rewrite Hr.
Qed.

Lemma rr_loop_spec pm pools idx fuel : ∀ i,
  ok pm → pools ≠ [] → 0 <= idx → 0 <= i → idx + i + Z.of_nat fuel <= 2 ^ 63 →
  (∃ j rp, i <= j < i + Z.of_nat fuel ∧ rotation pools (idx + j) = Some rp ∧ healthy pm rp ∧
     (∀ k rp', i <= k < j → rotation pools (idx + k) = Some rp' → ¬ healthy pm rp') ∧
     answers_with pm rp (rr_loop pm pools idx i fuel)) ∨
  ((∀ k rp', i <= k < i + Z.of_nat fuel → rotation pools (idx + k) = Some rp' → ¬ healthy pm rp') ∧
     rr_loop pm pools idx i fuel = Fail (NoHealthyPool (str "round_robin"))).
Proof.
  induction fuel as [|fuel IH]; intros i Hok Hn Hidx Hi Hb.
  { right. split; [intros; lia|done]. }
  destruct (rotation_Some pools (idx + i) Hn) as [rp Hrp]. cbn [rr_loop].
  rewrite (rr_candidate_ret _ _ _ rp) by (done || lia). simpl.
  destruct (try_pool_spec pm rp Hok) as [(Hh & sub & Hs & ->)|[Hh ->]]; simpl.
  - left. exists i, rp. split; [lia|]. split; [done|]. split; [done|]. split; [intros; lia|]. by exists sub.
  - assert (∀ k rp', k = i → rotation pools (idx + k) = Some rp' → ¬ healthy pm rp') as Hfirst.
    { intros k rp' -> Hr. by simplify_eq. }
    destruct (IH (i + 1)) as [(j & rp' & Hj & Hr' & Hh' & Hk & Ha)|[Hk Ha]]; [done..|lia|lia| |].
    + left. exists j, rp'. split; [lia|]. split; [done|]. split; [done|]. split; [|done].
      intros k x Hkj. destruct (decide (k = i)); [by apply Hfirst|apply Hk; lia].
    + right. split; [|done].
      intros k x Hkj. destruct (decide (k = i)); [by apply Hfirst|apply Hk; lia].
Qed.

(** Every pool is at some position of a full turn. *)
Lemma rotation_covers pools idx rp :
  rp ∈ pools → ∃ k, 0 <= k < zlen pools ∧ rotation pools (idx + k) = Some rp.
Proof.
  intros [i Hi]%list_elem_of_lookup. apply lookup_lt_Some in Hi as Hlt.
  exists ((Z.of_nat i - idx) mod zlen pools). unfold rotation.
  assert (0 < zlen pools) by (unfold zlen; lia).
  split; [by apply Z.mod_pos_bound|].
  rewrite Z.add_mod_idemp_r by lia. replace (idx + (Z.of_nat i - idx)) with (Z.of_nat i) by lia.
  rewrite Z.mod_small by (unfold zlen; lia). by rewrite Nat2Z.id.
Qed.

(** The names that [k] consecutive resolutions of a round-robin route answer with. *)
Fixpoint rr_names pm (route : MTRoute) (k : nat) : list (option bytes) :=
  match k with
  | O => []
  | S k =>
      let '(route', o) := resolveRoundRobin pm route in
      match o with Ret (_, name) => Some name | _ => None end :: rr_names pm route' k
  end.

Lemma resolveRoundRobin_counter pm route :
  mt_Pools route ≠ [] → 0 <= mt_rrIndex route < 2 ^ 64 - 1 →
  resolveRoundRobin pm route =
    (with_rrIndex route (mt_rrIndex route + 1),
     rr_loop pm (mt_Pools route) (mt_rrIndex route) 0 (length (mt_Pools route))).
Proof.
  intros Hn Hi. unfold resolveRoundRobin.
  rewrite decide_False by (by rewrite length_zero_iff_nil).
  assert (u64 (mt_rrIndex route + 1) = mt_rrIndex route + 1) as -> by (unfold u64; apply Z.mod_small; lia).
  assert (u64 (mt_rrIndex route + 1 - 1) = mt_rrIndex route) as ->; [|done].
  unfold u64. rewrite Z.mod_small; lia.
Qed.

Lemma rr_names_healthy pm route k :
  ok pm → mt_Pools route ≠ [] → Forall (healthy pm) (mt_Pools route) →
  0 <= mt_rrIndex route → mt_rrIndex route + Z.of_nat k + zlen (mt_Pools route) <= 2 ^ 63 →
  rr_names pm route k =
    (λ j, rp_Name <$> rotation (mt_Pools route) (mt_rrIndex route + Z.of_nat j)) <$> seq 0 k.
Proof.
  intros Hok Hn Hh. revert route Hn Hh. induction k as [|k IH]; intros route Hn Hh Hrr Hb; [done|].
  cbn [rr_names]. rewrite resolveRoundRobin_counter by (done || unfold zlen in Hb; lia).
  cbn [seq]. rewrite fmap_cons, <-fmap_S_seq, <-list_fmap_compose. f_equal.
  - rewrite Z.add_0_r. rewrite Forall_forall in Hh.
    destruct (rr_loop_spec pm (mt_Pools route) (mt_rrIndex route) (length (mt_Pools route)) 0)
      as [(j & rp & Hj & Hr & _ & Hk & sub & _ & ->)|[Hk _]]; [done..| | |].
    + unfold zlen in Hb. lia.
    + destruct (decide (j = 0)) as [->|]; [by rewrite Z.add_0_r in Hr; rewrite Hr|].
      destruct (rotation_Some (mt_Pools route) (mt_rrIndex route + 0) Hn) as [x Hx].
      exfalso. apply (Hk 0 x); [lia|done|]. apply Hh. by eapply list_elem_of_lookup_2.
    + destruct (rotation_Some (mt_Pools route) (mt_rrIndex route + 0) Hn) as [x Hx].
      exfalso. apply (Hk 0 x); [|done|].
      * destruct (mt_Pools route); [done|simpl; lia].
      * apply Hh. by eapply list_elem_of_lookup_2.
  - rewrite IH by (done || simpl; unfold zlen in *; lia). apply list_fmap_ext. intros j x _. simpl.
    do 2 f_equal. lia.
Qed.

(** Round robin.  While the counter is below [2^63] a resolution advances it by
    one and answers with the first healthy pool found going round from the counter's
    position, failing only when every pool of the route is unhealthy.  When all
    pools are healthy, [k] consecutive resolutions take the pools in rotation. *)
Theorem round_robin_rotates pm route k :
  ok pm → mt_Strategy route = str "round_robin" → mt_Pools route ≠ [] →
  0 <= mt_rrIndex route → mt_rrIndex route + Z.of_nat k + zlen (mt_Pools route) <= 2 ^ 63 →
  let '(route', o) := applyStrategy pm route in
  route' = with_rrIndex route (mt_rrIndex route + 1) ∧
  ((∃ j rp, 0 <= j < zlen (mt_Pools route) ∧
      rotation (mt_Pools route) (mt_rrIndex route + j) = Some rp ∧ healthy pm rp ∧
      (∀ j' rp', 0 <= j' < j →
         rotation (mt_Pools route) (mt_rrIndex route + j') = Some rp' → ¬ healthy pm rp') ∧
      answers_with pm rp o) ∨
   (Forall (λ rp, ¬ healthy pm rp) (mt_Pools route) ∧ o = Fail (NoHealthyPool (str "round_robin")))) ∧
  (Forall (healthy pm) (mt_Pools route) →
   rr_names pm route k =
     (λ j, rp_Name <$> rotation (mt_Pools route) (mt_rrIndex route + Z.of_nat j)) <$> seq 0 k).
Proof.
  intros Hok Hs Hn Hrr Hb. unfold applyStrategy. rewrite Hs, decide_False, decide_True by done.
  rewrite resolveRoundRobin_counter by (done || unfold zlen in Hb; lia).
  split; [done|]. split; [|intros Hh; by apply rr_names_healthy].
  destruct (rr_loop_spec pm (mt_Pools route) (mt_rrIndex route) (length (mt_Pools route)) 0)
    as [(j & rp & Hj & Hr & Hh & Hk & Ha)|[Hk Hf]]; [done..| | |].
  - unfold zlen in Hb. lia.
  - left. exists j, rp. unfold zlen. eauto 10.
  - right. split; [|done]. apply Forall_forall. intros rp Hin.
    destruct (rotation_covers (mt_Pools route) (mt_rrIndex route) rp Hin) as (i & Hi & Hr).
    by apply (Hk i).
Qed.
End strategy_laws.

(** ** The MO table's properties *)

(** What a route asks of a message: the destination equals the pattern, or starts
    with what precedes the pattern's final ["*"]; and the source starts with the
    source prefix. *)
Definition mo_wants (r : MORoute) (sourceAddr destAddr : bytes) : Prop :=
  ((∃ p, mo_DestPattern r = p ++ star ∧ p `prefix_of` destAddr) ∨
   (¬ star `suffix_of` mo_DestPattern r ∧ destAddr = mo_DestPattern r)) ∧
  mo_SourcePrefix r `prefix_of` sourceAddr.

Lemma mo_matches_spec sourceAddr destAddr r :
  mo_matches sourceAddr destAddr r = true ↔ mo_wants r sourceAddr destAddr.
Proof.
  unfold mo_matches, mo_wants, HasSuffix, HasPrefix, TrimSuffix. rewrite andb_true_iff. f_equiv.
  - unfold HasSuffix. case_bool_decide as Hs.
    + destruct Hs as [p Hp]. rewrite bool_decide_eq_true. rewrite Hp, length_app.
      replace (length p + length star - length star)%nat with (length p) by lia.
      rewrite take_app_length. split; [intros Hd; left; by exists p|].
      intros [(q & Hq & Hd)|[Hn _]].
      * by apply (inj (.++ star)) in Hq as ->.
      * exfalso. apply Hn. by exists p.
    + rewrite bool_decide_eq_true. split; [naive_solver|].
      intros [(q & Hq & Hd)|[_ ?]]; [|done]. exfalso. apply Hs. by exists q.
  - rewrite negb_true_iff, andb_false_iff, negb_false_iff, bool_decide_eq_false, bool_decide_eq_true.
    split; [|by right]. intros [Hn|]; [|done]. destruct (mo_SourcePrefix r); [apply prefix_nil|].
    exfalso. by apply Hn.
Qed.

Lemma MO_Resolve_find src dst t :
  MO_Resolve src dst t = (λ ir, mo_Target ir.2) <$> list_find (λ r, mo_matches src dst r = true) t.
Proof.
  induction t as [|r t IH]; [done|]. cbn [MO_Resolve list_find]. case_decide as Hm.
  - by rewrite Hm.
  - apply not_true_is_false in Hm. rewrite Hm, IH. by destruct (list_find _ t) as [[]|].
Qed.

Lemma MO_RemoveRoute_spec dst src t :
  match MO_RemoveRoute dst src t with
  | (t', true) => ∃ pre r post, t = pre ++ r :: post ∧ t' = pre ++ post ∧
      mo_DestPattern r = dst ∧ mo_SourcePrefix r = src ∧
      Forall (λ r, ¬ (mo_DestPattern r = dst ∧ mo_SourcePrefix r = src)) pre
  | (t', false) => t' = t ∧ Forall (λ r, ¬ (mo_DestPattern r = dst ∧ mo_SourcePrefix r = src)) t
  end.
Proof.
  induction t as [|r t IH]; simpl; [by split|]. case_decide as Hr.
  - exists [], r, t. destruct Hr. by split_and!.
  - destruct (MO_RemoveRoute dst src t) as [t' [|]].
    + destruct IH as (pre & r' & post & -> & -> & H1 & H2 & H3).
      exists (r :: pre), r', post. split_and!; try done; by constructor.
    + destruct IH as [-> H3]. split; [done|by constructor].
Qed.

(** The MO table.  Adding and removing keep the routes in descending priority;
    adding keeps every route, and removing takes out the first route with the given
    pattern and source prefix, or reports that there is none.  [Resolve] returns the
    target of a route that wants the message and that no wanting route exceeds in
    priority, and nothing exactly when no route wants the message. *)
Theorem MORouteTable_routes `{SliceSort} route dst src t :
  no_inversion mo_less t →
  (no_inversion mo_less (MO_AddRoute route t) ∧ MO_AddRoute route t ≡ₚ route :: t) ∧
  (no_inversion mo_less (MO_RemoveRoute dst src t).1 ∧
   match MO_RemoveRoute dst src t with
   | (t', true) => ∃ pre r post, t = pre ++ r :: post ∧ t' = pre ++ post ∧
       mo_DestPattern r = dst ∧ mo_SourcePrefix r = src ∧
       Forall (λ r, ¬ (mo_DestPattern r = dst ∧ mo_SourcePrefix r = src)) pre
   | (t', false) => t' = t ∧ Forall (λ r, ¬ (mo_DestPattern r = dst ∧ mo_SourcePrefix r = src)) t
   end) ∧
  ∀ sourceAddr destAddr,
    match MO_Resolve sourceAddr destAddr t with
    | Some target => ∃ r, r ∈ t ∧ mo_wants r sourceAddr destAddr ∧ target = mo_Target r ∧
        ∀ r', r' ∈ t → mo_wants r' sourceAddr destAddr → mo_Priority r' <= mo_Priority r
    | None => ∀ r, r ∈ t → ¬ mo_wants r sourceAddr destAddr
    end.
Proof.
  intros Hs. split; [split|split; [split|]].
  - apply sort_slice_sorted, mo_less_weak.
  - unfold MO_AddRoute. by rewrite sort_slice_perm, Permutation_app_comm.
  - pose proof (MO_RemoveRoute_spec dst src t) as Hr.
    destruct (MO_RemoveRoute dst src t) as [t' [|]]; simpl; [|by destruct Hr as [-> _]].
    destruct Hr as (pre & r & post & -> & -> & _). eapply no_inversion_sublist; [|exact Hs].
    apply sublist_app; [done|]. by apply sublist_cons.
  - apply MO_RemoveRoute_spec.
  - intros sa da. rewrite MO_Resolve_find. destruct (list_find _ t) as [[i r]|] eqn:Hf; simpl.
    + destruct (first_match_least _ _ _ _ _ Hs Hf) as (Hin & Hm & Hmin).
      exists r. rewrite <-mo_matches_spec. split_and!; [done..|]. intros r' Hin' Hw.
      apply mo_matches_spec in Hw. destruct (Hmin r' Hin' Hw) as [Hl| ->]; [|lia].
      unfold mo_less in Hl. rewrite bool_decide_eq_false in Hl. lia.
    + apply list_find_None in Hf. rewrite Forall_forall in Hf.
      intros r Hr. rewrite <-mo_matches_spec. by apply Hf.
Qed.

(** ** Witnesses: routes over the pool [a] of the manager and an unknown one *)

Definition rt_route (prefix strategy : bytes) (rr : Z) : MTRoute :=
  mkMTRoute prefix strategy [mkRoutePool (str "zz") (1#2); mkRoutePool (str "a") (3#2)] rr.
Definition rt_table : MTRouteTable :=
  [rt_route (str "4479") (str "failover") 0; rt_route (str "44") (str "round_robin") 3;
   rt_route star (str "least_cost") 0].

Lemma rt_table_ok : mt_ok rt_table.
Proof.
  split.
  - apply (bool_decide_unpack _). vm_compute. exact I.
  - unfold no_inversion. repeat constructor.
Qed.

Lemma MTRouteTable_edits_witness :
  mt_ok rt_table ∧
  ∃ r, r ∈ @MT_AddRoute insertion_SliceSort (rt_route (str "447") (str "failover") 0) rt_table ∧
    mt_Prefix r = str "447".
Proof.
  split; [exact rt_table_ok|].
  exists (rt_route (str "447") (str "failover") 0). split; [|reflexivity].
  apply (proj1 (proj2 (proj2 (proj2 (@MTRouteTable_edits insertion_SliceSort
    (rt_route (str "447") (str "failover") 0) star rt_table rt_table_ok))))).
  by left.
Defined.

Lemma MT_Resolve_longest_prefix_witness :
  mt_ok rt_table ∧
  ∃ r, longest_match rt_table (str "447911") r ∧
    (@MT_Resolve _ _ insertion_SliceSort pm_example (str "447911") rt_table).2 = Ret (0%nat, str "a").
Proof.
  split; [exact rt_table_ok|].
  destruct (@MT_Resolve_longest_prefix PoolManager _ insertion_SliceSort pm_example (str "447911")
    rt_table rt_table_ok) as [[_ Hf]|(i & r & _ & Hl & _)].
  - exfalso. vm_compute in Hf. discriminate Hf.
  - exists r. split; [exact Hl|]. vm_compute. reflexivity.
Defined.

Definition rt_tie (a b : bytes) : MTRouteTable :=
  [rt_route a (str "failover") 0; rt_route b (str "least_cost") 0].

Lemma rt_tie_ok :
  mt_ok (rt_tie (str "44") (str "49")) ∧
  mt_ok [rt_route (str "49") (str "least_cost") 0; rt_route (str "44") (str "failover") 0].
Proof.
  split; (split; [apply (bool_decide_unpack _); vm_compute; exact I|]);
    unfold no_inversion; repeat constructor.
Qed.

Lemma MT_Resolve_order_independent_witness :
  mt_ok (rt_tie (str "44") (str "49")) ∧
  (@MT_Resolve _ _ insertion_SliceSort pm_example (str "4912") (rt_tie (str "44") (str "49"))).2 =
  (@MT_Resolve _ _ insertion_SliceSort pm_example (str "4912")
     [rt_route (str "49") (str "least_cost") 0; rt_route (str "44") (str "failover") 0]).2.
Proof.
  split; [exact (proj1 rt_tie_ok)|].
  exact (proj1 (@MT_Resolve_order_independent PoolManager _ insertion_SliceSort pm_example (str "4912")
    (rt_tie (str "44") (str "49"))
    [rt_route (str "49") (str "least_cost") 0; rt_route (str "44") (str "failover") 0]
    (proj1 rt_tie_ok) (proj2 rt_tie_ok) (perm_swap _ _ []))).
Defined.

Lemma failover_and_least_cost_witness :
  pm_ok pm_example ∧
  (@applyStrategy _ _ insertion_SliceSort pm_example (rt_route star (str "least_cost") 0)).1 =
    rt_route star (str "least_cost") 0 ∧
  (@applyStrategy _ _ insertion_SliceSort pm_example (rt_route star (str "least_cost") 0)).2 =
    Ret (0%nat, str "a").
Proof.
  split; [exact pm_example_ok|]. split; [|vm_compute; reflexivity].
  exact (proj1 (proj2 (@failover_and_least_cost PoolManager _ pm_ok _ insertion_SliceSort pm_example
    (rt_route star (str "least_cost") 0) pm_example_ok) eq_refl)).
Defined.

Lemma round_robin_rotates_witness :
  pm_ok pm_example ∧
  rr_names pm_example (mkMTRoute star (str "round_robin")
     [mkRoutePool (str "a") 1; mkRoutePool (str "a") 2] 5) 2 = [Some (str "a"); Some (str "a")].
Proof.
  split; [exact pm_example_ok|].
  etransitivity.
  - apply (@round_robin_rotates PoolManager _ pm_ok _ insertion_SliceSort pm_example
      (mkMTRoute star (str "round_robin") [mkRoutePool (str "a") 1; mkRoutePool (str "a") 2] 5) 2
      pm_example_ok eq_refl).
    + discriminate.
    + simpl. lia.
    + vm_compute. discriminate.
    + repeat constructor; vm_compute; reflexivity.
  - vm_compute. reflexivity.
Defined.

Definition mo_ex (dst src conn : bytes) (prio : Z) : MORoute :=
  mkMORoute dst src (mkMOTarget (str "smpp") conn []) prio.

Lemma MORouteTable_routes_witness :
  no_inversion mo_less [mo_ex (str "88*") (str "44") (str "c1") 5; mo_ex (str "8800") [] (str "c2") 1] ∧
  @MO_AddRoute insertion_SliceSort (mo_ex star [] (str "c3") 3)
    [mo_ex (str "88*") (str "44") (str "c1") 5; mo_ex (str "8800") [] (str "c2") 1] ≡ₚ
    [mo_ex star [] (str "c3") 3; mo_ex (str "88*") (str "44") (str "c1") 5; mo_ex (str "8800") [] (str "c2") 1] ∧
  mot_ConnID <$> MO_Resolve (str "4912") (str "8800")
    [mo_ex (str "88*") (str "44") (str "c1") 5; mo_ex (str "8800") [] (str "c2") 1] = Some (str "c2").
Proof.
  assert (no_inversion mo_less
    [mo_ex (str "88*") (str "44") (str "c1") 5; mo_ex (str "8800") [] (str "c2") 1]) as Hs.
  { unfold no_inversion. repeat constructor. }
  split; [exact Hs|]. split; [|vm_compute; reflexivity].
  exact (proj2 (proj1 (@MORouteTable_routes insertion_SliceSort (mo_ex star [] (str "c3") 3) [] [] _ Hs))).
Defined.

(** Once the counter has reached [2^63], [int(idx)] is negative and so is the
    remainder: the index expression panics (after [2^63] resolutions of one route). *)
Lemma round_robin_overflow pm :
  (@resolveRoundRobin PoolManager _ pm (mkMTRoute star (str "round_robin")
     [mkRoutePool (str "a") 1; mkRoutePool (str "b") 1; mkRoutePool (str "c") 1] (2 ^ 63))).2 = Panic.
Proof. vm_compute. reflexivity. Qed.
