(* ===== verification/Dlr.v ===== *)
(** * Delivery receipts (smpp/handler.go, and the receipt texts of gateway/router.go)

    Parsing a receipt text, the translation of the message ID in it, and the text of
    the synthetic failure receipt.  The three regular expressions of the code are
    written as matchers: the literal at the earliest position at which the group
    that follows it matches, and then the group as long as it can be. *)

From S2P Require Import Prelude Utf8.

Local Open Scope Z_scope.

(** ** Packages regexp and strings *)

(** The leftmost match: [m] is the attempt at one position. *)
Fixpoint find_first (m : list Z → option (list Z)) (s : list Z) : option (list Z) :=
  match m s with
  | Some g => Some g
  | None => match s with [] => None | _ :: s => find_first m s end
  end.

(** The class [\s]. *)
Definition re_space (b : Z) : Prop := b = 9 ∨ b = 10 ∨ b = 12 ∨ b = 13 ∨ b = 32.
#[export] Instance re_space_dec b : Decision (re_space b).
Proof. unfold re_space. apply _. Defined.

Fixpoint take_while (P : Z → Prop) `{∀ x, Decision (P x)} (s : list Z) : list Z :=
  match s with
  | [] => []
  | b :: s => if decide (P b) then b :: take_while P s else []
  end.

(** [lit([^\s]+)] at the start of [s]; [[^\s]] stands for a rune, so a run of it is
    a run of bytes none of which is an (ASCII) space. *)
Definition field_at (lit : bytes) (s : bytes) : option bytes :=
  if HasPrefix s lit then
    match take_while (λ b, ¬ re_space b) (drop (length lit) s) with
    | [] => None
    | g => Some g
    end
  else None.

Definition dlrIDRegex : bytes → option bytes := find_first (field_at (str "id:")).
Definition dlrErrRegex : bytes → option bytes := find_first (field_at (str "err:")).

(** Under [(?i)] a letter stands for its simple case foldings: the long s for [s] and
    the Kelvin sign for [k], besides upper and lower case. *)
Definition fold_eq (c r : rune) : Prop :=
  r = c ∨ (97 <= c <= 122 ∧ r = c - 32) ∨ (c = 115 ∧ r = 0x17F) ∨ (c = 107 ∧ r = 0x212A).
#[export] Instance fold_eq_dec c r : Decision (fold_eq c r).
Proof. unfold fold_eq. apply _. Defined.

Definition letter_i (r : rune) : Prop :=
  65 <= r <= 90 ∨ 97 <= r <= 122 ∨ r = 0x17F ∨ r = 0x212A.
#[export] Instance letter_i_dec r : Decision (letter_i r).
Proof. unfold letter_i. apply _. Defined.

Fixpoint fold_prefix (lit : bytes) (s : list rune) : option (list rune) :=
  match lit, s with
  | [], _ => Some s
  | c :: lit, r :: s => if decide (fold_eq c r) then fold_prefix lit s else None
  | _ :: _, [] => None
  end.

Definition stat_at (s : list rune) : option (list rune) :=
  rest ← fold_prefix (str "stat:") s;
  let g := take 7 (take_while letter_i rest) in
  if decide (5 <= length g)%nat then Some g else None.

Definition dlrStatRegex : list rune → option (list rune) := find_first stat_at.

(** [unicode.ToUpper] on what [stat_at] can match. *)
Definition upper (r : rune) : rune :=
  if decide (97 <= r <= 122) then r - 32 else if decide (r = 0x17F) then 83 else r.

(** [unicode.IsSpace]. *)
Definition IsSpace (r : rune) : Prop :=
  9 <= r <= 13 ∨ r = 32 ∨ r = 0x85 ∨ r = 0xA0 ∨ r = 0x1680 ∨ 0x2000 <= r <= 0x200A ∨
  r = 0x2028 ∨ r = 0x2029 ∨ r = 0x202F ∨ r = 0x205F ∨ r = 0x3000.
#[export] Instance IsSpace_dec r : Decision (IsSpace r).
Proof. unfold IsSpace. apply _. Defined.

(** A string cut into runes, each with its bytes. *)
Fixpoint chunks_loop (fuel : nat) (s : bytes) : list (rune * bytes) :=
  match fuel, s with
  | S fuel, _ :: _ =>
      let '(r, sz) := DecodeRune s in (r, take sz s) :: chunks_loop fuel (drop sz s)
  | _, _ => []
  end.

Fixpoint drop_spaces (cs : list (rune * bytes)) : list (rune * bytes) :=
  match cs with
  | [] => []
  | c :: cs' => if decide (IsSpace c.1) then drop_spaces cs' else cs
  end.

Definition TrimSpace (s : bytes) : bytes :=
  concat (reverse (drop_spaces (reverse (drop_spaces (chunks_loop (length s) s))))).*2.

(** ** Receipts *)

Record DLRReceipt := mkReceipt { dlr_MessageID : bytes; dlr_Status : bytes; dlr_ErrorCode : bytes }.

Definition ParseDLRReceipt (text : bytes) : option DLRReceipt :=
  let text := TrimSpace text in
  if decide (text = []) then None
  else
    match dlrIDRegex text with
    | None => None
    | Some id =>
        Some (mkReceipt id
          match dlrStatRegex (runes text) with
          | Some g => string_of_runes (upper <$> g)
          | None => []
          end
          match dlrErrRegex text with Some g => g | None => [] end)
    end.

Definition IsDLR (esmClass : Z) : bool := bool_decide (Z.land esmClass 0x04 ≠ 0).

(** gateway/router.go *)
Definition translateDLRMessageID (receiptText smscMsgID gwMsgID : bytes) : bytes :=
  Replace1 receiptText (str "id:" ++ smscMsgID) (str "id:" ++ gwMsgID).

(** The receipt text [sendSyntheticDLR] formats. *)
Definition synthetic_receipt (gwMsgID : bytes) : bytes :=
  str "id:" ++ gwMsgID ++
  str " sub:001 dlvrd:000 submit date:0000000000 done date:0000000000 stat:UNDELIV err:001 text:".

Example parse_ex : ParseDLRReceipt (str " id:GW-7 sub:001 stat:Delivrd err:0a0 text:x ")
  = Some (mkReceipt (str "GW-7") (str "DELIVRD") (str "0a0")).
Proof. vm_compute. reflexivity. Qed.

(** ** ASCII texts *)

Definition ascii (b : Z) : Prop := 0 <= b < 128.
Definition ascii_text (s : bytes) : Prop := Forall ascii s.

Lemma ascii_decode b s : ascii b → DecodeRune (b :: s) = (b, 1%nat).
Proof. intros [? ?]. simpl. by rewrite decide_True by lia. Qed.

Lemma ascii_runes s : ascii_text s → runes s = s.
Proof.
  unfold runes, ascii_text. induction s as [|b s IH]; intros Ha; [done|].
  apply Forall_cons in Ha as [Hb Ha]. cbn [length runes_loop]. rewrite ascii_decode by done.
  f_equal. by apply IH.
Qed.

Lemma string_of_runes_ascii s : ascii_text s → string_of_runes s = s.
Proof.
  induction 1 as [|b s Hb Hs IH]; [done|]. unfold string_of_runes in *. rewrite fmap_cons. cbn [concat].
  rewrite IH. unfold EncodeRune. unfold ascii in Hb. rewrite decide_True by lia. done.
Qed.

Lemma ascii_chunks s : ascii_text s → chunks_loop (length s) s = (λ b, (b, [b])) <$> s.
Proof.
  unfold ascii_text. induction s as [|b s IH]; intros Ha; [done|].
  apply Forall_cons in Ha as [Hb Ha]. cbn [length chunks_loop]. rewrite ascii_decode by done.
  cbn [fmap list_fmap take drop]. f_equal. by apply IH.
Qed.

Lemma drop_spaces_app l s :
  Forall (λ c, IsSpace c.1) l → drop_spaces (l ++ s) = drop_spaces s.
Proof. induction 1; simpl; [done|]. by rewrite decide_True. Qed.

Lemma drop_spaces_id c cs : ¬ IsSpace c.1 → drop_spaces (c :: cs) = c :: cs.
Proof. intros. simpl. by rewrite decide_False. Qed.

(** A text that neither begins nor ends with a space. *)
Definition trimmed (t : bytes) : Prop :=
  (∃ b t', t = b :: t' ∧ ¬ IsSpace b) ∧ (∃ t' b, t = t' ++ [b] ∧ ¬ IsSpace b).

Lemma TrimSpace_trims l t r :
  ascii_text (l ++ t ++ r) → Forall IsSpace l → Forall IsSpace r → trimmed t →
  TrimSpace (l ++ t ++ r) = t.
Proof.
  intros Ha Hl Hr [(b & t1 & Ht & Hb) (t2 & c & Ht' & Hc)]. unfold TrimSpace.
  rewrite ascii_chunks by done. rewrite !fmap_app.
  rewrite drop_spaces_app by (apply Forall_fmap; eapply Forall_impl; [exact Hl|done]).
  assert (drop_spaces (((λ b, (b, [b])) <$> t) ++ ((λ b, (b, [b])) <$> r)) =
          ((λ b, (b, [b])) <$> t) ++ ((λ b, (b, [b])) <$> r)) as ->.
  { rewrite Ht. simpl. by rewrite decide_False. }
  rewrite reverse_app.
  rewrite drop_spaces_app
    by (apply Forall_reverse, Forall_fmap; eapply Forall_impl; [exact Hr|done]).
  assert (drop_spaces (reverse ((λ b, (b, [b])) <$> t)) = reverse ((λ b : Z, (b, [b])) <$> t)) as ->.
  { rewrite Ht', fmap_app, reverse_app. simpl. by rewrite decide_False. }
  rewrite reverse_involutive, <-list_fmap_compose. simpl.
  clear. induction t as [|b t IH]; [done|]. simpl. by f_equal.
Qed.

Lemma split_first (P : Z → Prop) `{∀ x, Decision (P x)} s :
  ¬ Forall P s → ∃ l c r, s = l ++ c :: r ∧ Forall P l ∧ ¬ P c.
Proof.
  induction s as [|b s IH]; intros Hs; [by destruct Hs|].
  destruct (decide (P b)) as [Hb|Hb]; [|by exists [], b, s].
  destruct IH as (l & c & r & -> & Hl & Hc).
  - intros Hf. apply Hs. by constructor.
  - exists (b :: l), c, r. split; [done|]. split; [by constructor|done].
Qed.

Lemma split_last (P : Z → Prop) `{∀ x, Decision (P x)} s :
  ¬ Forall P s → ∃ l c r, s = l ++ c :: r ∧ Forall P r ∧ ¬ P c.
Proof.
  intros Hs. destruct (split_first P (reverse s)) as (l & c & r & E & Hl & Hc).
  - by rewrite Forall_reverse.
  - exists (reverse r), c, (reverse l). rewrite Forall_reverse. split; [|done].
    rewrite <-(reverse_involutive s), E, reverse_app, reverse_cons, <-app_assoc. done.
Qed.

(** Every ASCII text is spaces, a trimmed text and spaces, or only spaces. *)
Lemma TrimSpace_cases s :
  ascii_text s →
  (Forall IsSpace s ∧ TrimSpace s = []) ∨
  ∃ l t r, s = l ++ t ++ r ∧ Forall IsSpace l ∧ Forall IsSpace r ∧ trimmed t ∧ TrimSpace s = t.
Proof.
  intros Ha. destruct (decide (Forall IsSpace s)) as [Hs|Hs].
  - left. split; [done|]. unfold TrimSpace. rewrite ascii_chunks by done.
    rewrite <-(app_nil_r (_ <$> s)), drop_spaces_app; [done|].
    apply Forall_fmap. eapply Forall_impl; [exact Hs|done].
  - right. destruct (split_first IsSpace s Hs) as (l & b & s1 & Es & Hl & Hb).
    destruct (split_last IsSpace (b :: s1)) as (t' & c & r & Er & Hr & Hc).
    { by intros [? _]%Forall_cons. }
    exists l, (t' ++ [c]), r.
    assert (s = l ++ (t' ++ [c]) ++ r) as E by (rewrite Es, Er, <-app_assoc; done).
    assert (trimmed (t' ++ [c])) as Ht.
    { split; [|by eexists _, _]. destruct t' as [|x t']; simpl in *; simplify_eq; eauto. }
    split; [done|]. split; [done|]. split; [done|]. split; [done|].
    rewrite E. apply TrimSpace_trims; [by rewrite <-E|done..].
Qed.

(** ** Leftmost matches *)

Lemma find_first_skip (m : list Z → option (list Z)) p q :
  (∀ p1 p2, p = p1 ++ p2 → p2 ≠ [] → m (p2 ++ q) = None) →
  find_first m (p ++ q) = find_first m q.
Proof.
  induction p as [|b p IH]; intros Hm; [done|].
  change ((b :: p) ++ q) with (b :: p ++ q). cbn [find_first].
  rewrite (Hm [] (b :: p) eq_refl ltac:(done) : m (b :: p ++ q) = None). apply IH.
  intros p1 p2 ->. by apply (Hm (b :: p1)).
Qed.

Lemma find_first_Some (m : list Z → option (list Z)) s g :
  find_first m s = Some g →
  ∃ p q, s = p ++ q ∧ m q = Some g ∧ ∀ p1 p2, p = p1 ++ p2 → p2 ≠ [] → m (p2 ++ q) = None.
Proof.
  induction s as [|b s IH]; cbn [find_first]; intros Hf.
  - destruct (m []) as [g'|] eqn:E; [|done]. injection Hf as <-. exists [], [].
    split; [done|]. split; [done|]. intros [|] [|]; done.
  - destruct (m (b :: s)) as [g'|] eqn:E.
    + injection Hf as <-. exists [], (b :: s). split; [done|]. split; [done|]. intros [|] [|]; done.
    + destruct (IH Hf) as (p & q & -> & Hq & Hm). exists (b :: p), q. split; [done|]. split; [done|].
      intros [|c p1] p2 Hp Hn; simpl in Hp; simplify_eq; [done|]. by apply (Hm p1).
Qed.

Lemma find_first_at (m : list Z → option (list Z)) p q g :
  (∀ p1 p2, p = p1 ++ p2 → p2 ≠ [] → m (p2 ++ q) = None) → m q = Some g →
  find_first m (p ++ q) = Some g.
Proof. intros Hp Hq. rewrite find_first_skip by done. destruct q; cbn [find_first]; by rewrite Hq. Qed.

(** What ends a run of non-spaces. *)
Definition word_end (q : bytes) : Prop := q = [] ∨ ∃ b q', q = b :: q' ∧ re_space b.
Definition word (w : bytes) : Prop := Forall (λ b, ¬ re_space b) w.

Lemma take_while_word w q : word w → word_end q → take_while (λ b, ¬ re_space b) (w ++ q) = w.
Proof.
  intros Hw Hq. induction Hw as [|b w Hb Hw IH]; simpl.
  - destruct Hq as [->|(b & q' & -> & Hb)]; [done|]. simpl. rewrite decide_False by tauto. done.
  - rewrite decide_True by done. by f_equal.
Qed.

Lemma take_while_split s : ∃ q, s = take_while (λ b, ¬ re_space b) s ++ q ∧
  word (take_while (λ b, ¬ re_space b) s) ∧ word_end q.
Proof.
  induction s as [|b s (q & E & Hw & Hq)]; simpl.
  - exists []. split; [done|]. split; [constructor|by left].
  - case_decide as Hb.
    + exists q. simpl. rewrite <-E. split; [done|]. split; [by constructor|done].
    + exists (b :: s). split; [done|]. split; [constructor|].
      right. exists b, s. split; [done|]. by destruct (decide (re_space b)).
Qed.

Lemma field_at_Some lit s g :
  field_at lit s = Some g ↔ ∃ q, s = lit ++ g ++ q ∧ g ≠ [] ∧ word g ∧ word_end q.
Proof.
  unfold field_at, HasPrefix. split.
  - case_bool_decide as Hp; [|done]. destruct Hp as [s' ->]. rewrite drop_app_length.
    destruct (take_while_split s') as (q & E & Hw & Hq).
    destruct (take_while _ s') as [|b w] eqn:Et; [done|]. intros [= <-].
    exists q. by rewrite <-E.
  - intros (q & -> & Hg & Hw & Hq). rewrite bool_decide_eq_true_2 by (by eexists).
    rewrite drop_app_length, take_while_word by done. by destruct g.
Qed.

Lemma field_at_None lit b s' : ¬ re_space b → field_at lit (lit ++ b :: s') ≠ None.
Proof.
  intros Hb. unfold field_at, HasPrefix. rewrite bool_decide_eq_true_2 by (by eexists).
  rewrite drop_app_length. simpl. by rewrite decide_True.
Qed.

Lemma Replace1_first p old q new :
  old ≠ [] → (∀ p1 p2, p = p1 ++ p2 → p2 ≠ [] → HasPrefix (p2 ++ old ++ q) old = false) →
  Replace1 (p ++ old ++ q) old new = p ++ new ++ q.
Proof.
  intros Ho. induction p as [|b p IH]; intros Hp.
  - change ([] ++ old ++ q) with (old ++ q). destruct old as [|c old]; [done|].
    change ((c :: old) ++ q) with (c :: old ++ q). cbn [Replace1].
    assert (HasPrefix (c :: old ++ q) (c :: old) = true) as -> by (apply bool_decide_eq_true_2; by exists q).
    cbv iota. exact (f_equal (app new) (drop_app_length (c :: old) q)).
  - pose proof (Hp [] (b :: p) eq_refl ltac:(done)) as H0.
    change ((b :: p) ++ old ++ q) with (b :: p ++ old ++ q) in *. cbn [Replace1]. rewrite H0.
    simpl. f_equal. apply IH. intros p1 p2 ->. by apply (Hp (b :: p1)).
Qed.

(** ** Matchers that look at one word *)

(** The match depends on nothing beyond the first space, its literal is neither
    within [id:] nor within a word without a colon. *)
Record word_local (m : list Z → option (list Z)) : Prop := {
  wl_nil : m [] = None;
  wl_space : ∀ p b q q', re_space b → m (p ++ b :: q) = m (p ++ b :: q');
  wl_word : ∀ w q, w ≠ [] → 58 ∉ w → word w → word_end q → m (w ++ q) = None;
  wl_id : ∀ b q, b = 105 ∨ b = 100 ∨ b = 58 → m (b :: q) = None
}.

Lemma find_first_after_space m p b q :
  word_local m → re_space b →
  find_first m (p ++ b :: q) =
  match find_first m (p ++ [b]) with Some g => Some g | None => find_first m q end.
Proof.
  intros Hm Hb. induction p as [|c p IH].
  - pose proof (wl_space _ Hm [] b q [] Hb) as E. simpl in *. rewrite E, (wl_nil _ Hm).
    by destruct (m [b]).
  - pose proof (wl_space _ Hm (c :: p) b q [] Hb) as E. simpl in *. rewrite E, IH.
    by destruct (m (c :: p ++ [b])).
Qed.

Lemma find_first_skip_id m w q :
  word_local m → 58 ∉ w → word w → word_end q →
  find_first m (str "id:" ++ w ++ q) = find_first m q.
Proof.
  intros Hm Hc Hw Hq. change (str "id:") with [105; 100; 58]. simpl.
  rewrite !(wl_id _ Hm) by tauto. apply find_first_skip.
  intros p1 p2 -> Hp. apply (wl_word _ Hm); [done|set_solver| |done].
  by apply Forall_app in Hw as [_ ?].
Qed.

(** Replacing the ID's word does not change what a word-local matcher finds. *)
Lemma find_first_replace_id m pre id gw q :
  word_local m → pre = [] ∨ (∃ p b, pre = p ++ [b] ∧ re_space b) →
  58 ∉ id → 58 ∉ gw → word id → word gw → word_end q →
  find_first m (pre ++ str "id:" ++ id ++ q) = find_first m (pre ++ str "id:" ++ gw ++ q).
Proof.
  intros Hm [->|(p & b & -> & Hb)] H1 H2 Hw1 Hw2 Hq.
  - rewrite !app_nil_l. by rewrite !find_first_skip_id.
  - rewrite <-!app_assoc.
    change ([b] ++ str "id:" ++ id ++ q) with (b :: str "id:" ++ id ++ q).
    change ([b] ++ str "id:" ++ gw ++ q) with (b :: str "id:" ++ gw ++ q).
    rewrite (find_first_after_space m p b (str "id:" ++ id ++ q)) by done.
    rewrite (find_first_after_space m p b (str "id:" ++ gw ++ q)) by done.
    by rewrite !find_first_skip_id.
Qed.

(** A word at the start of [p ++ q] lies within [p], when [q] begins with a space. *)
Lemma word_prefix l : ∀ p q z, word l → word_end q → p ++ q = l ++ z → ∃ p', p = l ++ p'.
Proof.
  induction l as [|c l IH]; intros p q z Hl Hq E; [by exists p|].
  apply Forall_cons in Hl as [Hc Hl]. destruct p as [|b p]; simpl in E.
  - destruct Hq as [->|(b & q' & -> & Hb)]; [done|]. by injection E as -> _.
  - injection E as -> E. destruct (IH p q z Hl Hq E) as [p' ->]. by exists p'.
Qed.

Lemma word_end_space p b q : re_space b → word_end (p ++ b :: q) → ∀ q', word_end (p ++ b :: q').
Proof.
  intros Hb [E|(c & z & E & Hc)] q'; [by destruct p|]. right.
  destruct p as [|d p]; simpl in *; injection E as -> _; eauto.
Qed.

Lemma option_ext_Some (o1 o2 : option (list Z)) :
  (∀ g, o1 = Some g → o2 = Some g) → (∀ g, o2 = Some g → o1 = Some g) → o1 = o2.
Proof. intros H1 H2. destruct o1 as [g|]; [by symmetry; apply H1|]. destruct o2; [by apply H2|done]. Qed.

Lemma field_at_local lit :
  word lit → 58 ∈ lit → head lit ≠ Some 105 → head lit ≠ Some 100 → head lit ≠ Some 58 →
  word_local (field_at lit).
Proof.
  intros Hw Hcol H1 H2 H3. split.
  - destruct (field_at lit []) eqn:E; [|done].
    apply field_at_Some in E as (q & E & Hg & _). symmetry in E.
    apply app_nil in E as [_ E]. by apply app_nil in E as [-> _].
  - assert (∀ p b q q' g, re_space b → field_at lit (p ++ b :: q) = Some g →
      field_at lit (p ++ b :: q') = Some g) as Hs.
    { intros p b q q' g Hb. rewrite !field_at_Some. intros (z & E & Hg & Hwg & Hz).
      rewrite app_assoc in E. destruct (word_prefix (lit ++ g) p (b :: q) z) as [p' ->]; [|by right; eauto|done|].
      { by apply Forall_app. }
      exists (p' ++ b :: q'). rewrite <-!app_assoc. split; [done|]. split; [done|]. split; [done|].
      rewrite <-!app_assoc in E. do 2 apply app_inv_head in E. subst z.
      by apply (word_end_space p' b q). }
    intros p b q q' Hb. apply option_ext_Some; intros g; by apply Hs.
  - intros w q Hn Hc Hww Hq. destruct (field_at lit (w ++ q)) as [g|] eqn:E; [|done].
    apply field_at_Some in E as (z & E & _).
    destruct (word_prefix lit w q (g ++ z) Hw Hq E) as [p' ->]. set_solver.
  - intros b q Hb. destruct (field_at lit (b :: q)) as [g|] eqn:E; [|done].
    apply field_at_Some in E as (z & E & _). destruct lit as [|c lit]; [set_solver|].
    injection E as <- _. simpl in *. destruct Hb as [->|[->| ->]]; done.
Qed.

Lemma fold_prefix_Some lit : ∀ s rest,
  fold_prefix lit s = Some rest ↔ ∃ l, s = l ++ rest ∧ Forall2 fold_eq lit l.
Proof.
  induction lit as [|c lit IH]; intros s rest; simpl.
  - split; [intros [= ->]; by exists []|]. intros (l & -> & Hl). by apply Forall2_nil_inv_l in Hl as ->.
  - destruct s as [|r s].
    { split; [done|]. intros (l & E & Hl). by apply Forall2_cons_inv_l in Hl as (?&?&_&_&->). }
    case_decide as Hr.
    + rewrite IH. split.
      * intros (l & -> & Hl). exists (r :: l). split; [done|by constructor].
      * intros (l & E & Hl). apply Forall2_cons_inv_l in Hl as (r'&l'&Hr'&Hl&->).
        injection E as -> ->. by exists l'.
    + split; [done|]. intros (l & E & Hl). apply Forall2_cons_inv_l in Hl as (r'&l'&Hr'&Hl&->).
      by injection E as -> ->.
Qed.

Lemma fold_eq_word c r : ¬ re_space c → c ≠ 64 → fold_eq c r → ¬ re_space r.
Proof. unfold fold_eq, re_space. lia. Qed.

Lemma fold_lit_word l : Forall2 fold_eq (str "stat:") l → word l ∧ 58 ∈ l ∧
  ∃ b l', l = b :: l' ∧ b ≠ 105 ∧ b ≠ 100 ∧ b ≠ 58.
Proof.
  change (str "stat:") with [115; 116; 97; 116; 58]. intros Hl.
  repeat (apply Forall2_cons_inv_l in Hl as (?&?&?&Hl&->)). apply Forall2_nil_inv_l in Hl as ->.
  unfold fold_eq in *. split; [|split].
  - unfold word, re_space. repeat constructor; lia.
  - apply (list_elem_of_lookup_2 _ 4%nat). simpl. f_equal. lia.
  - eexists _, _. split; [done|]. lia.
Qed.

Lemma take_while_letter_space p b q q' :
  re_space b → take_while letter_i (p ++ b :: q) = take_while letter_i (p ++ b :: q').
Proof.
  intros Hb. induction p as [|c p IH]; simpl.
  - rewrite !decide_False by (unfold re_space, letter_i in *; lia). done.
  - by rewrite IH.
Qed.

Lemma stat_at_Some s g :
  stat_at s = Some g ↔ ∃ l rest, s = l ++ rest ∧ Forall2 fold_eq (str "stat:") l ∧
    g = take 7 (take_while letter_i rest) ∧ (5 <= length g)%nat.
Proof.
  unfold stat_at. split.
  - intros H. apply bind_Some in H as (rest & Hf & H). apply fold_prefix_Some in Hf as (l & -> & Hl).
    simpl in H. case_decide; [|done]. injection H as <-. eauto 10.
  - intros (l & rest & -> & Hl & -> & Hg). apply bind_Some. exists rest. split.
    + apply fold_prefix_Some. eauto.
    + simpl. by rewrite decide_True.
Qed.

Lemma stat_at_local : word_local stat_at.
Proof.
  split.
  - done.
  - assert (∀ p b q q' g, re_space b → stat_at (p ++ b :: q) = Some g →
      stat_at (p ++ b :: q') = Some g) as Hs.
    { intros p b q q' g Hb. rewrite !stat_at_Some. intros (l & rest & E & Hl & Hg & Hlen).
      destruct (fold_lit_word l Hl) as [Hw _].
      destruct (word_prefix l p (b :: q) rest Hw ltac:(right; eauto) E) as [p' ->].
      exists l, (p' ++ b :: q'). rewrite <-!app_assoc in *. apply app_inv_head in E. subst rest.
      by rewrite <-(take_while_letter_space p' b q). }
    intros p b q q' Hb. apply option_ext_Some; intros g; by apply Hs.
  - intros w q Hn Hc Hw Hq. destruct (stat_at (w ++ q)) as [g|] eqn:E; [|done].
    apply stat_at_Some in E as (l & rest & E & Hl & _). destruct (fold_lit_word l Hl) as (Hwl & Hcl & _).
    destruct (word_prefix l w q rest Hwl Hq E) as [p' ->]. set_solver.
  - intros b q Hb. destruct (stat_at (b :: q)) as [g|] eqn:E; [|done].
    apply stat_at_Some in E as (l & rest & E & Hl & _).
    destruct (fold_lit_word l Hl) as (_ & _ & c & l' & -> & ?). injection E as -> _. lia.
Qed.

Lemma err_local : word_local (field_at (str "err:")).
Proof.
  apply field_at_local; change (str "err:") with [101; 114; 114; 58]; [|set_solver|done..].
  unfold word, re_space. repeat constructor; lia.
Qed.

(** ** The gateway's translation *)

(** The IDs the gateway makes: one printable word. *)
Definition clean_id (gw : bytes) : Prop := gw ≠ [] ∧ Forall (λ b, 33 <= b < 127) gw.

Lemma clean_word gw : clean_id gw → word gw ∧ ascii_text gw ∧ Forall (λ b, ¬ IsSpace b) gw.
Proof.
  intros [_ Hg]. split; [|split]; (eapply Forall_impl; [exact Hg|]); intros b; simpl;
    unfold re_space, ascii, IsSpace; lia.
Qed.

Lemma not_space_word b : re_space b → IsSpace b.
Proof. unfold re_space, IsSpace. lia. Qed.

(** What [ParseDLRReceipt] found: the ID's place in the trimmed text. *)
Lemma parse_id_place t id :
  dlrIDRegex t = Some id →
  ∃ pre post, t = pre ++ str "id:" ++ id ++ post ∧ id ≠ [] ∧ word id ∧ word_end post ∧
    ∀ p1 p2, pre = p1 ++ p2 → p2 ≠ [] →
      field_at (str "id:") (p2 ++ str "id:" ++ id ++ post) = None.
Proof.
  intros Hf. apply find_first_Some in Hf as (pre & q & -> & Hq & Hn).
  apply field_at_Some in Hq as (post & -> & Hid & Hw & Hp). exists pre, post. done.
Qed.

Lemma trimmed_replace pre id gw post :
  trimmed (pre ++ str "id:" ++ id ++ post) → id ≠ [] → clean_id gw →
  trimmed (pre ++ str "id:" ++ gw ++ post).
Proof.
  change (str "id:") with [105; 100; 58].
  intros [(b & t1 & Hb & Hbs) (t2 & c & Hc & Hcs)] Hid Hgw. split.
  - destruct pre as [|x pre]; simpl in *; [|by injection Hb as -> _; eauto].
    eexists _, _. split; [done|]. unfold IsSpace. lia.
  - destruct (clean_word gw Hgw) as (_ & _ & Hns). destruct Hgw as [Hne _].
    destruct post as [|x post _] using rev_ind.
    + destruct gw as [|y gw _] using rev_ind; [done|]. rewrite app_nil_r.
      exists (pre ++ [105; 100; 58] ++ gw), y. rewrite <-!app_assoc. split; [done|].
      by apply Forall_app in Hns as [_ [? _]%Forall_cons].
    + exists (pre ++ [105; 100; 58] ++ gw ++ post), x. rewrite <-!app_assoc. split; [done|].
      rewrite !app_assoc in Hc. by apply app_inj_tail in Hc as [_ ->].
Qed.

Lemma not_earlier k p2 id post r z :
  p2 ≠ [] → id ≠ [] → word id →
  (∀ p1 p2', k ++ p2 = p1 ++ p2' → p2' ≠ [] →
     field_at (str "id:") (p2' ++ str "id:" ++ id ++ post) = None) →
  p2 ++ (str "id:" ++ id) ++ post ++ r = (str "id:" ++ id) ++ z → False.
Proof.
  intros Hp2 Hid Hw Hn E. specialize (Hn k p2 eq_refl Hp2).
  destruct id as [|b id]; [done|]. apply Forall_cons in Hw as [Hb _].
  set (Y := p2 ++ str "id:" ++ (b :: id) ++ post) in *.
  assert (take (length (str "id:" ++ b :: id)) Y = str "id:" ++ b :: id) as Ht.
  { apply (f_equal (take (length (str "id:" ++ b :: id)))) in E.
    rewrite take_app_length in E. rewrite <-E at 2.
    replace (p2 ++ (str "id:" ++ b :: id) ++ post ++ r) with (Y ++ r)
      by (unfold Y; by rewrite <-!app_assoc).
    rewrite take_app_le; [done|]. unfold Y. rewrite !length_app. simpl. lia. }
  rewrite <-(take_drop (length (str "id:" ++ b :: id)) Y), Ht, <-app_assoc in Hn.
  by apply (field_at_None (str "id:") b (id ++ drop (length (str "id:" ++ b :: id)) Y)) in Hn.
Qed.

(** The first occurrence of the ID in the whole text is the one that was parsed. *)
Lemma translate_place l pre id post r gw :
  Forall IsSpace l → id ≠ [] → word id →
  (∀ p1 p2, pre = p1 ++ p2 → p2 ≠ [] →
     field_at (str "id:") (p2 ++ str "id:" ++ id ++ post) = None) →
  translateDLRMessageID (l ++ (pre ++ str "id:" ++ id ++ post) ++ r) id gw =
  l ++ (pre ++ str "id:" ++ gw ++ post) ++ r.
Proof.
  intros Hl Hid Hw Hn. unfold translateDLRMessageID.
  replace (l ++ (pre ++ str "id:" ++ id ++ post) ++ r)
    with ((l ++ pre) ++ (str "id:" ++ id) ++ (post ++ r)) by (by rewrite <-!app_assoc).
  rewrite Replace1_first; [by rewrite <-!app_assoc|done|].
  intros p1 p2 E Hp2. apply bool_decide_eq_false_2. intros [z Hz].
  apply app_eq_app in E as [k [[-> ->]|[-> ->]]].
  - destruct k as [|c k]; [by apply (not_earlier [] pre id post r z)|].
    change (str "id:") with [105; 100; 58] in Hz. simpl in Hz. injection Hz as -> _.
    apply Forall_app in Hl as [_ [Hc _]%Forall_cons]. unfold IsSpace in Hc. lia.
  - by apply (not_earlier k p2 id post r z).
Qed.

Lemma ascii_app s1 s2 : ascii_text (s1 ++ s2) ↔ ascii_text s1 ∧ ascii_text s2.
Proof. apply Forall_app. Qed.

(** What [ParseDLRReceipt] makes of a trimmed ASCII text. *)
Definition parse_trimmed (t : bytes) (id : bytes) : DLRReceipt :=
  mkReceipt id
    match find_first stat_at t with Some g => string_of_runes (upper <$> g) | None => [] end
    match find_first (field_at (str "err:")) t with Some g => g | None => [] end.

Lemma ParseDLRReceipt_trimmed s t id :
  TrimSpace s = t → t ≠ [] → ascii_text t → dlrIDRegex t = Some id →
  ParseDLRReceipt s = Some (parse_trimmed t id).
Proof.
  intros Ht Hne Ha Hid. unfold ParseDLRReceipt. rewrite Ht, decide_False, Hid by done.
  rewrite ascii_runes by done. done.
Qed.

Lemma id_not_earlier p2 id gw post :
  p2 ≠ [] → field_at (str "id:") (p2 ++ str "id:" ++ id ++ post) = None →
  field_at (str "id:") (p2 ++ str "id:" ++ gw ++ post) = None.
Proof.
  intros Hp Hn. destruct (field_at _ (p2 ++ str "id:" ++ gw ++ post)) as [g|] eqn:E; [|done].
  exfalso. apply field_at_Some in E as (q & E & Hg & Hw & _). destruct g as [|c g]; [done|].
  apply Forall_cons in Hw as [Hc _].
  change (str "id:") with [105; 100; 58] in E.
  destruct p2 as [|x [|y [|z p3]]]; simpl in E; [done|congruence|congruence|].
  injection E as -> -> -> E. revert Hn. destruct p3 as [|d p3]; simpl in E.
  - apply (field_at_None (str "id:") 105 (100 :: 58 :: id ++ post)). unfold re_space. lia.
  - injection E as -> _. by apply (field_at_None (str "id:") c (p3 ++ str "id:" ++ id ++ post)).
Qed.

(** The place of the ID in the trimmed text, and what the parser finds there before and
    after the translation. *)
Lemma translation_parts payload gw r :
  ascii_text payload → clean_id gw → ParseDLRReceipt payload = Some r →
  ∃ l pre post rr,
    payload = (l ++ pre) ++ str "id:" ++ dlr_MessageID r ++ post ++ rr ∧
    r = parse_trimmed (pre ++ str "id:" ++ dlr_MessageID r ++ post) (dlr_MessageID r) ∧
    translateDLRMessageID payload (dlr_MessageID r) gw = (l ++ pre) ++ str "id:" ++ gw ++ post ++ rr ∧
    ParseDLRReceipt ((l ++ pre) ++ str "id:" ++ gw ++ post ++ rr) =
      Some (parse_trimmed (pre ++ str "id:" ++ gw ++ post) gw) ∧
    word (dlr_MessageID r) ∧ word_end post.
Proof.
  intros Ha Hgw Hp.
  destruct (TrimSpace_cases payload Ha) as [[_ Ht]|(l & t & rr & -> & Hl & Hr & Htr & Ht)].
  { unfold ParseDLRReceipt in Hp. by rewrite Ht in Hp. }
  assert (t ≠ []) as Hne by (destruct Htr as [(? & ? & -> & _) _]; done).
  apply ascii_app in Ha as Ha'. destruct Ha' as [Hal Ha']. apply ascii_app in Ha' as [Hat Har].
  destruct (dlrIDRegex t) as [id|] eqn:Hid.
  2: { unfold ParseDLRReceipt in Hp. rewrite Ht, decide_False, Hid in Hp by done. done. }
  rewrite (ParseDLRReceipt_trimmed _ t id) in Hp by done. injection Hp as <-.
  destruct (parse_id_place t id Hid) as (pre & post & -> & Hidn & Hidw & Hpost & Hn).
  destruct (clean_word gw Hgw) as (Hgww & Hgwa & _).
  rewrite !ascii_app in Hat. destruct Hat as (Hapre & Haid & _ & Hapost).
  assert (ascii_text (pre ++ str "id:" ++ gw ++ post)) as Hat' by (rewrite !ascii_app; done).
  assert (dlrIDRegex (pre ++ str "id:" ++ gw ++ post) = Some gw) as Hid'.
  { apply find_first_at; [|apply field_at_Some; exists post; by destruct Hgw].
    intros p1 p2 E Hp2. apply (id_not_earlier p2 id gw post Hp2). by apply (Hn p1). }
  exists l, pre, post, rr. cbn [dlr_MessageID parse_trimmed].
  split; [by rewrite <-!app_assoc|]. split; [done|].
  split; [rewrite translate_place by done; by rewrite <-!app_assoc|].
  split; [|done]. apply ParseDLRReceipt_trimmed; [|by destruct pre|done..].
  replace ((l ++ pre) ++ str "id:" ++ gw ++ post ++ rr)
    with (l ++ (pre ++ str "id:" ++ gw ++ post) ++ rr) by (by rewrite <-!app_assoc).
  apply TrimSpace_trims; [|done|done|by apply (trimmed_replace pre (dlr_MessageID (parse_trimmed (pre ++ str "id:" ++ id ++ post) id)))].
  rewrite !ascii_app. rewrite !ascii_app in Hat'. tauto.
Qed.

(** The receipt the engine gets.  For an ASCII receipt text that the gateway can
    parse, the translation replaces exactly the message ID that was parsed, nothing
    else, and the engine parses the gateway's own ID from the result; when the ID
    starts a word and the IDs contain no colon, the engine also parses the same
    status and error code. *)
Theorem dlr_translation payload gw r :
  ascii_text payload → clean_id gw → ParseDLRReceipt payload = Some r →
  ∃ pre post r',
    payload = pre ++ str "id:" ++ dlr_MessageID r ++ post ∧
    translateDLRMessageID payload (dlr_MessageID r) gw = pre ++ str "id:" ++ gw ++ post ∧
    ParseDLRReceipt (pre ++ str "id:" ++ gw ++ post) = Some r' ∧ dlr_MessageID r' = gw ∧
    ((pre = [] ∨ ∃ p b, pre = p ++ [b] ∧ re_space b) → 58 ∉ dlr_MessageID r → 58 ∉ gw →
     dlr_Status r' = dlr_Status r ∧ dlr_ErrorCode r' = dlr_ErrorCode r).
Proof.
  intros Ha Hgw Hp.
  destruct (translation_parts payload gw r Ha Hgw Hp) as (l & pre & post & rr & Hpay & Hr & Ht & Hp' & Hidw & Hpost).
  destruct (clean_word gw Hgw) as (Hgww & _ & _).
  exists (l ++ pre), (post ++ rr), (parse_trimmed (pre ++ str "id:" ++ gw ++ post) gw).
  do 4 (split; [done|]). intros Hpre Hc1 Hc2. rewrite Hr. unfold parse_trimmed. cbn [dlr_Status dlr_ErrorCode].
  assert (pre = [] ∨ ∃ p b, pre = p ++ [b] ∧ re_space b) as Hpre'.
  { destruct Hpre as [E|(p & b & E & Hb)]; [left; by apply app_nil in E as [_ ->]|].
    destruct pre as [|x pre _] using rev_ind; [by left|]. right.
    rewrite app_assoc in E. apply app_inj_tail in E as [_ ->]. eauto. }
  by rewrite (find_first_replace_id stat_at pre (dlr_MessageID r) gw post),
    (find_first_replace_id (field_at (str "err:")) pre (dlr_MessageID r) gw post)
    by (done || apply stat_at_local || apply err_local).
Qed.

(** The synthetic failure receipt.  The engine parses the gateway's own ID, the
    status UNDELIV and the error code 001 from it. *)
Theorem synthetic_receipt_parses gw :
  clean_id gw → 58 ∉ gw →
  ParseDLRReceipt (synthetic_receipt gw) = Some (mkReceipt gw (str "UNDELIV") (str "001")) ∧
  IsDLR 0x04 = true.
Proof.
  intros Hgw Hc. split; [|done]. unfold synthetic_receipt. set (rest := str " sub:001 dlvrd:000 submit date:0000000000 done date:0000000000 stat:UNDELIV err:001 text:").
  destruct (clean_word gw Hgw) as (Hw & Ha & _).
  assert (word_end rest) as Hrest.
  { right. eexists _, _. split; [reflexivity|]. unfold re_space. tauto. }
  assert (ascii_text (str "id:" ++ gw ++ rest)) as Hat.
  { rewrite !ascii_app. split_and!; [|done|]; apply (bool_decide_unpack _); vm_compute; exact I. }
  rewrite (ParseDLRReceipt_trimmed _ (str "id:" ++ gw ++ rest) gw); [|..|done|].
  - unfold parse_trimmed. f_equal.
    rewrite (find_first_skip_id stat_at gw rest) by (done || apply stat_at_local).
    rewrite (find_first_skip_id (field_at (str "err:")) gw rest) by (done || apply err_local).
    vm_compute. reflexivity.
  - rewrite <-(app_nil_l (str "id:" ++ gw ++ rest)) at 1. rewrite <-(app_nil_r (str "id:" ++ gw ++ rest)) at 1.
    apply TrimSpace_trims; [by rewrite app_nil_l, app_nil_r|constructor|constructor|].
    split.
    + exists 105, (100 :: 58 :: gw ++ rest). split; [reflexivity|]. unfold IsSpace. lia.
    + exists (str "id:" ++ gw ++ removelast rest), 58. split; [|unfold IsSpace; lia].
      rewrite <-!app_assoc. do 2 f_equal.
  - done.
  - apply (find_first_at _ []); [intros [|] [|]; done|]. apply field_at_Some. exists rest.
    destruct Hgw. done.
Qed.

Definition dlr_example : bytes :=
  str "id:SMSC-42 sub:001 dlvrd:001 submit date:2401010000 done date:2401010001 stat:DELIVRD err:000 text:hi".

#[export] Instance ascii_dec b : Decision (ascii b).
Proof. unfold ascii. apply _. Defined.
#[export] Instance clean_id_dec gw : Decision (clean_id gw).
Proof. unfold clean_id. apply _. Defined.

Lemma dlr_translation_witness :
  clean_id (str "GW-7") ∧
  ∃ pre post r',
    translateDLRMessageID dlr_example (str "SMSC-42") (str "GW-7") = pre ++ str "id:" ++ str "GW-7" ++ post ∧
    ParseDLRReceipt (pre ++ str "id:" ++ str "GW-7" ++ post) = Some r' ∧ dlr_MessageID r' = str "GW-7".
Proof.
  assert (clean_id (str "GW-7")) as Hc by (apply (bool_decide_unpack _); vm_compute; exact I).
  split; [exact Hc|].
  assert (ascii_text dlr_example) as Ha by (apply (bool_decide_unpack _); vm_compute; exact I).
  destruct (dlr_translation dlr_example (str "GW-7") (mkReceipt (str "SMSC-42") (str "DELIVRD") (str "000"))
    Ha Hc ltac:(vm_compute; reflexivity)) as (pre & post & r' & _ & H2 & H3 & H4 & _).
  exists pre, post, r'. split; [exact H2|]. split; [exact H3|exact H4].
Defined.

Lemma synthetic_receipt_parses_witness :
  clean_id (str "GW-7") ∧
  ParseDLRReceipt (synthetic_receipt (str "GW-7")) = Some (mkReceipt (str "GW-7") (str "UNDELIV") (str "001")).
Proof.
  assert (clean_id (str "GW-7")) as Hc by (apply (bool_decide_unpack _); vm_compute; exact I).
  split; [exact Hc|].
  assert (58 ∉ str "GW-7") as Hn by (apply (bool_decide_unpack _); vm_compute; exact I).
  exact (proj1 (synthetic_receipt_parses (str "GW-7") Hc Hn)).
Defined.
