(* ===== verification/Regex.v ===== *)
(** * The regular expressions of smpp/handler.go, as package regexp reads them

    A parser for the part of RE2's syntax that the three patterns use, and a
    backtracking matcher over runes: the leftmost match, and among those the one that a
    backtracking search finds first, which is what package regexp documents.
    [ParseDLRReceipt_ref] is ParseDLRReceipt on top of that; the matchers of [Dlr], which
    look at bytes, are equal to it on every string ([ParseDLRReceipt_regexp]). *)

From S2P Require Import Prelude Utf8 Dlr.

Local Open Scope Z_scope.

(** ** Syntax *)

Abbreviation ranges := (list (rune * rune)).

(** [Chars i neg rs]: one rune of a class; [i] is the flag of "(?i)". *)
Inductive re :=
| Empty
| Chars (i neg : bool) (rs : ranges)
| Cat (r1 r2 : re)
| Repeat (r : re) (min : nat) (max : option nat)
| Group (r : re).

Definition space_ranges : ranges := [(9, 10); (12, 13); (32, 32)].

(** The items of a class, up to the bracket that closes it. *)
Fixpoint class_items (fuel : nat) (s : list Z) : option (ranges * list Z) :=
  match fuel, s with
  | S fuel, 93 :: s => Some ([], s)
  | S fuel, 92 :: 115 :: s => '(rs, s) ← class_items fuel s; Some (space_ranges ++ rs, s)
  | S fuel, a :: 45 :: b :: s => '(rs, s) ← class_items fuel s; Some ((a, b) :: rs, s)
  | S fuel, a :: s => if decide (a = 92) then None else '(rs, s) ← class_items fuel s; Some ((a, a) :: rs, s)
  | _, _ => None
  end.

Fixpoint number (acc : nat) (s : list Z) : nat * list Z :=
  match s with
  | d :: s' => if decide (48 <= d <= 57) then number (10 * acc + Z.to_nat (d - 48)) s' else (acc, s)
  | [] => (acc, [])
  end.

(** The repetition after an atom. *)
Definition postfix (r : re) (s : list Z) : option (re * list Z) :=
  match s with
  | 43 :: s => Some (Repeat r 1 None, s)
  | 123 :: s =>
      let '(m, s) := number 0 s in
      match s with
      | 44 :: s => let '(n, s) := number 0 s in
                   match s with 125 :: s => Some (Repeat r m (Some n), s) | _ => None end
      | _ => None
      end
  | _ => Some (r, s)
  end.

(** The characters that have a meaning of their own outside a class. *)
Definition special : list Z := str ".\*+?{}|^$]".

Fixpoint parse_seq (fuel : nat) (i : bool) (s : list Z) : option (re * list Z) :=
  match fuel, s with
  | S fuel, [] | S fuel, 41 :: _ => Some (Empty, s)
  | S fuel, c :: s =>
      '(atom, s) ←
        (if decide (c = 40) then
           '(r, s) ← parse_seq fuel i s;
           match s with 41 :: s => Some (Group r, s) | _ => None end
         else if decide (c = 91) then
           match s with
           | 94 :: s => '(rs, s) ← class_items (length s) s; Some (Chars i true rs, s)
           | _ => '(rs, s) ← class_items (length s) s; Some (Chars i false rs, s)
           end
         else if decide (c ∈ special) then None
         else Some (Chars i false [(c, c)], s));
      '(atom, s) ← postfix atom s;
      '(r, s) ← parse_seq fuel i s;
      Some (Cat atom r, s)
  | O, _ => None
  end.

(** [regexp.MustCompile]; [None] also for syntax that is not covered. *)
Definition MustCompile (pattern : bytes) : option re :=
  let i := HasPrefix pattern (str "(?i)") in
  let s := TrimPrefix pattern (str "(?i)") in
  match parse_seq (S (length s)) i s with Some (r, []) => Some r | _ => None end.

(** ** Matching *)

(** The ASCII characters that a rune is a simple case folding of. *)
Definition folds (r : rune) : list rune :=
  if decide (65 <= r <= 90) then [r; r + 32]
  else if decide (97 <= r <= 122) then [r; r - 32]
  else if decide (r = 0x17F) then [83; 115]
  else if decide (r = 0x212A) then [75; 107]
  else [r].

Definition in_ranges (rs : ranges) (r : rune) : bool := existsb (λ ab, bool_decide (ab.1 <= r <= ab.2)) rs.

Definition in_class (i neg : bool) (rs : ranges) (r : rune) : bool :=
  xorb neg (in_ranges rs r || (i && existsb (in_ranges rs) (folds r))).

(** A rune of the text with its bytes; what was consumed, the last group that was set,
    and what is left. *)
Abbreviation chunk := (rune * bytes)%type.
Abbreviation found := (list chunk * option (list chunk) * list chunk)%type.

Definition after (m : list chunk → list found) (f : found) : list found :=
  let '(c1, g1, s) := f in
  (λ f2 : found, let '(c2, g2, s2) := f2 in (c1 ++ c2, match g2 with Some g => Some g | None => g1 end, s2)) <$> m s.

(** As many rounds as possible first; the fuel bounds the rounds. *)
Fixpoint rounds (m : list chunk → list found) (fuel min : nat) (max : option nat) (s : list chunk) : list found :=
  match fuel with
  | O => if decide (min = 0%nat) then [([], None, s)] else []
  | S fuel =>
      (if decide (max = Some 0%nat) then []
       else m s ≫= after (rounds m fuel (pred min) (pred <$> max))) ++
      (if decide (min = 0%nat) then [([], None, s)] else [])
  end.

(** All matches at the start of a text, those a backtracking search finds first, first. *)
Fixpoint matches (r : re) (s : list chunk) : list found :=
  match r with
  | Empty => [([], None, s)]
  | Chars i neg rs =>
      match s with x :: s => if in_class i neg rs x.1 then [([x], None, s)] else [] | [] => [] end
  | Cat r1 r2 => matches r1 s ≫= after (matches r2)
  | Repeat r min max => rounds (matches r) (S (length s)) min max s
  | Group r => (λ f : found, let '(c, _, s) := f in (c, Some c, s)) <$> matches r s
  end.

Definition chunks (s : bytes) : list chunk := chunks_loop (length s) s.
Definition text_of (cs : list chunk) : bytes := concat cs.*2.

(** The leftmost match and its group. *)
Fixpoint leftmost (r : re) (cs : list chunk) : option (list chunk) :=
  match matches r cs with
  | (_, g, _) :: _ => Some (match g with Some g => g | None => [] end)
  | [] => match cs with [] => None | _ :: cs => leftmost r cs end
  end.

(** [re.FindStringSubmatch(text)[1]] *)
Definition FindSubmatch (r : re) (text : bytes) : option bytes := text_of <$> leftmost r (chunks text).

(** ** ParseDLRReceipt with its three patterns *)

Definition id_pattern : bytes := str "id:([^\s]+)".
Definition stat_pattern : bytes := str "(?i)stat:([A-Za-z]{5,7})".
Definition err_pattern : bytes := str "err:([^\s]+)".

Definition ParseDLRReceipt_ref (text : bytes) : option DLRReceipt :=
  let text := TrimSpace text in
  let find p := r ← MustCompile p; FindSubmatch r text in
  if decide (text = []) then None
  else
    idMatch ← find id_pattern;
    Some (mkReceipt idMatch
      match find stat_pattern with Some g => string_of_runes (upper <$> runes g) | None => [] end
      match find err_pattern with Some g => g | None => [] end).

(** ** What a search finds *)

Definition takes {A} (max : option nat) (l : list A) : list A := match max with Some n => take n l | None => l end.

Fixpoint run_of (P : rune → bool) (s : list chunk) : list chunk :=
  match s with x :: s => if P x.1 then x :: run_of P s else [] | [] => [] end.

Lemma head_after m c1 s : head (after m (c1, None, s)) = (λ f : found, let '(c2, g2, s2) := f in (c1 ++ c2, g2, s2)) <$> head (m s).
Proof. unfold after. destruct (m s) as [|[[c2 [g2|]] s2] l]; done. Qed.

Lemma head_None {A} (l : list A) : head l = None → l = [].
Proof. by destruct l. Qed.

(** A greedy run of one class takes as much as it may. *)
Lemma head_rounds (m : list chunk → list found) P :
  m [] = [] → (∀ x s, m (x :: s) = if P x.1 : bool then [([x], None, s)] else []) →
  ∀ fuel min max s, (length s <= fuel)%nat →
  let g := takes max (run_of P s) in
  head (rounds m fuel min max s) = if decide (min <= length g)%nat then Some (g, None, drop (length g) s) else None.
Proof.
  intros Hnil Hcons. assert (∀ l max, l = [] → takes (A:=chunk) max l = []) as Ht by (intros l max ->; by destruct max as [[|]|]).
  induction fuel as [|fuel IH]; intros min max s Hf; cbv zeta; cbn [rounds].
  { destruct s; [|simpl in Hf; lia]. cbn [run_of]. rewrite Ht by done. repeat case_decide; first [done | simpl in *; lia]. }
  case_decide as Hm.
  { subst max. cbn [takes take app]. repeat case_decide; first [done | simpl in *; lia]. }
  destruct s as [|x s]; [rewrite Hnil|rewrite Hcons; cbn [run_of]; destruct (P x.1)].
  - cbn [run_of]. rewrite Ht by done. repeat case_decide; first [done | simpl in *; lia].
  - specialize (IH (pred min) (pred <$> max) s ltac:(simpl in Hf; lia)). cbv zeta in IH.
    set (g' := takes (pred <$> max) (run_of P s)) in *.
    assert (takes max (x :: run_of P s) = x :: g') as -> by (by destruct max as [[|]|]).
    cbn [mbind list_bind]. rewrite app_nil_r.
    pose proof (head_after (rounds m fuel (pred min) (pred <$> max)) [x] s) as Hh.
    rewrite IH in Hh. destruct (decide (pred min <= length g')%nat) as [Hl|Hl]; cbn [fmap option_fmap option_map] in Hh.
    + rewrite (decide_True (P := (min <= length (x :: g'))%nat)) by (simpl; lia). by destruct (after _ ([x], None, s)) as [|f l].
    + apply head_None in Hh. rewrite Hh. rewrite !decide_False by (simpl; lia). done.
  - rewrite Ht by done. repeat case_decide; first [done | simpl in *; lia].
Qed.

Lemma after_Empty l : (l ≫= after (matches Empty)) = l.
Proof.
  induction l as [|[[c g] s] l IH]; [done|].
  assert (after (matches Empty) (c, g, s) = [(c, g, s)]) as E by (cbn; rewrite app_nil_r; by destruct g).
  change (after (matches Empty) (c, g, s) ++ (l ≫= after (matches Empty)) = (c, g, s) :: l). by rewrite E, IH.
Qed.

(** The shape of the three patterns: a literal and a group that repeats a class. *)
Definition run_group (i neg : bool) (rs : ranges) (min : nat) (max : option nat) : re :=
  Cat (Group (Cat (Repeat (Chars i neg rs) min max) Empty)) Empty.

Definition literal (i : bool) (lit : bytes) (r : re) : re := foldr (λ c, Cat (Chars i false [(c, c)])) r lit.

Lemma id_compiled : MustCompile id_pattern = Some (literal false (str "id:") (run_group false true space_ranges 1 None)).
Proof. vm_compute. reflexivity. Qed.
Lemma err_compiled : MustCompile err_pattern = Some (literal false (str "err:") (run_group false true space_ranges 1 None)).
Proof. vm_compute. reflexivity. Qed.
Lemma stat_compiled : MustCompile stat_pattern =
  Some (literal true (str "stat:") (run_group true false [(65, 90); (97, 122)] 5 (Some 7%nat))).
Proof. vm_compute. reflexivity. Qed.

(** The group of the first match at a place. *)
Definition group_at (r : re) (cs : list chunk) : option (list chunk) :=
  (λ f : found, default [] f.1.2) <$> head (matches r cs).

Lemma leftmost_step r cs :
  leftmost r cs = match group_at r cs with Some g => Some g | None => match cs with [] => None | _ :: cs => leftmost r cs end end.
Proof. unfold group_at. destruct cs; cbn [leftmost]; by destruct (matches r _) as [|[[c [g|]] s] l]. Qed.

Lemma group_at_char i c r cs :
  group_at (Cat (Chars i false [(c, c)]) r) cs =
  match cs with x :: cs => if in_class i false [(c, c)] x.1 then group_at r cs else None | [] => None end.
Proof.
  unfold group_at. destruct cs as [|x cs]; cbn [matches]; [done|]. destruct (in_class _ _ _ _); [|done].
  cbn [mbind list_bind]. rewrite app_nil_r, head_after. destruct (matches r cs) as [|[[c2 g2] s2] l]; done.
Qed.

Lemma group_at_run i neg rs min max cs :
  let g := takes max (run_of (in_class i neg rs) cs) in
  group_at (run_group i neg rs min max) cs = if decide (min <= length g)%nat then Some g else None.
Proof.
  cbv zeta. unfold group_at, run_group.
  change (matches (Cat (Group (Cat (Repeat (Chars i neg rs) min max) Empty)) Empty) cs)
    with (matches (Group (Cat (Repeat (Chars i neg rs) min max) Empty)) cs ≫= after (matches Empty)).
  rewrite after_Empty. cbn [matches].
  change (λ s, [([], None, s)]) with (matches Empty). rewrite after_Empty.
  pose proof (head_rounds (matches (Chars i neg rs)) (in_class i neg rs) eq_refl (λ _ _, eq_refl) (S (length cs)) min max cs
    ltac:(lia)) as Hh. cbv zeta in Hh.
  destruct (rounds _ _ _ _ _) as [|f l]; cbn [head] in Hh; case_decide; try done.
  injection Hh as ->. done.
Qed.

(** ** Runes and their bytes *)

(** A chunk is an ASCII character, or a rune and bytes that are all beyond ASCII. *)
Definition good (x : chunk) : Prop :=
  (ascii x.1 ∧ x.2 = [x.1]) ∨
  (128 <= x.1 ∧ x.2 ≠ [] ∧ Forall (λ b, 128 <= b) x.2 ∧ valid_rune x.1 ∧ (x.1 ≠ RuneError → x.2 = EncodeRune x.1)).

Lemma chunk_good s r sz : bytes_ok s → s ≠ [] → DecodeRune s = (r, sz) → good (r, take sz s).
Proof.
  intros Hs Hne E. destruct (DecodeRune_shape s r sz Hs Hne E) as [[-> ->]|(Hv & Es & ->)].
  - destruct s as [|b s]; [done|]. right. cbn [fst snd take]. apply Forall_cons in Hs as [Hb _].
    assert (128 <= b).
    { cbn [DecodeRune] in E. case_decide; [injection E as ->; by unfold RuneError in *|lia]. }
    split; [by unfold RuneError|]. split; [done|]. split; [by repeat constructor|]. split; [apply RuneError_valid|done].
  - assert (take (length (EncodeRune r)) s = EncodeRune r) as -> by (rewrite Es; apply take_app_length).
    destruct (decide (r < 128)) as [Hr|Hr].
    + left. unfold ascii. cbn [fst snd]. unfold valid_rune in Hv. split; [lia|].
      unfold EncodeRune. by rewrite decide_True by lia.
    + right. cbn [fst snd]. split; [lia|]. split; [intros He; pose proof (EncodeRune_nonempty r) as Hn; rewrite He in Hn; simpl in Hn; lia|].
      split; [apply EncodeRune_high; [done|lia]|done].
Qed.

Lemma chunks_loop_fuel : ∀ f1 f2 s,
  bytes_ok s → (length s <= f1)%nat → (length s <= f2)%nat → chunks_loop f1 s = chunks_loop f2 s.
Proof.
  induction f1 as [|f1 IH]; intros [|f2] [|b s] Hb H1 H2; simpl in H1, H2; try done; try lia.
  cbn [chunks_loop]. destruct (DecodeRune (b :: s)) as [r sz] eqn:E.
  pose proof (DecodeRune_size _ _ _ Hb ltac:(done) E). f_equal. apply IH.
  - by apply bytes_ok_drop.
  - rewrite length_drop. simpl. lia.
  - rewrite length_drop. simpl. lia.
Qed.

Lemma chunks_step s r sz : bytes_ok s → s ≠ [] → DecodeRune s = (r, sz) → chunks s = (r, take sz s) :: chunks (drop sz s).
Proof.
  intros Hb Hne E. pose proof (DecodeRune_size s r sz Hb Hne E). unfold chunks.
  destruct s as [|b s]; [done|]. cbn [length chunks_loop]. rewrite E. f_equal.
  apply chunks_loop_fuel; [by apply bytes_ok_drop| |]; rewrite length_drop; simpl; lia.
Qed.

Lemma chunks_spec s : bytes_ok s → Forall good (chunks s) ∧ text_of (chunks s) = s ∧ (chunks s).*1 = runes s.
Proof.
  revert s. apply (string_ind (λ s, Forall good (chunks s) ∧ text_of (chunks s) = s ∧ (chunks s).*1 = runes s)); [done|].
  intros s r sz Hs Hne E (Hg & Ht & Hr). rewrite (chunks_step s r sz), (runes_step s r sz) by done.
  split; [constructor; [by apply chunk_good|done]|].
  split; [|cbn; by rewrite Hr]. unfold text_of in *. cbn. rewrite Ht. apply take_drop.
Qed.

Lemma text_cons x cs : text_of (x :: cs) = x.2 ++ text_of cs.
Proof. done. Qed.

(** ** The byte matchers agree with the patterns *)

Lemma in_class_char c r : ascii c → in_class false false [(c, c)] r = bool_decide (r = c).
Proof.
  intros Hc. unfold in_class, in_ranges. cbn [existsb andb xorb]. rewrite !orb_false_r. cbn [fst snd].
  apply bool_decide_ext. lia.
Qed.

Lemma in_class_space r : in_class false true space_ranges r = bool_decide (¬ re_space r).
Proof.
  unfold in_class, in_ranges, space_ranges. rewrite xorb_true_l. cbn [existsb andb fst snd]. rewrite !orb_false_r.
  rewrite <-!bool_decide_or, <-bool_decide_not. apply bool_decide_ext. unfold re_space. lia.
Qed.

Lemma high_not_space b : 128 <= b → ¬ re_space b.
Proof. unfold re_space. lia. Qed.

Lemma take_while_high (P : Z → Prop) `{∀ x, Decision (P x)} bs s :
  Forall P bs → take_while P (bs ++ s) = bs ++ take_while P s.
Proof. induction 1 as [|b bs Hb _ IH]; [done|]. cbn. rewrite decide_True by done. by rewrite IH. Qed.

Lemma run_of_space cs : Forall good cs →
  take_while (λ b, ¬ re_space b) (text_of cs) = text_of (run_of (in_class false true space_ranges) cs).
Proof.
  induction 1 as [|x cs Hx _ IH]; [done|]. rewrite text_cons. cbn [run_of]. rewrite in_class_space.
  destruct Hx as [[Ha Ha2]|(Hr & _ & Hb & _)].
  - rewrite Ha2. cbn [app take_while]. destruct (decide (re_space x.1)) as [Hs|Hs].
    + rewrite decide_False, bool_decide_eq_false_2 by tauto. done.
    + rewrite decide_True, bool_decide_eq_true_2 by tauto. cbv iota. rewrite text_cons, IH, Ha2. done.
  - rewrite take_while_high by (eapply Forall_impl; [exact Hb|]; intros b; apply high_not_space).
    rewrite bool_decide_eq_true_2 by by apply high_not_space. by rewrite text_cons, IH.
Qed.

Lemma field_at_cons c lit b s : field_at (c :: lit) (b :: s) = if decide (b = c) then field_at lit s else None.
Proof.
  unfold field_at, HasPrefix. cbn [length drop]. case_decide as E.
  - subst b. rewrite (bool_decide_ext (c :: lit `prefix_of` c :: s) (lit `prefix_of` s)); [done|].
    split; [by apply prefix_cons_inv_2|by apply prefix_cons].
  - rewrite bool_decide_eq_false_2; [done|]. intros Hp. by apply prefix_cons_inv_1 in Hp.
Qed.

Definition field_re (lit : bytes) : re := literal false lit (run_group false true space_ranges 1 None).

Lemma field_group lit cs : Forall ascii lit → Forall good cs → field_at lit (text_of cs) = text_of <$> group_at (field_re lit) cs.
Proof.
  intros Hlit. revert cs. induction Hlit as [|c lit Hc _ IH]; intros cs Hg.
  - unfold field_re. cbn [literal foldr]. rewrite group_at_run. cbn [takes].
    unfold field_at, HasPrefix. rewrite bool_decide_eq_true_2 by apply prefix_nil. cbn [length drop].
    rewrite drop_0, run_of_space by done. destruct (run_of _ cs) as [|x g] eqn:E; [done|].
    rewrite decide_True by (simpl; lia). cbn [fmap option_fmap option_map]. rewrite text_cons.
    assert (x.2 ≠ []) as Hx.
    { destruct cs as [|y cs]; [done|]. cbn [run_of] in E. case_match; [|done]. injection E as <- _.
      apply Forall_cons in Hg as [[[_ ->]|(_ & ? & _)] _]; done. }
    by destruct x.2.
  - unfold field_re. cbn [literal foldr]. rewrite group_at_char. destruct cs as [|x cs].
    + unfold field_at, HasPrefix. by rewrite bool_decide_eq_false_2 by by apply prefix_nil_not.
    + apply Forall_cons in Hg as [Hx Hg]. rewrite in_class_char by done. rewrite text_cons.
      destruct Hx as [[Ha ->]|(Hr & Hn & Hb & _)].
      * cbn [app]. rewrite field_at_cons. case_decide as E; [rewrite bool_decide_eq_true_2 by done; by apply IH|].
        by rewrite bool_decide_eq_false_2.
      * destruct x.2 as [|b bs]; [done|]. apply Forall_cons in Hb as [Hb _]. cbn [app].
        unfold ascii in Hc. rewrite field_at_cons, decide_False by lia. by rewrite bool_decide_eq_false_2 by lia.
Qed.

Lemma field_at_high c lit b s : ascii c → 128 <= b → field_at (c :: lit) (b :: s) = None.
Proof. unfold ascii. intros. by rewrite field_at_cons, decide_False by lia. Qed.

Lemma field_leftmost c lit cs : Forall ascii (c :: lit) → Forall good cs →
  find_first (field_at (c :: lit)) (text_of cs) = text_of <$> leftmost (field_re (c :: lit)) cs.
Proof.
  intros Hlit Hg. induction Hg as [|x cs Hx Hg IH]; rewrite leftmost_step.
  { pose proof (field_group (c :: lit) [] Hlit (Forall_nil_2 _)) as E. change (text_of []) with (@nil Z) in *.
    cbn [find_first]. rewrite E. by destruct (group_at _ []). }
  pose proof (field_group (c :: lit) (x :: cs) Hlit ltac:(by constructor)) as E. rewrite text_cons in *.
  destruct Hx as [[Ha Hx]|(_ & Hn & Hb & _)].
  - rewrite Hx in *. cbn [app find_first] in *. rewrite E. by destruct (group_at _ (x :: cs)).
  - destruct x.2 as [|b bs]; [done|]. apply Forall_cons in Hb as [Hb Hbs]. apply Forall_cons in Hlit as [Hc _].
    cbn [app] in *. rewrite field_at_high in E by done. destruct (group_at _ (x :: cs)); [done|].
    cbn [find_first]. rewrite field_at_high by done. rewrite <-IH. apply find_first_skip.
    intros p1 [|b2 p2] -> Hp; [done|]. apply Forall_app in Hbs as [_ [Hb2 _]%Forall_cons].
    cbn [app]. by apply field_at_high.
Qed.

(** ** The status, over runes *)

Definition letters : ranges := [(65, 90); (97, 122)].
Definition stat_re (lit : bytes) : re := literal true lit (run_group true false letters 5 (Some 7%nat)).

Lemma in_class_fold c r : c ∈ str "stat:" → in_class true false [(c, c)] r = bool_decide (fold_eq c r).
Proof.
  intros Hc. assert (c = 115 ∨ c = 116 ∨ c = 97 ∨ c = 58) as Hc'.
  { change (str "stat:") with [115; 116; 97; 116; 58] in Hc. rewrite !elem_of_cons, elem_of_nil in Hc. tauto. }
  clear Hc. unfold in_class, in_ranges, folds. cbn [xorb andb existsb fst snd]. rewrite orb_false_r.
  symmetry. unfold fold_eq.
  repeat case_decide; cbn [existsb fst snd]; rewrite ?orb_false_r, <-?bool_decide_or; apply bool_decide_ext; lia.
Qed.

Lemma in_class_letter r : in_class true false letters r = bool_decide (letter_i r).
Proof.
  unfold in_class, in_ranges, folds, letters. cbn [xorb andb existsb fst snd]. symmetry. unfold letter_i.
  repeat case_decide; cbn [existsb fst snd]; rewrite ?orb_false_r, <-?bool_decide_or; apply bool_decide_ext; lia.
Qed.

Lemma run_of_letters cs : take_while letter_i cs.*1 = (run_of (in_class true false letters) cs).*1.
Proof.
  induction cs as [|x cs IH]; [done|]. cbn [fmap list_fmap take_while run_of]. rewrite in_class_letter.
  destruct (decide (letter_i x.1)); [rewrite bool_decide_eq_true_2 by done|by rewrite bool_decide_eq_false_2].
  cbn [fmap list_fmap]. by rewrite IH.
Qed.

(** [stat_at] for any part of its literal. *)
Definition fold_at (lit : bytes) (s : list rune) : option (list rune) :=
  rest ← fold_prefix lit s; let g := take 7 (take_while letter_i rest) in if decide (5 <= length g)%nat then Some g else None.

Lemma stat_group lit cs : (∀ c, c ∈ lit → c ∈ str "stat:") →
  fold_at lit cs.*1 = (λ g : list chunk, g.*1) <$> group_at (stat_re lit) cs.
Proof.
  revert cs. induction lit as [|c lit IH]; intros cs Hlit; unfold stat_re; cbn [literal foldr].
  - rewrite group_at_run. unfold fold_at. cbn [fold_prefix mbind option_bind takes].
    rewrite run_of_letters, <-fmap_take, length_fmap. by case_decide.
  - rewrite group_at_char. destruct cs as [|x cs]; [done|]. rewrite in_class_fold by (apply Hlit; by left).
    unfold fold_at. cbn [fmap list_fmap fold_prefix].
    destruct (decide (fold_eq c x.1)); [rewrite bool_decide_eq_true_2 by done|by rewrite bool_decide_eq_false_2].
    apply (IH cs). intros c' Hc'. apply Hlit. by right.
Qed.

Lemma stat_leftmost cs : dlrStatRegex cs.*1 = (λ g : list chunk, g.*1) <$> leftmost (stat_re (str "stat:")) cs.
Proof.
  unfold dlrStatRegex.
  assert (∀ cs : list chunk, stat_at cs.*1 = (λ g : list chunk, g.*1) <$> group_at (stat_re (str "stat:")) cs) as Hat.
  { intros cs'. by apply stat_group. }
  induction cs as [|x cs IH]; rewrite leftmost_step; [pose proof (Hat []) as E|pose proof (Hat (x :: cs)) as E];
    cbn [fmap list_fmap] in E |- *; cbn [find_first]; rewrite E; destruct (group_at _ _); done.
Qed.

(** A group of letters is the text of its runes. *)
Lemma run_of_Forall cs : Forall good cs → Forall (λ x, letter_i x.1 ∧ good x) (run_of (in_class true false letters) cs).
Proof.
  induction 1 as [|x cs Hx _ IH]; [constructor|]. cbn [run_of]. rewrite in_class_letter.
  case_bool_decide; [by constructor|constructor].
Qed.

Lemma group_letters lit cs g : Forall good cs → (∀ c, c ∈ lit → c ∈ str "stat:") →
  group_at (stat_re lit) cs = Some g → Forall (λ x, letter_i x.1 ∧ good x) g.
Proof.
  intros Hg. revert lit. induction Hg as [|x cs Hx Hg IH]; intros [|c lit] Hlit; unfold stat_re; cbn [literal foldr];
    rewrite ?group_at_run, ?group_at_char; intros E.
  - discriminate.
  - discriminate.
  - cbv zeta in E. case_decide; [|done]. apply (inj Some) in E. rewrite <-E. unfold takes. apply Forall_take, run_of_Forall. by constructor.
  - rewrite in_class_fold in E by (apply Hlit; by left). case_bool_decide; [|done].
    apply (IH lit); [|done]. intros c' Hc'. apply Hlit. by right.
Qed.

Lemma leftmost_letters cs g : Forall good cs → leftmost (stat_re (str "stat:")) cs = Some g →
  Forall (λ x, letter_i x.1 ∧ good x) g.
Proof.
  induction 1 as [|x cs Hx Hg IH]; rewrite leftmost_step; destruct (group_at _ _) eqn:E; try done; intros [= <-].
  all: eapply (group_letters (str "stat:")); [|done|exact E]; try constructor; done.
Qed.

Lemma letters_text g : Forall (λ x, letter_i x.1 ∧ good x) g → runes (text_of g) = g.*1.
Proof.
  intros Hg. assert (text_of g = string_of_runes g.*1) as ->.
  { induction Hg as [|x g [Hl Hx] _ IH]; [done|]. rewrite text_cons, IH. unfold string_of_runes.
    rewrite !fmap_cons. cbn [concat]. f_equal. destruct Hx as [[Ha ->]|(_ & _ & _ & _ & He)].
    - unfold EncodeRune. unfold ascii in Ha. by rewrite decide_True by lia.
    - apply He. unfold letter_i, RuneError in *. lia. }
  apply runes_string_of_runes. apply Forall_fmap. eapply Forall_impl; [exact Hg|]. intros x [Hl _]. simpl.
  unfold letter_i, valid_rune, MaxRune in *. lia.
Qed.

(** ** TrimSpace keeps bytes bytes *)

Lemma drop_spaces_suffix cs : ∃ p, cs = p ++ drop_spaces cs.
Proof.
  induction cs as [|x cs [p IH]]; cbn [drop_spaces]; [by exists []|]. case_decide; [|by exists []].
  exists (x :: p). cbn. by rewrite <-IH.
Qed.

Lemma TrimSpace_ok s : bytes_ok s → bytes_ok (TrimSpace s).
Proof.
  intros Hs. destruct (chunks_spec s Hs) as (_ & Ht & _). unfold TrimSpace. fold (chunks s).
  destruct (drop_spaces_suffix (chunks s)) as [p Hp]. set (d := drop_spaces (chunks s)) in *.
  destruct (drop_spaces_suffix (reverse d)) as [q Hq]. set (e := drop_spaces (reverse d)) in *.
  assert (chunks s = p ++ reverse e ++ reverse q) as Hc.
  { rewrite Hp, <-reverse_app, <-Hq, reverse_involutive. done. }
  change (bytes_ok (text_of (reverse e))). rewrite Hc in Ht. unfold text_of in *.
  rewrite !fmap_app, !concat_app in Ht. rewrite <-Ht in Hs. apply bytes_ok_app in Hs as [_ Hs]. by apply bytes_ok_app in Hs as [? _].
Qed.

(** C19: the receipt parser is the one its regular expressions define.  On every string,
    also one that is not valid UTF-8, the byte matchers find what the three patterns of
    the source find under package regexp's leftmost-first semantics, rune by rune. *)
Theorem ParseDLRReceipt_regexp text : bytes_ok text → ParseDLRReceipt text = ParseDLRReceipt_ref text.
Proof.
  intros Htext. unfold ParseDLRReceipt, ParseDLRReceipt_ref. cbv zeta.
  pose proof (TrimSpace_ok text Htext) as Hs. revert Hs. generalize (TrimSpace text). clear text Htext. intros s Hs.
  case_decide; [done|]. destruct (chunks_spec s Hs) as (Hg & Ht & Hr).
  assert (∀ c lit, Forall ascii (c :: lit) → find_first (field_at (c :: lit)) s = FindSubmatch (field_re (c :: lit)) s) as Hf.
  { intros c lit Hc. unfold FindSubmatch. rewrite <-field_leftmost by done. by rewrite Ht. }
  rewrite id_compiled, err_compiled, stat_compiled. cbn [mbind option_bind].
  assert (dlrIDRegex s = FindSubmatch (field_re (str "id:")) s) as ->.
  { apply (Hf 105 [100; 58]). repeat constructor; unfold ascii; lia. }
  assert (dlrErrRegex s = FindSubmatch (field_re (str "err:")) s) as ->.
  { apply (Hf 101 [114; 114; 58]). repeat constructor; unfold ascii; lia. }
  fold (field_re (str "id:")) (field_re (str "err:")). fold letters. fold (stat_re (str "stat:")).
  destruct (FindSubmatch (field_re (str "id:")) s) as [id|]; [|done]. f_equal. f_equal.
  rewrite <-Hr, stat_leftmost. unfold FindSubmatch.
  destruct (leftmost (stat_re (str "stat:")) (chunks s)) as [g|] eqn:E; [|done]. cbn [fmap option_fmap option_map].
  by rewrite letters_text by by eapply leftmost_letters.
Qed.

Lemma ParseDLRReceipt_regexp_witness :
  bytes_ok dlr_example ∧ ParseDLRReceipt_ref dlr_example = Some (mkReceipt (str "SMSC-42") (str "DELIVRD") (str "000")).
Proof.
  assert (bytes_ok dlr_example) as Hb by apply str_ok. split; [exact Hb|].
  rewrite <-(ParseDLRReceipt_regexp dlr_example Hb). vm_compute. reflexivity.
Defined.
