(* ===== verification/Connection.v ===== *)
(** * Northbound sessions (gateway/connection.go)

    An engine's session with the gateway: the bind, the dispatch of its PDUs, the
    deliver_sm acknowledgements it owes, its submit rate, and the functions on
    submit_sm and deliver_sm bodies the gateway uses.

    The remote IP address, which [extractIP] takes from the socket, is a field; PDUs
    written to the socket are collected in [cn_written] as long as it is open. *)

From Stdlib Require Import QArith.
From S2P Require Import Prelude Constants Tlv Pdu Operations PduFields.

Local Open Scope Z_scope.

(** ** gateway/conn_config.go: the configuration of an engine *)

(** A [SourceAddrMode] is a string; one that is none of these means passthrough. *)
Definition SourceAddrModePassthrough : bytes := str "passthrough".
Definition SourceAddrModeDefault : bytes := str "default".
Definition SourceAddrModeOverride : bytes := str "override".
Definition SourceAddrModeWhitelist : bytes := str "whitelist".

Record ConnectionConfig := mkConnConfig {
  cc_SystemID : bytes; cc_Password : bytes; cc_Description : bytes; cc_Enabled : bool;
  cc_AllowedIPs : list bytes; cc_MaxTPS : Z; cc_CostPerSMS : Q; cc_AllowedPrefixes : list bytes;
  cc_DefaultSourceAddr : bytes; cc_DefaultSourceTON : Z; cc_DefaultSourceNPI : Z;
  cc_SourceAddrMode : bytes; cc_ForceSourceAddr : bytes; cc_ForceSourceTON : Z;
  cc_ForceSourceNPI : Z; cc_AllowedSourceAddrs : list bytes; cc_MaxBinds : Z;
  cc_AllowedBindModes : list bytes; cc_CreatedAt : Z; cc_UpdatedAt : Z
}.

(** What [ConnectionConfigStore.Authenticate] answers: a configuration, an error
    (wrong password, disabled account, unreadable record), or neither. *)
Inductive auth_answer := AuthOK (cfg : ConnectionConfig) | AuthError | AuthUnknown.

Record BindConfig := mkBindConfig {
  bc_Password : bytes; bc_AllowedEngines : list bytes; bc_ServerSystemID : bytes;
  bc_SMPPVersion : bytes; bc_Authenticate : option (bytes → bytes → auth_answer)
}.

(** ** The session *)

Record Connection := mkConnection {
  cn_ID : bytes; cn_SystemID : bytes; cn_BindMode : BindMode; cn_bound : bool;
  cn_seqNum : Z; cn_remoteIP : bytes; cn_open : bool; cn_written : list PDU;
  cn_pending : gmap Z nat; cn_chans : list (option Z);
  cn_submitCount : Z; cn_tpsWindow : Z; cn_tpsCount : Z; cn_inFlight : Z;
  cn_connConfig : option ConnectionConfig
}.

Definition NewConnection (id remoteIP : bytes) : Connection :=
  mkConnection id [] BindTransceiver false 0 remoteIP true [] ∅ [] 0 0 0 0 None.

Definition cn_with_bind (c : Connection) (systemID : bytes) (mode : BindMode) : Connection :=
  mkConnection (cn_ID c) systemID mode (cn_bound c) (cn_seqNum c) (cn_remoteIP c) (cn_open c)
    (cn_written c) (cn_pending c) (cn_chans c) (cn_submitCount c) (cn_tpsWindow c)
    (cn_tpsCount c) (cn_inFlight c) (cn_connConfig c).
Definition cn_with_config (c : Connection) (cfg : option ConnectionConfig) : Connection :=
  mkConnection (cn_ID c) (cn_SystemID c) (cn_BindMode c) (cn_bound c) (cn_seqNum c)
    (cn_remoteIP c) (cn_open c) (cn_written c) (cn_pending c) (cn_chans c) (cn_submitCount c)
    (cn_tpsWindow c) (cn_tpsCount c) (cn_inFlight c) cfg.
Definition cn_with_bound (c : Connection) (bound : bool) : Connection :=
  mkConnection (cn_ID c) (cn_SystemID c) (cn_BindMode c) bound (cn_seqNum c) (cn_remoteIP c)
    (cn_open c) (cn_written c) (cn_pending c) (cn_chans c) (cn_submitCount c) (cn_tpsWindow c)
    (cn_tpsCount c) (cn_inFlight c) (cn_connConfig c).
Definition cn_with_written (c : Connection) (w : list PDU) : Connection :=
  mkConnection (cn_ID c) (cn_SystemID c) (cn_BindMode c) (cn_bound c) (cn_seqNum c)
    (cn_remoteIP c) (cn_open c) w (cn_pending c) (cn_chans c) (cn_submitCount c) (cn_tpsWindow c)
    (cn_tpsCount c) (cn_inFlight c) (cn_connConfig c).
Definition cn_with_pending (c : Connection) (p : gmap Z nat) (ch : list (option Z)) : Connection :=
  mkConnection (cn_ID c) (cn_SystemID c) (cn_BindMode c) (cn_bound c) (cn_seqNum c)
    (cn_remoteIP c) (cn_open c) (cn_written c) p ch (cn_submitCount c) (cn_tpsWindow c)
    (cn_tpsCount c) (cn_inFlight c) (cn_connConfig c).
Definition cn_with_tps (c : Connection) (count window tps : Z) : Connection :=
  mkConnection (cn_ID c) (cn_SystemID c) (cn_BindMode c) (cn_bound c) (cn_seqNum c)
    (cn_remoteIP c) (cn_open c) (cn_written c) (cn_pending c) (cn_chans c) count window tps
    (cn_inFlight c) (cn_connConfig c).
Definition cn_with_inFlight (c : Connection) (n : Z) : Connection :=
  mkConnection (cn_ID c) (cn_SystemID c) (cn_BindMode c) (cn_bound c) (cn_seqNum c)
    (cn_remoteIP c) (cn_open c) (cn_written c) (cn_pending c) (cn_chans c) (cn_submitCount c)
    (cn_tpsWindow c) (cn_tpsCount c) n (cn_connConfig c).
Definition cn_with_open (c : Connection) (open : bool) : Connection :=
  mkConnection (cn_ID c) (cn_SystemID c) (cn_BindMode c) (cn_bound c) (cn_seqNum c)
    (cn_remoteIP c) open (cn_written c) (cn_pending c) (cn_chans c) (cn_submitCount c)
    (cn_tpsWindow c) (cn_tpsCount c) (cn_inFlight c) (cn_connConfig c).
Definition cn_with_seq (c : Connection) (seq : Z) : Connection :=
  mkConnection (cn_ID c) (cn_SystemID c) (cn_BindMode c) (cn_bound c) seq
    (cn_remoteIP c) (cn_open c) (cn_written c) (cn_pending c) (cn_chans c) (cn_submitCount c)
    (cn_tpsWindow c) (cn_tpsCount c) (cn_inFlight c) (cn_connConfig c).

Definition WritePDU (pdu : PDU) (c : Connection) : Connection * bool :=
  if cn_open c then (cn_with_written c (cn_written c ++ [pdu]), true) else (c, false).

Definition sendResponse (cmdID status seqNum : Z) (body : bytes) (c : Connection) : Connection :=
  (WritePDU (mkPDU 0 cmdID status seqNum body None) c).1.

Definition SendSubmitSMResp (seqNum status : Z) (messageID : bytes) (c : Connection) : Connection :=
  sendResponse CmdSubmitSMResp status seqNum (WriteCStringBytes messageID) c.

Definition RegisterDeliverWait (seqNum : Z) (c : Connection) : nat * Connection :=
  let ch := length (cn_chans c) in
  (ch, cn_with_pending c (<[seqNum := ch]> (cn_pending c)) (cn_chans c ++ [None])).

(** The send on the channel, which has room for one status, blocks when the channel
    is full: [None]. *)
Definition ResolveDeliverResp (seqNum status : Z) (c : Connection) : option Connection :=
  match cn_pending c !! seqNum with
  | None => Some c
  | Some ch =>
      match cn_chans c !! ch with
      | Some None => Some (cn_with_pending c (delete seqNum (cn_pending c)) (<[ch := Some status]> (cn_chans c)))
      | _ => None
      end
  end.

Definition Connection_Close (c : Connection) : Connection := cn_with_open c false.
Definition Connection_IsBound (c : Connection) : bool := cn_bound c.

(** [now] is the Unix time in seconds. *)
Definition RecordSubmit (now : Z) (c : Connection) : Connection :=
  let count := u64 (cn_submitCount c + 1) in
  if decide (now ≠ cn_tpsWindow c) then cn_with_tps c count now 1
  else cn_with_tps c count (cn_tpsWindow c) (u64 (cn_tpsCount c + 1)).

Definition CurrentTPS (now : Z) (c : Connection) : Z :=
  if decide (cn_tpsWindow c = now) then cn_tpsCount c else 0.

Definition InFlightAdd (delta : Z) (c : Connection) : Connection :=
  cn_with_inFlight c (i32 (cn_inFlight c + delta)).

Definition Connection_ConnConfig (c : Connection) : option ConnectionConfig := cn_connConfig c.
Definition Connection_TotalSubmits (c : Connection) : Z := cn_submitCount c.
Definition InFlightCount (c : Connection) : Z := cn_inFlight c.

(** The sequence number, [None] when the write fails. *)
Definition SendDeliverSM (body : bytes) (c : Connection) : Connection * option Z :=
  let seq := u32 (cn_seqNum c + 1) in
  let '(c, ok) := WritePDU (mkPDU 0 CmdDeliverSM StatusOK seq body None) (cn_with_seq c seq) in
  (c, if ok : bool then Some seq else None).

(** The last [k] digits of "%X". *)
Fixpoint hex_digits (k : nat) (n : Z) : bytes :=
  match k with
  | O => []
  | S k => let d := Z.modulo n 16 in hex_digits k (Z.div n 16) ++ [if decide (d < 10) then 48 + d else 55 + d]
  end.

Definition FormatError (status : Z) : bytes :=
  if decide (status = StatusOK) then str "OK"
  else if decide (status = StatusInvBnd) then str "invalid bind"
  else if decide (status = StatusSysErr) then str "system error"
  else if decide (status = StatusThrottled) then str "throttled"
  else if decide (status = StatusMsgQFull) then str "message queue full"
  else if decide (status = StatusSubmitFail) then str "submit failed"
  else str "status 0x" ++ hex_digits 8 status.

(** ** Binding *)

Definition gw_bindRespCommandID (cmdID : Z) : Z :=
  if decide (cmdID = CmdBindTransmitter) then CmdBindTransmitterResp
  else if decide (cmdID = CmdBindReceiver) then CmdBindReceiverResp
  else CmdBindTransceiverResp.

Definition bindModeFromCommandID (cmdID : Z) : BindMode :=
  if decide (cmdID = CmdBindTransmitter) then BindTransmitter
  else if decide (cmdID = CmdBindReceiver) then BindReceiver
  else BindTransceiver.

Definition bindModeName (mode : BindMode) : bytes :=
  match mode with
  | BindTransmitter => str "transmitter"
  | BindReceiver => str "receiver"
  | BindTransceiver => str "transceiver"
  end.

(** A white list: empty allows all. *)
Definition allowed (l : list bytes) (x : bytes) : bool :=
  bool_decide (l = []) || bool_decide (x ∈ l).

(** The checks of a bind: the status to reject with, or the configuration the
    session gets. *)
Definition check_bind (cfg : BindConfig) (remoteIP systemID password : bytes) (mode : BindMode) :
    Z + option ConnectionConfig :=
  match bc_Authenticate cfg with
  | Some auth =>
      match auth systemID password with
      | AuthOK connCfg =>
          if negb (allowed (cc_AllowedIPs connCfg) remoteIP) then inl StatusInvBnd
          else if negb (allowed (cc_AllowedBindModes connCfg) (bindModeName mode)) then inl StatusInvBnd
          else inr (Some connCfg)
      | AuthError => inl StatusInvPaswd
      | AuthUnknown => inl StatusInvBnd
      end
  | None =>
      if bool_decide (bc_Password cfg ≠ []) && bool_decide (password ≠ bc_Password cfg)
      then inl StatusInvBnd
      else if negb (allowed (bc_AllowedEngines cfg) systemID) then inl StatusInvBnd
      else inr None
  end.

Definition bind_resp_body (cfg : BindConfig) : bytes :=
  let serverID := if decide (bc_ServerSystemID cfg = []) then str "SMSCGW" else bc_ServerSystemID cfg in
  let respBody := WriteCStringBytes serverID in
  if decide (bc_SMPPVersion cfg = str "5.0") then
    respBody ++ TLVSet_Encode (TLVSet_SetUint8 ∅ TagSCInterfaceVersion 0x50)
  else respBody.

Definition handleBind (pdu : PDU) (cfg : BindConfig) (c : Connection) : Connection * bool :=
  let '(systemID, offset) := ReadCString (Body pdu) 0 in
  let '(password, _) := ReadCString (Body pdu) offset in
  let respCmdID := gw_bindRespCommandID (CommandID pdu) in
  let c := cn_with_bind c systemID (bindModeFromCommandID (CommandID pdu)) in
  match check_bind cfg (cn_remoteIP c) systemID password (cn_BindMode c) with
  | inl status => (sendResponse respCmdID status (SequenceNumber pdu) [0] c, false)
  | inr connCfg =>
      let c := match connCfg with Some _ => cn_with_config c connCfg | None => c end in
      let c := sendResponse respCmdID StatusOK (SequenceNumber pdu) (bind_resp_body cfg) c in
      (cn_with_bound c true, true)
  end.

(** ** The read loop *)

(** The callbacks it makes. *)
Inductive conn_event :=
| OnBind (systemID : bytes)
| OnSubmit (connID : bytes) (seqNum : Z) (body : bytes)
| OnDeliverResp (connID : bytes) (seqNum status : Z).

(** One PDU; the last component is false when the loop returns. *)
Definition conn_dispatch (cfg : BindConfig) (pdu : PDU) (c : Connection) :
    Connection * list conn_event * bool :=
  if decide (CommandID pdu = CmdBindTransceiver ∨ CommandID pdu = CmdBindTransmitter ∨
             CommandID pdu = CmdBindReceiver) then
    let '(c, ok) := handleBind pdu cfg c in
    (c, if ok : bool then [OnBind (cn_SystemID c)] else [], true)
  else if decide (CommandID pdu = CmdSubmitSM) then
    if negb (cn_bound c) then
      (sendResponse CmdSubmitSMResp StatusInvBnd (SequenceNumber pdu) [0] c, [], true)
    else (c, [OnSubmit (cn_ID c) (SequenceNumber pdu) (Body pdu)], true)
  else if decide (CommandID pdu = CmdEnquireLink) then
    (sendResponse CmdEnquireLinkResp StatusOK (SequenceNumber pdu) [] c, [], true)
  else if decide (CommandID pdu = CmdDeliverSMResp) then
    (c, [OnDeliverResp (cn_ID c) (SequenceNumber pdu) (CommandStatus pdu)], true)
  else if decide (CommandID pdu = CmdUnbind) then
    (sendResponse CmdUnbindResp StatusOK (SequenceNumber pdu) [] c, [], false)
  else (sendResponse CmdGenericNack StatusInvCmdID (SequenceNumber pdu) [] c, [], true).

(** ** submit_sm and deliver_sm bodies *)

Definition ParseSubmitSMAddresses (body : bytes) : bytes * bytes :=
  let n := length body in
  if decide (n = O) then ([], [])
  else
    let offset := (ReadCString body 0).2 in
    if decide (n <= offset)%nat then ([], []) else
    let offset := S offset in
    if decide (n <= offset)%nat then ([], []) else
    let offset := S offset in
    let '(sourceAddr, offset) := ReadCString body offset in
    if decide (n <= offset)%nat then (sourceAddr, []) else
    let offset := S offset in
    if decide (n <= offset)%nat then (sourceAddr, []) else
    let offset := S offset in
    (sourceAddr, (ReadCString body offset).1).

Definition RewriteSubmitSMSource (body newAddr : bytes) (newTON newNPI : Z) : bytes :=
  let n := length body in
  if decide (n = O) then body
  else
    let offset := (ReadCString body 0).2 in
    if decide (n <= offset)%nat then body else
    let serviceTypeEnd := offset in
    if decide (n < offset + 2)%nat then body else
    let offset := (offset + 2)%nat in
    let offset := (ReadCString body offset).2 in
    if decide (n < offset)%nat then body else
    let sourceAddrEnd := offset in
    take serviceTypeEnd body ++ [newTON; newNPI] ++ newAddr ++ [0] ++ drop sourceAddrEnd body.

Definition appendCString (buf s : bytes) : bytes := (buf ++ s) ++ [0].

Definition BuildDeliverSMBody (sourceAddr destAddr : bytes) (esmClass : Z) (shortMessage : bytes) : bytes :=
  let buf := appendCString [] [] in
  let buf := buf ++ [0; 0] in
  let buf := appendCString buf sourceAddr in
  let buf := buf ++ [1; 1] in
  let buf := appendCString buf destAddr in
  let buf := buf ++ [esmClass] in
  let buf := buf ++ [0] in
  let buf := buf ++ [0] in
  let buf := appendCString buf [] in
  let buf := appendCString buf [] in
  let buf := buf ++ [0] in
  let buf := buf ++ [0] in
  let buf := buf ++ [0] in
  let buf := buf ++ [0] in
  if decide (254 < length shortMessage)%nat then
    let buf := buf ++ [0] in
    let buf := buf ++ [0x04; 0x24] in
    let buf := buf ++ PutUint16 (u16 (zlen shortMessage)) in
    buf ++ shortMessage
  else
    let buf := buf ++ [u8 (zlen shortMessage)] in
    buf ++ shortMessage.

Definition BuildSubmitSMBody (sourceAddr destAddr message : bytes) : bytes :=
  let buf := appendCString [] [] in
  let buf := buf ++ [0; 0] in
  let buf := appendCString buf sourceAddr in
  let buf := buf ++ [1; 1] in
  let buf := appendCString buf destAddr in
  let buf := buf ++ [0] in
  let buf := buf ++ [0] in
  let buf := buf ++ [0] in
  let buf := appendCString buf [] in
  let buf := appendCString buf [] in
  let buf := buf ++ [1] in
  let buf := buf ++ [0] in
  let buf := buf ++ [0] in
  let buf := buf ++ [0] in
  if decide (254 < length message)%nat then
    let buf := buf ++ [0] in
    let buf := buf ++ [0x04; 0x24] in
    let buf := buf ++ PutUint16 (u16 (zlen message)) in
    buf ++ message
  else
    let buf := buf ++ [u8 (zlen message)] in
    buf ++ message.

Definition ParseBindTransceiver (body : bytes) : bytes * bytes :=
  let '(systemID, offset) := ReadCString body 0 in
  (systemID, (ReadCString body offset).1).
Definition EncodeBindTransceiverResp (systemID : bytes) : bytes := WriteCStringBytes systemID.
Definition EncodeSubmitSMResp (messageID : bytes) : bytes := WriteCStringBytes messageID.
Definition ParseSubmitSMRespBody (body : bytes) : bytes :=
  if decide (length body = O) then [] else (ReadCString body 0).1.

(** HandleSubmit's rate limit in gateway/router.go: no limit, or a rejection, or the
    submit is recorded. *)
Definition rate_gate (effectiveTPS now : Z) (c : Connection) : Connection * bool :=
  if decide (0 < effectiveTPS) then
    if decide (effectiveTPS <= CurrentTPS now c) then (c, false) else (RecordSubmit now c, true)
  else (c, true).

(** ** Bodies *)

Lemma ReadCString_rest body o r : At body o r → (ReadCString body o).1 = take (scan_nul r) r.
Proof.
  intros Ha. pose proof (At_length _ _ _ Ha) as Hl. unfold ReadCString. case_decide as Hd; simpl.
  - destruct r; [done|simpl in Hl; lia].
  - unfold slice. rewrite (At_drop _ _ _ Ha). f_equal. lia.
Qed.

(** The destination address in what follows the source address. *)
Definition dest_in (rest : bytes) : bytes :=
  match rest with _ :: _ :: r => take (scan_nul r) r | _ => [] end.

Lemma ParseSubmitSMAddresses_layout svc ston snpi src rest :
  no_nul svc → no_nul src →
  ParseSubmitSMAddresses (svc ++ 0 :: ston :: snpi :: src ++ 0 :: rest) = (src, dest_in rest).
Proof.
  intros Hsvc Hsrc. set (body := svc ++ _). pose proof (At_start body) as Ha. unfold body at 2 in Ha.
  unfold ParseSubmitSMAddresses. rewrite decide_False by (unfold body; len). walk.
  destruct rest as [|t [|n r]].
  - by rewrite decide_True by (apply At_length in Ha; simpl in Ha; lia).
  - walk_step. by rewrite decide_True by (apply At_length in Ha; simpl in Ha; lia).
  - do 2 walk_step. by rewrite (ReadCString_rest _ _ _ Ha).
Qed.

Lemma RewriteSubmitSMSource_layout svc ston snpi src rest newAddr newTON newNPI :
  no_nul svc → no_nul src →
  RewriteSubmitSMSource (svc ++ 0 :: ston :: snpi :: src ++ 0 :: rest) newAddr newTON newNPI =
  svc ++ 0 :: newTON :: newNPI :: newAddr ++ 0 :: rest.
Proof.
  intros Hsvc Hsrc. set (body := svc ++ _). pose proof (At_start body) as Ha. unfold body at 2 in Ha.
  unfold RewriteSubmitSMSource. rewrite decide_False by (unfold body; len).
  walk_step. assert (take (S (0 + length svc)) body = svc ++ [0]) as Htake.
  { unfold body. rewrite (cons_middle 0), app_assoc, take_app_length'; [done|len]. }
  pose proof (At_length _ _ _ Ha) as Hl. simpl in Hl. rewrite length_app in Hl. simpl in Hl.
  rewrite decide_False by lia. rewrite decide_False by lia.
  do 2 (apply At_cons in Ha as (_ & _ & Ha)).
  replace (S (0 + length svc) + 2)%nat with (S (S (S (0 + length svc)))) by lia.
  destruct (ReadCString_At _ _ _ _ Ha Hsrc) as [E Ha']. rewrite E. cbn [snd].
  pose proof (At_length _ _ _ Ha') as Hl'. rewrite decide_False by lia.
  rewrite Htake, (At_drop _ _ _ Ha'), <-app_assoc. done.
Qed.

(** Forcing a source address.  On a submit_sm body whose service type and source
    address are C-strings, [RewriteSubmitSMSource] replaces the source address and
    its TON and NPI and keeps every other byte; the gateway then reads the new source
    and the same destination from the body, and rewriting again changes it no
    further. *)
Theorem RewriteSubmitSMSource_spec svc ston snpi src rest newAddr newTON newNPI :
  no_nul svc → no_nul src → no_nul newAddr →
  let body := svc ++ 0 :: ston :: snpi :: src ++ 0 :: rest in
  let body' := RewriteSubmitSMSource body newAddr newTON newNPI in
  body' = svc ++ 0 :: newTON :: newNPI :: newAddr ++ 0 :: rest ∧
  (ParseSubmitSMAddresses body).1 = src ∧
  ParseSubmitSMAddresses body' = (newAddr, (ParseSubmitSMAddresses body).2) ∧
  RewriteSubmitSMSource body' newAddr newTON newNPI = body'.
Proof.
  intros Hsvc Hsrc Hnew. cbv zeta.
  rewrite !RewriteSubmitSMSource_layout, !ParseSubmitSMAddresses_layout by done. done.
Qed.

Lemma BuildDeliverSMBody_eq sourceAddr destAddr esmClass sm :
  BuildDeliverSMBody sourceAddr destAddr esmClass sm =
  EncodeSubmitSM sourceAddr 0 0 destAddr 1 1 esmClass 0 0 0 sm.
Proof.
  unfold BuildDeliverSMBody, EncodeSubmitSM, writeCString, WriteByte, WriteBytes, appendCString.
  case_decide; rewrite <-!app_assoc; done.
Qed.

Lemma BuildSubmitSMBody_eq sourceAddr destAddr message :
  BuildSubmitSMBody sourceAddr destAddr message =
  EncodeSubmitSM sourceAddr 0 0 destAddr 1 1 0 0 0 1 message.
Proof.
  unfold BuildSubmitSMBody, EncodeSubmitSM, writeCString, WriteByte, WriteBytes, appendCString.
  case_decide; rewrite <-!app_assoc; done.
Qed.

(** The bodies the gateway builds are the library's submit_sm and deliver_sm
    bodies, so the gateway reads the addresses it wrote, and the library's deliver_sm
    parser reads the addresses, the ESM class and a message of at most 254 bytes. *)
Theorem built_bodies sourceAddr destAddr esmClass sm :
  no_nul sourceAddr → no_nul destAddr →
  BuildDeliverSMBody sourceAddr destAddr esmClass sm =
    EncodeSubmitSM sourceAddr 0 0 destAddr 1 1 esmClass 0 0 0 sm ∧
  BuildSubmitSMBody sourceAddr destAddr sm =
    EncodeSubmitSM sourceAddr 0 0 destAddr 1 1 0 0 0 1 sm ∧
  ParseSubmitSMAddresses (BuildSubmitSMBody sourceAddr destAddr sm) = (sourceAddr, destAddr) ∧
  ParseDeliverSM (BuildDeliverSMBody sourceAddr destAddr esmClass sm) =
    (sourceAddr, destAddr, esmClass, if decide (254 < length sm)%nat then [] else sm).
Proof.
  intros Hs Hd. rewrite BuildDeliverSMBody_eq, BuildSubmitSMBody_eq.
  split; [done|]. split; [done|]. split; [|by apply ParseDeliverSM_Encode].
  assert (no_nul []) by (unfold no_nul; set_solver).
  assert (∀ r, dest_in (1 :: 1 :: destAddr ++ 0 :: r) = destAddr) as Hdest.
  { intros r. simpl. rewrite scan_nul_app by done. apply take_app_length. }
  rewrite EncodeSubmitSM_layout. unfold sm_body.
  case_decide; rewrite ParseSubmitSMAddresses_layout by done; by rewrite Hdest.
Qed.

(** ** Binding *)

Lemma ReadCString_bind systemID password rest :
  no_nul systemID → no_nul password →
  let body := systemID ++ 0 :: password ++ 0 :: rest in
  ∃ o, ReadCString body 0 = (systemID, o) ∧ (ReadCString body o).1 = password.
Proof.
  intros Hs Hp body. pose proof (At_start body) as Ha. unfold body at 2 in Ha.
  destruct (ReadCString_At _ _ _ _ Ha Hs) as [E Ha']. eexists. split; [exact E|].
  by destruct (ReadCString_At _ _ _ _ Ha' Hp) as [-> _].
Qed.

Lemma sendResponse_open cmdID status seqNum body c :
  cn_open c = true →
  sendResponse cmdID status seqNum body c =
  cn_with_written c (cn_written c ++ [mkPDU 0 cmdID status seqNum body None]).
Proof. unfold sendResponse, WritePDU. by intros ->. Qed.

(** The server's system ID in the bind response. *)
Definition server_id (cfg : BindConfig) : bytes :=
  if decide (bc_ServerSystemID cfg = []) then str "SMSCGW" else bc_ServerSystemID cfg.

Lemma bind_resp_body_parses cfg id :
  no_nul (bc_ServerSystemID cfg) →
  ParseBindResp id (bind_resp_body cfg) =
  (server_id cfg,
   if decide (bc_SMPPVersion cfg = str "5.0")
   then Some (TLVSet_SetUint8 ∅ TagSCInterfaceVersion 0x50) else None).
Proof.
  intros Hn. unfold bind_resp_body. fold (server_id cfg). rewrite WriteCStringBytes_eq.
  assert (no_nul (server_id cfg)) as Hid.
  { unfold server_id. case_decide; [|done]. apply (bool_decide_unpack _). vm_compute. exact I. }
  case_decide; [|by apply ParseBindResp_plain].
  rewrite <-app_assoc. apply ParseBindResp_tlvs; [done| |].
  - apply (bool_decide_unpack _). vm_compute. exact I.
  - apply (bool_decide_unpack _). vm_compute. exact I.
Qed.

(** What a bind must satisfy to be accepted, and the configuration it then has. *)
Definition bind_accepted (cfg : BindConfig) (remoteIP systemID password : bytes) (mode : BindMode)
    (connCfg : option ConnectionConfig) : Prop :=
  match bc_Authenticate cfg with
  | Some auth => ∃ cc, auth systemID password = AuthOK cc ∧ connCfg = Some cc ∧
      (cc_AllowedIPs cc = [] ∨ remoteIP ∈ cc_AllowedIPs cc) ∧
      (cc_AllowedBindModes cc = [] ∨ bindModeName mode ∈ cc_AllowedBindModes cc)
  | None => connCfg = None ∧ (bc_Password cfg = [] ∨ password = bc_Password cfg) ∧
      (bc_AllowedEngines cfg = [] ∨ systemID ∈ bc_AllowedEngines cfg)
  end.

Lemma allowed_spec l x : allowed l x = true ↔ l = [] ∨ x ∈ l.
Proof. unfold allowed. by rewrite orb_true_iff, !bool_decide_eq_true. Qed.

Lemma check_bind_spec cfg ip systemID password mode connCfg :
  check_bind cfg ip systemID password mode = inr connCfg ↔
  bind_accepted cfg ip systemID password mode connCfg.
Proof.
  unfold check_bind, bind_accepted. destruct (bc_Authenticate cfg) as [auth|].
  - destruct (auth systemID password) as [cc| |]; [|naive_solver..].
    destruct (allowed (cc_AllowedIPs cc) ip) eqn:E1; simpl;
      [|split; [done|]; intros (cc' & [= <-] & _ & H%allowed_spec & _); congruence].
    destruct (allowed (cc_AllowedBindModes cc) (bindModeName mode)) eqn:E2; simpl;
      [|split; [done|]; intros (cc' & [= <-] & _ & _ & H%allowed_spec); congruence].
    apply allowed_spec in E1, E2. naive_solver.
  - destruct (bool_decide (bc_Password cfg ≠ []) && _) eqn:E1.
    + apply andb_true_iff in E1 as [H1%bool_decide_eq_true H2%bool_decide_eq_true]. naive_solver.
    + apply andb_false_iff in E1. rewrite !bool_decide_eq_false in E1.
      destruct (allowed (bc_AllowedEngines cfg) systemID) eqn:E2; simpl.
      * apply allowed_spec in E2. split; [intros [= <-]|naive_solver]. split; [done|]. split; [|done].
        destruct E1 as [E1|E1]; [left|right]; by apply dec_stable.
      * split; [done|]. intros (_ & _ & H%allowed_spec). congruence.
Qed.

Lemma check_bind_status cfg ip systemID password mode status :
  check_bind cfg ip systemID password mode = inl status → status ≠ StatusOK.
Proof. unfold check_bind. intros E Hs. subst status. case_all; discriminate. Qed.

(** C32: a bind.  On an open session the gateway writes exactly one bind response, with
    the request's sequence number and the response command of its bind mode.  It is
    StatusOK, and the session bound with the configuration found, exactly when the
    system ID and password authenticate and the IP and bind mode (or, without a
    configuration store, the system ID) are allowed; otherwise the status is an error
    and the session's bound state and configuration stay as they were.  The accepted
    response carries the server's ID, and the version TLV when 5.0 is configured. *)
Theorem handleBind_decides cfg c cl id st seq tlvs systemID password rest :
  cn_open c = true → no_nul systemID → no_nul password → no_nul (bc_ServerSystemID cfg) →
  let pdu := mkPDU cl id st seq (systemID ++ 0 :: password ++ 0 :: rest) tlvs in
  let '(c', ok) := handleBind pdu cfg c in
  ∃ status body,
    cn_written c' = cn_written c ++ [mkPDU 0 (gw_bindRespCommandID id) status seq body None] ∧
    (ok = true ↔ status = StatusOK) ∧
    (ok = true ↔ ∃ cc, bind_accepted cfg (cn_remoteIP c) systemID password (bindModeFromCommandID id) cc) ∧
    cn_bound c' = (ok || cn_bound c) ∧ cn_ID c' = cn_ID c ∧
    (ok = false → cn_connConfig c' = cn_connConfig c) ∧
    (∀ cc, bind_accepted cfg (cn_remoteIP c) systemID password (bindModeFromCommandID id) cc →
       cn_connConfig c' = match cc with Some _ => cc | None => cn_connConfig c end) ∧
    (ok = true → ParseBindResp (gw_bindRespCommandID id) body =
      (server_id cfg, if decide (bc_SMPPVersion cfg = str "5.0")
        then Some (TLVSet_SetUint8 ∅ TagSCInterfaceVersion 0x50) else None)).
Proof.
  intros Ho Hs Hp Hn. cbv zeta.
  destruct (ReadCString_bind systemID password rest Hs Hp) as (o & E1 & E2).
  unfold handleBind. cbn [Body CommandID SequenceNumber].
  rewrite E1. destruct (ReadCString _ o) as [pw o']. simpl in E2. subst pw. cbn [cn_remoteIP cn_BindMode cn_with_bind].
  destruct (check_bind _ _ _ _ _) as [status|connCfg] eqn:E.
  - rewrite sendResponse_open by done. exists status, [0].
    assert (∀ cc, ¬ bind_accepted cfg (cn_remoteIP c) systemID password (bindModeFromCommandID id) cc) as Hno.
    { intros cc H%check_bind_spec. congruence. }
    apply check_bind_status in E. split_and!; try done; naive_solver.
  - assert (∀ cc, bind_accepted cfg (cn_remoteIP c) systemID password (bindModeFromCommandID id) cc → cc = connCfg) as Hu.
    { intros cc H%check_bind_spec. congruence. }
    apply check_bind_spec in E. exists StatusOK, (bind_resp_body cfg).
    rewrite sendResponse_open by (by destruct connCfg).
    split_and!; [by destruct connCfg|done|naive_solver|done|by destruct connCfg|done| |].
    + intros cc Hcc. rewrite (Hu cc Hcc). by destruct connCfg.
    + intros _. by apply bind_resp_body_parses.
Qed.

(** ** The read loop *)

(** [react] is what the callbacks (the server and the router) do to the session. *)
Fixpoint conn_run (react : conn_event → Connection → Connection) (cfg : BindConfig)
    (pdus : list PDU) (c : Connection) : Connection * list conn_event :=
  match pdus with
  | [] => (c, [])
  | pdu :: pdus =>
      let '(c, evs, continue) := conn_dispatch cfg pdu c in
      let c := foldl (λ c e, react e c) c evs in
      if continue : bool then
        let '(c, evs') := conn_run react cfg pdus c in (c, evs ++ evs')
      else (c, evs)
  end.

(** The loop over the bytes the engine sends. *)
Definition Connection_ReadLoop react cfg (stream : bytes) (c : Connection) : Connection * list conn_event :=
  conn_run react cfg (read_pdus (S (length stream)) stream) c.

Definition is_bind_event (e : conn_event) : Prop := match e with OnBind _ => True | _ => False end.
Definition is_submit_event (e : conn_event) : Prop := match e with OnSubmit _ _ _ => True | _ => False end.
#[export] Instance is_bind_event_dec e : Decision (is_bind_event e).
Proof. destruct e; apply _. Defined.

Lemma handleBind_bound pdu cfg c :
  cn_bound (handleBind pdu cfg c).1 = ((handleBind pdu cfg c).2 || cn_bound c).
Proof.
  unfold handleBind. destruct (ReadCString _ 0) as [s o]. destruct (ReadCString _ o) as [p o'].
  unfold sendResponse, WritePDU. destruct (check_bind _ _ _ _ _) as [st|cc]; simpl.
  - by destruct (cn_open c).
  - done.
Qed.

Lemma handleBind_written pdu cfg c :
  cn_open c = true → ∃ p, cn_written (handleBind pdu cfg c).1 = cn_written c ++ [p] ∧
    SequenceNumber p = SequenceNumber pdu.
Proof.
  intros Ho. unfold handleBind. destruct (ReadCString _ 0) as [s o]. destruct (ReadCString _ o) as [p o'].
  destruct (check_bind _ _ _ _ _) as [st|cc].
  - rewrite sendResponse_open by done. simpl. eauto.
  - rewrite sendResponse_open by (by destruct cc). destruct cc; simpl; eauto.
Qed.

(** The session is bound after one PDU only if it was before or the bind succeeded,
    and a submit is handed on only by a bound session. *)
Lemma conn_dispatch_bound cfg pdu c :
  let '(c', evs, _) := conn_dispatch cfg pdu c in
  (cn_bound c' = true → cn_bound c = true ∨ Exists is_bind_event evs) ∧
  (∀ e, e ∈ evs → is_submit_event e → cn_bound c = true ∧ evs = [e]).
Proof.
  unfold conn_dispatch.
  case_decide as H1.
  { pose proof (handleBind_bound pdu cfg c) as Hb. destruct (handleBind pdu cfg c) as [c' [|]]; simpl in *.
    - split; [intros _; right; by constructor|]. by intros e ->%list_elem_of_singleton.
    - rewrite Hb. split; [by left|]. by intros e ?%elem_of_nil. }
  unfold sendResponse, WritePDU.
  repeat case_decide; destruct (cn_bound c) eqn:Hb, (cn_open c); simpl; rewrite ?Hb;
    (split; [by (left + (intros; done))|]);
    intros e He; first [by apply elem_of_nil in He | apply list_elem_of_singleton in He as ->; done].
Qed.

(** Two different command identifiers. *)
Ltac cmd_clash :=
  intros; exfalso;
  match goal with
  | H : CommandID ?p = _, H' : CommandID ?p = _ |- _ => rewrite H in H'; discriminate H'
  end.

(** C31: an engine's session.  On an open session the loop answers each PDU with exactly
    one PDU of the same sequence number, or hands it on in exactly one callback: a
    submit_sm of a bound session, with its body unchanged, or a deliver_sm_resp; an
    unbind, and nothing else, ends the loop.  Whatever the callbacks do short of
    binding, no submit_sm is handed on before a bind has succeeded. *)
Theorem session_protocol react cfg stream c :
  cn_bound c = false → (∀ e c, cn_bound (react e c) = cn_bound c) →
  (∀ pdu c, cn_open c = true →
    let '(c', evs, continue) := conn_dispatch cfg pdu c in
    (continue = false ↔ CommandID pdu = CmdUnbind) ∧
    ((∃ p, cn_written c' = cn_written c ++ [p] ∧ SequenceNumber p = SequenceNumber pdu ∧
        Forall is_bind_event evs) ∨
     (c' = c ∧ CommandID pdu = CmdSubmitSM ∧ cn_bound c = true ∧
        evs = [OnSubmit (cn_ID c) (SequenceNumber pdu) (Body pdu)]) ∨
     (c' = c ∧ CommandID pdu = CmdDeliverSMResp ∧
        evs = [OnDeliverResp (cn_ID c) (SequenceNumber pdu) (CommandStatus pdu)]))) ∧
  ∀ pre id seq body post,
    (Connection_ReadLoop react cfg stream c).2 = pre ++ OnSubmit id seq body :: post →
    Exists is_bind_event pre.
Proof.
  intros Hc Hr. split.
  - clear Hc Hr c. intros pdu c Ho. unfold conn_dispatch.
    case_decide as H1.
    { pose proof (handleBind_written pdu cfg c Ho) as (p & Hw & Hs).
      destruct (handleBind pdu cfg c) as [c' [|]]; simpl in *; (split; [split; [done|]|left; exists p;
        split_and!; [done..|repeat constructor]]); intros E; rewrite E in H1; by destruct H1 as [?|[?|?]]. }
    rewrite !sendResponse_open by done.
    case_decide as H2.
    { destruct (cn_bound c) eqn:Hb; simpl; (split; [split; [done|cmd_clash]|]);
        [right; left; done|left; eexists; split_and!; [done..|constructor]]. }
    case_decide as H3.
    { split; [split; [done|cmd_clash]|]. left. eexists. split_and!; [done..|constructor]. }
    case_decide as H4.
    { split; [split; [done|cmd_clash]|]. right. by right. }
    case_decide as H5; (split; [split; done|]); left; eexists; split_and!; [done..|constructor|done|done|constructor].
  - unfold Connection_ReadLoop. generalize (read_pdus (S (length stream)) stream). intros pdus.
    revert c Hc. induction pdus as [|pdu pdus IH]; intros c Hc pre id seq body post E; simpl in E.
    { by destruct pre. }
    pose proof (conn_dispatch_bound cfg pdu c) as Hd.
    destruct (conn_dispatch cfg pdu c) as [[c' evs] continue]. destruct Hd as [Hb Hs].
    assert (∀ e, e ∈ evs → ¬ is_submit_event e) as Hns.
    { intros e He Hse. destruct (Hs e He Hse). congruence. }
    assert (∀ c, cn_bound (foldl (λ c e, react e c) c evs) = cn_bound c) as Hfold.
    { clear -Hr. induction evs as [|e evs IH]; intros c; simpl; [done|]. by rewrite IH, Hr. }
    destruct continue.
    2: { exfalso. simpl in E. apply (Hns (OnSubmit id seq body)); [|done]. rewrite E. set_solver. }
    specialize (IH (foldl (λ c e, react e c) c' evs)).
    destruct (conn_run react cfg pdus _) as [c'' evs']. simpl in *.
    apply app_eq_app in E as [k [[-> E]|[-> E]]].
    + destruct k as [|e k]; simpl in E.
      * rewrite app_nil_r in *. destruct (cn_bound c') eqn:Ec'.
        { destruct (Hb eq_refl) as [?|?]; [congruence|done]. }
        assert (Exists is_bind_event []) as Habs%Exists_nil; [|done].
        by apply (IH ltac:(by rewrite Hfold) [] id seq body post).
      * injection E as <- _. exfalso. apply (Hns (OnSubmit id seq body)); [set_solver|done].
    + apply Exists_app. destruct (cn_bound c') eqn:Ec'.
      { destruct (Hb eq_refl) as [?|?]; [congruence|by left]. }
      right. by apply (IH ltac:(by rewrite Hfold) k id seq body post).
Qed.

(** ** The rate limit *)

(** The submits of a session at the times [ts] (in seconds): which are admitted. *)
Fixpoint gate_run (effectiveTPS : Z) (ts : list Z) (c : Connection) : list (Z * bool) :=
  match ts with
  | [] => []
  | t :: ts => let '(c, ok) := rate_gate effectiveTPS t c in (t, ok) :: gate_run effectiveTPS ts c
  end.

(** How many submits were admitted in second [s]. *)
Definition admitted (s : Z) (out : list (Z * bool)) : nat :=
  length (filter (λ x, x = (s, true)) out).

Lemma admitted_app s out out' : admitted s (out ++ out') = (admitted s out + admitted s out')%nat.
Proof. unfold admitted. by rewrite filter_app, length_app. Qed.

Lemma admitted_one s t ok : admitted s [(t, ok)] = if decide (s = t ∧ ok = true) then 1%nat else 0%nat.
Proof. unfold admitted. cbn [filter list_filter]. repeat case_decide; simpl; naive_solver. Qed.

(** The counters agree with what was admitted, for every second that can still come. *)
Definition gate_inv (limit : Z) (past : list (Z * bool)) (last : Z) (c : Connection) : Prop :=
  cn_tpsWindow c <= last ∧
  (∀ s, last <= s → CurrentTPS s c = Z.of_nat (admitted s past)) ∧
  (∀ s, Z.of_nat (admitted s past) <= limit) ∧ 0 <= cn_tpsCount c <= limit.

Lemma gate_step limit past last t c :
  0 < limit < 2 ^ 63 → gate_inv limit past last c → last <= t →
  let '(c', ok) := rate_gate limit t c in
  gate_inv limit (past ++ [(t, ok)]) t c' ∧
  (ok = false ↔ Z.of_nat (admitted t past) = limit).
Proof.
  intros Hl (Hw & Hcur & Hle & Hk) Ht. unfold rate_gate. rewrite decide_True by lia.
  pose proof (Hcur t Ht) as Ht0. pose proof (Hle t) as Hlt. case_decide as Hd.
  - split; [|split; [intros _; lia|done]]. split; [lia|]. split; [|split; [|done]].
    + intros s Hs. rewrite admitted_app, admitted_one, decide_False by naive_solver.
      rewrite Hcur by lia. lia.
    + intros s. rewrite admitted_app, admitted_one, decide_False by naive_solver. pose proof (Hle s). lia.
  - split; [|split; [done|lia]].
    assert (cn_tpsWindow (RecordSubmit t c) = t ∧
      cn_tpsCount (RecordSubmit t c) = CurrentTPS t c + 1) as [Hw' Hk'].
    { unfold RecordSubmit, CurrentTPS. destruct (decide (cn_tpsWindow c = t)) as [<-|Hne].
      - rewrite decide_False by congruence. split; [done|]. simpl. unfold u64. apply Z.mod_small. lia.
      - rewrite decide_True by congruence. done. }
    split; [lia|]. split; [|split; [|lia]].
    + intros s Hs. unfold CurrentTPS at 1. rewrite Hw', Hk', admitted_app, admitted_one.
      destruct (decide (t = s)) as [<-|Hne].
      * rewrite decide_True by done. lia.
      * rewrite decide_False by naive_solver. rewrite Nat.add_0_r, <-Hcur by lia.
        unfold CurrentTPS. by rewrite decide_False by lia.
    + intros s. rewrite admitted_app, admitted_one. pose proof (Hle s). case_decide as Hs; [|lia].
      destruct Hs as [-> _]. lia.
Qed.

Lemma gate_run_inv limit ts : ∀ past last c,
  0 < limit < 2 ^ 63 → gate_inv limit past last c → StronglySorted Z.le (last :: ts) →
  (∀ s, Z.of_nat (admitted s (past ++ gate_run limit ts c)) <= limit) ∧
  ∀ pre s post, gate_run limit ts c = pre ++ (s, false) :: post →
    Z.of_nat (admitted s (past ++ pre)) = limit.
Proof.
  induction ts as [|t ts IH]; intros past last c Hl Hinv Hs; cbn [gate_run].
  - rewrite app_nil_r. split; [apply Hinv|]. by intros [|].
  - apply StronglySorted_cons in Hs as [Hlast Hs]. apply Forall_cons in Hlast as [Ht _].
    pose proof (gate_step limit past last t c Hl Hinv Ht) as Hstep.
    destruct (rate_gate limit t c) as [c' ok]. destruct Hstep as [Hinv' Hok].
    destruct (IH (past ++ [(t, ok)]) t c' Hl Hinv' Hs) as [Hall Hrej].
    split; [intros s; specialize (Hall s); by rewrite <-app_assoc in Hall|].
    intros [|x pre] s post E; simpl in E.
    + injection E as -> -> _. rewrite app_nil_r. by apply Hok.
    + injection E as <- E. specialize (Hrej pre s post E). by rewrite <-app_assoc in Hrej.
Qed.

(** C33: the rate limit.  For a session whose submits come at times that do not go
    back, no second sees more than the limit admitted, and a submit is rejected only
    when its second has already admitted the limit; without a limit nothing is
    rejected. *)
Theorem rate_limit_exact limit ts id ip :
  limit < 2 ^ 63 → StronglySorted Z.le (0 :: ts) →
  let out := gate_run limit ts (NewConnection id ip) in
  out.*1 = ts ∧
  (0 < limit →
    (∀ s, Z.of_nat (admitted s out) <= limit) ∧
    ∀ pre s post, out = pre ++ (s, false) :: post → Z.of_nat (admitted s pre) = limit) ∧
  (limit <= 0 → Forall (λ x, x.2 = true) out).
Proof.
  intros Hl Hs out. split; [|split].
  - unfold out. clear. generalize (NewConnection id ip). induction ts as [|t ts IH]; intros c; [done|].
    cbn [gate_run]. destruct (rate_gate limit t c) as [c' ok]. cbn [fmap list_fmap]. f_equal. apply IH.
  - intros Hpos. apply (gate_run_inv limit ts [] 0 (NewConnection id ip)); [lia| |done].
    split; [done|]. split; [|split; [intros s; change (admitted s []) with 0%nat; lia|simpl; lia]].
    intros s _. unfold CurrentTPS. simpl. by case_decide.
  - intros Hneg. unfold out. clear -Hneg. generalize (NewConnection id ip).
    induction ts as [|t ts IH]; intros c; cbn [gate_run]; [constructor|].
    unfold rate_gate. rewrite decide_False by lia. constructor; [done|apply IH].
Qed.

(** ** Witnesses *)

Lemma no_nul_ex : no_nul (str "27821234567") ∧ no_nul (str "MyApp") ∧ no_nul (@nil Z).
Proof. split_and!; apply (bool_decide_unpack _); vm_compute; exact I. Qed.

Lemma RewriteSubmitSMSource_spec_witness :
  no_nul (str "MyApp") ∧
  ParseSubmitSMAddresses (RewriteSubmitSMSource ([] ++ 0 :: 0 :: 0 :: str "MyApp" ++ 0 :: 1 :: 1 :: str "44" ++ [0])
    (str "27821234567") 5 0) = (str "27821234567", str "44").
Proof.
  destruct no_nul_ex as (H1 & H2 & H3). split; [exact H2|].
  exact (proj1 (proj2 (proj2 (RewriteSubmitSMSource_spec [] 0 0 (str "MyApp") (1 :: 1 :: str "44" ++ [0])
    (str "27821234567") 5 0 H3 H2 H1)))).
Defined.

Lemma built_bodies_witness :
  no_nul (str "MyApp") ∧
  ParseDeliverSM (BuildDeliverSMBody (str "MyApp") (str "27821234567") 4 (str "id:1")) =
    (str "MyApp", str "27821234567", 4, str "id:1").
Proof.
  destruct no_nul_ex as (H1 & H2 & H3). split; [exact H2|].
  exact (proj2 (proj2 (proj2 (built_bodies (str "MyApp") (str "27821234567") 4 (str "id:1") H2 H1)))).
Defined.

Definition cn_ex_bind : BindConfig := mkBindConfig (str "pw") [] [] (str "5.0") None.
Definition cn_ex_pdu : PDU :=
  mkPDU 0 CmdBindTransceiver 0 7 (str "MyApp" ++ 0 :: str "pw" ++ 0 :: []) None.
Definition cn_ex : Connection := NewConnection (str "pending-1") (str "10.0.0.1").

Lemma handleBind_decides_witness :
  cn_open cn_ex = true ∧
  cn_bound (handleBind cn_ex_pdu cn_ex_bind cn_ex).1 =
    ((handleBind cn_ex_pdu cn_ex_bind cn_ex).2 || cn_bound cn_ex) ∧
  (handleBind cn_ex_pdu cn_ex_bind cn_ex).2 = true.
Proof.
  destruct no_nul_ex as (H1 & H2 & H3). split; [reflexivity|].
  assert (no_nul (str "pw")) as Hp by (apply (bool_decide_unpack _); vm_compute; exact I).
  split; [|vm_compute; reflexivity].
  pose proof (handleBind_decides cn_ex_bind cn_ex 0 CmdBindTransceiver 0 7 None (str "MyApp") (str "pw") []
    eq_refl H2 Hp H3) as H. cbv zeta in H.
  change (mkPDU 0 CmdBindTransceiver 0 7 (str "MyApp" ++ 0 :: str "pw" ++ 0 :: []) None) with cn_ex_pdu in H.
  destruct (handleBind cn_ex_pdu cn_ex_bind cn_ex) as [c' ok].
  destruct H as (status & body & _ & _ & _ & Hb & _). exact Hb.
Defined.

Definition cn_ex_stream : bytes :=
  PutUint32 25 ++ PutUint32 CmdBindTransceiver ++ PutUint32 0 ++ PutUint32 1 ++ (str "MyApp" ++ 0 :: str "pw" ++ [0]) ++
  PutUint32 17 ++ PutUint32 CmdSubmitSM ++ PutUint32 0 ++ PutUint32 2 ++ [0].

Lemma session_protocol_witness :
  cn_bound cn_ex = false ∧
  Exists is_bind_event [OnBind (str "MyApp")] ∧
  (Connection_ReadLoop (λ _ c, c) cn_ex_bind cn_ex_stream cn_ex).2 =
    [OnBind (str "MyApp")] ++ OnSubmit (str "pending-1") 2 [0] :: [].
Proof.
  assert ((Connection_ReadLoop (λ _ c, c) cn_ex_bind cn_ex_stream cn_ex).2 =
    [OnBind (str "MyApp")] ++ OnSubmit (str "pending-1") 2 [0] :: []) as E by (vm_compute; reflexivity).
  split; [reflexivity|]. split; [|exact E].
  exact (proj2 (session_protocol (λ _ c, c) cn_ex_bind cn_ex_stream cn_ex eq_refl (λ _ _, eq_refl))
    [OnBind (str "MyApp")] (str "pending-1") 2 [0] [] E).
Defined.

Lemma rate_limit_exact_witness :
  StronglySorted Z.le [0; 5; 5; 5; 6] ∧
  Z.of_nat (admitted 5 (gate_run 2 [5; 5; 5; 6] cn_ex)) <= 2 ∧
  gate_run 2 [5; 5; 5; 6] cn_ex = [(5, true); (5, true); (5, false); (6, true)].
Proof.
  assert (StronglySorted Z.le [0; 5; 5; 5; 6]) as Hs by (repeat constructor; lia).
  split; [exact Hs|]. split; [|vm_compute; reflexivity].
  exact (proj1 (proj1 (proj2 (rate_limit_exact 2 [5; 5; 5; 6] (str "pending-1") (str "10.0.0.1")
    ltac:(lia) Hs)) ltac:(lia)) 5).
Defined.
