(* ===== verification/Documents.v ===== *)
(** * What the gateway keeps in its store

    The records that gateway/store.go, gateway/callback.go, gateway/rest_auth.go,
    gateway/admin_auth.go, gateway/conn_config.go and gateway/route_config.go persist,
    as the JSON documents encoding/json makes of them, and the ordered key-value store
    they are kept in.

    Pebble is third-party code: [KV] is the part of it the gateway calls and [KVLaws]
    what it documents, for a disk that works (a call that fails for want of one returns
    its error to the caller, which ignores or reports it).  [gmap] is an instance.

    encoding/json writes a Go string as its runes, with U+FFFD for every byte that is
    not UTF-8, and reads it back as those; a byte slice goes through base64 and a time
    keeps its nanoseconds.  A document is therefore the record it was made from with
    its strings passed through [json_string]. *)

From Stdlib Require Import QArith.
From S2P Require Import Prelude Utf8 Connection PoolManager RouteTable Dlr.

Local Open Scope Z_scope.

(** ** Times: nanoseconds since 1970 *)

(** [time.Time{}], the first instant of the year 1. *)
Definition zero_time : Z := - 62135596800 * Second.

Definition IsZero (t : Z) : bool := bool_decide (t = zero_time).
Definition UnixNano (t : Z) : Z := i64 t.

(** ** JSON strings *)

Definition json_string (s : bytes) : bytes := string_of_runes (runes s).

(** JSON keeps ASCII strings. *)
Lemma json_string_ascii s : ascii_text s → json_string s = s.
Proof. intros Hs. unfold json_string. by rewrite ascii_runes, string_of_runes_ascii. Qed.

(** What JSON has written once it keeps. *)
Lemma json_string_idem s : bytes_ok s → json_string (json_string s) = json_string s.
Proof. intros Hs. unfold json_string. rewrite runes_string_of_runes; [done|by apply runes_valid]. Qed.

(** ** Records *)

Record SubmitRecord := mkSubmitRecord {
  sr_GwMsgID : bytes; sr_SmscMsgID : bytes; sr_NorthConnID : bytes; sr_OrigSeqNum : Z;
  sr_MSISDN : bytes; sr_SourceAddr : bytes; sr_Payload : bytes; sr_SubmittedAt : Z
}.

Record PendingSubmit := mkPendingSubmit {
  ps_GwMsgID : bytes; ps_ConnID : bytes; ps_MSISDN : bytes; ps_SourceAddr : bytes;
  ps_RawBody : bytes; ps_RetryCount : Z; ps_EnqueuedAt : Z
}.

Record PendingDeliver := mkPendingDeliver {
  pd_TargetConnID : bytes; pd_MSISDN : bytes; pd_PDUBody : bytes; pd_ESMClass : Z;
  pd_SourceAddr : bytes; pd_DestAddr : bytes; pd_EnqueuedAt : Z
}.

Record MessageStatus := mkMessageStatus {
  ms_GwMsgID : bytes; ms_To : bytes; ms_From : bytes; ms_Reference : bytes; ms_Status : bytes;
  ms_DLRStatus : bytes; ms_SmscMsgID : bytes; ms_UpdatedAt : Z
}.

Record MessageLogEntry := mkLogEntry {
  le_GwMsgID : bytes; le_SmscMsgID : bytes; le_ConnID : bytes; le_SourceAddr : bytes;
  le_DestAddr : bytes; le_Status : bytes; le_DLRStatus : bytes; le_Cost : Q;
  le_CreatedAt : Z; le_UpdatedAt : Z
}.

Record CallbackRecord := mkCallback {
  cb_GwMsgID : bytes; cb_CallbackURL : bytes; cb_Reference : bytes; cb_Retries : Z;
  cb_NextAttempt : Z
}.

Record APIKey := mkAPIKey {
  ak_ID : bytes; ak_KeyHash : bytes; ak_Label : bytes; ak_RateLimit : Z; ak_CreatedAt : Z;
  ak_LastUsed : Z
}.

Record AdminUser := mkAdminUser {
  au_Username : bytes; au_PasswordHash : bytes; au_Role : bytes; au_CreatedAt : Z;
  au_MustChange : bool
}.

(** ** Documents *)

Inductive doc :=
| DSubmit (r : SubmitRecord)
| DPendingDeliver (p : PendingDeliver)
| DPendingSubmit (p : PendingSubmit)
| DStatus (s : MessageStatus)
| DLog (e : MessageLogEntry)
| DLogKey (key : bytes)
| DCallback (c : CallbackRecord)
| DAPIKey (k : APIKey)
| DUser (u : AdminUser)
| DConnConfig (c : ConnectionConfig)
| DMTRoute (r : MTRoute)
| DMORoute (r : MORoute)
| DPool (c : SouthboundPoolConfig).

Definition json_submit (r : SubmitRecord) : doc :=
  DSubmit (mkSubmitRecord (json_string (sr_GwMsgID r)) (json_string (sr_SmscMsgID r))
    (json_string (sr_NorthConnID r)) (sr_OrigSeqNum r) (json_string (sr_MSISDN r))
    (json_string (sr_SourceAddr r)) (sr_Payload r) (sr_SubmittedAt r)).

Definition json_pending_deliver (p : PendingDeliver) : doc :=
  DPendingDeliver (mkPendingDeliver (json_string (pd_TargetConnID p)) (json_string (pd_MSISDN p))
    (pd_PDUBody p) (pd_ESMClass p) (json_string (pd_SourceAddr p)) (json_string (pd_DestAddr p))
    (pd_EnqueuedAt p)).

Definition json_pending_submit (p : PendingSubmit) : doc :=
  DPendingSubmit (mkPendingSubmit (json_string (ps_GwMsgID p)) (json_string (ps_ConnID p))
    (json_string (ps_MSISDN p)) (json_string (ps_SourceAddr p)) (ps_RawBody p) (ps_RetryCount p)
    (ps_EnqueuedAt p)).

Definition json_status (s : MessageStatus) : doc :=
  DStatus (mkMessageStatus (json_string (ms_GwMsgID s)) (json_string (ms_To s))
    (json_string (ms_From s)) (json_string (ms_Reference s)) (json_string (ms_Status s))
    (json_string (ms_DLRStatus s)) (json_string (ms_SmscMsgID s)) (ms_UpdatedAt s)).

Definition json_log (e : MessageLogEntry) : doc :=
  DLog (mkLogEntry (json_string (le_GwMsgID e)) (json_string (le_SmscMsgID e))
    (json_string (le_ConnID e)) (json_string (le_SourceAddr e)) (json_string (le_DestAddr e))
    (json_string (le_Status e)) (json_string (le_DLRStatus e)) (le_Cost e) (le_CreatedAt e)
    (le_UpdatedAt e)).

Definition json_callback (c : CallbackRecord) : doc :=
  DCallback (mkCallback (json_string (cb_GwMsgID c)) (json_string (cb_CallbackURL c))
    (json_string (cb_Reference c)) (cb_Retries c) (cb_NextAttempt c)).

Definition json_api_key (k : APIKey) : doc :=
  DAPIKey (mkAPIKey (json_string (ak_ID k)) (json_string (ak_KeyHash k)) (json_string (ak_Label k))
    (ak_RateLimit k) (ak_CreatedAt k) (ak_LastUsed k)).

Definition json_user (u : AdminUser) : doc :=
  DUser (mkAdminUser (json_string (au_Username u)) (json_string (au_PasswordHash u))
    (json_string (au_Role u)) (au_CreatedAt u) (au_MustChange u)).

Definition json_conn_config (c : ConnectionConfig) : doc :=
  DConnConfig (mkConnConfig (json_string (cc_SystemID c)) (json_string (cc_Password c))
    (json_string (cc_Description c)) (cc_Enabled c) (json_string <$> cc_AllowedIPs c) (cc_MaxTPS c)
    (cc_CostPerSMS c) (json_string <$> cc_AllowedPrefixes c) (json_string (cc_DefaultSourceAddr c))
    (cc_DefaultSourceTON c) (cc_DefaultSourceNPI c) (json_string (cc_SourceAddrMode c))
    (json_string (cc_ForceSourceAddr c)) (cc_ForceSourceTON c) (cc_ForceSourceNPI c)
    (json_string <$> cc_AllowedSourceAddrs c) (cc_MaxBinds c) (json_string <$> cc_AllowedBindModes c)
    (cc_CreatedAt c) (cc_UpdatedAt c)).

(** The round-robin counter is unexported and therefore not written. *)
Definition json_mt_route (r : MTRoute) : doc :=
  DMTRoute (mkMTRoute (json_string (mt_Prefix r)) (json_string (mt_Strategy r))
    ((λ p, mkRoutePool (json_string (rp_Name p)) (rp_Cost p)) <$> mt_Pools r) 0).

Definition json_mo_route (r : MORoute) : doc :=
  DMORoute (mkMORoute (json_string (mo_DestPattern r)) (json_string (mo_SourcePrefix r))
    (mkMOTarget (json_string (mot_Type (mo_Target r))) (json_string (mot_ConnID (mo_Target r)))
       (json_string (mot_CallbackURL (mo_Target r)))) (mo_Priority r)).

Definition json_pool (c : SouthboundPoolConfig) : doc :=
  DPool (mkSouthbound (json_string (sb_Name c)) (json_string (sb_Host c)) (sb_Port c)
    (json_string (sb_SystemID c)) (json_string (sb_Password c)) (json_string (sb_SourceAddr c))
    (sb_Connections c) (sb_WindowSize c) (sb_TLSEnabled c) (sb_TLSInsecureSkipVerify c)
    (json_string (sb_BindMode c)) (json_string (sb_InterfaceVersion c))).

(** ** The order of keys *)

Fixpoint blt (a b : bytes) : bool :=
  match a, b with
  | _, [] => false
  | [], _ :: _ => true
  | x :: a, y :: b => if decide (x < y) then true else if decide (x = y) then blt a b else false
  end.

(** [blt] as a relation, and its reflexive closure. *)
Definition key_lt (a b : bytes) : Prop := blt a b = true.
Definition key_le (a b : bytes) : Prop := blt b a = false.
#[export] Instance key_lt_dec a b : Decision (key_lt a b).
Proof. unfold key_lt. apply _. Defined.
#[export] Instance key_le_dec a b : Decision (key_le a b).
Proof. unfold key_le. apply _. Defined.

(** ** The store's interface *)

Class KV (DB : Type) := {
  kv_get : DB → bytes → option doc;
  kv_set : bytes → doc → DB → DB;
  kv_delete : bytes → DB → DB;
  (** the entries with [lo <= key] and, with an upper bound, [key < hi], in order *)
  kv_range : bytes → option bytes → DB → list (bytes * doc)
}.

Definition below (hi : option bytes) (k : bytes) : Prop :=
  match hi with Some hi => key_lt k hi | None => True end.
#[export] Instance below_dec hi k : Decision (below hi k).
Proof. destruct hi; apply _. Defined.

Class KVLaws (DB : Type) `{KV DB} : Prop := {
  kv_get_set : ∀ db k v k', kv_get (kv_set k v db) k' = if decide (k = k') then Some v else kv_get db k';
  kv_get_delete : ∀ db k k', kv_get (kv_delete k db) k' = if decide (k = k') then None else kv_get db k';
  kv_range_sorted : ∀ lo hi db, StronglySorted key_lt (kv_range lo hi db).*1;
  kv_range_elem : ∀ lo hi db k v,
    (k, v) ∈ kv_range lo hi db ↔ kv_get db k = Some v ∧ key_le lo k ∧ below hi k
}.

(** ** Lemmas on keys *)

Lemma blt_irrefl a : blt a a = false.
Proof. induction a as [|x a IH]; simpl; [done|]. by rewrite decide_False, decide_True by lia. Qed.

Lemma blt_trans a : ∀ b c, blt a b = true → blt b c = true → blt a c = true.
Proof.
  induction a as [|x a IH]; intros [|y b] [|z c]; simpl; try done.
  repeat case_decide; try done; try lia; intros; by eapply IH.
Qed.

Lemma blt_total a : ∀ b, blt a b = true ∨ a = b ∨ blt b a = true.
Proof.
  induction a as [|x a IH]; intros [|y b]; simpl; try tauto.
  repeat case_decide; try tauto; try lia. subst. destruct (IH b) as [?|[->|?]]; tauto.
Qed.

Lemma key_lt_le a b : key_lt a b → key_le a b.
Proof.
  unfold key_lt, key_le. intros H. destruct (blt b a) eqn:E; [|done].
  pose proof (blt_trans _ _ _ H E) as Haa. by rewrite blt_irrefl in Haa.
Qed.

Lemma key_le_inv a b : key_le a b → a = b ∨ key_lt a b.
Proof. unfold key_le, key_lt. destruct (blt_total a b) as [?|[?|?]]; [tauto..|congruence]. Qed.

Lemma key_le_lt_trans a b c : key_le a b → key_lt b c → key_lt a c.
Proof. intros [->|H]%key_le_inv H2; [done|]. by apply (blt_trans _ b). Qed.
Lemma key_lt_le_trans a b c : key_lt a b → key_le b c → key_lt a c.
Proof. intros H [->|H2]%key_le_inv; [done|]. by apply (blt_trans _ b). Qed.

#[export] Instance key_lt_irreflexive : Irreflexive key_lt.
Proof. intros a. unfold complement, key_lt. by rewrite blt_irrefl. Qed.
#[export] Instance key_lt_transitive : Transitive key_lt.
Proof. intros a b c. apply blt_trans. Qed.
#[export] Instance key_le_transitive : Transitive key_le.
Proof.
  intros a b c H1 [<-|H2]%key_le_inv; [done|]. by apply key_lt_le, (key_le_lt_trans _ b).
Qed.
#[export] Instance key_le_total : Total key_le.
Proof.
  intros a b. destruct (blt_total a b) as [H|[->|H]].
  - left. by apply key_lt_le.
  - left. apply blt_irrefl.
  - right. by apply key_lt_le.
Qed.

Lemma key_lt_asym a b : key_lt a b → key_lt b a → False.
Proof. intros H1 H2. apply (irreflexivity key_lt a). by transitivity b. Qed.

Lemma key_sorted_NoDup l : StronglySorted key_lt l → NoDup l.
Proof.
  induction 1 as [|x l Hs IH Hx]; constructor; [|done]. intros Hin. rewrite Forall_forall in Hx.
  by apply (irreflexivity key_lt x), Hx.
Qed.

Lemma blt_app p a b : blt (p ++ a) (p ++ b) = blt a b.
Proof. induction p as [|x p IH]; simpl; [done|]. by rewrite decide_False, decide_True by lia. Qed.

(** Words of equal length decide the order of what starts with them. *)
Lemma blt_app_len a : ∀ b x y, length a = length b → a ≠ b → blt (a ++ x) (b ++ y) = blt a b.
Proof.
  induction a as [|u a IH]; intros [|v b] x y Hl Hne; simpl in *; try done.
  repeat case_decide; try done. subst. apply IH; [lia|congruence].
Qed.

Lemma key_le_nil k : key_le [] k.
Proof. unfold key_le. by destruct k. Qed.
Lemma key_le_app p k : key_le p (p ++ k).
Proof. unfold key_le. rewrite <-(app_nil_r p) at 2. rewrite blt_app. by destruct k. Qed.

(** A list of entries in strict key order is determined by its elements. *)
Lemma entries_ext {A} (l1 l2 : list (bytes * A)) :
  StronglySorted key_lt l1.*1 → StronglySorted key_lt l2.*1 → (∀ x, x ∈ l1 ↔ x ∈ l2) → l1 = l2.
Proof.
  revert l2. induction l1 as [|[k v] l1 IH]; intros [|[k' v'] l2] H1 H2 He; [done| | |].
  - exfalso. apply (not_elem_of_nil (k', v')), He. by left.
  - exfalso. apply (not_elem_of_nil (k, v)), He. by left.
  - cbn [fmap list_fmap fst] in H1, H2.
    apply StronglySorted_inv in H1 as [H1 F1]. apply StronglySorted_inv in H2 as [H2 F2].
    rewrite Forall_forall in F1, F2.
    assert (∀ k0 v0 (l : list (bytes * A)), (k0, v0) ∈ l → k0 ∈ l.*1) as Hin
      by (intros k0 v0 l Hl; apply list_elem_of_fmap; by exists (k0, v0)).
    assert ((k, v) = (k', v')) as [= -> ->].
    { pose proof (proj1 (He (k, v)) (list_elem_of_here _ _)) as [?|Ha]%elem_of_cons; [done|].
      pose proof (proj2 (He (k', v')) (list_elem_of_here _ _)) as [?|Hb]%elem_of_cons; [done|].
      exfalso. apply (irreflexivity key_lt k). transitivity k'; [apply F1|apply F2]; eauto. }
    f_equal. apply IH; [done|done|]. intros [k0 v0]. specialize (He (k0, v0)).
    rewrite !elem_of_cons in He. split; intros Hx; destruct He as [He1 He2].
    + destruct He1 as [[= -> ->]|?]; [by right| |done].
      exfalso. apply (irreflexivity key_lt k'), F1. eauto.
    + destruct He2 as [[= -> ->]|?]; [by right| |done].
      exfalso. apply (irreflexivity key_lt k'), F2. eauto.
Qed.

Section kv_lemmas.
Context {DB : Type} `{!KV DB, !KVLaws DB}.

(** A range is the only ordered list of the entries between its bounds. *)
Lemma kv_range_unique lo hi (db : DB) l :
  StronglySorted key_lt l.*1 →
  (∀ k v, (k, v) ∈ l ↔ kv_get db k = Some v ∧ key_le lo k ∧ below hi k) →
  kv_range lo hi db = l.
Proof.
  intros Hs He. apply entries_ext; [apply kv_range_sorted|done|].
  intros [k v]. by rewrite kv_range_elem, He.
Qed.

Lemma kv_range_ext lo hi (db db' : DB) :
  (∀ k, key_le lo k → below hi k → kv_get db' k = kv_get db k) →
  kv_range lo hi db' = kv_range lo hi db.
Proof.
  intros Hk. apply kv_range_unique; [apply kv_range_sorted|]. intros k v. rewrite kv_range_elem.
  split; intros (H1 & H2 & H3); (split; [|done]); [by rewrite Hk|by rewrite <-Hk].
Qed.

Definition kv_delete_all (ks : list bytes) (db : DB) : DB := foldl (λ db k, kv_delete k db) db ks.

Lemma kv_get_delete_all ks (db : DB) k :
  kv_get (kv_delete_all ks db) k = if decide (k ∈ ks) then None else kv_get db k.
Proof.
  unfold kv_delete_all. revert db. induction ks as [|k' ks IH]; intros db; cbn [foldl].
  - by rewrite decide_False by apply not_elem_of_nil.
  - rewrite IH, kv_get_delete. repeat case_decide; set_solver.
Qed.

(** Deleting the first [n] entries of a range leaves the others. *)
Lemma kv_range_delete_take n lo hi (db : DB) :
  kv_range lo hi (kv_delete_all (take n (kv_range lo hi db)).*1 db) = drop n (kv_range lo hi db).
Proof.
  pose proof (kv_range_sorted lo hi db) as Hs. pose proof (kv_range_elem lo hi db) as He.
  revert Hs He. generalize (kv_range lo hi db). intros l Hs He.
  rewrite <-(take_drop n l), fmap_app in Hs.
  assert (∀ k, k ∈ (take n l).*1 → k ∉ (drop n l).*1) as Hdisj.
  { intros k H1 H2. apply (irreflexivity key_lt k).
    by apply (StronglySorted_app_1_elem_of key_lt _ _ k k Hs). }
  apply kv_range_unique.
  - by apply StronglySorted_app_1_r in Hs.
  - intros k v. rewrite kv_get_delete_all.
    assert ((k, v) ∈ drop n l → k ∉ (take n l).*1) as Hd.
    { intros Hin Hk. apply (Hdisj k Hk), list_elem_of_fmap. by exists (k, v). }
    assert ((k, v) ∈ l ↔ (k, v) ∈ take n l ∨ (k, v) ∈ drop n l) as Hl
      by (by rewrite <-elem_of_app, take_drop).
    case_decide as Hk.
    + split; [tauto|by intros (? & _)].
    + rewrite <-He, Hl. split; [by right|]. intros [Hin|?]; [|done].
      destruct Hk. apply list_elem_of_fmap. by exists (k, v).
Qed.

End kv_lemmas.

(** ** Finite maps are a store *)

Definition entry_le {A} (a b : bytes * A) : Prop := key_le a.1 b.1.
#[export] Instance entry_le_dec {A} (a b : bytes * A) : Decision (entry_le a b).
Proof. unfold entry_le. apply _. Defined.
#[export] Instance entry_le_transitive {A} : Transitive (@entry_le A).
Proof. intros a b c. unfold entry_le. apply transitivity. Qed.
#[export] Instance entry_le_total {A} : Total (@entry_le A).
Proof. intros a b. apply (total key_le). Qed.

#[export] Instance gmap_KV : KV (gmap bytes doc) := {|
  kv_get := λ db k, db !! k;
  kv_set := λ k v db, <[k := v]> db;
  kv_delete := λ k db, delete k db;
  kv_range := λ lo hi db,
    merge_sort entry_le (filter (λ e, key_le lo e.1 ∧ below hi e.1) (map_to_list db))
|}.

Lemma StronglySorted_key_lt (l : list bytes) :
  StronglySorted key_le l → NoDup l → StronglySorted key_lt l.
Proof.
  induction 1 as [|x l Hs IH Hx]; intros Hnd; [constructor|].
  apply NoDup_cons in Hnd as [Hin Hnd]. constructor; [auto|].
  apply Forall_forall. intros y Hy. rewrite Forall_forall in Hx.
  by destruct (key_le_inv _ _ (Hx y Hy)) as [->|].
Qed.

#[export] Instance gmap_KVLaws : KVLaws (gmap bytes doc).
Proof.
  split; simpl.
  - intros db k v k'. case_decide; [subst; apply lookup_insert_eq|by apply lookup_insert_ne].
  - intros db k k'. case_decide; [subst; apply lookup_delete_eq|by apply lookup_delete_ne].
  - intros lo hi db. set (l := filter _ _). apply StronglySorted_key_lt.
    + pose proof (StronglySorted_merge_sort entry_le l) as Hs. revert Hs.
      generalize (merge_sort entry_le l). clear. intros l. induction 1 as [|x l Hs IH Hx]; simpl; constructor; [done|].
      by apply Forall_fmap.
    + rewrite (merge_sort_Permutation entry_le l). subst l.
      pose proof (NoDup_fst_map_to_list db) as Hnd. revert Hnd.
      generalize (map_to_list db). intros l. induction l as [|e l IH]; [done|].
      rewrite filter_cons. simpl. intros [Hin Hnd]%NoDup_cons. case_decide; [|auto]. simpl. constructor; [|auto].
      intros [e' [He' [_ Hl]%list_elem_of_filter]]%list_elem_of_fmap. apply Hin.
      apply list_elem_of_fmap. eauto.
  - intros lo hi db k v. rewrite (merge_sort_Permutation entry_le), list_elem_of_filter.
    rewrite elem_of_map_to_list. simpl. tauto.
Qed.
