(* ===== verification/Format.v ===== *)
(** * Numbers and times as text

    What fmt and package time print where the order of keys depends on it: fixed-width
    decimals ("%020d") and RFC 3339 with nanoseconds.  Fixed-width decimals sort like
    the numbers they print; RFC3339Nano, which drops the zeros at the end of the
    fraction, does not sort like the times. *)

From S2P Require Import Prelude Documents.

Local Open Scope Z_scope.

(** The last [k] decimal digits of [n]. *)
Fixpoint digits (k : nat) (n : Z) : bytes :=
  match k with
  | O => []
  | S k => digits k (Z.div n 10) ++ [48 + Z.modulo n 10]
  end.

(** [fmt.Sprintf("%020d", n)]. *)
Definition pad20 (n : Z) : bytes :=
  let sign := if decide (n < 0) then [45] else [] in
  let s := itoa (Z.abs n) in
  sign ++ replicate (20 - length sign - length s) 48 ++ s.

(** ** package time *)

(** The civil date of a number of days since 1970: year, month, day. *)
Definition civil (days : Z) : Z * Z * Z :=
  let z := days + 719468 in
  let era := Z.div z 146097 in
  let doe := Z.modulo z 146097 in
  let yoe := Z.div (doe - Z.div doe 1460 + Z.div doe 36524 - Z.div doe 146096) 365 in
  let doy := doe - (365 * yoe + Z.div yoe 4 - Z.div yoe 100) in
  let mp := Z.div (5 * doy + 2) 153 in
  let d := doy - Z.div (153 * mp + 2) 5 + 1 in
  let m := if decide (mp < 10) then mp + 3 else mp - 9 in
  (yoe + era * 400 + (if decide (m <= 2) then 1 else 0), m, d).

Fixpoint drop_zeros (s : bytes) : bytes :=
  match s with 48 :: s' => drop_zeros s' | _ => s end.

(** The fraction ".999999999": no zeros at the end, nothing at all for zero. *)
Definition fraction (nanos : Z) : bytes :=
  match drop_zeros (reverse (digits 9 nanos)) with [] => [] | s => str "." ++ reverse s end.

(** "Z07:00" for an offset in seconds east of UTC. *)
Definition zone_suffix (off : Z) : bytes :=
  if decide (off = 0) then str "Z"
  else (if decide (off < 0) then str "-" else str "+") ++
    digits 2 (Z.div (Z.abs off) 3600) ++ str ":" ++ digits 2 (Z.modulo (Z.div (Z.abs off) 60) 60).

(** [t.Format(time.RFC3339Nano)] for a time in a zone, in the years 0 to 9999. *)
Definition RFC3339Nano (off t : Z) : bytes :=
  let local := t + off * Second in
  let secs := Z.div local Second in
  let '(y, m, d) := civil (Z.div secs 86400) in
  let sod := Z.modulo secs 86400 in
  digits 4 y ++ str "-" ++ digits 2 m ++ str "-" ++ digits 2 d ++ str "T" ++
  digits 2 (Z.div sod 3600) ++ str ":" ++ digits 2 (Z.modulo (Z.div sod 60) 60) ++ str ":" ++
  digits 2 (Z.modulo sod 60) ++ fraction (Z.modulo local Second) ++ zone_suffix off.

(** The local time zone: seconds east of UTC at an instant. *)
Class Zone := { zone_offset : Z → Z }.

(** ** Decimals *)

Lemma length_digits k n : length (digits k n) = k.
Proof. revert n. induction k as [|k IH]; intros n; simpl; [done|]. rewrite length_app, IH. simpl. lia. Qed.
#[export] Hint Rewrite length_digits : len.

Lemma digits_0 k : digits k 0 = replicate k 48.
Proof.
  induction k as [|k IH]; [done|]. cbn [digits].
  change (Z.div 0 10) with 0. change (Z.modulo 0 10) with 0. rewrite IH.
  rewrite <-replicate_S_end. done.
Qed.

(** What stdpp's [pretty] prints is the digits without the zeros in front. *)
Lemma pretty_N_go_digits k : ∀ (x : N) s, (Z.of_N x < 10 ^ Z.of_nat k) →
  ∃ m w, (m <= k)%nat ∧ digits k (Z.of_N x) = replicate m 48 ++ w ∧
    str (pretty_N_go x s) = w ++ str s.
Proof.
  induction k as [|k IH]; intros x s Hx.
  - assert (x = 0%N) as -> by (simpl in Hx; lia). exists 0%nat, []. done.
  - destruct (decide (x = 0%N)) as [->|Hne].
    { exists (S k), []. split; [lia|]. rewrite app_nil_r. split; [apply digits_0|]. by rewrite pretty_N_go_0. }
    rewrite pretty_N_go_step by lia.
    assert (Z.of_N (x `div` 10)%N < 10 ^ Z.of_nat k) as Hlt.
    { rewrite N2Z.inj_div. apply Z.div_lt_upper_bound; [lia|].
      rewrite Nat2Z.inj_succ, Z.pow_succ_r in Hx by lia. simpl Z.of_N. lia. }
    destruct (IH _ (String.String (pretty_N_char (x `mod` 10)) s) Hlt) as (m & w & Hm & Hd & Hs).
    exists m, (w ++ [48 + Z.modulo (Z.of_N x) 10]). split; [lia|]. split.
    + cbn [digits]. change 10 with (Z.of_N 10) at 1. rewrite <-N2Z.inj_div, Hd. by rewrite app_assoc.
    + rewrite Hs, <-app_assoc. f_equal.
      change 10 with (Z.of_N 10). rewrite <-N2Z.inj_mod. pose proof (N.mod_lt x 10 ltac:(lia)) as Hr.
      revert Hr. generalize (x `mod` 10)%N. intros r Hr.
      change (str (String.String (pretty_N_char r) s))
        with (Z.of_N (Ascii.N_of_ascii (pretty_N_char r)) :: str s). simpl. f_equal.
      destruct (decide (r = 0%N)); [by subst|]. destruct (decide (r = 1%N)); [by subst|].
      destruct (decide (r = 2%N)); [by subst|]. destruct (decide (r = 3%N)); [by subst|].
      destruct (decide (r = 4%N)); [by subst|]. destruct (decide (r = 5%N)); [by subst|].
      destruct (decide (r = 6%N)); [by subst|]. destruct (decide (r = 7%N)); [by subst|].
      destruct (decide (r = 8%N)); [by subst|]. assert (r = 9%N) as -> by lia. done.
Qed.

Lemma pad20_digits n : 0 <= n < 10 ^ 20 → pad20 n = digits 20 n.
Proof.
  intros [H0 H1]. unfold pad20. rewrite decide_False by lia. rewrite Z.abs_eq by lia.
  unfold itoa. destruct n as [|p|p]; [reflexivity| |lia].
  change (pretty (Z.pos p)) with (pretty (N.pos p)).
  unfold pretty, pretty_N. rewrite decide_False by lia.
  destruct (pretty_N_go_digits 20 (N.pos p) "") as (m & w & Hm & Hd & Hs); [simpl Z.of_N; lia|].
  change (Z.of_N (N.pos p)) with (Z.pos p) in Hd. rewrite Hd, Hs. rewrite app_nil_r.
  assert (length w = 20 - m)%nat as Hw.
  { pose proof (length_digits 20 (Z.pos p)) as Hl. rewrite Hd, length_app, length_replicate in Hl. lia. }
  simpl app. f_equal. f_equal. simpl length. lia.
Qed.

Lemma digits_range k n : Forall (λ b, 48 <= b <= 57) (digits k n).
Proof.
  revert n. induction k as [|k IH]; intros n; cbn [digits]; [constructor|].
  apply Forall_app. split; [done|]. repeat constructor; pose proof (Z.mod_pos_bound n 10 ltac:(lia)); lia.
Qed.

(** A number prints as digits. *)
Lemma itoa_digits n : 0 <= n → itoa n ≠ [] ∧ Forall (λ b, 48 <= b <= 57) (itoa n).
Proof.
  intros Hn. destruct n as [|p|p]; [change (itoa 0) with [48]; split; [done|by constructor]| |lia].
  unfold itoa. change (pretty (Z.pos p)) with (pretty (N.pos p)). unfold pretty, pretty_N.
  rewrite decide_False by lia.
  destruct (pretty_N_go_digits (Pos.to_nat p) (N.pos p) "") as (m & w & Hm & Hd & Hs).
  { rewrite positive_nat_Z. simpl Z.of_N. apply Z.pow_gt_lin_r; lia. }
  rewrite Hs, app_nil_r. pose proof (digits_range (Pos.to_nat p) (Z.of_N (N.pos p))) as Hr.
  rewrite Hd in Hr. apply Forall_app in Hr as [_ Hr]. split; [|done]. intros ->.
  rewrite pretty_N_go_step in Hs by lia.
  destruct (pretty_N_go_digits (Pos.to_nat p) (N.pos p `div` 10)%N
    (String.String (pretty_N_char (N.pos p `mod` 10)) "")) as (m' & w' & _ & _ & Hs').
  { pose proof (N.div_lt (N.pos p) 10 ltac:(lia) ltac:(lia)) as Hlt. rewrite positive_nat_Z.
    pose proof (Z.pow_gt_lin_r 10 (Z.pos p) ltac:(lia) ltac:(lia)). simpl Z.of_N in *. lia. }
  rewrite Hs in Hs'. by destruct w'.
Qed.

Lemma length_itoa k n : 0 <= n < 10 ^ Z.of_nat (S k) → (length (itoa n) <= S k)%nat.
Proof.
  intros [H0 Hn]. destruct n as [|p|p]; [change (itoa 0) with [48]; simpl; lia| |lia].
  unfold itoa. change (pretty (Z.pos p)) with (pretty (N.pos p)). unfold pretty, pretty_N.
  rewrite decide_False by lia.
  destruct (pretty_N_go_digits (S k) (N.pos p) "") as (m & w & _ & Hd & Hs); [exact Hn|].
  rewrite Hs, app_nil_r. pose proof (f_equal length Hd) as Hl.
  rewrite length_digits, length_app, length_replicate in Hl. lia.
Qed.

Lemma digits_lt k : ∀ a b, 0 <= a → a < b → b < 10 ^ Z.of_nat k →
  digits k a ≠ digits k b ∧ blt (digits k a) (digits k b) = true.
Proof.
  induction k as [|k IH]; intros a b Ha Hab Hb; [simpl in Hb; lia|].
  cbn [digits]. rewrite Nat2Z.inj_succ, Z.pow_succ_r in Hb by lia.
  pose proof (Z.div_mod a 10 ltac:(lia)). pose proof (Z.div_mod b 10 ltac:(lia)).
  pose proof (Z.mod_pos_bound a 10 ltac:(lia)). pose proof (Z.mod_pos_bound b 10 ltac:(lia)).
  destruct (decide (Z.div a 10 = Z.div b 10)) as [He|Hne].
  - rewrite He, blt_app. split; [intros Heq%app_inj_1; [|by rewrite !length_digits]; destruct Heq as [_ [=]]; lia|].
    simpl. rewrite decide_True by lia. done.
  - destruct (IH (Z.div a 10) (Z.div b 10)) as [Hd Hlt]; [by apply Z.div_pos; lia| |by apply Z.div_lt_upper_bound; lia|].
    { pose proof (Z.div_le_mono a b 10 ltac:(lia) ltac:(lia)). lia. }
    split.
    + intros Heq%app_inj_1; [|by rewrite !length_digits]. by destruct Heq.
    + rewrite blt_app_len; [done|by rewrite !length_digits|done].
Qed.

Lemma pad20_below n x p : 0 <= n < 2 ^ 63 → key_lt (p ++ pad20 n ++ x) (p ++ [255]).
Proof.
  intros Hn. unfold key_lt. rewrite blt_app, pad20_digits by lia.
  pose proof (digits_range 20 n) as Hr. pose proof (length_digits 20 n) as Hl.
  destruct (digits 20 n) as [|b l]; [done|]. apply Forall_cons in Hr as [Hb _].
  simpl. by rewrite decide_True by lia.
Qed.

(** Keys that start with two such numbers sort like the numbers. *)
Lemma pad20_key_lt a b x y : 0 <= a < 2 ^ 63 → 0 <= b < 2 ^ 63 → a < b →
  key_lt (pad20 a ++ x) (pad20 b ++ y).
Proof.
  intros Ha Hb Hab. unfold key_lt. rewrite !pad20_digits by lia.
  destruct (digits_lt 20 a b) as [Hd Hlt]; [lia..|].
  by rewrite blt_app_len by (by rewrite ?length_digits).
Qed.

Lemma pad20_inj a b x y : 0 <= a < 2 ^ 63 → 0 <= b < 2 ^ 63 →
  pad20 a ++ x = pad20 b ++ y → a = b ∧ x = y.
Proof.
  intros Ha Hb He. destruct (Z.lt_total a b) as [H|[->|H]].
  - exfalso. apply (irreflexivity key_lt (pad20 a ++ x)). rewrite He at 2. by apply pad20_key_lt.
  - by apply app_inv_head in He.
  - exfalso. apply (irreflexivity key_lt (pad20 b ++ y)). rewrite <-He at 2. by apply pad20_key_lt.
Qed.

(** Examples: a date, and two times whose texts sort the other way round. *)
Example RFC3339Nano_ex : RFC3339Nano 0 (1700000000 * Second) = str "2023-11-14T22:13:20Z".
Proof. reflexivity. Qed.
Example RFC3339Nano_zone_ex :
  RFC3339Nano 7200 (1709164800 * Second + 120000000) = str "2024-02-29T02:00:00.12+02:00".
Proof. reflexivity. Qed.
Example RFC3339Nano_order_ex :
  key_lt (RFC3339Nano 0 (1700000000 * Second + 500000000)) (RFC3339Nano 0 (1700000000 * Second)).
Proof. reflexivity. Qed.
