(* ===== verification/Store.v ===== *)
(** * The message store (gateway/store.go)

    Records under namespaced keys of a key-value store ([Documents.KV]): submit records
    (msg:, gw:), the two retry queues, message statuses and the message log, with the
    asynchronous batch writer that submit records go through.

    Each function is one step: pebble's operations are atomic, and so are the counters.
    The goroutine of the batch writer is given by the steps it makes ([writer_recv],
    [writer_flush], [writer_stop]), which may come anywhere between other operations.
    [now] arguments are the readings of the clock, in the order the code makes them. *)

From S2P Require Import Prelude Documents Format.

Local Open Scope Z_scope.

(** ** Keys *)

(** The namespaces of the keys, those of the stores built on this one included. *)
Inductive namespace :=
| NsMsg | NsGw | NsRetry | NsSubmitRetry | NsStatus | NsLog | NsLogIdx | NsCallback
| NsCallbackRetry | NsConnConfig | NsMTRoute | NsMORoute | NsPool | NsAPIKey | NsUser.

#[export] Instance namespace_eq_dec : EqDecision namespace.
Proof. solve_decision. Defined.

Definition ns_prefix (n : namespace) : bytes :=
  match n with
  | NsMsg => str "msg:"
  | NsGw => str "gw:"
  | NsRetry => str "retry:"
  | NsSubmitRetry => str "submit-retry:"
  | NsStatus => str "status:"
  | NsLog => str "log:"
  | NsLogIdx => str "logidx:"
  | NsCallback => str "callback:"
  | NsCallbackRetry => str "callback-retry:"
  | NsConnConfig => str "connconfig:"
  | NsMTRoute => str "route:mt:"
  | NsMORoute => str "route:mo:"
  | NsPool => str "pool:"
  | NsAPIKey => str "apikey:"
  | NsUser => str "user:"
  end.

Definition key (n : namespace) (x : bytes) : bytes := ns_prefix n ++ x.

Definition retry_key (enqueuedAt : Z) (id : bytes) : bytes :=
  key NsRetry (pad20 (UnixNano enqueuedAt) ++ str ":" ++ id).
Definition submit_retry_key (enqueuedAt : Z) (gwMsgID : bytes) : bytes :=
  key NsSubmitRetry (pad20 (UnixNano enqueuedAt) ++ str ":" ++ gwMsgID).
Definition log_key `{Zone} (createdAt : Z) (gwMsgID : bytes) : bytes :=
  key NsLog (RFC3339Nano (zone_offset createdAt) createdAt ++ str ":" ++ gwMsgID).

(** ** Reading documents

    [json.Unmarshal] into a record.  A document of another kind is not met: see
    [store_typed] below. *)

Definition un_submit (d : doc) : option SubmitRecord := match d with DSubmit r => Some r | _ => None end.
Definition un_pending_deliver (d : doc) : option PendingDeliver :=
  match d with DPendingDeliver p => Some p | _ => None end.
Definition un_pending_submit (d : doc) : option PendingSubmit :=
  match d with DPendingSubmit p => Some p | _ => None end.
Definition un_status (d : doc) : option MessageStatus := match d with DStatus s => Some s | _ => None end.
Definition un_log (d : doc) : option MessageLogEntry := match d with DLog e => Some e | _ => None end.
Definition un_callback (d : doc) : option CallbackRecord := match d with DCallback c => Some c | _ => None end.

(** The fields submitted_at and updated_at of a JSON document; the log index is not JSON. *)
Definition doc_times (d : doc) : option (Z * Z) :=
  match d with
  | DSubmit r => Some (sr_SubmittedAt r, zero_time)
  | DStatus s => Some (zero_time, ms_UpdatedAt s)
  | DLog e => Some (zero_time, le_UpdatedAt e)
  | DConnConfig c => Some (zero_time, Connection.cc_UpdatedAt c)
  | DLogKey _ => None
  | _ => Some (zero_time, zero_time)
  end.

(** [Get] and the decoding: a record, pebble.ErrNotFound, or a decoding error. *)
Inductive got (A : Type) := Got (a : A) | GotNone | GotBad.
Arguments Got {A} a.
Arguments GotNone {A}.
Arguments GotBad {A}.

(** [GetSubmit] and its likes return nil for a missing key, and their callers ignore
    the error. *)
Definition got_opt {A} (g : got A) : option A := match g with Got a => Some a | _ => None end.

Section store.
Context {DB : Type} `{!KV DB} `{!Zone}.

Record writeOp := mkWriteOp { wo_key : bytes; wo_data : doc }.

Record MessageStore := mkStore {
  st_db : DB;
  st_msgCount : Z; st_retryCount : Z; st_submitRetryCount : Z; st_logCount : Z;
  st_writeCh : list writeOp;   (** the channel's buffer *)
  st_batch : list writeOp;     (** the writer's batch *)
  st_closed : bool;            (** the closed flag *)
  st_chClosed : bool           (** the writer has drained and closed the channel *)
}.

Definition NewMessageStore (db : DB) : MessageStore := mkStore db 0 0 0 0 [] [] false false.

Definition st_with_db (s : MessageStore) (db : DB) : MessageStore :=
  mkStore db (st_msgCount s) (st_retryCount s) (st_submitRetryCount s) (st_logCount s)
    (st_writeCh s) (st_batch s) (st_closed s) (st_chClosed s).
Definition st_with_counts (s : MessageStore) (msg retry submit log : Z) : MessageStore :=
  mkStore (st_db s) msg retry submit log (st_writeCh s) (st_batch s) (st_closed s) (st_chClosed s).
Definition st_with_queue (s : MessageStore) (ch batch : list writeOp) : MessageStore :=
  mkStore (st_db s) (st_msgCount s) (st_retryCount s) (st_submitRetryCount s) (st_logCount s)
    ch batch (st_closed s) (st_chClosed s).
Definition st_with_closed (s : MessageStore) (closed chClosed : bool) : MessageStore :=
  mkStore (st_db s) (st_msgCount s) (st_retryCount s) (st_submitRetryCount s) (st_logCount s)
    (st_writeCh s) (st_batch s) closed chClosed.

(** The atomic counters. *)
Definition msgCount_Add (d : Z) (s : MessageStore) : MessageStore :=
  st_with_counts s (i64 (st_msgCount s + d)) (st_retryCount s) (st_submitRetryCount s) (st_logCount s).
Definition retryCount_Add (d : Z) (s : MessageStore) : MessageStore :=
  st_with_counts s (st_msgCount s) (i64 (st_retryCount s + d)) (st_submitRetryCount s) (st_logCount s).
Definition submitRetryCount_Add (d : Z) (s : MessageStore) : MessageStore :=
  st_with_counts s (st_msgCount s) (st_retryCount s) (i64 (st_submitRetryCount s + d)) (st_logCount s).
Definition logCount_Add (d : Z) (s : MessageStore) : MessageStore :=
  st_with_counts s (st_msgCount s) (st_retryCount s) (st_submitRetryCount s) (i64 (st_logCount s + d)).

Definition db_Set (k : bytes) (v : doc) (s : MessageStore) : MessageStore :=
  st_with_db s (kv_set k v (st_db s)).
Definition db_Delete (k : bytes) (s : MessageStore) : MessageStore :=
  st_with_db s (kv_delete k (st_db s)).
(** A batch of deletions. *)
Definition db_DeleteAll (ks : list bytes) (s : MessageStore) : MessageStore :=
  st_with_db s (kv_delete_all ks (st_db s)).

Definition get_as {A} (un : doc → option A) (k : bytes) (s : MessageStore) : got A :=
  match kv_get (st_db s) k with
  | None => GotNone
  | Some d => match un d with Some a => Got a | None => GotBad end
  end.

(** ** Submit records *)

Definition submit_key (r : SubmitRecord) : bytes :=
  if decide (sr_SmscMsgID r = []) then key NsGw (sr_GwMsgID r) else key NsMsg (sr_SmscMsgID r).

Definition writeCh_cap : nat := 4096.

(** StoreSubmit reads the closed flag and then writes, two steps: a send on the closed
    channel panics. *)
Definition store_after_check (wasClosed : bool) (r : SubmitRecord) (s : MessageStore) :
    outcome Empty_set MessageStore :=
  let op := mkWriteOp (submit_key r) (json_submit r) in
  if wasClosed then Ret (msgCount_Add 1 (db_Set (wo_key op) (wo_data op) s))
  else if st_chClosed s then Panic
  else if decide (length (st_writeCh s) < writeCh_cap)%nat then
    Ret (msgCount_Add 1 (st_with_queue s (st_writeCh s ++ [op]) (st_batch s)))
  else Ret (msgCount_Add 1 (db_Set (wo_key op) (wo_data op) s)).

(** The two steps in a row: a store whose channel is closed is marked closed. *)
Definition StoreSubmit (r : SubmitRecord) (s : MessageStore) : MessageStore :=
  match store_after_check (st_closed s) r s with Ret s' => s' | _ => s end.

Definition GetSubmit (smppMsgID : bytes) (s : MessageStore) : got SubmitRecord :=
  get_as un_submit (key NsMsg smppMsgID) s.
Definition GetSubmitByGwID (gwMsgID : bytes) (s : MessageStore) : got SubmitRecord :=
  get_as un_submit (key NsGw gwMsgID) s.
Definition DeleteSubmit (smscMsgID : bytes) (s : MessageStore) : MessageStore :=
  msgCount_Add (-1) (db_Delete (key NsMsg smscMsgID) s).
Definition DeleteSubmitByGwID (gwMsgID : bytes) (s : MessageStore) : MessageStore :=
  msgCount_Add (-1) (db_Delete (key NsGw gwMsgID) s).

(** ** The batch writer *)

Definition maxBatch : nat := 500.

Definition commit (ops : list writeOp) (db : DB) : DB :=
  foldl (λ db op, kv_set (wo_key op) (wo_data op) db) db ops.

Definition writer_flush (s : MessageStore) : MessageStore :=
  st_with_queue (st_with_db s (commit (st_batch s) (st_db s))) (st_writeCh s) [].

Definition writer_recv (s : MessageStore) : MessageStore :=
  match st_writeCh s with
  | [] => s
  | op :: ch =>
      let s := st_with_queue s ch (st_batch s ++ [op]) in
      if decide (maxBatch <= length (st_batch s))%nat then writer_flush s else s
  end.

(** stopCh is closed: drain the channel, close it, flush. *)
Definition writer_stop (s : MessageStore) : MessageStore :=
  let s := st_with_queue s [] (st_batch s ++ st_writeCh s) in
  writer_flush (st_with_closed s (st_closed s) true).

(** [Close] sets the flag, then the writer stops; closing the database keeps its
    contents. *)
Definition store_Close (s : MessageStore) : MessageStore :=
  writer_stop (st_with_closed s true (st_chClosed s)).

(** ** The retry queues *)

Definition EnqueueRetry (id : bytes) (p : PendingDeliver) (s : MessageStore) : MessageStore :=
  retryCount_Add 1 (db_Set (retry_key (pd_EnqueuedAt p) id) (json_pending_deliver p) s).

Fixpoint drain_retries_loop (limit staleThreshold : Z) (es : list (bytes * doc)) (deleted : Z) :
    list bytes * list PendingDeliver :=
  match es with
  | [] => ([], [])
  | (k, v) :: es =>
      if decide (0 < limit ∧ limit <= deleted) then ([], [])
      else match un_pending_deliver v with
           | None => drain_retries_loop limit staleThreshold es deleted
           | Some p =>
               let '(batch, results) := drain_retries_loop limit staleThreshold es (deleted + 1) in
               (k :: batch, if decide (pd_EnqueuedAt p < staleThreshold) then results else p :: results)
           end
  end.

(** [now] bounds the keys, [now'] is the reading for the age. *)
Definition DrainRetries (now now' maxAge limit : Z) (s : MessageStore) :
    list PendingDeliver * MessageStore :=
  let upperKey := key NsRetry (pad20 (UnixNano now) ++ str ":") in
  let es := kv_range (str "retry:") (Some upperKey) (st_db s) in
  let '(batch, results) := drain_retries_loop limit (now' - maxAge) es 0 in
  (results, retryCount_Add (- zlen batch) (db_DeleteAll batch s)).

Definition EnqueueSubmitRetry (p : PendingSubmit) (s : MessageStore) : MessageStore :=
  submitRetryCount_Add 1
    (db_Set (submit_retry_key (ps_EnqueuedAt p) (ps_GwMsgID p)) (json_pending_submit p) s).

Fixpoint drain_submits_loop (limit : Z) (es : list (bytes * doc)) (deleted : Z) :
    list bytes * list PendingSubmit :=
  match es with
  | [] => ([], [])
  | (k, v) :: es =>
      if decide (0 < limit ∧ limit <= deleted) then ([], [])
      else match un_pending_submit v with
           | None => drain_submits_loop limit es deleted
           | Some p =>
               let '(batch, results) := drain_submits_loop limit es (deleted + 1) in
               (k :: batch, p :: results)
           end
  end.

Definition DrainSubmitRetries (limit : Z) (s : MessageStore) : list PendingSubmit * MessageStore :=
  let es := kv_range (str "submit-retry:") (Some (str "submit-retry:" ++ [255])) (st_db s) in
  let '(batch, results) := drain_submits_loop limit es 0 in
  (results, submitRetryCount_Add (- zlen batch) (db_DeleteAll batch s)).

Definition PendingRetryCount (s : MessageStore) : Z := st_retryCount s.
Definition PendingSubmitRetryCount (s : MessageStore) : Z := st_submitRetryCount s.
Definition MessageCount (s : MessageStore) : Z := st_msgCount s.
Definition MessageLogCount (s : MessageStore) : Z := st_logCount s.

(** ** Cleanup *)

(** The timestamp is updated_at when there is one, else submitted_at. *)
Definition expired (cutoff : Z) (v : doc) : bool :=
  match doc_times v with
  | None => false
  | Some (submittedAt, updatedAt) =>
      bool_decide ((if IsZero updatedAt then submittedAt else updatedAt) < cutoff)
  end.

(** An index entry goes when its log entry is gone or expired. *)
Definition index_expired (db : DB) (cutoff : Z) (v : doc) : bool :=
  match v with
  | DLogKey k =>
      match kv_get db k with
      | None => true
      | Some e =>
          let updatedAt := match doc_times e with Some (_, u) => u | None => zero_time end in
          negb (IsZero updatedAt) && bool_decide (updatedAt < cutoff)
      end
  | _ => true
  end.

Definition cleanup_prefix (db : DB) (cutoff : Z) (prefix : bytes) : list bytes :=
  (filter (λ e, (if decide (prefix = str "logidx:") then index_expired db cutoff e.2
                 else expired cutoff e.2) = true)
     (kv_range prefix (Some (prefix ++ [255])) db)).*1.

Definition Cleanup (now ttl : Z) (s : MessageStore) : Z * MessageStore :=
  let cutoff := now - ttl in
  let batch := (str <$> ["msg:"; "gw:"; "status:"; "log:"; "logidx:"]%string) ≫= cleanup_prefix (st_db s) cutoff in
  let logDeleted := zlen (cleanup_prefix (st_db s) cutoff (str "log:")) in
  let deleted := zlen batch in
  (deleted,
   if decide (0 < deleted) then
     logCount_Add (- logDeleted) (msgCount_Add (- (deleted - logDeleted)) (db_DeleteAll batch s))
   else s).

(** ** JSON documents under arbitrary keys *)

Definition SetJSON (k : bytes) (d : doc) (s : MessageStore) : MessageStore := db_Set k d s.
Definition GetJSON {A} (un : doc → option A) (k : bytes) (s : MessageStore) : got A := get_as un k s.
Definition DeleteKey (k : bytes) (s : MessageStore) : MessageStore := db_Delete k s.

(** The loop of prefixUpperBound, from the last byte. *)
Fixpoint upper_loop (rev : bytes) : option bytes :=
  match rev with
  | [] => None
  | b :: rev =>
      let b' := u8 (b + 1) in
      if decide (b' = 0) then (λ r, 0 :: r) <$> upper_loop rev else Some (b' :: rev)
  end.
Definition prefixUpperBound (prefix : bytes) : option bytes := reverse <$> upper_loop (reverse prefix).

(** The callback threads a state and may stop with an error. *)
Fixpoint scan_loop {S E} (fn : bytes → doc → S → S + E) (es : list (bytes * doc)) (st : S) : S * option E :=
  match es with
  | [] => (st, None)
  | (k, v) :: es => match fn k v st with inl st => scan_loop fn es st | inr e => (st, Some e) end
  end.
Definition ScanPrefix {S E} (prefix : bytes) (fn : bytes → doc → S → S + E) (st : S) (s : MessageStore) :
    S * option E :=
  scan_loop fn (kv_range prefix (prefixUpperBound prefix) (st_db s)) st.

(** ** Message status *)

Definition SetMessageStatus (st : MessageStatus) (s : MessageStore) : MessageStore :=
  SetJSON (key NsStatus (ms_GwMsgID st)) (json_status st) s.
Definition GetMessageStatus (gwMsgID : bytes) (s : MessageStore) : got MessageStatus :=
  GetJSON un_status (key NsStatus gwMsgID) s.

(** ** The message log *)

Definition le_with_times (e : MessageLogEntry) (created updated : Z) : MessageLogEntry :=
  mkLogEntry (le_GwMsgID e) (le_SmscMsgID e) (le_ConnID e) (le_SourceAddr e) (le_DestAddr e)
    (le_Status e) (le_DLRStatus e) (le_Cost e) created updated.

(** The entry is the caller's, which sees its times set. *)
Definition LogMessage (now : Z) (e : MessageLogEntry) (s : MessageStore) : MessageLogEntry * MessageStore :=
  let e := le_with_times e (if IsZero (le_CreatedAt e) then now else le_CreatedAt e) now in
  let k := log_key (le_CreatedAt e) (le_GwMsgID e) in
  let s := db_Set k (json_log e) s in
  let s := db_Set (key NsLogIdx (le_GwMsgID e)) (DLogKey k) s in
  (e, logCount_Add 1 s).

(** False when the entry cannot be decoded. *)
Definition UpdateMessageLog (now : Z) (gwMsgID : bytes) (updater : MessageLogEntry → MessageLogEntry)
    (s : MessageStore) : MessageStore * bool :=
  match kv_get (st_db s) (key NsLogIdx gwMsgID) with
  | Some (DLogKey logKey) =>
      match kv_get (st_db s) logKey with
      | None => (s, true)
      | Some d =>
          match un_log d with
          | None => (s, false)
          | Some e =>
              let e := updater e in
              (db_Set logKey (json_log (le_with_times e (le_CreatedAt e) now)) s, true)
          end
      end
  | _ => (s, true)
  end.

(** Times of the filter come with the zone offset they are printed in. *)
Record MessageFilter := mkFilter {
  mf_ConnID : bytes; mf_Status : bytes; mf_From : bytes; mf_To : bytes;
  mf_After : Z * Z; mf_Before : Z * Z; mf_Limit : Z
}.

Definition filter_match (f : MessageFilter) (e : MessageLogEntry) : bool :=
  negb (bool_decide (mf_ConnID f ≠ []) && bool_decide (le_ConnID e ≠ mf_ConnID f)) &&
  negb (bool_decide (mf_Status f ≠ []) && bool_decide (le_Status e ≠ mf_Status f)) &&
  negb (bool_decide (mf_From f ≠ []) && negb (Contains (le_SourceAddr e) (mf_From f))) &&
  negb (bool_decide (mf_To f ≠ []) && negb (Contains (le_DestAddr e) (mf_To f))).

Definition query_limit (f : MessageFilter) : Z :=
  let limit := if decide (mf_Limit f <= 0) then 50 else mf_Limit f in
  if decide (200 < limit) then 200 else limit.

Fixpoint query_loop (f : MessageFilter) (limit : Z) (es : list (bytes * doc)) (n : Z) : list MessageLogEntry :=
  match es with
  | [] => []
  | (_, v) :: es =>
      if decide (limit <= n) then []
      else match un_log v with
           | Some e => if filter_match f e then e :: query_loop f limit es (n + 1) else query_loop f limit es n
           | None => query_loop f limit es n
           end
  end.

Definition query_range (f : MessageFilter) (db : DB) : list (bytes * doc) :=
  let lower := if IsZero (mf_After f).1 then str "log:"
               else str "log:" ++ RFC3339Nano (mf_After f).2 (mf_After f).1 in
  let upper := if IsZero (mf_Before f).1 then str "log:" ++ [255]
               else str "log:" ++ RFC3339Nano (mf_Before f).2 (mf_Before f).1 ++ [255] in
  kv_range lower (Some upper) db.

Definition QueryMessages (f : MessageFilter) (s : MessageStore) : list MessageLogEntry :=
  query_loop f (query_limit f) (reverse (query_range f (st_db s))) 0.

End store.

(** ** Namespaces do not overlap *)

Lemma ns_prefix_free n m : n ≠ m → ¬ ns_prefix n `prefix_of` ns_prefix m.
Proof. destruct n, m; intros Hne; (done || apply (bool_decide_unpack _); vm_compute; exact I). Qed.

Lemma key_inj n m x y : key n x = key m y ↔ n = m ∧ x = y.
Proof.
  split; [|by intros [-> ->]]. unfold key. intros He.
  destruct (decide (n = m)) as [->|Hne]; [by apply app_inv_head in He|]. exfalso.
  destruct (prefix_weak_total (ns_prefix n) (ns_prefix m) (ns_prefix n ++ x)) as [H|H].
  - by apply prefix_app_r.
  - rewrite He. by apply prefix_app_r.
  - by apply (ns_prefix_free n m).
  - apply (ns_prefix_free m n); [|done]. congruence.
Qed.

Lemma key_ns_ne n m x y : n ≠ m → key n x ≠ key m y.
Proof. intros Hne [? _]%key_inj. done. Qed.

Lemma time_key_inj n t t' x y : 0 <= t < 2 ^ 63 → 0 <= t' < 2 ^ 63 →
  key n (pad20 (UnixNano t) ++ str ":" ++ x) = key n (pad20 (UnixNano t') ++ str ":" ++ y) →
  t = t' ∧ x = y.
Proof.
  intros Ht Ht' [_ He]%key_inj. unfold UnixNano in He. rewrite !i64_id in He by lia.
  apply pad20_inj in He as [-> He]; [|done..]. split; [done|]. by apply app_inv_head in He.
Qed.

Lemma prefix_lt_bound q b k : key_le (q ++ [b]) k → key_lt k (q ++ [b + 1]) → (q ++ [b]) `prefix_of` k.
Proof.
  unfold key_le, key_lt. revert k. induction q as [|x q IH]; intros k; simpl.
  - destruct k as [|c k]; [done|]. simpl. intros K1 K2.
    assert (c = b) as -> by (revert K1 K2; repeat case_decide; try done; destruct k; try done; lia).
    apply prefix_cons, prefix_nil.
  - destruct k as [|c k]; [done|]. simpl. repeat case_decide; try done; try lia. subst. intros.
    apply prefix_cons. by apply IH.
Qed.

(** The bounds of a namespace's range: ':' comes before ';'. *)
Lemma prefix_upper_exact q b k :
  key_le (q ++ [b]) k ∧ key_lt k (q ++ [b + 1]) ↔ (q ++ [b]) `prefix_of` k.
Proof.
  split.
  - intros [K1 K2]. by apply prefix_lt_bound.
  - intros [r ->]. split; [apply key_le_app|]. unfold key_lt. rewrite <-!app_assoc, blt_app. simpl.
    by rewrite decide_True by lia.
Qed.

(** Between a word and an extension of it there are only extensions. *)
Lemma key_between_prefix p x k : key_le p k → key_lt k (p ++ x) → p `prefix_of` k.
Proof.
  revert k. induction p as [|a p IH]; intros k; [intros; apply prefix_nil|].
  unfold key_le, key_lt in *. destruct k as [|b k]; [done|]. simpl.
  repeat case_decide; try done; try lia. subst. intros. by apply prefix_cons, IH.
Qed.

Lemma prefixUpperBound_snoc q b : 0 <= b < 255 → prefixUpperBound (q ++ [b]) = Some (q ++ [b + 1]).
Proof.
  intros Hb. unfold prefixUpperBound. rewrite reverse_snoc. cbn [upper_loop].
  rewrite u8_id by (unfold byte_ok; lia). rewrite decide_False by lia. simpl.
  by rewrite reverse_cons, reverse_involutive.
Qed.

Section store_lemmas.
Context {DB : Type} `{!KV DB, !KVLaws DB} `{!Zone}.
Implicit Types (s : MessageStore (DB := DB)).

(** What the database answers after each write. *)
Lemma get_db_Set k v s k' :
  kv_get (st_db (db_Set k v s)) k' = if decide (k = k') then Some v else kv_get (st_db s) k'.
Proof. apply kv_get_set. Qed.
Lemma get_db_Delete k s k' :
  kv_get (st_db (db_Delete k s)) k' = if decide (k = k') then None else kv_get (st_db s) k'.
Proof. apply kv_get_delete. Qed.
Lemma get_db_DeleteAll ks s k' :
  kv_get (st_db (db_DeleteAll ks s)) k' = if decide (k' ∈ ks) then None else kv_get (st_db s) k'.
Proof. apply kv_get_delete_all. Qed.
Lemma get_commit ops (db : DB) k :
  kv_get (commit ops db) k =
  foldl (λ r op, if decide (wo_key op = k) then Some (wo_data op) else r) (kv_get db k) ops.
Proof.
  unfold commit. revert db. induction ops as [|op ops IH]; intros db; cbn [foldl]; [done|].
  by rewrite IH, kv_get_set.
Qed.

(** *** Draining, in closed form *)

(** What a drain takes when [d] entries are taken already: all without a limit. *)
Definition drain_take {A} (limit d : Z) (es : list A) : list A :=
  if decide (0 < limit) then take (Z.to_nat (limit - d)) es else es.

Lemma drain_take_cons {A} limit d (e : A) es :
  drain_take limit d (e :: es) =
  if decide (0 < limit ∧ limit <= d) then [] else e :: drain_take limit (d + 1) es.
Proof.
  unfold drain_take. destruct (decide (0 < limit)); [|by rewrite decide_False by lia].
  case_decide; [by replace (Z.to_nat (limit - d)) with O by lia|].
  by replace (Z.to_nat (limit - d)) with (S (Z.to_nat (limit - (d + 1)))) by lia.
Qed.

Lemma drain_retries_loop_eq limit stale (es : list (bytes * PendingDeliver)) d :
  drain_retries_loop limit stale (prod_map id DPendingDeliver <$> es) d =
  ((drain_take limit d es).*1, filter (λ p, stale <= pd_EnqueuedAt p) (drain_take limit d es).*2).
Proof.
  revert d. induction es as [|[k p] es IH]; intros d.
  - unfold drain_take. case_decide; by rewrite ?take_nil.
  - rewrite drain_take_cons. cbn [fmap list_fmap prod_map drain_retries_loop un_pending_deliver].
    case_decide; [done|]. fold (fmap (prod_map (@id bytes) DPendingDeliver) es).
    rewrite IH. cbn [fmap list_fmap fst snd id]. rewrite filter_cons.
    f_equal. repeat case_decide; done || lia.
Qed.

Lemma drain_submits_loop_eq limit (es : list (bytes * PendingSubmit)) d :
  drain_submits_loop limit (prod_map id DPendingSubmit <$> es) d =
  ((drain_take limit d es).*1, (drain_take limit d es).*2).
Proof.
  revert d. induction es as [|[k p] es IH]; intros d.
  - unfold drain_take. case_decide; by rewrite ?take_nil.
  - rewrite drain_take_cons. cbn [fmap list_fmap prod_map drain_submits_loop un_pending_submit].
    case_decide; [done|]. by rewrite IH.
Qed.
(** ** The store is well typed *)

(** The document a key of a namespace may hold; the keys of the retry queues start with
    the time their document was queued at. *)
Definition doc_in (n : namespace) (x : bytes) (v : doc) : Prop :=
  match n with
  | NsMsg | NsGw => is_Some (un_submit v)
  | NsRetry => ∃ p id, v = DPendingDeliver p ∧ 0 <= pd_EnqueuedAt p < 2 ^ 63 ∧
      x = pad20 (UnixNano (pd_EnqueuedAt p)) ++ str ":" ++ id
  | NsSubmitRetry => ∃ p id, v = DPendingSubmit p ∧ 0 <= ps_EnqueuedAt p < 2 ^ 63 ∧
      x = pad20 (UnixNano (ps_EnqueuedAt p)) ++ str ":" ++ id ∧ ps_GwMsgID p = json_string id
  | NsStatus => is_Some (un_status v)
  | NsLog => is_Some (un_log v)
  | NsLogIdx => ∃ y, v = DLogKey (key NsLog y)
  | NsCallback | NsCallbackRetry => is_Some (un_callback v)
  | NsConnConfig => ∃ c, v = DConnConfig c
  | NsMTRoute => ∃ r, v = DMTRoute r
  | NsMORoute => ∃ r, v = DMORoute r
  | NsPool => ∃ c, v = DPool c
  | NsAPIKey => ∃ k, v = DAPIKey k
  | NsUser => ∃ u, v = DUser u
  end.

Definition entry_typed (k : bytes) (v : doc) : Prop := ∀ n x, k = key n x → doc_in n x v.

Record store_typed (s : MessageStore (DB := DB)) : Prop := {
  ty_db : ∀ k v, kv_get (st_db s) k = Some v → entry_typed k v;
  ty_queue : Forall (λ op, entry_typed (wo_key op) (wo_data op) ∧ is_Some (un_submit (wo_data op)))
    (st_batch s ++ st_writeCh s)
}.

Lemma entry_typed_key n x v : entry_typed (key n x) v ↔ doc_in n x v.
Proof. split; [intros Hv; by apply Hv|]. by intros Hv n' x' [-> ->]%key_inj. Qed.

(** Every change of the store, as the rest of the gateway makes them. *)
Inductive store_op :=
| OpStoreSubmit (r : SubmitRecord)
| OpDeleteSubmit (smscMsgID : bytes)
| OpDeleteSubmitByGwID (gwMsgID : bytes)
| OpWriterRecv | OpWriterFlush | OpClose
| OpEnqueueRetry (id : bytes) (p : PendingDeliver)
| OpDrainRetries (now now' maxAge limit : Z)
| OpEnqueueSubmitRetry (p : PendingSubmit)
| OpDrainSubmitRetries (limit : Z)
| OpCleanup (now ttl : Z)
| OpSetMessageStatus (st : MessageStatus)
| OpLogMessage (now : Z) (e : MessageLogEntry)
| OpUpdateMessageLog (now : Z) (gwMsgID : bytes) (updater : MessageLogEntry → MessageLogEntry)
| OpSetJSON (n : namespace) (x : bytes) (d : doc)
| OpDeleteKey (k : bytes).

Definition run_store_op (s : MessageStore (DB := DB)) (op : store_op) : MessageStore :=
  match op with
  | OpStoreSubmit r => StoreSubmit r s
  | OpDeleteSubmit id => DeleteSubmit id s
  | OpDeleteSubmitByGwID id => DeleteSubmitByGwID id s
  | OpWriterRecv => writer_recv s
  | OpWriterFlush => writer_flush s
  | OpClose => store_Close s
  | OpEnqueueRetry id p => EnqueueRetry id p s
  | OpDrainRetries now now' maxAge limit => (DrainRetries now now' maxAge limit s).2
  | OpEnqueueSubmitRetry p => EnqueueSubmitRetry p s
  | OpDrainSubmitRetries limit => (DrainSubmitRetries limit s).2
  | OpCleanup now ttl => (Cleanup now ttl s).2
  | OpSetMessageStatus st => SetMessageStatus st s
  | OpLogMessage now e => (LogMessage now e s).2
  | OpUpdateMessageLog now id f => (UpdateMessageLog now id f s).1
  | OpSetJSON n x d => SetJSON (key n x) d s
  | OpDeleteKey k => DeleteKey k s
  end.

(** Times of queued messages are after 1970 and fit 64 bits of nanoseconds; the other
    stores write documents of their own kind. *)
Definition store_op_ok (op : store_op) : Prop :=
  match op with
  | OpEnqueueRetry _ p => 0 <= pd_EnqueuedAt p < 2 ^ 63
  | OpEnqueueSubmitRetry p => 0 <= ps_EnqueuedAt p < 2 ^ 63
  | OpSetJSON n x d => doc_in n x d
  | _ => True
  end.

Lemma typed_counts s m r u l : store_typed s → store_typed (st_with_counts s m r u l).
Proof. by intros [Hd Hq]. Qed.

Lemma typed_db_Set k v s : entry_typed k v → store_typed s → store_typed (db_Set k v s).
Proof.
  intros Hv [Hd Hq]. split; [|done]. intros k' v'. rewrite get_db_Set.
  case_decide; [subst; by intros [= <-]|apply Hd].
Qed.

Lemma typed_db_DeleteAll ks s : store_typed s → store_typed (db_DeleteAll ks s).
Proof.
  intros [Hd Hq]. split; [|done]. intros k' v'. rewrite get_db_DeleteAll.
  case_decide; [done|apply Hd].
Qed.

Lemma typed_db_Delete k s : store_typed s → store_typed (db_Delete k s).
Proof. apply (typed_db_DeleteAll [k]). Qed.

Lemma typed_commit (ops : list writeOp) (db : DB) :
  Forall (λ op, entry_typed (wo_key op) (wo_data op) ∧ is_Some (un_submit (wo_data op))) ops →
  (∀ k v, kv_get db k = Some v → entry_typed k v) →
  ∀ k v, kv_get (commit ops db) k = Some v → entry_typed k v.
Proof.
  intros Ho. revert db. induction Ho as [|op ops [Hop _] _ IH]; intros db Hd; [done|].
  apply (IH (kv_set (wo_key op) (wo_data op) db)). intros k v. rewrite kv_get_set.
  case_decide; [subst; by intros [= <-]|apply Hd].
Qed.

Lemma typed_flush s : store_typed s → store_typed (writer_flush s).
Proof.
  intros [Hd [Hb Hc]%Forall_app]. split; [by apply typed_commit|done].
Qed.

Lemma submit_key_typed r : entry_typed (submit_key r) (json_submit r).
Proof. unfold submit_key. case_decide; apply entry_typed_key; simpl; eauto. Qed.

Lemma typed_StoreSubmit r s : store_typed s → store_typed (StoreSubmit r s).
Proof.
  intros Ht. unfold StoreSubmit, store_after_check. pose proof (submit_key_typed r).
  assert (store_typed (msgCount_Add 1 (db_Set (submit_key r) (json_submit r) s))) as Hs.
  { by apply typed_counts, typed_db_Set. }
  destruct (st_closed s); [done|]. destruct (st_chClosed s); [done|]. case_decide; [|done].
  destruct Ht as [Hd Hq]. split; [done|]. simpl. rewrite app_assoc. apply Forall_app.
  repeat constructor; simpl; eauto.
Qed.

Lemma typed_writer s :
  store_typed s → store_typed (writer_recv s) ∧ store_typed (writer_flush s) ∧ store_typed (store_Close s).
Proof.
  intros Ht. split; [|split].
  - unfold writer_recv. destruct (st_writeCh s) as [|op ch] eqn:E; [done|].
    assert (store_typed (st_with_queue s ch (st_batch s ++ [op]))) as H'.
    { destruct Ht as [Hd Hq]. split; [done|]. simpl. rewrite <-app_assoc. by rewrite E in Hq. }
    case_decide; [by apply typed_flush|done].
  - by apply typed_flush.
  - unfold store_Close, writer_stop. apply typed_flush. destruct Ht as [Hd Hq].
    split; [done|]. simpl. by rewrite app_nil_r.
Qed.

Lemma typed_UpdateMessageLog now id f s :
  store_typed s → store_typed (UpdateMessageLog now id f s).1 ∧ (UpdateMessageLog now id f s).2 = true.
Proof.
  intros Ht. unfold UpdateMessageLog. destruct (kv_get _ (key NsLogIdx id)) as [v|] eqn:E; [|done].
  apply (ty_db _ Ht), entry_typed_key in E as [y ->].
  destruct (kv_get _ (key NsLog y)) as [d|] eqn:E'; [|done].
  apply (ty_db _ Ht), entry_typed_key in E' as [e ->]. split; [|done].
  apply typed_db_Set; [apply entry_typed_key; simpl; eauto|done].
Qed.

Lemma typed_op op s : store_op_ok op → store_typed s → store_typed (run_store_op s op).
Proof.
  intros Hok Ht. destruct op; simpl in *.
  - by apply typed_StoreSubmit.
  - by apply typed_counts, typed_db_Delete.
  - by apply typed_counts, typed_db_Delete.
  - by apply typed_writer.
  - by apply typed_writer.
  - by apply typed_writer.
  - apply typed_counts, typed_db_Set; [|done]. apply entry_typed_key. by eexists _, _.
  - unfold DrainRetries. destruct (drain_retries_loop _ _ _ _) as [batch results].
    by apply typed_counts, typed_db_DeleteAll.
  - apply typed_counts, typed_db_Set; [|done]. apply entry_typed_key. by eexists _, _.
  - unfold DrainSubmitRetries. destruct (drain_submits_loop _ _ _) as [batch results].
    by apply typed_counts, typed_db_DeleteAll.
  - unfold Cleanup. cbn [snd]. case_decide; [|done].
    by apply typed_counts, typed_counts, typed_db_DeleteAll.
  - apply typed_db_Set; [apply entry_typed_key; simpl; eauto|done].
  - apply typed_counts, typed_db_Set; [apply entry_typed_key; simpl; eexists; reflexivity|].
    apply typed_db_Set; [apply entry_typed_key; simpl; eauto|done].
  - by apply typed_UpdateMessageLog.
  - by apply typed_db_Set; [apply entry_typed_key|].
  - by apply typed_db_Delete.
Qed.

Lemma run_typed ops s :
  Forall store_op_ok ops → store_typed s → store_typed (foldl run_store_op s ops).
Proof.
  intros Hops. revert s. induction Hops as [|op ops Hop _ IH]; intros s Hs; [done|].
  cbn [foldl]. apply IH. by apply typed_op.
Qed.

Lemma New_typed (db : DB) :
  (∀ k v, kv_get db k = Some v → entry_typed k v) → store_typed (NewMessageStore db).
Proof. intros Hdb. split; [done|constructor]. Qed.

(** C14: the store is well typed.  From a well-typed database, any sequence of the
    store's operations leaves every key with a document of its namespace's kind, in the
    database and in what the batch writer still holds, so no read finds a document it
    cannot decode: submit records, statuses and callbacks are there or not, and the
    message log can always be updated. *)
Theorem store_well_typed (db : DB) ops :
  (∀ k v, kv_get db k = Some v → entry_typed k v) → Forall store_op_ok ops →
  let s := foldl run_store_op (NewMessageStore db) ops in
  store_typed s ∧
  (∀ id, GetSubmit id s ≠ GotBad ∧ GetSubmitByGwID id s ≠ GotBad ∧ GetMessageStatus id s ≠ GotBad ∧
     GetJSON un_callback (key NsCallback id) s ≠ GotBad) ∧
  ∀ now id f, (UpdateMessageLog now id f s).2 = true.
Proof.
  intros Hdb Hops. cbv zeta.
  pose proof (run_typed ops _ Hops (New_typed _ Hdb)) as Ht.
  split; [done|]. split; [|intros; by apply typed_UpdateMessageLog].
  assert (∀ n x A (un : doc → option A), (∀ v, doc_in n x v → is_Some (un v)) →
    get_as un (key n x) (foldl run_store_op (NewMessageStore db) ops) ≠ GotBad) as Hget.
  { intros n x A un Hun. unfold get_as. destruct (kv_get _ _) as [v|] eqn:E; [|done].
    apply (ty_db _ Ht), entry_typed_key, Hun in E as [a ->]. done. }
  intros id. split_and!; apply Hget; done.
Qed.

(** ** The retry queues *)

Definition retry_upper (now : Z) : bytes := key NsRetry (pad20 (UnixNano now) ++ str ":").

(** The decoded entries of a range. *)
Definition decode_entries {A} (un : doc → option A) (l : list (bytes * doc)) : list (bytes * A) :=
  omap (λ e, a ← un e.2; Some (e.1, a)) l.

Lemma decode_entries_eq {A} (con : A → doc) (un : doc → option A) l :
  (∀ a, un (con a) = Some a) → (∀ k v, (k, v) ∈ l → ∃ a, v = con a) →
  l = prod_map id con <$> decode_entries un l.
Proof.
  intros Hun. induction l as [|[k v] l IH]; intros Hall; [done|].
  destruct (Hall k v) as [a ->]; [by left|]. unfold decode_entries in *. simpl. rewrite Hun. simpl.
  f_equal. apply IH. intros k' v' Hin. apply (Hall k'). by right.
Qed.

Lemma fst_prod_map {A B} (f : A → B) (l : list (bytes * A)) : (prod_map id f <$> l).*1 = l.*1.
Proof. rewrite <-list_fmap_compose. by apply list_fmap_ext. Qed.

Lemma elem_of_prod_map {A B} (f : A → B) `{!Inj (=) (=) f} (l : list (bytes * A)) k a :
  (k, f a) ∈ prod_map id f <$> l ↔ (k, a) ∈ l.
Proof.
  rewrite list_elem_of_fmap. split; [|intros Hin; by exists (k, a)].
  intros ([k' a'] & [= -> He] & Hin). by apply (inj f) in He as ->.
Qed.

#[local] Instance DPendingDeliver_inj : Inj (=) (=) DPendingDeliver.
Proof. by intros a b [= ->]. Qed.
#[local] Instance DPendingSubmit_inj : Inj (=) (=) DPendingSubmit.
Proof. by intros a b [= ->]. Qed.

(** The messages queued before [now], in the order of their keys. *)
Definition due_retries (now : Z) s : list (bytes * PendingDeliver) :=
  decode_entries un_pending_deliver (kv_range (str "retry:") (Some (retry_upper now)) (st_db s)).
Definition due_submits s : list (bytes * PendingSubmit) :=
  decode_entries un_pending_submit
    (kv_range (str "submit-retry:") (Some (str "submit-retry:" ++ [255])) (st_db s)).

Lemma retry_key_below t now id : 0 <= t < 2 ^ 63 → 0 <= now < 2 ^ 63 →
  key_lt (retry_key t id) (retry_upper now) ↔ t < now.
Proof.
  intros Ht Hn. unfold retry_key, retry_upper, key, UnixNano, key_lt. rewrite !i64_id, blt_app by lia.
  split; [|by apply pad20_key_lt]. intros Hlt. apply Z.nle_gt. intros Hle.
  destruct (decide (t = now)) as [->|].
  - rewrite blt_app in Hlt. by destruct id.
  - pose proof (pad20_key_lt now t (str ":") (str ":" ++ id) ltac:(lia) ltac:(lia) ltac:(lia)) as Hgt.
    by apply (key_lt_asym _ _ Hlt).
Qed.

Lemma due_retries_range now s : store_typed s →
  kv_range (str "retry:") (Some (retry_upper now)) (st_db s) =
  prod_map id DPendingDeliver <$> due_retries now s.
Proof.
  intros Ht. apply decode_entries_eq; [done|]. intros k v (Hg & Hlo & Hhi)%kv_range_elem.
  destruct (key_between_prefix _ _ _ Hlo Hhi) as [x ->].
  apply (ty_db _ Ht), (entry_typed_key NsRetry) in Hg as (p & id & -> & _). eauto.
Qed.

Lemma due_submits_range s : store_typed s →
  kv_range (str "submit-retry:") (Some (str "submit-retry:" ++ [255])) (st_db s) =
  prod_map id DPendingSubmit <$> due_submits s.
Proof.
  intros Ht. apply decode_entries_eq; [done|]. intros k v (Hg & Hlo & Hhi)%kv_range_elem.
  destruct (key_between_prefix _ _ _ Hlo Hhi) as [x ->].
  apply (ty_db _ Ht), (entry_typed_key NsSubmitRetry) in Hg as (p & id & -> & _). eauto.
Qed.

Lemma due_retries_elem now s k p : store_typed s → 0 <= now < 2 ^ 63 →
  (k, p) ∈ due_retries now s ↔
  kv_get (st_db s) k = Some (DPendingDeliver p) ∧ (∃ id, k = retry_key (pd_EnqueuedAt p) id) ∧
  pd_EnqueuedAt p < now.
Proof.
  intros Ht Hn.
  rewrite <-(elem_of_prod_map DPendingDeliver), <-(due_retries_range _ _ Ht), kv_range_elem. unfold below. split.
  - intros (Hg & Hlo & Hhi). split; [done|].
    destruct (key_between_prefix _ _ _ Hlo Hhi) as [x ->]. pose proof Hg as Hg'.
    apply (ty_db _ Ht), (entry_typed_key NsRetry) in Hg' as (p' & id & [= <-] & Hp & ->).
    split; [by exists id|]. by apply (retry_key_below _ _ id).
  - intros (Hg & [id ->] & Hlt). pose proof Hg as Hg'.
    apply (ty_db _ Ht), (entry_typed_key NsRetry) in Hg' as (p' & id' & [= <-] & Hp & _).
    split; [done|]. split; [apply key_le_app|by apply retry_key_below].
Qed.

Lemma due_retries_sorted now s : store_typed s → 0 <= now < 2 ^ 63 →
  StronglySorted key_lt (due_retries now s).*1 ∧
  StronglySorted (λ a b, pd_EnqueuedAt a <= pd_EnqueuedAt b) (due_retries now s).*2.
Proof.
  intros Ht Hn.
  pose proof (kv_range_sorted (str "retry:") (Some (retry_upper now)) (st_db s)) as Hs.
  rewrite (due_retries_range _ _ Ht), fst_prod_map in Hs. split; [done|].
  assert (Forall (λ e, 0 <= pd_EnqueuedAt e.2 < 2 ^ 63 ∧ ∃ id, e.1 = retry_key (pd_EnqueuedAt e.2) id)
    (due_retries now s)) as Hk.
  { apply Forall_forall. intros [k p] (Hg & [id ->] & _)%due_retries_elem; [|done..].
    apply (ty_db _ Ht), (entry_typed_key NsRetry) in Hg as (p' & id' & [= <-] & Hp & _). simpl. eauto. }
  revert Hs Hk. generalize (due_retries now s). intros l. induction l as [|[k p] l IH]; intros Hs Hk; [constructor|].
  cbn [fmap list_fmap fst snd] in *. apply StronglySorted_inv in Hs as [Hs Hx].
  apply Forall_cons in Hk as [(Hp & id & Hkp) Hk]. constructor; [by apply IH|].
  rewrite Forall_fmap in Hx. apply Forall_fmap. rewrite Forall_forall in Hx, Hk. apply Forall_forall.
  intros [k' p'] Hin. destruct (Hk _ Hin) as (Hp' & id' & Hk'). specialize (Hx _ Hin). simpl in *. subst.
  apply Z.nlt_ge. intros Hlt. apply (key_lt_asym _ _ Hx).
  unfold retry_key, key, UnixNano, key_lt. rewrite !i64_id, blt_app by lia. by apply pad20_key_lt.
Qed.

Lemma DrainRetries_eq now now' maxAge limit s : store_typed s →
  DrainRetries now now' maxAge limit s =
  (let taken := drain_take limit 0 (due_retries now s) in
   (filter (λ p, now' - maxAge <= pd_EnqueuedAt p) taken.*2,
    retryCount_Add (- zlen taken.*1) (db_DeleteAll taken.*1 s))).
Proof.
  intros Ht. unfold DrainRetries. fold (retry_upper now).
  by rewrite (due_retries_range _ _ Ht), drain_retries_loop_eq.
Qed.

(** C26: draining the northbound retry queue.  A drain takes the messages queued before
    the reading of the clock, oldest first and at most [limit] of them (all of them
    without a limit); it deletes exactly those from the store and returns those of them
    that are not older than [maxAge]. *)
Theorem DrainRetries_spec now now' maxAge limit s :
  store_typed s → 0 <= now < 2 ^ 63 →
  let '(results, s') := DrainRetries now now' maxAge limit s in
  ∃ due : list (bytes * PendingDeliver),
    StronglySorted (λ a b, pd_EnqueuedAt a <= pd_EnqueuedAt b) due.*2 ∧ NoDup due.*1 ∧
    (∀ k p, (k, p) ∈ due ↔ kv_get (st_db s) k = Some (DPendingDeliver p) ∧
       (∃ id, k = retry_key (pd_EnqueuedAt p) id) ∧ pd_EnqueuedAt p < now) ∧
    let taken := if decide (0 < limit) then take (Z.to_nat limit) due else due in
    results = filter (λ p, now' - maxAge <= pd_EnqueuedAt p) taken.*2 ∧
    (∀ k, kv_get (st_db s') k = if decide (k ∈ taken.*1) then None else kv_get (st_db s) k) ∧
    PendingRetryCount s' = i64 (PendingRetryCount s - zlen taken).
Proof.
  intros Ht Hn. rewrite DrainRetries_eq by done. cbv zeta.
  destruct (due_retries_sorted now s Ht Hn) as [Hk Hs].
  exists (due_retries now s). split; [done|].
  split; [by apply key_sorted_NoDup|].
  split; [intros; by apply due_retries_elem|].
  unfold drain_take. rewrite Z.sub_0_r. split; [done|].
  split; [intros k; apply (get_db_DeleteAll _ s)|].
  unfold PendingRetryCount. simpl. unfold zlen. by rewrite length_fmap.
Qed.

Lemma due_submits_elem s k p : store_typed s →
  (k, p) ∈ due_submits s ↔ kv_get (st_db s) k = Some (DPendingSubmit p) ∧ ns_prefix NsSubmitRetry `prefix_of` k.
Proof.
  intros Ht.
  rewrite <-(elem_of_prod_map DPendingSubmit), <-(due_submits_range _ Ht), kv_range_elem. unfold below. split.
  - intros (Hg & Hlo & Hhi). split; [done|]. by apply (key_between_prefix _ _ _ Hlo Hhi).
  - intros (Hg & [x ->]). split; [done|]. split; [apply key_le_app|].
    apply (ty_db _ Ht), (entry_typed_key NsSubmitRetry) in Hg as (p' & id' & _ & Hp & -> & _).
    unfold UnixNano. rewrite i64_id by lia. by apply (pad20_below _ _ (str "submit-retry:")).
Qed.

Lemma due_submits_NoDup s : store_typed s → NoDup (due_submits s).*1.
Proof.
  intros Ht.
  pose proof (kv_range_sorted (str "submit-retry:") (Some (str "submit-retry:" ++ [255])) (st_db s)) as Hs.
  rewrite (due_submits_range _ Ht), fst_prod_map in Hs. by apply key_sorted_NoDup.
Qed.

Lemma DrainSubmitRetries_eq limit s : store_typed s →
  DrainSubmitRetries limit s =
  (let taken := drain_take limit 0 (due_submits s) in
   (taken.*2, submitRetryCount_Add (- zlen taken.*1) (db_DeleteAll taken.*1 s))).
Proof.
  intros Ht. unfold DrainSubmitRetries. by rewrite (due_submits_range _ Ht), drain_submits_loop_eq.
Qed.

(** ** What an operation can change *)

(** The namespaces an operation may write. *)
Definition touches (op : store_op) (n : namespace) : Prop :=
  match op with
  | OpStoreSubmit _ | OpWriterRecv | OpWriterFlush | OpClose => n = NsMsg ∨ n = NsGw
  | OpDeleteSubmit _ => n = NsMsg
  | OpDeleteSubmitByGwID _ => n = NsGw
  | OpEnqueueRetry _ _ | OpDrainRetries _ _ _ _ => n = NsRetry
  | OpEnqueueSubmitRetry _ | OpDrainSubmitRetries _ => n = NsSubmitRetry
  | OpCleanup _ _ => n = NsMsg ∨ n = NsGw ∨ n = NsStatus ∨ n = NsLog ∨ n = NsLogIdx
  | OpSetMessageStatus _ => n = NsStatus
  | OpLogMessage _ _ => n = NsLog ∨ n = NsLogIdx
  | OpUpdateMessageLog _ _ _ => n = NsLog
  | OpSetJSON n' _ _ => n = n'
  | OpDeleteKey k => ns_prefix n `prefix_of` k
  end.

Lemma get_commit_ns (ops : list writeOp) (db : DB) n x :
  Forall (λ op, entry_typed (wo_key op) (wo_data op) ∧ is_Some (un_submit (wo_data op))) ops →
  n ≠ NsMsg → n ≠ NsGw → kv_get (commit ops db) (key n x) = kv_get db (key n x).
Proof.
  intros Ho H1 H2. revert db. induction Ho as [|op ops [Ht [r Hr]] _ IH]; intros db; [done|].
  change (kv_get (commit ops (kv_set (wo_key op) (wo_data op) db)) (key n x) = kv_get db (key n x)).
  rewrite IH, kv_get_set, decide_False; [done|]. intros He.
  specialize (Ht n x He). destruct (wo_data op); try done. destruct n; destruct Ht as [? Ht]; try done; naive_solver.
Qed.

Lemma not_elem_prefix (l : list bytes) n x :
  (∀ k, k ∈ l → ∃ m, m ≠ n ∧ ns_prefix m `prefix_of` k) → key n x ∉ l.
Proof. intros Hl Hin. destruct (Hl _ Hin) as (m & Hne & y & Hy). by apply (key_inj n m x y) in Hy as [-> _]. Qed.

Lemma cleanup_prefix_ns (db : DB) cutoff m k :
  k ∈ cleanup_prefix db cutoff (ns_prefix m) → ns_prefix m `prefix_of` k.
Proof.
  unfold cleanup_prefix. intros ([k' v] & -> & [_ (_ & Hlo & Hhi)%kv_range_elem]%list_elem_of_filter)%list_elem_of_fmap.
  by apply (key_between_prefix _ _ _ Hlo Hhi).
Qed.

Lemma drain_take_sub {A} limit d (es : list (bytes * A)) k :
  k ∈ (drain_take limit d es).*1 → k ∈ es.*1.
Proof.
  unfold drain_take. case_decide; [|done]. rewrite !list_elem_of_fmap. intros (e & -> & He).
  exists e. split; [done|]. apply elem_of_take in He as (i & Hi & _). by eapply list_elem_of_lookup_2.
Qed.

Lemma due_retries_keys now s k : store_typed s → k ∈ (due_retries now s).*1 → ns_prefix NsRetry `prefix_of` k.
Proof.
  intros Ht. rewrite <-(fst_prod_map DPendingDeliver), <-(due_retries_range _ _ Ht).
  intros ([k' v] & -> & (_ & Hlo & Hhi)%kv_range_elem)%list_elem_of_fmap.
  by apply (key_between_prefix _ _ _ Hlo Hhi).
Qed.

Lemma due_submits_keys s k : store_typed s → k ∈ (due_submits s).*1 → ns_prefix NsSubmitRetry `prefix_of` k.
Proof.
  intros Ht ([k' p] & -> & Hin)%list_elem_of_fmap. by apply (due_submits_elem _ _ _ Ht) in Hin as [_ ?].
Qed.

Lemma StoreSubmit_frame r s n x : n ≠ NsMsg → n ≠ NsGw →
  kv_get (st_db (StoreSubmit r s)) (key n x) = kv_get (st_db s) (key n x).
Proof.
  intros H1 H2. unfold StoreSubmit, store_after_check. cbn [wo_key wo_data].
  assert (submit_key r ≠ key n x) as Hk by (unfold submit_key; case_decide; apply key_ns_ne; congruence).
  assert (kv_get (st_db (msgCount_Add 1 (db_Set (submit_key r) (json_submit r) s))) (key n x) =
    kv_get (st_db s) (key n x)) as Hs by (apply (eq_trans (get_db_Set _ _ s _)); by rewrite decide_False).
  destruct (st_closed s); [done|]. destruct (st_chClosed s); [done|]. by case_decide.
Qed.

Lemma writer_recv_frame s n x : store_typed s → n ≠ NsMsg → n ≠ NsGw →
  kv_get (st_db (writer_recv s)) (key n x) = kv_get (st_db s) (key n x).
Proof.
  intros Ht H1 H2. pose proof (ty_queue _ Ht) as Hq. unfold writer_recv.
  destruct (st_writeCh s) as [|op ch]; [done|]. case_decide; [|done]. simpl. apply get_commit_ns; [|done..].
  rewrite cons_middle, app_assoc in Hq. by apply Forall_app in Hq as [? _].
Qed.

Lemma LogMessage_get now e s k :
  kv_get (st_db (LogMessage now e s).2) k =
  let created := if IsZero (le_CreatedAt e) then now else le_CreatedAt e in
  if decide (key NsLogIdx (le_GwMsgID e) = k) then Some (DLogKey (log_key created (le_GwMsgID e)))
  else if decide (log_key created (le_GwMsgID e) = k) then Some (json_log (le_with_times e created now))
  else kv_get (st_db s) k.
Proof.
  unfold LogMessage. cbn [snd st_db logCount_Add st_with_counts]. by rewrite !get_db_Set.
Qed.

(** An operation changes no other namespace. *)
Lemma store_op_frame op s n x : store_typed s → ¬ touches op n →
  kv_get (st_db (run_store_op s op)) (key n x) = kv_get (st_db s) (key n x).
Proof.
  intros Ht Hn. pose proof (ty_queue _ Ht) as Hq. pose proof Hq as Hq'. apply Forall_app in Hq' as [Hb Hc].
  assert (∀ k v m y, k = key m y → m ≠ n → kv_get (st_db (db_Set k v s)) (key n x) = kv_get (st_db s) (key n x)) as Hset.
  { intros k v m y -> Hne. rewrite get_db_Set. rewrite decide_False; [done|]. by apply key_ns_ne. }
  assert (∀ ks, (∀ k, k ∈ ks → ∃ m, m ≠ n ∧ ns_prefix m `prefix_of` k) →
    kv_get (st_db (db_DeleteAll ks s)) (key n x) = kv_get (st_db s) (key n x)) as Hdel.
  { intros ks Hks. rewrite get_db_DeleteAll. rewrite decide_False; [done|]. by apply not_elem_prefix. }
  destruct op; simpl in Hn; cbn [run_store_op].
  - apply StoreSubmit_frame; tauto.
  - apply (Hdel [_]). intros k ->%list_elem_of_singleton. exists NsMsg. split; [congruence|by apply prefix_app_r].
  - apply (Hdel [_]). intros k ->%list_elem_of_singleton. exists NsGw. split; [congruence|by apply prefix_app_r].
  - apply writer_recv_frame; [done|tauto..].
  - simpl. apply get_commit_ns; [done|tauto..].
  - simpl. apply get_commit_ns; [done|tauto..].
  - eapply Hset; [reflexivity|congruence].
  - rewrite DrainRetries_eq by done. apply Hdel. intros k Hk%drain_take_sub. exists NsRetry.
    split; [congruence|by eapply due_retries_keys].
  - eapply Hset; [reflexivity|congruence].
  - rewrite DrainSubmitRetries_eq by done. apply Hdel. intros k Hk%drain_take_sub. exists NsSubmitRetry.
    split; [congruence|by eapply due_submits_keys].
  - unfold Cleanup. cbn [snd]. case_decide; [|done]. apply Hdel. intros k Hk.
    cbn [fmap list_fmap mbind list_bind] in Hk. rewrite !elem_of_app, elem_of_nil in Hk.
    destruct_or?; try done; [exists NsMsg|exists NsGw|exists NsStatus|exists NsLog|exists NsLogIdx];
      (split; [intros <-; tauto|by eapply cleanup_prefix_ns]).
  - eapply Hset; [reflexivity|congruence].
  - rewrite LogMessage_get. cbv zeta. rewrite !decide_False; [done|apply key_ns_ne; intros <-; tauto..].
  - unfold UpdateMessageLog. destruct (kv_get _ (key NsLogIdx _)) as [d|] eqn:E; [|done].
    apply (ty_db _ Ht), entry_typed_key in E as [y ->].
    destruct (kv_get _ (key NsLog y)) as [d|]; [|done]. destruct (un_log d); [|done].
    eapply Hset; [reflexivity|congruence].
  - eapply Hset; [reflexivity|congruence].
  - apply (eq_trans (get_db_Delete _ s _)). rewrite decide_False; [done|]. intros ->. apply Hn. by apply prefix_app_r.
Qed.

(** Everything the store holds or is about to write. *)
Definition holds s (k : bytes) (v : doc) : Prop :=
  kv_get (st_db s) k = Some v ∨ ∃ op, op ∈ st_batch s ++ st_writeCh s ∧ wo_key op = k ∧ wo_data op = v.

(** The documents an operation brings in, apart from statuses and log entries. *)
Definition op_doc (op : store_op) (v : doc) : Prop :=
  match op with
  | OpStoreSubmit r => v = json_submit r
  | OpEnqueueRetry _ p => v = json_pending_deliver p
  | OpEnqueueSubmitRetry p => v = json_pending_submit p
  | OpSetJSON _ _ d => v = d
  | _ => match v with DStatus _ | DLog _ | DLogKey _ => True | _ => False end
  end.

Lemma holds_commit (ops rest : list writeOp) (db : DB) k v s :
  (∀ op, op ∈ ops ++ rest → op ∈ st_batch s ++ st_writeCh s) → db = st_db s →
  kv_get (commit ops db) k = Some v → holds s k v.
Proof.
  intros Hin ->. rewrite get_commit. revert Hin.
  assert (∀ o, (o = Some v → holds s k v) → (∀ op, op ∈ ops ++ rest → op ∈ st_batch s ++ st_writeCh s) →
    foldl (λ r op, if decide (wo_key op = k) then Some (wo_data op) else r) o ops = Some v → holds s k v) as Hgen.
  { induction ops as [|op ops IH]; intros o Ho Hin; [done|]. cbn [foldl]. apply IH.
    - case_decide as Hk; [|done]. intros [= <-]. right. exists op. split; [|done]. apply Hin. by left.
    - intros op' Hop'. apply Hin. by right. }
  apply Hgen. by left.
Qed.

Lemma holds_db_Set k v s k' v' : holds (db_Set k v s) k' v' → holds s k' v' ∨ v' = v.
Proof.
  intros [Hg|Hq]; [|by left; right]. rewrite get_db_Set in Hg. case_decide; [right; congruence|left; by left].
Qed.

Lemma holds_db_DeleteAll ks s k v : holds (db_DeleteAll ks s) k v → holds s k v.
Proof. intros [Hg|Hq]; [|by right]. rewrite get_db_DeleteAll in Hg. case_decide; [done|by left]. Qed.

Lemma holds_counts s m r u l k v : holds (st_with_counts s m r u l) k v → holds s k v.
Proof. done. Qed.

Lemma holds_StoreSubmit r s k v : holds (StoreSubmit r s) k v → holds s k v ∨ v = json_submit r.
Proof.
  unfold StoreSubmit, store_after_check. cbn [wo_key wo_data].
  assert (holds (msgCount_Add 1 (db_Set (submit_key r) (json_submit r) s)) k v → holds s k v ∨ v = json_submit r)
    as Hs by apply (holds_db_Set (submit_key r)).
  destruct (st_closed s); [done|]. destruct (st_chClosed s); [by left|]. case_decide; [|done].
  intros [Hg|(op & Hop & <- & <-)]; [left; by left|]. cbn [st_batch st_writeCh msgCount_Add st_with_counts st_with_queue] in Hop.
  rewrite app_assoc in Hop. apply elem_of_app in Hop as [Hop| ->%list_elem_of_singleton]; [left; right; eauto|by right].
Qed.

Lemma holds_writer_recv s k v : holds (writer_recv s) k v → holds s k v.
Proof.
  unfold writer_recv. destruct (st_writeCh s) as [|op ch] eqn:E; [done|].
  assert (∀ o, o ∈ (st_batch s ++ [op]) ++ ch → o ∈ st_batch s ++ st_writeCh s) as Hin.
  { intros o. by rewrite E, <-app_assoc. }
  case_decide; (intros [Hg|(o & Ho & <- & <-)]; [|right; exists o; split; [|done]]).
  - by apply (holds_commit (st_batch s ++ [op]) ch (st_db s)).
  - apply Hin. cbn in Ho |- *. apply elem_of_app. by right.
  - by left.
  - by apply Hin.
Qed.

Lemma holds_store_Close s k v : holds (store_Close s) k v → holds s k v.
Proof.
  intros [Hg|(o & Ho & _)]; [|by apply elem_of_nil in Ho].
  apply (holds_commit (st_batch s ++ st_writeCh s) [] (st_db s)); [intros op; by rewrite app_nil_r|done|exact Hg].
Qed.

Lemma holds_writer_flush s k v : holds (writer_flush s) k v → holds s k v.
Proof.
  intros [Hg|(o & Ho & <- & <-)].
  - by apply (holds_commit (st_batch s) (st_writeCh s) (st_db s)).
  - right. exists o. split; [|done]. cbn in Ho. apply elem_of_app. by right.
Qed.

(** What the store holds after an operation it held before, or the operation brought. *)
Lemma store_op_holds op s k v : store_typed s →
  holds (run_store_op s op) k v → holds s k v ∨ op_doc op v.
Proof.
  intros Ht. destruct op; cbn [run_store_op op_doc].
  - apply holds_StoreSubmit.
  - intros Hh. left. by apply (holds_db_DeleteAll [key NsMsg smscMsgID]).
  - intros Hh. left. by apply (holds_db_DeleteAll [key NsGw gwMsgID]).
  - intros Hh. left. by apply holds_writer_recv.
  - intros Hh. left. by apply holds_writer_flush.
  - intros Hh. left. by apply holds_store_Close.
  - apply (holds_db_Set (retry_key (pd_EnqueuedAt p) id)).
  - rewrite DrainRetries_eq by done. intros Hh%holds_counts%holds_db_DeleteAll. by left.
  - apply (holds_db_Set (submit_retry_key (ps_EnqueuedAt p) (ps_GwMsgID p))).
  - rewrite DrainSubmitRetries_eq by done. intros Hh%holds_counts%holds_db_DeleteAll. by left.
  - unfold Cleanup. cbn [snd]. case_decide; [|by left]. intros Hh%holds_counts%holds_counts%holds_db_DeleteAll. by left.
  - intros [Hh| ->]%holds_db_Set; [by left|by right].
  - unfold LogMessage. cbn [snd]. intros Hh.
    apply (holds_db_Set (key NsLogIdx (le_GwMsgID e))) in Hh as [Hh| ->]; [|by right].
    apply holds_db_Set in Hh as [Hh| ->]; [by left|by right].
  - unfold UpdateMessageLog. destruct (kv_get _ (key NsLogIdx _)) as [d|] eqn:E; [|by left].
    apply (ty_db _ Ht), entry_typed_key in E as [y ->].
    destruct (kv_get _ (key NsLog y)) as [d|]; [|by left]. destruct (un_log d); [|by left].
    intros [Hh| ->]%holds_db_Set; [by left|by right].
  - apply (holds_db_Set (key n x)).
  - intros Hh. left. by apply (holds_db_DeleteAll [k0]).
Qed.

(** ** The batch writer *)

(** What the store will hold under a key once everything queued is written. *)
Definition final_get s (k : bytes) : option doc :=
  kv_get (commit (st_batch s ++ st_writeCh s) (st_db s)) k.

Inductive writer_step : MessageStore (DB := DB) → MessageStore → Prop :=
| WriterRecv s : writer_step s (writer_recv s)
| WriterFlush s : writer_step s (writer_flush s).

Lemma commit_app (l1 l2 : list writeOp) (db : DB) : commit (l1 ++ l2) db = commit l2 (commit l1 db).
Proof. apply foldl_app. Qed.

Lemma commit_snoc (l : list writeOp) op (db : DB) :
  commit (l ++ [op]) db = kv_set (wo_key op) (wo_data op) (commit l db).
Proof. by rewrite commit_app. Qed.

Lemma writer_step_final s s' k : writer_step s s' → final_get s' k = final_get s k.
Proof.
  assert (∀ s, final_get (writer_flush s) k = final_get s k) as Hflush.
  { intros t. unfold final_get. simpl. by rewrite commit_app. }
  intros Hs. destruct Hs as [s|s]; [|apply Hflush]. unfold writer_recv.
  destruct (st_writeCh s) as [|op ch] eqn:E; [done|].
  assert (final_get (st_with_queue s ch (st_batch s ++ [op])) k = final_get s k) as H0.
  { unfold final_get. simpl. by rewrite E, <-app_assoc. }
  case_decide; [by rewrite Hflush|done].
Qed.

Lemma Close_final s k : kv_get (st_db (store_Close s)) k = final_get s k.
Proof. unfold final_get, store_Close, writer_stop. simpl. done. Qed.

Definition queued s (k : bytes) : Prop := k ∈ wo_key <$> st_batch s ++ st_writeCh s.

Lemma commit_other (ops : list writeOp) (db : DB) k :
  k ∉ wo_key <$> ops → kv_get (commit ops db) k = kv_get db k.
Proof.
  revert db. induction ops as [|op ops IH]; intros db Hk; [done|].
  change (kv_get (commit ops (kv_set (wo_key op) (wo_data op) db)) k = kv_get db k).
  cbn [fmap list_fmap] in Hk. rewrite not_elem_of_cons in Hk. destruct Hk as [Hne Hk].
  rewrite IH, kv_get_set by done. by rewrite decide_False by congruence.
Qed.

(** *** StoreSubmit only adds to the final contents *)
Lemma StoreSubmit_final r s k :
  (st_closed s = true ∨ st_chClosed s = false) → ¬ queued s (submit_key r) →
  final_get (StoreSubmit r s) k = if decide (submit_key r = k) then Some (json_submit r) else final_get s k.
Proof.
  intros Hc Hn. unfold queued in Hn.
  assert (final_get (msgCount_Add 1 (db_Set (submit_key r) (json_submit r) s)) k =
    if decide (submit_key r = k) then Some (json_submit r) else final_get s k) as Hsync.
  { unfold final_get. simpl. rewrite !get_commit, kv_get_set.
    revert Hn. generalize (st_batch s ++ st_writeCh s). intros ops.
    generalize (kv_get (st_db s) k). induction ops as [|op ops IH]; intros o Hn; [done|].
    cbn [fmap list_fmap] in Hn. rewrite not_elem_of_cons in Hn. destruct Hn as [Hne Hn]. cbn [foldl].
    destruct (decide (wo_key op = k)) as [<-|]; [|by apply IH].
    rewrite !(decide_False (P := submit_key r = wo_key op)) by congruence. done. }
  unfold StoreSubmit, store_after_check. cbn [wo_key wo_data].
  destruct (st_closed s); [done|]. destruct Hc as [?|Hc]; [done|]. rewrite Hc.
  destruct (decide (length (st_writeCh s) < writeCh_cap)%nat); [|done].
  unfold final_get. cbn [st_batch st_writeCh st_db msgCount_Add st_with_counts st_with_queue].
  rewrite app_assoc, commit_snoc. apply kv_get_set.
Qed.

(** C13: submit records are durable.  A record handed to StoreSubmit while the store
    runs (and with no older write of its key queued) is found under its key after
    [Close], whatever the batch writer did in between, and as soon as the writer has
    caught up; nothing else changes.  Once the store is closed the write is
    synchronous. *)
Theorem StoreSubmit_durable r s s' :
  st_closed s = true ∨ st_chClosed s = false → ¬ queued s (submit_key r) →
  rtc writer_step (StoreSubmit r s) s' →
  get_as un_submit (submit_key r) (store_Close s') =
    Got (match json_submit r with DSubmit r => r | _ => r end) ∧
  (∀ k, k ≠ submit_key r → kv_get (st_db (store_Close s')) k = kv_get (st_db (store_Close s)) k) ∧
  (st_writeCh s' = [] → st_batch s' = [] → ∀ k, kv_get (st_db s') k = kv_get (st_db (store_Close s')) k).
Proof.
  intros Hc Hn Hs.
  assert (∀ k, final_get s' k = final_get (StoreSubmit r s) k) as Hf.
  { intros k. clear Hc Hn. induction Hs as [|s1 s2 s3 Hstep _ IH]; [done|].
    by rewrite IH, (writer_step_final _ _ k Hstep). }
  split; [|split].
  - unfold get_as. by rewrite Close_final, Hf, StoreSubmit_final, decide_True by done.
  - intros k Hk. by rewrite !Close_final, Hf, StoreSubmit_final, decide_False by done.
  - intros E1 E2 k. rewrite Close_final. unfold final_get. by rewrite E1, E2.
Qed.

(** The writer's delay shows: a record that is deleted while it is still queued comes
    back when the queue is written.  This is what happens to the gw: record of every
    message that is forwarded within the 10ms of the writer's tick. *)
Theorem deleted_record_returns r s :
  sr_SmscMsgID r = [] → st_closed s = false → st_chClosed s = false →
  (length (st_writeCh s) < writeCh_cap)%nat →
  let s' := DeleteSubmitByGwID (sr_GwMsgID r) (StoreSubmit r s) in
  GetSubmitByGwID (sr_GwMsgID r) s' = GotNone ∧
  GetSubmitByGwID (sr_GwMsgID r) (store_Close s') =
    Got (match json_submit r with DSubmit r => r | _ => r end).
Proof.
  intros Hid Hc Hch Hroom. cbv zeta. unfold GetSubmitByGwID, get_as. split.
  - unfold DeleteSubmitByGwID. cbn [st_db msgCount_Add st_with_counts].
    by rewrite get_db_Delete, decide_True by done.
  - rewrite Close_final. unfold final_get, DeleteSubmitByGwID, StoreSubmit, store_after_check.
    rewrite Hc, Hch. rewrite decide_True by done. unfold submit_key. rewrite (decide_True (P := sr_SmscMsgID r = [])) by done.
    cbn [st_batch st_writeCh st_db msgCount_Add st_with_counts st_with_queue db_Delete st_with_db].
    by rewrite app_assoc, commit_snoc, kv_get_set, decide_True by done.
Qed.

(** And Close races with StoreSubmit: one that has read the closed flag as false before
    Close and sends afterwards panics. *)
Theorem StoreSubmit_Close_race r s : store_after_check (st_closed s) r (store_Close s) =
  if st_closed s then Ret (StoreSubmit r (store_Close s)) else Panic.
Proof. unfold store_after_check, StoreSubmit. simpl. by destruct (st_closed s). Qed.

(** ** Scans *)

(** A prefix scan visits exactly the keys that start with the prefix, in order, up
    to the first that makes the callback fail.  This needs a prefix whose last byte is
    not 0xff, as all the gateway's are. *)
Theorem ScanPrefix_exact {S E} q b (fn : bytes → doc → S → S + E) st s :
  0 <= b < 255 →
  ∃ es, ScanPrefix (q ++ [b]) fn st s = scan_loop fn es st ∧
    StronglySorted key_lt es.*1 ∧
    ∀ k v, (k, v) ∈ es ↔ kv_get (st_db s) k = Some v ∧ (q ++ [b]) `prefix_of` k.
Proof.
  intros Hb. unfold ScanPrefix. rewrite prefixUpperBound_snoc by done.
  eexists. split; [done|]. split; [apply kv_range_sorted|]. intros k v. rewrite kv_range_elem. simpl.
  split; intros [Hg Hp]; (split; [done|]); by apply (prefix_upper_exact q b k).
Qed.

(** ** Queries of the log *)

Lemma query_loop_eq f limit es n : 
  query_loop f limit es n =
  take (Z.to_nat (limit - n)) (filter (λ e, filter_match f e = true) (omap (λ e, un_log e.2) es)).
Proof.
  revert n. induction es as [|[k v] es IH]; intros n; cbn [query_loop].
  - change ([] = take (Z.to_nat (limit - n)) (@nil MessageLogEntry)). by rewrite take_nil.
  - cbn [omap list_omap snd]. case_decide; [by replace (Z.to_nat (limit - n)) with O by lia|].
    destruct (un_log v) as [e|]; [|apply IH]. rewrite filter_cons.
    destruct (filter_match f e); simpl; rewrite IH; [|done].
    by replace (Z.to_nat (limit - n)) with (S (Z.to_nat (limit - (n + 1)))) by lia.
Qed.

(** A query of the message log returns the entries of the key range that pass the
    filter, the last keys first, and the first [limit] of them: at least 1 and at most
    200, 50 when the filter gives none. *)
Theorem QueryMessages_spec f s :
  ∃ es, StronglySorted key_lt es.*1 ∧
    (∀ k v, (k, v) ∈ es ↔ kv_get (st_db s) k = Some v ∧
       key_le (str "log:" ++ if IsZero (mf_After f).1 then [] else RFC3339Nano (mf_After f).2 (mf_After f).1) k ∧
       key_lt k (str "log:" ++ (if IsZero (mf_Before f).1 then [] else RFC3339Nano (mf_Before f).2 (mf_Before f).1) ++ [255])) ∧
    QueryMessages f s =
      take (Z.to_nat (query_limit f))
        (filter (λ e, filter_match f e = true) (omap (λ e, un_log e.2) (reverse es))) ∧
    1 <= query_limit f <= 200 ∧ zlen (QueryMessages f s) <= query_limit f.
Proof.
  unfold QueryMessages. rewrite query_loop_eq, Z.sub_0_r.
  assert (1 <= query_limit f <= 200) as Hl by (unfold query_limit; repeat case_decide; lia).
  exists (query_range f (st_db s)). split; [apply kv_range_sorted|]. split.
  - intros k v. unfold query_range. rewrite kv_range_elem. unfold below.
    destruct (IsZero (mf_After f).1), (IsZero (mf_Before f).1); rewrite ?app_nil_r, ?app_nil_l; tauto.
  - split; [reflexivity|]. split; [done|]. unfold zlen. rewrite length_take. lia.
Qed.

(** ** Cleanup *)

Lemma cleanup_prefix_elem (db : DB) cutoff prefix k :
  k ∈ cleanup_prefix db cutoff prefix ↔
  ∃ v, kv_get db k = Some v ∧ key_le prefix k ∧ key_lt k (prefix ++ [255]) ∧
    (if decide (prefix = str "logidx:") then index_expired db cutoff v else expired cutoff v) = true.
Proof.
  unfold cleanup_prefix. rewrite list_elem_of_fmap. split.
  - intros ([k' v] & -> & [He (Hg & Hlo & Hhi)%kv_range_elem]%list_elem_of_filter). eauto.
  - intros (v & Hg & Hlo & Hhi & He). exists (k, v). split; [done|]. apply list_elem_of_filter.
    split; [done|]. by apply kv_range_elem.
Qed.

(** What a cleanup removes from a namespace: submit records by the time of submission,
    statuses and log entries by that of the last change, index entries with the log
    entry they lead to. *)
Definition cleanup_removes (db : DB) (cutoff : Z) (n : namespace) (v : doc) : bool :=
  match n with
  | NsMsg | NsGw => match v with DSubmit r => bool_decide (sr_SubmittedAt r < cutoff) | _ => false end
  | NsStatus => match v with
      | DStatus st => bool_decide ((if IsZero (ms_UpdatedAt st) then zero_time else ms_UpdatedAt st) < cutoff)
      | _ => false end
  | NsLog => match v with
      | DLog e => bool_decide ((if IsZero (le_UpdatedAt e) then zero_time else le_UpdatedAt e) < cutoff)
      | _ => false end
  | NsLogIdx => index_expired db cutoff v
  | _ => false
  end.

Lemma cleanup_prefix_key (db : DB) cutoff n m x v :
  kv_get db (key m x) = Some v → key_lt x [255] →
  key m x ∈ cleanup_prefix db cutoff (ns_prefix n) ↔
  n = m ∧ (if decide (n = NsLogIdx) then index_expired db cutoff v else expired cutoff v) = true.
Proof.
  intros Hg Hx. rewrite cleanup_prefix_elem.
  assert (ns_prefix n = str "logidx:" ↔ n = NsLogIdx) as Hn.
  { split; [|by intros ->]. intros He. destruct (key_inj n NsLogIdx [] []) as [H1 _].
    apply H1. unfold key. by rewrite He. }
  assert (∀ a b : bool, (if decide (ns_prefix n = str "logidx:") then a else b) =
    if decide (n = NsLogIdx) then a else b) as Hd by (intros; by apply decide_ext).
  split.
  - intros (v' & Hg' & Hlo & Hhi & He). rewrite Hd in He. rewrite Hg in Hg'. injection Hg' as <-. split; [|done].
    destruct (key_between_prefix _ _ _ Hlo Hhi) as [y Hy]. by apply (key_inj m n x y) in Hy as [-> _].
  - intros [-> He]. exists v. split; [done|]. split; [apply key_le_app|]. split; [|by rewrite Hd].
    unfold key_lt, key in *. by rewrite blt_app.
Qed.

(** A cleanup removes exactly what has expired: of the submit records, statuses, log
    entries and index entries those last touched more than [ttl] ago, and nothing of
    the retry queues, callbacks and configurations. *)
Theorem Cleanup_spec now ttl s n x v :
  store_typed s → kv_get (st_db s) (key n x) = Some v → key_lt x [255] →
  kv_get (st_db (Cleanup now ttl s).2) (key n x) =
  if cleanup_removes (st_db s) (now - ttl) n v then None else Some v.
Proof.
  intros Ht Hg Hx. unfold Cleanup. cbn [snd]. set (batch := _ ≫= _).
  assert (key n x ∈ batch ↔ cleanup_removes (st_db s) (now - ttl) n v = true) as Hb.
  { subst batch. cbn [fmap list_fmap mbind list_bind].
    change (str "msg:") with (ns_prefix NsMsg). change (str "gw:") with (ns_prefix NsGw).
    change (str "status:") with (ns_prefix NsStatus). change (str "log:") with (ns_prefix NsLog).
    change (str "logidx:") with (ns_prefix NsLogIdx).
    rewrite !elem_of_app, !(cleanup_prefix_key _ _ _ n x v) by done. rewrite elem_of_nil.
    pose proof (ty_db _ Ht _ _ Hg) as Hty. apply entry_typed_key in Hty.
    clear Hg Hx. destruct n; cbn [doc_in] in Hty;
      try (by destruct v; destruct Hty as [? [=]]; naive_solver); clear Hty; naive_solver. }
  clearbody batch.
  assert (kv_get (kv_delete_all batch (st_db s)) (key n x) =
    if cleanup_removes (st_db s) (now - ttl) n v then None else Some v) as Hd.
  { rewrite kv_get_delete_all, Hg. destruct (cleanup_removes _ _ _ _) eqn:E.
    - by rewrite decide_True by (by apply Hb).
    - rewrite decide_False; [done|]. intros Hin%Hb. done. }
  case_decide as Hz; [exact Hd|]. rewrite <-Hd. destruct batch as [|k ks]; [done|].
  unfold zlen in Hz. simpl in Hz. lia.
Qed.

(** ** The message log *)

(** The log by message ID.  After LogMessage the entry is found through the index
    of its ID: UpdateMessageLog applies the updater to what was stored, sets the time
    and changes no other key; the entry of an unknown ID is not touched. *)
Theorem message_log_roundtrip now now' e f s :
  let created := if IsZero (le_CreatedAt e) then now else le_CreatedAt e in
  let stored := match json_log (le_with_times e created now) with DLog e => e | _ => e end in
  let '(s', ok) := UpdateMessageLog now' (le_GwMsgID e) f (LogMessage now e s).2 in
  ok = true ∧
  kv_get (st_db s') (log_key created (le_GwMsgID e)) =
    Some (json_log (le_with_times (f stored) (le_CreatedAt (f stored)) now')) ∧
  (∀ k, k ≠ log_key created (le_GwMsgID e) → kv_get (st_db s') k = kv_get (st_db (LogMessage now e s).2) k) ∧
  ∀ id, kv_get (st_db s) (key NsLogIdx id) = None → UpdateMessageLog now' id f s = (s, true).
Proof.
  cbv zeta. set (created := if IsZero (le_CreatedAt e) then now else le_CreatedAt e).
  set (k := log_key created (le_GwMsgID e)).
  assert (kv_get (st_db (LogMessage now e s).2) (key NsLogIdx (le_GwMsgID e)) = Some (DLogKey k)) as Hi
    by (rewrite LogMessage_get; by rewrite decide_True).
  assert (kv_get (st_db (LogMessage now e s).2) k = Some (json_log (le_with_times e created now))) as Hk.
  { rewrite LogMessage_get. cbv zeta. rewrite decide_False by (by apply key_ns_ne). by rewrite decide_True. }
  unfold UpdateMessageLog at 1. rewrite Hi, Hk.
  cbn [un_log json_log]. split; [done|]. split; [|split].
  - rewrite get_db_Set. by rewrite decide_True by done.
  - intros k' Hk'. rewrite get_db_Set. by rewrite decide_False by congruence.
  - intros id Hid. unfold UpdateMessageLog. by rewrite Hid.
Qed.

End store_lemmas.

(** ** Examples *)

#[export] Instance utc : Zone := {| zone_offset := λ _, 0 |}.

Definition ex_deliver (conn : bytes) (t : Z) : PendingDeliver :=
  mkPendingDeliver conn (str "2782") (str "body") 4 (str "src") (str "dst") t.
Definition ex_submit (gw smsc : bytes) (t : Z) : SubmitRecord :=
  mkSubmitRecord gw smsc (str "engine") 7 (str "2782") (str "src") (str "body") t.
Definition ex_log (id : bytes) : MessageLogEntry :=
  mkLogEntry id [] (str "engine") (str "src") (str "2782") (str "accepted") [] (QArith_base.Qmake 0 1) zero_time zero_time.

Definition ex_ops : list store_op :=
  [ OpEnqueueRetry (str "a") (ex_deliver (str "one") 30); OpEnqueueRetry (str "b") (ex_deliver (str "two") 20);
    OpEnqueueRetry (str "c") (ex_deliver (str "three") 900); OpStoreSubmit (ex_submit (str "GW-1") (str "S1") 10);
    OpWriterRecv; OpWriterFlush; OpStoreSubmit (ex_submit (str "GW-2") [] 10); OpLogMessage 100 (ex_log (str "GW-1"));
    OpLogMessage 500 (ex_log (str "GW-2")) ].

Definition ex_store : MessageStore (DB := gmap bytes doc) := foldl run_store_op (NewMessageStore ∅) ex_ops.

Lemma ex_ops_ok : Forall store_op_ok ex_ops.
Proof. repeat constructor; simpl; lia. Qed.
Lemma empty_db_typed k v : kv_get (∅ : gmap bytes doc) k = Some v → entry_typed k v.
Proof. intros Hk. change ((∅ : gmap bytes doc) !! k = Some v) in Hk. by rewrite lookup_empty in Hk. Qed.
Lemma ex_store_typed : store_typed ex_store.
Proof. apply run_typed; [apply ex_ops_ok|]. apply New_typed, empty_db_typed. Qed.

Lemma store_well_typed_witness :
  is_Some (kv_get (st_db ex_store) (key NsMsg (str "S1")) ≫= un_submit) ∧
  (UpdateMessageLog 7 (str "GW-1") id ex_store).2 = true.
Proof.
  split; [vm_compute; eauto|].
  destruct (store_well_typed (∅ : gmap bytes doc) ex_ops empty_db_typed ex_ops_ok) as (_ & _ & Hw).
  exact (Hw 7 (str "GW-1") id).
Defined.

(** At 100, the two messages queued before are due, the second enqueued first; with an
    age limit of 75 the older is dropped. *)
Lemma DrainRetries_spec_witness :
  let '(results, s') := DrainRetries 100 100 75 10 ex_store in
  results = [ex_deliver (str "one") 30] ∧ PendingRetryCount s' = 1 ∧
  ∃ due : list (bytes * PendingDeliver), NoDup due.*1 ∧ length due = 2%nat ∧
    results = filter (λ p, 25 <= pd_EnqueuedAt p) (take 10 due).*2.
Proof.
  pose proof (DrainRetries_spec 100 100 75 10 ex_store ex_store_typed ltac:(lia)) as Hs.
  assert ((DrainRetries 100 100 75 10 ex_store).1 = [ex_deliver (str "one") 30]) as E by (vm_compute; reflexivity).
  assert (PendingRetryCount (DrainRetries 100 100 75 10 ex_store).2 = 1) as Ec by (vm_compute; reflexivity).
  destruct (DrainRetries 100 100 75 10 ex_store) as [results s']. cbn [fst snd] in E, Ec.
  destruct Hs as (due & _ & Hnd & _ & Hr & _ & Hc).
  split; [exact E|]. split; [exact Ec|]. exists due. split; [done|]. split; [|exact Hr].
  rewrite decide_True in Hc by lia. change (Z.to_nat 10) with 10%nat in Hc.
  rewrite Ec in Hc. change (PendingRetryCount ex_store) with 3 in Hc.
  unfold zlen in Hc. rewrite length_take in Hc. rewrite i64_id in Hc by lia. lia.
Defined.

Lemma StoreSubmit_durable_witness :
  let r := ex_submit (str "GW-3") [] 10 in
  let s' := writer_recv (StoreSubmit r ex_store) in
  GetSubmitByGwID (str "GW-3") s' = GotNone ∧
  get_as un_submit (submit_key r) (store_Close s') = Got r.
Proof.
  cbv zeta. split; [vm_compute; reflexivity|].
  apply (StoreSubmit_durable (ex_submit (str "GW-3") [] 10) ex_store
    (writer_recv (StoreSubmit (ex_submit (str "GW-3") [] 10) ex_store))).
  - right. vm_compute. reflexivity.
  - unfold queued. apply (bool_decide_unpack _). vm_compute. exact I.
  - apply rtc_once. constructor.
Defined.

Lemma ScanPrefix_exact_witness :
  ScanPrefix (E := Empty_set) (str "retry:") (λ k _ n, inl (n + 1)) 0 ex_store = (3, None) ∧
  ∃ es, ScanPrefix (E := Empty_set) (str "retry:") (λ k _ n, inl (n + 1)) 0 ex_store = scan_loop (λ k _ n, inl (n + 1)) es 0 ∧
    (∀ k v, (k, v) ∈ es ↔ kv_get (st_db ex_store) k = Some v ∧ str "retry:" `prefix_of` k).
Proof.
  split; [vm_compute; reflexivity|].
  destruct (ScanPrefix_exact (E := Empty_set) (str "retry") 58 (λ k _ n, inl (n + 1)) 0 ex_store) as (es & E & _ & Hes).
  - lia.
  - exists es. split; [exact E|exact Hes].
Defined.

Lemma QueryMessages_spec_witness :
  let f := mkFilter [] (str "accepted") [] (str "82") (zero_time, 0) (zero_time, 0) 1 in
  le_GwMsgID <$> QueryMessages f ex_store = [str "GW-2"] ∧ zlen (QueryMessages f ex_store) <= query_limit f.
Proof.
  cbv zeta. split; [vm_compute; reflexivity|].
  by destruct (QueryMessages_spec (mkFilter [] (str "accepted") [] (str "82") (zero_time, 0) (zero_time, 0) 1) ex_store)
    as (es & _ & _ & _ & _ & ?).
Defined.

(** At 400 with a lifetime of 200, the submit record of time 10 goes and the log entry
    of time 500 stays. *)
Lemma Cleanup_spec_witness :
  kv_get (st_db (Cleanup 400 200 ex_store).2) (key NsMsg (str "S1")) = None ∧
  kv_get (st_db (Cleanup 400 200 ex_store).2) (key NsLogIdx (str "GW-2")) =
    Some (DLogKey (log_key 500 (str "GW-2"))).
Proof.
  split.
  - etransitivity.
    + apply (Cleanup_spec 400 200 ex_store NsMsg (str "S1") (json_submit (ex_submit (str "GW-1") (str "S1") 10)) ex_store_typed).
      * vm_compute. reflexivity.
      * reflexivity.
    + vm_compute. reflexivity.
  - etransitivity.
    + apply (Cleanup_spec 400 200 ex_store NsLogIdx (str "GW-2") (DLogKey (log_key 500 (str "GW-2"))) ex_store_typed).
      * vm_compute. reflexivity.
      * reflexivity.
    + vm_compute. reflexivity.
Defined.

Lemma message_log_roundtrip_witness :
  let '(s', ok) := UpdateMessageLog 600 (str "GW-9") id (LogMessage 500 (ex_log (str "GW-9")) ex_store).2 in
  ok = true ∧
  kv_get (st_db s') (log_key 500 (str "GW-9")) = Some (json_log (le_with_times (ex_log (str "GW-9")) 500 600)).
Proof.
  pose proof (message_log_roundtrip 500 600 (ex_log (str "GW-9")) id ex_store) as Hm. cbv zeta in Hm.
  destruct (UpdateMessageLog _ _ _ _) as [s' ok]. destruct Hm as (H1 & H2 & _). split; [exact H1|exact H2].
Defined.

(** Two entries of the same second: the query returns the older one first, because the
    text of a time with a fraction sorts before that of one without. *)
Theorem query_order_wrong :
  let s := (LogMessage (1700000000 * Second + 500000000) (ex_log (str "later"))
    (LogMessage (1700000000 * Second) (ex_log (str "earlier")) ex_store).2).2 in
  le_GwMsgID <$> QueryMessages (mkFilter [] [] [] [] (zero_time, 0) (zero_time, 0) 2) s =
  [str "earlier"; str "later"].
Proof. vm_compute. reflexivity. Qed.
