(* ===== verification/Server.v ===== *)
(** * The northbound server (gateway/server.go)

    The registry of engine sessions by connection ID (the engine's system ID), what
    happens when a session binds, is replaced and ends, and the delivery of a
    deliver_sm with its acknowledgement.

    Sessions are shared by pointer (the registry, the read loops, the tasks of the
    router): [sv_heap] holds them and a session is its index.  A Go map is iterated in
    any order, which is a parameter; [now] is the clock, and the engine's answer to a
    deliver_sm is a parameter of [DeliverToConn]. *)

From S2P Require Import Prelude Constants Tlv Pdu Operations PduFields Connection.

Local Open Scope Z_scope.

Abbreviation conn_ref := nat.

Record Server := mkServer {
  sv_heap : list Connection;
  sv_conns : gmap bytes conn_ref;
  sv_disconnects : gmap bytes Z
}.

Definition NewServer : Server := mkServer [] ∅ ∅.

Definition sv_get (sv : Server) (r : conn_ref) : option Connection := sv_heap sv !! r.

(** A method call through the pointer [r]. *)
Definition sv_alter (f : Connection → Connection) (r : conn_ref) (sv : Server) : Server :=
  mkServer (alter f r (sv_heap sv)) (sv_conns sv) (sv_disconnects sv).

Definition cn_with_ID (c : Connection) (id : bytes) : Connection :=
  mkConnection id (cn_SystemID c) (cn_BindMode c) (cn_bound c) (cn_seqNum c) (cn_remoteIP c)
    (cn_open c) (cn_written c) (cn_pending c) (cn_chans c) (cn_submitCount c) (cn_tpsWindow c)
    (cn_tpsCount c) (cn_inFlight c) (cn_connConfig c).

(** ** Sessions come and go *)

(** acceptLoop, for one accepted socket; [seq] counts them from 1. *)
Definition accept (seq : Z) (remoteIP : bytes) (sv : Server) : conn_ref * Server :=
  (length (sv_heap sv),
   mkServer (sv_heap sv ++ [NewConnection (str "pending-" ++ itoa seq) remoteIP]) (sv_conns sv)
     (sv_disconnects sv)).

(** The deferred end of handleConnection. *)
Definition handleConnection_end (now : Z) (r : conn_ref) (sv : Server) : Server :=
  match sv_get sv r with
  | None => sv
  | Some c =>
      let sv :=
        if cn_bound c then
          match sv_conns sv !! cn_ID c with
          | Some r' =>
              if decide (r' = r) then
                mkServer (sv_heap sv) (delete (cn_ID c) (sv_conns sv)) (<[cn_ID c := now]> (sv_disconnects sv))
              else sv
          | None => sv
          end
        else sv in
      sv_alter Connection_Close r sv
  end.

Definition bound_as (sv : Server) (systemID : bytes) (r : conn_ref) : bool :=
  match sv_get sv r with
  | Some c => bool_decide (cn_SystemID c = systemID) && cn_bound c
  | None => false
  end.

(** The bound sessions of a system ID that the registry holds. *)
Definition bind_count (sv : Server) (systemID : bytes) : Z :=
  zlen (filter (λ kr, bound_as sv systemID kr.2 = true) (map_to_list (sv_conns sv))).

Definition onBind (r : conn_ref) (systemID : bytes) (sv : Server) : Server :=
  match sv_get sv r with
  | None => sv
  | Some c =>
      let refused :=
        match cn_connConfig c with
        | Some cfg => bool_decide (0 < cc_MaxBinds cfg) && bool_decide (cc_MaxBinds cfg <= bind_count sv systemID)
        | None => false
        end in
      if refused then sv_alter Connection_Close r sv
      else
        let sv := sv_alter (λ c, cn_with_ID c systemID) r sv in
        let sv := match sv_conns sv !! systemID with
                  | Some old => sv_alter Connection_Close old sv
                  | None => sv
                  end in
        mkServer (sv_heap sv) (<[systemID := r]> (sv_conns sv)) (delete systemID (sv_disconnects sv))
  end.

(** [None] when the send to the waiting delivery blocks. *)
Definition onDeliverResp (connID : bytes) (seqNum status : Z) (sv : Server) : option Server :=
  match sv_conns sv !! connID with
  | None => Some sv
  | Some r =>
      match sv_get sv r with
      | None => Some sv
      | Some c => c' ← ResolveDeliverResp seqNum status c; Some (sv_alter (λ _, c') r sv)
      end
  end.

(** One PDU of session [r], with the callbacks of the read loop; [submit] is the
    router's HandleSubmit.  [None] when a callback blocks; the flag is false when the
    session ends. *)
Definition serve_event (submit : bytes → Z → bytes → Server → Server) (r : conn_ref) (e : conn_event)
    (sv : Server) : option Server :=
  match e with
  | OnBind systemID => Some (onBind r systemID sv)
  | OnSubmit connID seqNum body => Some (submit connID seqNum body sv)
  | OnDeliverResp connID seqNum status => onDeliverResp connID seqNum status sv
  end.

Definition serve_pdu submit (cfg : BindConfig) (r : conn_ref) (pdu : PDU) (sv : Server) : option (Server * bool) :=
  match sv_get sv r with
  | None => Some (sv, false)
  | Some c =>
      let '(c, evs, continue) := conn_dispatch cfg pdu c in
      let sv := sv_alter (λ _, c) r sv in
      sv ← foldl (λ sv e, sv ← sv; serve_event submit r e sv) (Some sv) evs;
      Some (sv, continue)
  end.

(** The end of Stop: the sessions of the registry are closed and forgotten. *)
Definition Server_Stop (sv : Server) : Server :=
  let sv := foldl (λ sv kr, sv_alter Connection_Close kr.2 sv) sv (map_to_list (sv_conns sv)) in
  mkServer (sv_heap sv) ∅ (sv_disconnects sv).

(** ** Lookups *)

Definition GetConnection (connID : bytes) (sv : Server) : option conn_ref :=
  match sv_conns sv !! connID with
  | Some r => match sv_get sv r with Some c => if cn_bound c then Some r else None | None => None end
  | None => None
  end.

Definition DisconnectedAt (connID : bytes) (sv : Server) : option Z := sv_disconnects sv !! connID.

Definition is_bound (sv : Server) (r : conn_ref) : bool :=
  match sv_get sv r with Some c => cn_bound c | None => false end.

(** The registry in the order in which it is iterated. *)
Fixpoint RoundRobinConnID (iter : list (bytes * conn_ref)) (sv : Server) : bytes :=
  match iter with
  | [] => []
  | (id, r) :: iter => if is_bound sv r then id else RoundRobinConnID iter sv
  end.

Definition BoundConnectionIDs (iter : list (bytes * conn_ref)) (sv : Server) : list bytes :=
  (filter (λ kr, is_bound sv kr.2 = true) iter).*1.

Definition ConnectionCount (sv : Server) : Z :=
  zlen (filter (λ kr, is_bound sv kr.2 = true) (map_to_list (sv_conns sv))).

(** The sum of the counters in the order of [iter].  They are atomics and are loaded one
    after the other: [load] is what each load gives, at its own moment. *)
Definition totalInFlight (load : bytes → conn_ref → Z) (iter : list (bytes * conn_ref)) : Z :=
  foldl (λ total kr, i32 (total + load kr.1 kr.2)) 0 iter.

Definition loaded (sv : Server) (r : conn_ref) : Z :=
  match sv_get sv r with Some c => InFlightCount c | None => 0 end.

(** How the wait of Stop for the counters ends. *)
Inductive drain_end := DrainOff | DrainComplete | DrainTimedOut (inFlight : Z).

(** Its looks, 100ms apart: the total of each, and whether the deadline is what the
    select after it takes.  [None] while it waits. *)
Fixpoint drain_loop (looks : list (Z * bool)) : option drain_end :=
  match looks with
  | [] => None
  | (total, deadline) :: looks =>
      if decide (total = 0) then Some DrainComplete
      else if deadline : bool then Some (DrainTimedOut total)
      else drain_loop looks
  end.

Definition Server_drain (drainTimeoutSec : Z) (looks : list (Z * bool)) : option drain_end :=
  let drainTimeout := i64 (drainTimeoutSec * Second) in
  if decide (0 < drainTimeout) then drain_loop looks else Some DrainOff.

Record ConnectionInfo := mkConnInfo {
  ci_ID : bytes; ci_SystemID : bytes; ci_InFlight : Z; ci_BindMode : bytes; ci_TotalSubmits : Z;
  ci_CurrentTPS : Z; ci_HasConfig : bool
}.

Definition conn_info (now : Z) (c : Connection) : ConnectionInfo :=
  mkConnInfo (cn_ID c) (cn_SystemID c) (cn_inFlight c) (bindModeName (cn_BindMode c)) (cn_submitCount c)
    (CurrentTPS now c) (bool_decide (is_Some (cn_connConfig c))).

Record ConnectionConfigSummary := mkSummary {
  cs_SystemID : bytes; cs_Description : bytes; cs_Enabled : bool; cs_MaxTPS : Z; cs_CostPerSMS : QArith_base.Q;
  cs_AllowedPrefixes : list bytes; cs_AllowedIPs : list bytes; cs_MaxBinds : Z; cs_AllowedBindModes : list bytes
}.

Definition config_summary (c : ConnectionConfig) : ConnectionConfigSummary :=
  mkSummary (cc_SystemID c) (cc_Description c) (cc_Enabled c) (cc_MaxTPS c) (cc_CostPerSMS c)
    (cc_AllowedPrefixes c) (cc_AllowedIPs c) (cc_MaxBinds c) (cc_AllowedBindModes c).

Definition GetConnectionDetail (now : Z) (connID : bytes) (sv : Server) :
    option (ConnectionInfo * option ConnectionConfigSummary) :=
  r ← GetConnection connID sv;
  c ← sv_get sv r;
  Some (conn_info now c, config_summary <$> cn_connConfig c).

Definition ListConnections (now : Z) (iter : list (bytes * conn_ref)) (sv : Server) : list ConnectionInfo :=
  omap (λ kr, c ← sv_get sv kr.2; if cn_bound c then Some (conn_info now c) else None) iter.

(** ** Delivering to an engine *)

Inductive deliver_err := ConnNotFound | WriteFailed | Nacked (status : Z) | DeliverTimeout.

(** [ack] is the status of the engine's deliver_sm_resp, [None] when none comes in time. *)
Definition DeliverToConn (ack : option Z) (connID body : bytes) (sv : Server) : (Z + deliver_err) * Server :=
  match GetConnection connID sv with
  | None => (inr ConnNotFound, sv)
  | Some r =>
      match sv_get sv r with
      | None => (inr ConnNotFound, sv)
      | Some c =>
          let seqNum := u32 (cn_seqNum c + 1) in
          let c := cn_with_seq c seqNum in
          let c := (RegisterDeliverWait seqNum c).2 in
          let '(c, ok) := WritePDU (mkPDU 0 CmdDeliverSM StatusOK seqNum body None) c in
          let drop c := cn_with_pending c (delete seqNum (cn_pending c)) (cn_chans c) in
          if negb ok then (inr WriteFailed, sv_alter (λ _, drop c) r sv)
          else
            match ack with
            | Some status =>
                let c := match ResolveDeliverResp seqNum status c with Some c => c | None => c end in
                (if decide (status = StatusOK) then inl seqNum else inr (Nacked status), sv_alter (λ _, c) r sv)
            | None => (inr DeliverTimeout, sv_alter (λ _, drop c) r sv)
            end
      end
  end.

(** ** Keepalive *)

(** One tick of RunEnquireLink. *)
Definition enquire_links (iter : list (bytes * conn_ref)) (sv : Server) : Server :=
  foldl (λ sv kr, sv_alter (λ c,
      let seq := u32 (cn_seqNum c + 1) in
      (WritePDU (mkPDU 0 CmdEnquireLink StatusOK seq [] None) (cn_with_seq c seq)).1) kr.2 sv)
    sv (filter (λ kr, is_bound sv kr.2 = true) iter).

(** One tick of RunStaleChecker; [lastActivity] is each session's. *)
Definition close_stale (now timeout : Z) (lastActivity : conn_ref → Z) (iter : list (bytes * conn_ref))
    (sv : Server) : Server :=
  foldl (λ sv kr, sv_alter Connection_Close kr.2 sv) sv
    (filter (λ kr, is_bound sv kr.2 = true ∧ timeout < now - lastActivity kr.2) iter).

(** ** Changing one session *)

Lemma sv_get_alter f r r' sv :
  sv_get (sv_alter f r sv) r' = if decide (r = r') then f <$> sv_get sv r' else sv_get sv r'.
Proof.
  unfold sv_get, sv_alter. simpl. case_decide; [subst; apply list_lookup_alter_eq|by apply list_lookup_alter_ne].
Qed.

Lemma sv_alter_const f c r sv : sv_get sv r = Some c → sv_alter (λ _, f c) r sv = sv_alter f r sv.
Proof.
  intros Hc. unfold sv_alter. f_equal. apply list_eq. intros i. destruct (decide (i = r)) as [->|Hne].
  - rewrite !list_lookup_alter_eq. unfold sv_get in Hc. by rewrite Hc.
  - by rewrite !list_lookup_alter_ne by done.
Qed.


Lemma sv_conns_alter f r sv : sv_conns (sv_alter f r sv) = sv_conns sv.
Proof. done. Qed.

(** ** The registry *)

(** A registered session is bound, under its own ID, and not listed as disconnected. *)
Record registry_ok (sv : Server) : Prop := {
  rg_ref : ∀ id r, sv_conns sv !! id = Some r →
    ∃ c, sv_get sv r = Some c ∧ cn_bound c = true ∧ cn_ID c = id ∧ cn_SystemID c = id;
  rg_gone : ∀ id, is_Some (sv_conns sv !! id) → sv_disconnects sv !! id = None
}.

(** Changes that leave a session its identity. *)
Definition keeps_identity (f : Connection → Connection) : Prop :=
  ∀ c, cn_ID (f c) = cn_ID c ∧ cn_SystemID (f c) = cn_SystemID c ∧ cn_bound (f c) = cn_bound c.

Lemma registry_alter f r sv : keeps_identity f → registry_ok sv → registry_ok (sv_alter f r sv).
Proof.
  intros Hf [Hr Hg]. split; [|done]. intros id r' Hid. destruct (Hr id r' Hid) as (c & Hc & Hb & Hi & Hs).
  rewrite sv_get_alter. case_decide; rewrite Hc; simpl; [|by eauto].
  destruct (Hf c) as (E1 & E2 & E3). eexists. split; [done|]. by rewrite E1, E2, E3.
Qed.

Lemma Close_keeps_identity : keeps_identity Connection_Close.
Proof. intros c. done. Qed.

(** What a session's read loop, the deliveries and the tickers do to it, a bind request
    with its new system ID among them: only [onBind] gives it an ID, only the router
    changes its counter, and a bound session stays bound. *)
Definition session_change (c c' : Connection) : Prop :=
  cn_ID c' = cn_ID c ∧ cn_inFlight c' = cn_inFlight c ∧ (cn_bound c = true → cn_bound c' = true).

(** What happens to the sessions: a socket is accepted, a session changes, one that has
    logged in (for the first time or again, as whomever) binds, one ends. *)
Inductive server_step : Server → Server → Prop :=
| StepAccept seq ip sv : server_step sv (accept seq ip sv).2
| StepChange r c c' sv : sv_get sv r = Some c → session_change c c' → server_step sv (sv_alter (λ _, c') r sv)
| StepBind r c sv : sv_get sv r = Some c → cn_bound c = true → server_step sv (onBind r (cn_SystemID c) sv)
| StepEnd now r sv : server_step sv (handleConnection_end now r sv).

(** Whatever they bind as, a registered session is bound and its ID is not listed as
    disconnected. *)
Record registry_bound (sv : Server) : Prop := {
  rb_ref : ∀ id r, sv_conns sv !! id = Some r → ∃ c, sv_get sv r = Some c ∧ cn_bound c = true;
  rb_gone : ∀ id, is_Some (sv_conns sv !! id) → sv_disconnects sv !! id = None
}.

Lemma registry_ok_bound sv : registry_ok sv → registry_bound sv.
Proof. intros [Hr Hg]. split; [|done]. intros id r Hid. destruct (Hr id r Hid) as (c & Hc & Hb & _). eauto. Qed.

(** A step in which no registered session takes another system ID. *)
Definition tidy_step (sv sv' : Server) : Prop :=
  server_step sv sv' ∧
  ∀ id r, sv_conns sv !! id = Some r → cn_SystemID <$> sv_get sv' r = cn_SystemID <$> sv_get sv r.

(** A MaxBinds that can be exceeded counts one session, the one that is replaced. *)
Definition bind_refused (sv : Server) (c : Connection) (id : bytes) : bool :=
  match cn_connConfig c with
  | Some cfg => bool_decide (0 < cc_MaxBinds cfg) && bool_decide (cc_MaxBinds cfg <= bind_count sv id)
  | None => false
  end.

Lemma bind_count_registered sv id : registry_ok sv →
  bind_count sv id = if decide (is_Some (sv_conns sv !! id)) then 1 else 0.
Proof.
  intros Hok. unfold bind_count.
  assert (∀ kr, kr ∈ map_to_list (sv_conns sv) → bound_as sv id kr.2 = true ↔ kr.1 = id) as Hb.
  { intros [id' r] Hin%elem_of_map_to_list. destruct (rg_ref _ Hok _ _ Hin) as (c & Hc & Hbd & _ & Hs).
    unfold bound_as. cbn [snd fst]. rewrite Hc, Hbd, andb_true_r, bool_decide_eq_true. by rewrite Hs. }
  pose proof (NoDup_fst_map_to_list (sv_conns sv)) as Hnd.
  assert (is_Some (sv_conns sv !! id) ↔ id ∈ (map_to_list (sv_conns sv)).*1) as Hin.
  { rewrite list_elem_of_fmap. split.
    - intros [r Hr]. exists (id, r). split; [done|]. by apply elem_of_map_to_list.
    - intros ([id' r] & -> & Hr%elem_of_map_to_list). eauto. }
  rewrite (decide_ext _ _ _ _ Hin). revert Hb Hnd. generalize (map_to_list (sv_conns sv)). clear Hin.
  intros l Hb Hnd. induction l as [|[id' r] l IH].
  - rewrite decide_False by apply not_elem_of_nil. done.
  - cbn [fmap list_fmap fst] in *. apply NoDup_cons in Hnd as [Hn Hnd].
    specialize (IH ltac:(intros kr Hkr; apply Hb; by right) Hnd).
    pose proof (Hb (id', r) (list_elem_of_here _ _)) as Hid. cbn [fst snd] in Hid.
    rewrite filter_cons. cbn [snd]. destruct (decide (id' = id)) as [->|Hne].
    + rewrite decide_True by tauto. rewrite decide_False in IH by done.
      rewrite decide_True by (by left). unfold zlen in *. simpl. lia.
    + rewrite decide_False by tauto. rewrite IH. apply decide_ext. rewrite elem_of_cons. naive_solver.
Qed.

Lemma onBind_eq sv r c id : sv_get sv r = Some c →
  onBind r id sv =
  if bind_refused sv c id then sv_alter Connection_Close r sv
  else
    let sv' := sv_alter (λ c, cn_with_ID c id) r sv in
    let sv' := match sv_conns sv !! id with Some old => sv_alter Connection_Close old sv' | None => sv' end in
    mkServer (sv_heap sv') (<[id := r]> (sv_conns sv)) (delete id (sv_disconnects sv)).
Proof.
  intros Hc. unfold onBind. rewrite Hc. unfold bind_refused. destruct (match cn_connConfig c with Some _ => _ | None => _ end); [done|].
  cbn [sv_conns sv_alter]. by destruct (sv_conns sv !! id).
Qed.

(** The sessions after an accepted bind: the new one has its ID, the old one is closed. *)
Lemma onBind_get sv r c id r' :
  sv_get sv r = Some c → bind_refused sv c id = false →
  ∃ f, keeps_identity f ∧
    sv_get (onBind r id sv) r' = f <$> (if decide (r = r') then Some (cn_with_ID c id) else sv_get sv r').
Proof.
  intros Hc Hr. rewrite (onBind_eq _ _ _ _ Hc), Hr. cbv zeta. destruct (sv_conns sv !! id) as [old|].
  - exists (if decide (old = r') then Connection_Close else λ c, c). split; [by case_decide|].
    change (sv_get (sv_alter Connection_Close old (sv_alter (λ c, cn_with_ID c id) r sv)) r' = 
      (if decide (old = r') then Connection_Close else λ c, c) <$> (if decide (r = r') then Some (cn_with_ID c id) else sv_get sv r')).
    rewrite !sv_get_alter. destruct (decide (old = r')), (decide (r = r')); subst; rewrite ?Hc; try done;
      by destruct (sv_get sv r').
  - exists (λ c, c). split; [done|].
    change (sv_get (sv_alter (λ c, cn_with_ID c id) r sv) r' =
      (λ c, c) <$> (if decide (r = r') then Some (cn_with_ID c id) else sv_get sv r')).
    rewrite sv_get_alter. case_decide; subst; rewrite ?Hc; [done|]. by destruct (sv_get sv r').
Qed.

Lemma onBind_conns sv r c id : sv_get sv r = Some c → bind_refused sv c id = false →
  sv_conns (onBind r id sv) = <[id := r]> (sv_conns sv) ∧
  sv_disconnects (onBind r id sv) = delete id (sv_disconnects sv).
Proof. intros Hc Hr. by rewrite (onBind_eq _ _ _ _ Hc), Hr. Qed.

Lemma onBind_refused sv r c id : sv_get sv r = Some c → bind_refused sv c id = true →
  onBind r id sv = sv_alter Connection_Close r sv.
Proof. intros Hc Hr. by rewrite (onBind_eq _ _ _ _ Hc), Hr. Qed.

Lemma gone_insert (sv : Server) id r id' : (∀ id, is_Some (sv_conns sv !! id) → sv_disconnects sv !! id = None) →
  is_Some (<[id := r]> (sv_conns sv) !! id') → delete id (sv_disconnects sv) !! id' = None.
Proof.
  intros Hg Hl. destruct (decide (id' = id)) as [->|Hne]; [apply lookup_delete_eq|].
  rewrite lookup_insert_ne in Hl by done. rewrite lookup_delete_ne by done. by apply Hg.
Qed.

Lemma bound_onBind sv r c id :
  registry_bound sv → sv_get sv r = Some c → cn_bound c = true → registry_bound (onBind r id sv).
Proof.
  intros [Hr Hg] Hc Hb. destruct (bind_refused sv c id) eqn:E.
  - rewrite (onBind_refused _ _ _ _ Hc E). split; [|exact Hg]. intros id' r' Hl. destruct (Hr id' r' Hl) as (c' & Hc' & Hb').
    rewrite sv_get_alter, Hc'. case_decide; simpl; eauto.
  - destruct (onBind_conns _ _ _ _ Hc E) as [E1 E2]. split.
    + intros id' r'. rewrite E1. intros Hl. destruct (onBind_get sv r c id r' Hc E) as (f & Hf & ->).
      assert (∃ c', (if decide (r = r') then Some (cn_with_ID c id) else sv_get sv r') = Some c' ∧ cn_bound c' = true)
        as (c' & -> & Hb').
      { case_decide; [eexists; split; [done|exact Hb]|]. rewrite lookup_insert_Some in Hl. naive_solver. }
      simpl. eexists. split; [done|]. destruct (Hf c') as (_ & _ & ->). exact Hb'.
    + intros id'. rewrite E1, E2. by apply gone_insert.
Qed.

Lemma bound_end sv now r : registry_bound sv → registry_bound (handleConnection_end now r sv).
Proof.
  intros Hok. unfold handleConnection_end. destruct (sv_get sv r) as [c|] eqn:Hc; [|done].
  set (sv' := if cn_bound c then _ else _).
  assert (registry_bound sv') as [Hr Hg].
  { subst sv'. destruct (cn_bound c); [|done]. destruct (sv_conns sv !! cn_ID c) as [r'|]; [|done].
    case_decide; [|done]. destruct Hok as [Hr Hg]. split; simpl.
    - intros id r0. rewrite lookup_delete_Some. intros [_ Hl]. by apply (Hr id).
    - intros id. destruct (decide (id = cn_ID c)) as [->|Hne]; [rewrite lookup_delete_eq; by intros [? ?]|].
      rewrite lookup_delete_ne, lookup_insert_ne by done. apply Hg. }
  split; [|exact Hg]. intros id r' Hl. destruct (Hr id r' Hl) as (c' & Hc' & Hb'). rewrite sv_get_alter, Hc'.
  case_decide; simpl; eauto.
Qed.

Lemma bound_step sv sv' : server_step sv sv' → registry_bound sv → registry_bound sv'.
Proof.
  intros Hs Hok. destruct Hs as [seq ip sv|r c c' sv Hc Hf|r c sv Hc Hb|now r sv].
  - destruct Hok as [Hr Hg]. split; [|exact Hg]. intros id r Hl. destruct (Hr id r Hl) as (c & Hc & Hb).
    exists c. split; [|done]. unfold sv_get, accept in *. simpl. by apply lookup_app_l_Some.
  - destruct Hok as [Hr Hg]. split; [|exact Hg]. intros id r' Hl. destruct (Hr id r' Hl) as (c0 & Hc0 & Hb).
    rewrite sv_get_alter, Hc0. case_decide; simpl; [|by eauto]. subst r'. rewrite Hc in Hc0. injection Hc0 as <-.
    eexists. split; [done|]. by apply Hf.
  - by apply (bound_onBind _ _ c).
  - by apply bound_end.
Qed.

Lemma New_registry : registry_ok NewServer.
Proof. split; intros id; [intros r|intros [r Hr]]; simpl in *; by rewrite lookup_empty in *. Qed.

Lemma bound_reachable sv : rtc server_step NewServer sv → registry_bound sv.
Proof.
  intros Hs. assert (registry_bound NewServer) as H0 by apply registry_ok_bound, New_registry.
  revert H0. induction Hs as [|sv1 sv2 sv3 H12 _ IH]; [done|]. intros H0. apply IH. by apply (bound_step sv1).
Qed.

(** *** When no registered session takes another ID *)

Lemma registry_onBind sv r c :
  registry_ok sv → sv_get sv r = Some c → cn_bound c = true → registry_ok (onBind r (cn_SystemID c) sv).
Proof.
  intros Hok Hc Hb. destruct (bind_refused sv c (cn_SystemID c)) eqn:E.
  { rewrite (onBind_refused _ _ _ _ Hc E). by apply registry_alter; [intros c'|]. }
  destruct (onBind_conns _ _ _ _ Hc E) as [E1 E2]. split.
  - intros id' r'. rewrite E1. intros Hl. destruct (onBind_get sv r c (cn_SystemID c) r' Hc E) as (f & Hf & ->).
    assert (∃ c', (if decide (r = r') then Some (cn_with_ID c (cn_SystemID c)) else sv_get sv r') = Some c' ∧
      cn_bound c' = true ∧ cn_ID c' = id' ∧ cn_SystemID c' = id') as (c' & -> & Hb' & Hi & Hs).
    { apply lookup_insert_Some in Hl as [[<- <-]|[Hne Hl]].
      - rewrite decide_True by done. by eexists.
      - destruct (rg_ref _ Hok _ _ Hl) as (c' & Hc' & Hb' & Hi & Hs). rewrite decide_False; [by exists c'|].
        intros <-. rewrite Hc in Hc'. injection Hc' as <-. congruence. }
    simpl. eexists. split; [done|]. destruct (Hf c') as (-> & -> & ->). done.
  - intros id'. rewrite E1, E2. apply gone_insert, Hok.
Qed.

Lemma registry_end sv now r : registry_ok sv → registry_ok (handleConnection_end now r sv).
Proof.
  intros Hok. unfold handleConnection_end. destruct (sv_get sv r) as [c|] eqn:Hc; [|done].
  apply registry_alter; [apply Close_keeps_identity|]. destruct (cn_bound c); [|done].
  destruct (sv_conns sv !! cn_ID c) as [r'|] eqn:Hr; [|done]. case_decide; [|done]. subst r'.
  split; simpl.
  - intros id r'. rewrite lookup_delete_Some. intros [Hne Hl]. apply (rg_ref _ Hok _ _ Hl).
  - intros id. destruct (decide (id = cn_ID c)) as [->|Hne].
    + rewrite lookup_delete_eq. by intros [? ?].
    + rewrite lookup_delete_ne, lookup_insert_ne by done. apply Hok.
Qed.

Lemma registry_tidy sv sv' : tidy_step sv sv' → registry_ok sv → registry_ok sv'.
Proof.
  intros [Hs Ht] Hok. destruct Hs as [seq ip sv|r c c' sv Hc Hf|r c sv Hc Hb|now r sv].
  - split; [|apply Hok]. intros id r Hr. destruct (rg_ref _ Hok _ _ Hr) as (c & Hc & Hrest).
    exists c. split; [|done]. unfold sv_get, accept in *. simpl. by apply lookup_app_l_Some.
  - split; [|apply Hok]. intros id r' Hr. destruct (rg_ref _ Hok _ _ Hr) as (c0 & Hc0 & Hb & Hi & Hs).
    specialize (Ht id r' Hr). revert Ht. rewrite sv_get_alter, Hc0. case_decide; simpl; [|by eauto 6].
    subst r'. rewrite Hc in Hc0. injection Hc0 as <-. destruct Hf as (E1 & _ & E3).
    intros [= E2]. eexists. split; [done|]. split; [by apply E3|]. split; congruence.
  - by apply registry_onBind.
  - by apply registry_end.
Qed.

Lemma registry_reachable sv : rtc tidy_step NewServer sv → registry_ok sv.
Proof.
  intros Hs. pose proof New_registry as H0. revert H0.
  induction Hs as [|sv1 sv2 sv3 H12 _ IH]; [done|]. intros H0. apply IH. by apply (registry_tidy sv1).
Qed.

Lemma onBind_effect sv r c id :
  registry_bound sv → sv_get sv r = Some c → cn_bound c = true →
  let sv' := onBind r id sv in
  if bind_refused sv c id
  then sv_conns sv' = sv_conns sv ∧ sv_disconnects sv' = sv_disconnects sv ∧ cn_open <$> sv_get sv' r = Some false
  else GetConnection id sv' = Some r ∧ DisconnectedAt id sv' = None ∧
       (∀ old, sv_conns sv !! id = Some old → cn_open <$> sv_get sv' old = Some false) ∧
       (∀ id', id' ≠ id → sv_conns sv' !! id' = sv_conns sv !! id').
Proof.
  intros Hok Hc Hb. cbv zeta. destruct (bind_refused sv c id) eqn:Er.
  + rewrite (onBind_refused _ _ _ _ Hc Er). split; [done|]. split; [done|]. by rewrite sv_get_alter, decide_True, Hc by done.
  + pose proof (bound_onBind sv r c id Hok Hc Hb) as [Hr' _].
    destruct (onBind_conns _ _ _ _ Hc Er) as [E1 E2].
    unfold GetConnection, DisconnectedAt. rewrite E1, E2, lookup_insert_eq, lookup_delete_eq.
    destruct (Hr' id r) as (c' & Hc' & Hb'); [by rewrite E1, lookup_insert_eq|]. rewrite Hc', Hb'.
    split; [done|]. split; [done|]. split; [|intros id' Hne; by apply lookup_insert_ne].
    intros old Ho. destruct (rb_ref _ Hok _ _ Ho) as (co & Hco & _).
    rewrite (onBind_eq _ _ _ _ Hc), Er. cbv zeta. rewrite Ho.
    change (cn_open <$> sv_get (sv_alter Connection_Close old (sv_alter (λ c, cn_with_ID c id) r sv)) old = Some false).
    rewrite sv_get_alter, decide_True, sv_get_alter, Hco by done. by case_decide.
Qed.

(** Refused because of a limit that the registered sessions of that system ID reach. *)
Lemma bind_refused_spec sv c id : bind_refused sv c id = true ↔
  ∃ cfg, cn_connConfig c = Some cfg ∧ 0 < cc_MaxBinds cfg <= bind_count sv id.
Proof.
  unfold bind_refused. destruct (cn_connConfig c) as [cfg|]; [|naive_solver].
  rewrite andb_true_iff, !bool_decide_eq_true. naive_solver.
Qed.

Lemma end_effect sv now r c :
  sv_get sv r = Some c →
  let sv' := handleConnection_end now r sv in
  cn_open <$> sv_get sv' r = Some false ∧
  if decide (cn_bound c = true ∧ sv_conns sv !! cn_ID c = Some r)
  then GetConnection (cn_ID c) sv' = None ∧ DisconnectedAt (cn_ID c) sv' = Some now
  else sv_conns sv' = sv_conns sv ∧ sv_disconnects sv' = sv_disconnects sv.
Proof.
  intros Hc. cbv zeta. unfold handleConnection_end. rewrite Hc.
  set (sv' := if cn_bound c then _ else _).
  assert (sv_get sv' r = Some c) as Hc'.
  { subst sv'. destruct (cn_bound c); [|done]. destruct (sv_conns sv !! cn_ID c); [|done]. by case_decide. }
  rewrite sv_get_alter, decide_True, Hc' by done. split; [done|]. clear Hc'. subst sv'.
  destruct (cn_bound c); [|rewrite decide_False by naive_solver; done].
  destruct (sv_conns sv !! cn_ID c) as [r'|]; [|rewrite decide_False by naive_solver; done].
  destruct (decide (r' = r)) as [->|]; [|rewrite decide_False by naive_solver; done].
  rewrite decide_True by done. unfold GetConnection, DisconnectedAt. simpl. by rewrite lookup_delete_eq, lookup_insert_eq.
Qed.


(** ** The code's own functions are such steps *)

Lemma sendResponse_change cmdID status seqNum body c : session_change c (sendResponse cmdID status seqNum body c).
Proof. unfold session_change, sendResponse, WritePDU. by destruct (cn_open c). Qed.

Lemma session_change_trans c1 c2 c3 : session_change c1 c2 → session_change c2 c3 → session_change c1 c3.
Proof. unfold session_change. intros (E1 & E2 & E3) (F1 & F2 & F3). split_and!; [congruence..|auto]. Qed.

Lemma conn_dispatch_change cfg pdu c : session_change c (conn_dispatch cfg pdu c).1.1.
Proof.
  unfold conn_dispatch. case_decide.
  - pose proof (handleBind_bound pdu cfg c) as Hb. unfold handleBind in *.
    destruct (ReadCString _ 0) as [i o]. destruct (ReadCString _ o) as [p o'].
    set (c1 := cn_with_bind _ _ _) in *. assert (session_change c c1) as H1 by done.
    destruct (check_bind _ _ _ _ _) as [st|cc]; cbn [fst snd] in *; (eapply session_change_trans; [exact H1|]).
    + apply sendResponse_change.
    + apply session_change_trans with (match cc with Some _ => cn_with_config c1 cc | None => c1 end); [by destruct cc|].
      eapply session_change_trans; [apply sendResponse_change|]. by split_and!.
  - repeat case_decide; try done; try (cbn [fst]; apply sendResponse_change).
    destruct (negb (cn_bound c)); cbn [fst]; [apply sendResponse_change|done].
Qed.

Lemma ResolveDeliverResp_change seqNum status c c' :
  ResolveDeliverResp seqNum status c = Some c' → session_change c c'.
Proof.
  unfold ResolveDeliverResp. destruct (cn_pending c !! seqNum); [|by intros [= <-]].
  destruct (cn_chans c !! _) as [[?|]|]; [done| |done]. by intros [= <-].
Qed.

(** At most one event; a bind event is for the system ID of a session that is bound. *)
Lemma conn_dispatch_event cfg pdu c :
  (conn_dispatch cfg pdu c).1.2 = [] ∨ ∃ e, (conn_dispatch cfg pdu c).1.2 = [e] ∧
    ∀ id, e = OnBind id → cn_bound (conn_dispatch cfg pdu c).1.1 = true ∧ cn_SystemID (conn_dispatch cfg pdu c).1.1 = id.
Proof.
  unfold conn_dispatch. case_decide.
  - pose proof (handleBind_bound pdu cfg c) as Hb. destruct (handleBind pdu cfg c) as [c' [|]]; cbn [fst snd] in *; [right|by left].
    eexists. split; [done|]. by intros id [= <-].
  - repeat case_decide; cbn [fst snd]; try by left.
    + destruct (negb (cn_bound c)); [by left|right]. eexists. split; [done|]. by intros id [=].
    + right. eexists. split; [done|]. by intros id [=].
Qed.

(** Serving a PDU is steps of the server, up to what the router does with a submit. *)
Lemma serve_pdu_steps submit cfg r pdu sv sv' k :
  (∀ connID seqNum body sv, rtc server_step sv (submit connID seqNum body sv)) →
  serve_pdu submit cfg r pdu sv = Some (sv', k) → rtc server_step sv sv'.
Proof.
  intros Hsub. unfold serve_pdu. destruct (sv_get sv r) as [c|] eqn:Hc; [|by intros [= <- _]].
  pose proof (conn_dispatch_change cfg pdu c) as Hch. pose proof (conn_dispatch_event cfg pdu c) as Hev.
  destruct (conn_dispatch cfg pdu c) as [[c' evs] continue]. cbn [fst snd] in *.
  set (sv1 := sv_alter (λ _, c') r sv).
  assert (rtc server_step sv sv1) as H1 by (apply rtc_once; by eapply StepChange).
  destruct (foldl _ (Some sv1) evs) as [sv2|] eqn:E; [|done]. cbn [mbind option_bind]. intros [= -> _].
  etransitivity; [exact H1|].
  destruct Hev as [->|(e & -> & Hbd)]; cbn [foldl mbind option_bind] in E.
  - by injection E as <-.
  - destruct e as [id|connID seqNum body|connID seqNum status]; cbn [serve_event] in E.
    + injection E as <-. destruct (Hbd id eq_refl) as [Hb <-]. apply rtc_once, StepBind; [|done].
      subst sv1. by rewrite sv_get_alter, decide_True, Hc by done.
    + injection E as <-. apply Hsub.
    + unfold onDeliverResp in E. destruct (sv_conns sv1 !! connID) as [r'|]; [|by injection E as <-].
      destruct (sv_get sv1 r') as [c1|] eqn:Hc1; [|by injection E as <-].
      destruct (ResolveDeliverResp seqNum status c1) as [c2|] eqn:E2; [|done]. injection E as <-.
      apply rtc_once. eapply StepChange; [exact Hc1|]. by eapply ResolveDeliverResp_change.
Qed.

Lemma alter_step (f : Connection → Connection) r sv : (∀ c, session_change c (f c)) → rtc server_step sv (sv_alter f r sv).
Proof.
  intros Hf. destruct (sv_get sv r) as [c|] eqn:Hc.
  - apply rtc_once. rewrite <-(sv_alter_const f c r sv Hc). by eapply StepChange.
  - assert (sv_alter f r sv = sv) as ->; [|done]. destruct sv as [h m d]. unfold sv_alter, sv_get in *. cbn in *. f_equal.
    apply list_eq. intros i. destruct (decide (i = r)) as [->|]; [by rewrite list_lookup_alter_eq, Hc|by rewrite list_lookup_alter_ne].
Qed.

(** So are the tickers. *)
Lemma ticker_steps now timeout lastActivity iter sv :
  rtc server_step sv (enquire_links iter sv) ∧ rtc server_step sv (close_stale now timeout lastActivity iter sv).
Proof.
  assert (∀ (f : Connection → Connection) l, (∀ c, session_change c (f c)) → ∀ sv,
    rtc server_step sv (foldl (λ sv (kr : bytes * conn_ref), sv_alter f kr.2 sv) sv l)) as Hf.
  { intros f l Hf. induction l as [|kr l IH]; intros sv0; [done|]. cbn [foldl]. etransitivity; [|apply IH]. by apply alter_step. }
  split; [|by apply Hf]. apply Hf. intros c. cbv zeta. unfold WritePDU, session_change. cbn [cn_open cn_with_seq].
  by destruct (cn_open c).
Qed.

(** ** Delivery *)

Definition deliver_pdu (seqNum : Z) (body : bytes) : PDU := mkPDU 0 CmdDeliverSM StatusOK seqNum body None.

(** The session after a delivery: the sequence number is used up, the PDU is written
    when the socket is open, and the wait is over. *)
Definition delivered_conn (ack : option Z) (body : bytes) (c : Connection) : Connection :=
  let seq := u32 (cn_seqNum c + 1) in
  let c' := cn_with_seq c seq in
  let c' := if cn_open c then cn_with_written c' (cn_written c ++ [deliver_pdu seq body]) else c' in
  cn_with_pending c' (delete seq (cn_pending c))
    (cn_chans c ++ [if cn_open c then ack else None]).

Lemma DeliverToConn_eq ack connID body sv :
  DeliverToConn ack connID body sv =
  match GetConnection connID sv with
  | None => (inr ConnNotFound, sv)
  | Some r =>
      match sv_get sv r with
      | None => (inr ConnNotFound, sv)
      | Some c =>
          (if cn_open c then
             match ack with
             | Some status => if decide (status = StatusOK) then inl (u32 (cn_seqNum c + 1)) else inr (Nacked status)
             | None => inr DeliverTimeout
             end
           else inr WriteFailed,
           sv_alter (λ _, delivered_conn ack body c) r sv)
      end
  end.
Proof.
  unfold DeliverToConn. destruct (GetConnection connID sv) as [r|]; [|done].
  destruct (sv_get sv r) as [c|]; [|done].
  assert (∀ x : option Z, <[length (cn_chans c) := x]> (cn_chans c ++ [None]) = cn_chans c ++ [x]) as Hins.
  { intros x. rewrite insert_app_r_alt by lia. by rewrite Nat.sub_diag. }
  unfold WritePDU, RegisterDeliverWait, delivered_conn, deliver_pdu.
  cbn [snd cn_open cn_with_pending cn_with_seq]. destruct (cn_open c) eqn:Ho; cbn [negb].
  - destruct ack as [status|].
    + unfold ResolveDeliverResp. cbn [cn_pending cn_chans cn_with_written cn_with_pending].
      rewrite lookup_insert_eq, lookup_app_r, Nat.sub_diag by lia. cbn [lookup list_lookup].
      unfold cn_with_pending, cn_with_written, cn_with_seq. simpl. rewrite Ho, Hins, delete_insert_eq. done.
    + unfold cn_with_pending, cn_with_written, cn_with_seq. simpl. by rewrite Ho, delete_insert_eq.
  - unfold cn_with_pending, cn_with_written, cn_with_seq. simpl. by rewrite Ho, delete_insert_eq.
Qed.

(** C30: a delivery to an engine.  Without a bound session of that ID nothing happens.
    Otherwise the session's next sequence number is used; on an open socket exactly one
    deliver_sm with that number and body is written, and the call succeeds just when the
    engine answers StatusOK in time; a refusal, a timeout and a closed socket are
    errors.  No other session is touched, and nothing waits for the answer any more. *)
Theorem DeliverToConn_spec ack connID body sv :
  let '(res, sv') := DeliverToConn ack connID body sv in
  sv_conns sv' = sv_conns sv ∧ sv_disconnects sv' = sv_disconnects sv ∧
  match GetConnection connID sv ≫= λ r, pair r <$> sv_get sv r with
  | None => res = inr ConnNotFound ∧ sv' = sv
  | Some (r, c) =>
      let seq := u32 (cn_seqNum c + 1) in
      (∀ r', r' ≠ r → sv_get sv' r' = sv_get sv r') ∧
      (∃ c', sv_get sv' r = Some c' ∧ cn_seqNum c' = seq ∧ cn_pending c' = delete seq (cn_pending c) ∧
        cn_bound c' = cn_bound c ∧ cn_ID c' = cn_ID c ∧
        cn_written c' = cn_written c ++ if cn_open c then [deliver_pdu seq body] else []) ∧
      ((∃ seq, res = inl seq) ↔ cn_open c = true ∧ ack = Some StatusOK) ∧
      (cn_open c = false → res = inr WriteFailed)
  end.
Proof.
  rewrite DeliverToConn_eq. destruct (GetConnection connID sv) as [r|]; [|done].
  cbn [mbind option_bind]. destruct (sv_get sv r) as [c|] eqn:Hc; [|done]. cbn [fmap option_fmap option_map].
  split; [done|]. split; [done|]. split; [|split; [|split]].
  - intros r' Hne. by rewrite sv_get_alter, decide_False by done.
  - rewrite sv_get_alter, decide_True, Hc by done. eexists. split; [reflexivity|].
    unfold delivered_conn. destruct (cn_open c); simpl; rewrite ?app_nil_r; done.
  - destruct (cn_open c); [|naive_solver]. destruct ack as [status|]; [|naive_solver].
    case_decide; subst; naive_solver.
  - by intros ->.
Qed.

(** ** Round robin and listings *)

Lemma RoundRobin_spec iter sv : iter ≡ₚ map_to_list (sv_conns sv) →
  (∀ id, is_Some (sv_conns sv !! id) → id ≠ []) →
  (RoundRobinConnID iter sv = [] ↔ BoundConnectionIDs iter sv = []) ∧
  (RoundRobinConnID iter sv ≠ [] → is_Some (GetConnection (RoundRobinConnID iter sv) sv)).
Proof.
  intros Hp Hne.
  assert (∀ id r, (id, r) ∈ iter → sv_conns sv !! id = Some r) as Hin.
  { intros id r Hi. apply elem_of_map_to_list. by rewrite <-Hp. }
  clear Hp. induction iter as [|[id r] iter IH]; [done|]. unfold BoundConnectionIDs in *. cbn [RoundRobinConnID].
  rewrite filter_cons. cbn [snd]. pose proof (Hin id r (list_elem_of_here _ _)) as Hr.
  destruct (is_bound sv r) eqn:Hb; simpl.
  - split; [split; [intros Hid; by destruct (Hne id); [eauto|]|done]|]. intros _. unfold GetConnection. rewrite Hr.
    unfold is_bound in Hb. destruct (sv_get sv r); [|done]. rewrite Hb. eauto.
  - apply IH. intros id' r' Hi. apply Hin. by right.
Qed.

(** ** Examples *)

Definition sv_ex_config (maxBinds : Z) : ConnectionConfig :=
  mkConnConfig (str "engine") [] [] true [] 0 (QArith_base.Qmake 0 1) [] [] 0 0 [] [] 0 0 [] maxBinds [] 0 0.
(** The session of a socket after its bind as [id]. *)
Definition sv_ex_bind (r : conn_ref) (id : bytes) (cfg : option ConnectionConfig) (sv : Server) : Server :=
  onBind r id (sv_alter (λ c, cn_with_bound (cn_with_config (cn_with_bind c id BindTransceiver) cfg) true) r sv).
Definition sv_example : Server :=
  sv_ex_bind 0 (str "engine") None (accept 1 (str "10.0.0.1") NewServer).2.

Definition sv_ex_bound : Connection :=
  cn_with_bound (cn_with_bind (NewConnection (str "pending-1") (str "10.0.0.1")) (str "engine") BindTransceiver) true.

Lemma sv_example_tidy : rtc tidy_step NewServer sv_example.
Proof.
  apply rtc_l with (accept 1 (str "10.0.0.1") NewServer).2; [split; [constructor|done]|].
  eapply rtc_l; [split; [apply (StepChange 0 (NewConnection (str "pending-1") (str "10.0.0.1")) sv_ex_bound); [by vm_compute|done]|done]|].
  apply rtc_once. split; [|done]. apply (StepBind 0 sv_ex_bound); by vm_compute.
Qed.

Lemma sv_example_steps : rtc server_step NewServer sv_example.
Proof. eapply (rtc_congruence (λ sv, sv)); [|exact sv_example_tidy]. by intros sv sv' [Hs _]. Qed.

Lemma sv_ex_bind_steps r id cfg sv : is_Some (sv_get sv r) → rtc server_step sv (sv_ex_bind r id cfg sv).
Proof.
  intros [c Hc]. unfold sv_ex_bind.
  etransitivity; [apply (alter_step (λ c, cn_with_bound (cn_with_config (cn_with_bind c id BindTransceiver) cfg) true) r); intros c'; by split_and!|].
  apply rtc_once. apply (StepBind r (cn_with_bound (cn_with_config (cn_with_bind c id BindTransceiver) cfg) true)); [|done].
  by rewrite sv_get_alter, decide_True, Hc.
Qed.


(** A bound session that binds again under another ID leaves its first ID behind: when
    it ends, that ID still leads to the closed session, and the gateway neither reaches
    an engine under it nor knows that it is gone. *)
Theorem rebind_leaves_stale_entry :
  let sv := sv_ex_bind 0 (str "other") None sv_example in
  let sv := handleConnection_end 5 0 sv in
  GetConnection (str "engine") sv = Some 0%nat ∧ DisconnectedAt (str "engine") sv = None ∧
  (DeliverToConn (Some StatusOK) (str "engine") [] sv).1 = inr WriteFailed.
Proof. vm_compute. done. Qed.

(** MaxBinds counts the one session an ID can have: with a limit of 1 an engine that
    reconnects before its old session has ended is refused, and with a larger one the
    old session is closed. *)
Theorem max_binds_example :
  let sv := (accept 2 (str "10.0.0.1") sv_example).2 in
  let cfg n := Some (sv_ex_config n) in
  cn_open <$> sv_get (sv_ex_bind 1 (str "engine") (cfg 1) sv) 1 = Some false ∧
  cn_open <$> sv_get (sv_ex_bind 1 (str "engine") (cfg 9) sv) 0 = Some false.
Proof. vm_compute. done. Qed.
