(* ===== verification/Gateway.v ===== *)
(** * The state of the gateway

    The router's fields (gateway/router.go) with what it reaches through them: the
    server with its sessions, the store, the route tables; and the effects of its
    handlers.

    A handler is a function on this state that also reads its environment ([Env]): the
    clock, the answers of the southbound SMSC and of the engines, the fate of an HTTP
    request, the order in which a map is iterated.  Each reading uses the next number of
    a counter, so an environment gives every reading an arbitrary value, and theorems
    about all environments are about all of them.  A handler is one computation here;
    [RouterRun] has the points at which others run in between: after a submit is
    answered, around the in-flight counters and the forward queue, and where a worker or
    a drain waits for the SMSC.

    [w_events] records what left the gateway; it and the labels in it are for the
    theorems, no code reads them. *)

From S2P Require Import Prelude Constants Operations Connection ShardMap SliceSort.
From S2P Require Import PoolManager RouteTable Documents Format Store Server.

Local Open Scope Z_scope.

Record correlation := mkCorr {
  co_GwMsgID : bytes; co_NorthConnID : bytes; co_MSISDN : bytes; co_SubmittedAt : Z
}.

Record forwardTask := mkTask {
  ft_conn : option conn_ref; ft_gwMsgID : bytes; ft_destAddr : bytes; ft_sourceAddr : bytes;
  ft_rawBody : bytes
}.

(** The pool of a route, or the fallback pool. *)
Inductive sub_target := SubRoute (r : pool_ref) | SubSouthbound.

(** What SubmitRaw returns: an error, a response with one, or a message ID. *)
Inductive submit_answer := SubmitErr | SubmitRejected | SubmitOK (messageID : bytes).

(** The bodies posted to callback URLs. *)
Inductive callback_payload :=
| DLRCallback (id status to_ from reference : bytes) (timestamp : Z)
| MOCallback (from to_ body : bytes) (timestamp : Z).

Inductive event :=
| EvAccepted (gwMsgID connID : bytes) (c : option conn_ref)
  (** answered to a submit of [connID], through its session when it has one *)
| EvSubmit (gwMsgID : bytes) (s : sub_target) (body : bytes) (a : submit_answer)
| EvDeliver (isDLR : bool) (connID body : bytes) (acked : bool)
| EvBuffered (isDLR : bool) (connID body : bytes)
| EvSynthetic (gwMsgID connID : bytes)           (** a failure receipt was made *)
| EvPost (url : bytes) (p : callback_payload) (ok : bool).

Record Totals := mkTotals {
  tt_submits : Z; tt_dlrs : Z; tt_mo : Z; tt_forwarded : Z; tt_throttled : Z
}.

(** What NewRouter keeps of the configuration, with its defaults. *)
Record RouterConfig := mkRouterConfig {
  rc_reconnectGrace : Z; rc_rateLimitTPS : Z; rc_maxSubmitRetries : Z; rc_retryDrainLimit : Z;
  rc_submitRetryDrainLimit : Z; rc_queueSize : Z; rc_southbound : bool
}.

Definition NewRouterConfig (graceSec rateLimitTPS maxSubmitRetries retryDrainLimit submitRetryDrainLimit
    forwardQueueSize : Z) (southbound : bool) : RouterConfig :=
  mkRouterConfig (graceSec * Second) rateLimitTPS maxSubmitRetries
    (if decide (retryDrainLimit <= 0) then 200 else retryDrainLimit)
    (if decide (submitRetryDrainLimit <= 0) then 100 else submitRetryDrainLimit)
    (if decide (forwardQueueSize <= 0) then 10000 else forwardQueueSize) southbound.

Class Env := {
  env_clock : nat → Z;
  env_ack : nat → option Z;
  env_submit : nat → sub_target → bytes → submit_answer;
  env_post : nat → bool;
  env_iter : nat → gmap bytes conn_ref → list (bytes * conn_ref);
  env_iter_perm : ∀ n m, env_iter n m ≡ₚ map_to_list m
}.

Section gateway.
Context {DB : Type} `{!KV DB} `{!Zone} {PM : Type} `{!PoolView PM} `{!SliceSort} `{!Env}.
Record Router := mkRouter {
  w_tick : nat;   (** clock and environment readings so far *)
  w_server : Server;
  w_store : option (MessageStore (DB := DB));   (** nil without a store *)
  w_pm : option PM;   (** the pool manager, when there is one *)
  w_mtRoutes : MTRouteTable;
  w_moRoutes : MORouteTable;
  w_affinity : ShardMap bytes;   (** MSISDN to connection ID *)
  w_smscCorr : ShardMap correlation;   (** by the SMSC's message ID *)
  w_gwCorr : ShardMap correlation;   (** by the gateway's message ID *)
  w_blacklist : ShardMap unit;
  w_msgSeq : Z;
  w_forwardCh : list forwardTask;
  w_totals : Totals;
  w_events : list event;   (** what left the gateway *)
  w_panicked : bool   (** a handler has panicked: the process is gone *)
}.

Definition set_tick (v : nat) (w : Router) : Router :=
  mkRouter v (w_server w) (w_store w) (w_pm w) (w_mtRoutes w) (w_moRoutes w) (w_affinity w)
    (w_smscCorr w) (w_gwCorr w) (w_blacklist w) (w_msgSeq w) (w_forwardCh w) (w_totals w)
    (w_events w) (w_panicked w).
Definition set_server (v : Server) (w : Router) : Router :=
  mkRouter (w_tick w) v (w_store w) (w_pm w) (w_mtRoutes w) (w_moRoutes w) (w_affinity w)
    (w_smscCorr w) (w_gwCorr w) (w_blacklist w) (w_msgSeq w) (w_forwardCh w) (w_totals w)
    (w_events w) (w_panicked w).
Definition set_store (v : option (MessageStore (DB := DB))) (w : Router) : Router :=
  mkRouter (w_tick w) (w_server w) v (w_pm w) (w_mtRoutes w) (w_moRoutes w) (w_affinity w)
    (w_smscCorr w) (w_gwCorr w) (w_blacklist w) (w_msgSeq w) (w_forwardCh w) (w_totals w)
    (w_events w) (w_panicked w).
Definition set_pm (v : option PM) (w : Router) : Router :=
  mkRouter (w_tick w) (w_server w) (w_store w) v (w_mtRoutes w) (w_moRoutes w) (w_affinity w)
    (w_smscCorr w) (w_gwCorr w) (w_blacklist w) (w_msgSeq w) (w_forwardCh w) (w_totals w)
    (w_events w) (w_panicked w).
Definition set_mtRoutes (v : MTRouteTable) (w : Router) : Router :=
  mkRouter (w_tick w) (w_server w) (w_store w) (w_pm w) v (w_moRoutes w) (w_affinity w)
    (w_smscCorr w) (w_gwCorr w) (w_blacklist w) (w_msgSeq w) (w_forwardCh w) (w_totals w)
    (w_events w) (w_panicked w).
Definition set_moRoutes (v : MORouteTable) (w : Router) : Router :=
  mkRouter (w_tick w) (w_server w) (w_store w) (w_pm w) (w_mtRoutes w) v (w_affinity w)
    (w_smscCorr w) (w_gwCorr w) (w_blacklist w) (w_msgSeq w) (w_forwardCh w) (w_totals w)
    (w_events w) (w_panicked w).
Definition set_affinity (v : ShardMap bytes) (w : Router) : Router :=
  mkRouter (w_tick w) (w_server w) (w_store w) (w_pm w) (w_mtRoutes w) (w_moRoutes w) v
    (w_smscCorr w) (w_gwCorr w) (w_blacklist w) (w_msgSeq w) (w_forwardCh w) (w_totals w)
    (w_events w) (w_panicked w).
Definition set_smscCorr (v : ShardMap correlation) (w : Router) : Router :=
  mkRouter (w_tick w) (w_server w) (w_store w) (w_pm w) (w_mtRoutes w) (w_moRoutes w)
    (w_affinity w) v (w_gwCorr w) (w_blacklist w) (w_msgSeq w) (w_forwardCh w) (w_totals w)
    (w_events w) (w_panicked w).
Definition set_gwCorr (v : ShardMap correlation) (w : Router) : Router :=
  mkRouter (w_tick w) (w_server w) (w_store w) (w_pm w) (w_mtRoutes w) (w_moRoutes w)
    (w_affinity w) (w_smscCorr w) v (w_blacklist w) (w_msgSeq w) (w_forwardCh w) (w_totals w)
    (w_events w) (w_panicked w).
Definition set_blacklist (v : ShardMap unit) (w : Router) : Router :=
  mkRouter (w_tick w) (w_server w) (w_store w) (w_pm w) (w_mtRoutes w) (w_moRoutes w)
    (w_affinity w) (w_smscCorr w) (w_gwCorr w) v (w_msgSeq w) (w_forwardCh w) (w_totals w)
    (w_events w) (w_panicked w).
Definition set_msgSeq (v : Z) (w : Router) : Router :=
  mkRouter (w_tick w) (w_server w) (w_store w) (w_pm w) (w_mtRoutes w) (w_moRoutes w)
    (w_affinity w) (w_smscCorr w) (w_gwCorr w) (w_blacklist w) v (w_forwardCh w) (w_totals w)
    (w_events w) (w_panicked w).
Definition set_forwardCh (v : list forwardTask) (w : Router) : Router :=
  mkRouter (w_tick w) (w_server w) (w_store w) (w_pm w) (w_mtRoutes w) (w_moRoutes w)
    (w_affinity w) (w_smscCorr w) (w_gwCorr w) (w_blacklist w) (w_msgSeq w) v (w_totals w)
    (w_events w) (w_panicked w).
Definition set_totals (v : Totals) (w : Router) : Router :=
  mkRouter (w_tick w) (w_server w) (w_store w) (w_pm w) (w_mtRoutes w) (w_moRoutes w)
    (w_affinity w) (w_smscCorr w) (w_gwCorr w) (w_blacklist w) (w_msgSeq w) (w_forwardCh w) v
    (w_events w) (w_panicked w).
Definition set_events (v : list event) (w : Router) : Router :=
  mkRouter (w_tick w) (w_server w) (w_store w) (w_pm w) (w_mtRoutes w) (w_moRoutes w)
    (w_affinity w) (w_smscCorr w) (w_gwCorr w) (w_blacklist w) (w_msgSeq w) (w_forwardCh w)
    (w_totals w) v (w_panicked w).
Definition set_panicked (v : bool) (w : Router) : Router :=
  mkRouter (w_tick w) (w_server w) (w_store w) (w_pm w) (w_mtRoutes w) (w_moRoutes w)
    (w_affinity w) (w_smscCorr w) (w_gwCorr w) (w_blacklist w) (w_msgSeq w) (w_forwardCh w)
    (w_totals w) (w_events w) v.

Definition NewRouter (store : option (MessageStore (DB := DB))) : Router :=
  mkRouter 0 NewServer store None NewMTRouteTable NewMORouteTable NewShardMap NewShardMap NewShardMap
    NewShardMap 0 [] (mkTotals 0 0 0 0 0) [] false.

(** ** Effects *)

Definition M (A : Type) : Type := Router → A * Router.

#[export] Instance M_ret : MRet M := λ A a w, (a, w).
#[export] Instance M_bind : MBind M := λ A B f m w, let '(a, w) := m w in f a w.

Definition gets {A} (f : Router → A) : M A := λ w, (f w, w).
Definition modify (f : Router → Router) : M unit := λ w, (tt, f w).
Definition run {A} (m : M A) (w : Router) : Router := (m w).2.

(** The number of the next reading. *)
Definition tick : M nat := λ w, (w_tick w, set_tick (S (w_tick w)) w).
Definition Now : M Z := n ← tick; mret (env_clock n).
Definition emit (e : event) : M unit := modify (λ w, set_events (w_events w ++ [e]) w).

(** [if r.store != nil { ... }] *)
Definition store_do (f : MessageStore (DB := DB) → MessageStore (DB := DB)) : M unit :=
  modify (λ w, set_store (f <$> w_store w) w).
Definition has_store : M bool := gets (λ w, bool_decide (is_Some (w_store w))).
Definition store_get {A} (f : MessageStore (DB := DB) → option A) : M (option A) :=
  gets (λ w, w_store w ≫= f).

(** The same where the call reads the clock: the time is read when there is a store. *)
Definition store_at (f : Z → MessageStore (DB := DB) → MessageStore (DB := DB)) : M unit :=
  h ← has_store;
  if h : bool then t ← Now; store_do (f t) else mret tt.

Definition conn_do (r : conn_ref) (f : Connection → Connection) : M unit :=
  modify (λ w, set_server (sv_alter f r (w_server w)) w).

(** [r.msgSeq.Add(1)] *)
Definition next_seq : M Z :=
  modify (λ w, set_msgSeq (u64 (w_msgSeq w + 1)) w);; gets w_msgSeq.

Definition add_totals (submits dlrs mo forwarded throttled : Z) : M unit :=
  modify (λ w, let t := w_totals w in
    set_totals (mkTotals (i64 (tt_submits t + submits)) (i64 (tt_dlrs t + dlrs)) (i64 (tt_mo t + mo))
      (i64 (tt_forwarded t + forwarded)) (i64 (tt_throttled t + throttled))) w).

(** [r.server.DeliverToConn]; true without an error. *)
Definition deliver (isDLR : bool) (connID body : bytes) : M bool :=
  n ← tick;
  sv ← gets w_server;
  let '(res, sv) := DeliverToConn (env_ack n) connID body sv in
  let ok := match res with inl _ => true | inr _ => false end in
  modify (set_server sv);;
  emit (EvDeliver isDLR connID body ok);;
  mret ok.

Definition round_robin : M bytes :=
  n ← tick;
  gets (λ w, RoundRobinConnID (env_iter n (sv_conns (w_server w))) (w_server w)).

Definition mapM_ {A B} (f : A → M B) : list A → M unit :=
  fix go l := match l with [] => mret tt | x :: l => f x;; go l end.

End gateway.

#[global] Arguments Router _ _ : clear implicits.
#[global] Arguments M _ _ _ : clear implicits.

(** ** For the examples: an SMSC that takes everything, and a configuration *)

#[export] Instance ex_env : Env := {|
  env_clock _ := 1700000000 * Second;
  env_ack _ := Some StatusOK;
  env_submit _ _ _ := SubmitOK (str "S1");
  env_post _ := true;
  env_iter _ m := map_to_list m;
  env_iter_perm _ m := Permutation_refl _
|}.

Definition ex_cfg : RouterConfig := NewRouterConfig 30 0 3 0 0 0 true.
