(* ===== verification/Callback.v ===== *)
(** * Callbacks (gateway/callback.go)

    Receipts and MO messages posted to the URLs that REST clients and MO routes give,
    with up to three retries for receipts.  The HTTP request is the environment's
    [env_post]: true for a 2xx answer. *)

From S2P Require Import Prelude Constants Connection ShardMap SliceSort PoolManager.
From S2P Require Import RouteTable Documents Format Store Server Gateway.

Local Open Scope Z_scope.

Section callback.
Context {DB : Type} `{!KV DB} {PM : Type} `{!Env}.
#[local] Abbreviation Act := (M DB PM).

Definition postCallback (url : bytes) (payload : callback_payload) : Act bool :=
  n ← tick;
  emit (EvPost url payload (env_post n));;
  mret (env_post n).

Definition callback_key (gwMsgID : bytes) : bytes := key NsCallback gwMsgID.

Definition callback_retry_key (nextAttempt : Z) (gwMsgID : bytes) : bytes :=
  key NsCallbackRetry (itoa (UnixNano nextAttempt) ++ str ":" ++ gwMsgID).

(** Exponential backoff: 5s, 30s, 180s. *)
Definition callback_delays : list Z := [5 * Second; 30 * Second; 180 * Second].

Definition cb_retry (cb : CallbackRecord) (nextAttempt : Z) : CallbackRecord :=
  mkCallback (cb_GwMsgID cb) (cb_CallbackURL cb) (cb_Reference cb) (i64 (cb_Retries cb + 1)) nextAttempt.

(** A negative count indexes the delays out of range. *)
Definition enqueueCallbackRetry (gwMsgID : bytes) (cb : CallbackRecord) : Act unit :=
  if decide (3 <= cb_Retries cb) then store_do (DeleteKey (callback_key gwMsgID))
  else if decide (cb_Retries cb < 0) then modify (set_panicked true)
  else
    t ← Now;
    let cb := cb_retry cb (t + default 0 (callback_delays !! Z.to_nat (cb_Retries cb))) in
    store_do (SetJSON (callback_retry_key (cb_NextAttempt cb) gwMsgID) (json_callback cb));;
    store_do (SetJSON (callback_key gwMsgID) (json_callback cb)).

Definition get_callback (gwMsgID : bytes) : Act (option CallbackRecord) :=
  store_get (λ s, got_opt (GetJSON un_callback (callback_key gwMsgID) s)).

Definition deliverDLRCallback (gwMsgID status destAddr sourceAddr : bytes) : Act unit :=
  cb ← get_callback gwMsgID;
  match cb with
  | None => mret tt
  | Some cb =>
      t ← Now;
      ok ← postCallback (cb_CallbackURL cb)
        (DLRCallback gwMsgID status destAddr sourceAddr (cb_Reference cb) t);
      if ok : bool then store_do (DeleteKey (callback_key gwMsgID))
      else enqueueCallbackRetry gwMsgID cb
  end.

Definition deliverMOCallback (callbackURL sourceAddr destAddr payload : bytes) : Act unit :=
  t ← Now;
  postCallback callbackURL (MOCallback sourceAddr destAddr payload t);;
  mret tt.

(** The retries that are due, with their keys. *)
Definition due_callbacks (now : Z) (s : MessageStore (DB := DB)) : list (bytes * CallbackRecord) :=
  (ScanPrefix (E := Empty_set) (str "callback-retry:")
     (λ k d acc, match un_callback d with
                 | Some cb => inl (if decide (cb_NextAttempt cb < now) then acc ++ [(k, cb)] else acc)
                 | None => inl acc
                 end) [] s).1.

Definition retry_callback (item : bytes * CallbackRecord) : Act unit :=
  store_do (DeleteKey item.1);;
  cb ← get_callback (cb_GwMsgID item.2);
  match cb with
  | None => mret tt
  | Some cb =>
      t ← Now;
      ok ← postCallback (cb_CallbackURL cb)
        (DLRCallback (cb_GwMsgID cb) (str "DELIVRD") [] [] (cb_Reference cb) t);
      if ok : bool then store_do (DeleteKey (callback_key (cb_GwMsgID cb)))
      else enqueueCallbackRetry (cb_GwMsgID cb) cb
  end.

Definition drainCallbackRetries : Act unit :=
  t ← Now;
  due ← store_get (λ s, Some (due_callbacks t s));
  mapM_ retry_callback (default [] due).

End callback.
