(* ===== verification/Router.v ===== *)
(** * The message router (gateway/router.go)

    Submits from the engines, forwarding to the SMSC, receipts and MO messages back to
    the engines, the two retry queues and the correlations between them.

    [HandleSubmit] and [forwardSubmitRaw] are cut into the parts their early returns
    make; forwardSubmitRaw also where it waits for the SMSC, so that a receipt can come
    in between, and both at the changes of the in-flight counters. *)

From S2P Require Import Prelude Constants Connection ShardMap SliceSort PoolManager.
From S2P Require Import RouteTable Dlr Documents Format Store Server Gateway Callback.

Local Open Scope Z_scope.

Section router.
Context {DB : Type} `{!KV DB} `{!Zone} {PM : Type} `{!PoolView PM} `{!SliceSort} `{!Env}.
Context (cfg : RouterConfig).
#[local] Abbreviation Act := (M DB PM).
#[local] Abbreviation World := (Router DB PM).

(** ** Set-up *)

(** The lines bufio.Scanner yields; one of 64KB or more stops it with an error. *)
Fixpoint scan_lines (s : bytes) (line : bytes) : list bytes :=
  match s with
  | [] => if decide (line = []) then [] else [line]
  | b :: s => if decide (b = 10) then line :: scan_lines s [] else scan_lines s (line ++ [b])
  end.

Definition drop_cr (line : bytes) : bytes := TrimSuffix line [13].

Fixpoint load_lines (lines : list bytes) (count : Z) : Act (Z * bool) :=
  match lines with
  | [] => mret (count, true)
  | line :: lines =>
      if decide (65536 <= zlen line) then mret (count, false)
      else
        let line := TrimSpace (drop_cr line) in
        if decide (line = []) then load_lines lines count
        else if HasPrefix line (str "#") then load_lines lines count
        else
          modify (λ w, set_blacklist (ShardMap_Set (w_blacklist w) line ()) w);;
          load_lines lines (count + 1)
  end.

(** The contents of the file, which is read to its end or to a line too long. *)
Definition LoadBlacklist (file : bytes) : Act (Z * bool) := load_lines (scan_lines file []) 0.

Definition SetMTRoutes (routes : list MTRoute) : Act unit :=
  modify (λ w, set_mtRoutes (foldl (λ t r, MT_AddRoute r t) (w_mtRoutes w) routes) w).
Definition SetMORoutes (routes : list MORoute) : Act unit :=
  modify (λ w, set_moRoutes (foldl (λ t r, MO_AddRoute r t) (w_moRoutes w) routes) w).
Definition SetPoolManager (pm : PM) : Act unit := modify (set_pm (Some pm)).

(** ** Delivering to an engine *)

Definition pending_deliver (connID msisdn body : bytes) (esmClass : Z) (sourceAddr destAddr : bytes)
    (t : Z) : PendingDeliver :=
  mkPendingDeliver connID msisdn body esmClass sourceAddr destAddr t.

Definition buffer_deliver (isDLR : bool) (retryID connID msisdn body : bytes) (esmClass : Z)
    (sourceAddr destAddr : bytes) : Act unit :=
  h ← has_store;
  if h : bool then
    store_at (λ t, EnqueueRetry retryID (pending_deliver connID msisdn body esmClass sourceAddr destAddr t));;
    emit (EvBuffered isDLR connID body)
  else mret tt.

Definition deliverWithGrace (connID body msisdn : bytes) (esmClass : Z)
    (sourceAddr destAddr retryID : bytes) (isDLR : bool) : Act bool :=
  ok ← deliver isDLR connID body;
  if ok : bool then mret true
  else
    disconnectTime ← gets (λ w, DisconnectedAt connID (w_server w));
    t ← Now;
    let withinGrace := match disconnectTime with
                       | Some d => bool_decide (t - d < rc_reconnectGrace cfg)
                       | None => false
                       end in
    if withinGrace : bool then
      buffer_deliver isDLR retryID connID msisdn body esmClass sourceAddr destAddr;; mret false
    else
      fellBack ←
        (if isDLR then mret false
         else
           fallbackID ← round_robin;
           if decide (fallbackID = []) then mret false else deliver false fallbackID body);
      if fellBack : bool then mret true
      else buffer_deliver isDLR retryID connID msisdn body esmClass sourceAddr destAddr;; mret false.

(** ** Failed submits *)

Definition failed_log (e : MessageLogEntry) : MessageLogEntry :=
  mkLogEntry (le_GwMsgID e) (le_SmscMsgID e) (le_ConnID e) (le_SourceAddr e) (le_DestAddr e)
    (str "failed") (str "UNDELIV") (le_Cost e) (le_CreatedAt e) (le_UpdatedAt e).

Definition rest_api : bytes := str "rest-api".

Definition sendSyntheticDLR (connID gwMsgID destAddr sourceAddr : bytes) : Act unit :=
  let receipt := synthetic_receipt gwMsgID in
  emit (EvSynthetic gwMsgID connID);;
  store_at (λ t s, (UpdateMessageLog t gwMsgID failed_log s).1);;
  if decide (connID = rest_api) then
    store_at (λ t, SetMessageStatus
      (mkMessageStatus gwMsgID destAddr sourceAddr [] (str "failed") (str "UNDELIV") [] t));;
    deliverDLRCallback gwMsgID (str "UNDELIV") destAddr sourceAddr;;
    modify (λ w, set_gwCorr (ShardMap_Delete (w_gwCorr w) gwMsgID) w)
  else
    let body := BuildDeliverSMBody sourceAddr destAddr 0x04 receipt in
    deliverWithGrace connID body destAddr 0x04 sourceAddr destAddr (str "synth-" ++ gwMsgID) true;;
    modify (λ w, set_gwCorr (ShardMap_Delete (w_gwCorr w) gwMsgID) w).

Definition enqueueSubmitRetryOrFail (gwMsgID connID destAddr sourceAddr rawBody : bytes) (retryCount : Z) :
    Act unit :=
  h ← has_store;
  if bool_decide (0 < rc_maxSubmitRetries cfg) && bool_decide (retryCount < rc_maxSubmitRetries cfg) && h then
    store_at (λ t, EnqueueSubmitRetry
      (mkPendingSubmit gwMsgID connID destAddr sourceAddr rawBody (retryCount + 1) t))
  else sendSyntheticDLR connID gwMsgID destAddr sourceAddr.

(** ** HandleSubmit *)

Definition log_entry (gwMsgID connID sourceAddr destAddr status : bytes) : MessageLogEntry :=
  mkLogEntry gwMsgID [] connID sourceAddr destAddr status [] (QArith_base.Qmake 0 1) zero_time zero_time.

Definition reject_submit (c : option conn_ref) (connID : bytes) (seqNum status : Z)
    (sourceAddr destAddr : bytes) : Act unit :=
  h ← has_store;
  (if h : bool then
     n ← next_seq;
     store_at (λ t s, (LogMessage t
       (log_entry (str "rejected-" ++ itoa n) connID sourceAddr destAddr (str "rejected")) s).2)
   else mret tt);;
  match c with
  | Some r => conn_do r (SendSubmitSMResp seqNum status [])
  | None => mret tt
  end.

(** What the engine's configuration does to the source address: the body and source to
    go on with, or a rejection. *)
Definition source_policy (cc : option ConnectionConfig) (body sourceAddr : bytes) : option (bytes * bytes) :=
  match cc with
  | None => Some (body, sourceAddr)
  | Some cc =>
      if decide (cc_SourceAddrMode cc = SourceAddrModeOverride) then
        if decide (cc_ForceSourceAddr cc = []) then Some (body, sourceAddr)
        else Some (RewriteSubmitSMSource body (cc_ForceSourceAddr cc) (cc_ForceSourceTON cc) (cc_ForceSourceNPI cc),
                   cc_ForceSourceAddr cc)
      else if decide (cc_SourceAddrMode cc = SourceAddrModeDefault) then
        if decide (sourceAddr = [] ∧ cc_DefaultSourceAddr cc ≠ []) then
          Some (RewriteSubmitSMSource body (cc_DefaultSourceAddr cc) (cc_DefaultSourceTON cc) (cc_DefaultSourceNPI cc),
                cc_DefaultSourceAddr cc)
        else Some (body, sourceAddr)
      else if decide (cc_SourceAddrMode cc = SourceAddrModeWhitelist) then
        if allowed (cc_AllowedSourceAddrs cc) sourceAddr then Some (body, sourceAddr) else None
      else Some (body, sourceAddr)
  end.

Definition blacklisted (w : World) (destAddr : bytes) : bool :=
  bool_decide (destAddr ≠ []) && bool_decide (is_Some (ShardMap_Get (w_blacklist w) destAddr)).

Definition prefix_allowed (cc : option ConnectionConfig) (destAddr : bytes) : bool :=
  match cc with
  | None => true
  | Some cc =>
      bool_decide (cc_AllowedPrefixes cc = []) ||
      existsb (HasPrefix (TrimPrefix destAddr (str "+"))) (cc_AllowedPrefixes cc)
  end.

Definition effective_TPS (cc : option ConnectionConfig) : Z :=
  match cc with
  | Some cc => if decide (0 < cc_MaxTPS cc) then cc_MaxTPS cc else rc_rateLimitTPS cfg
  | None => rc_rateLimitTPS cfg
  end.

(** The rate limit, which records the submit it admits. *)
Definition admit_rate (c : option conn_ref) (cc : option ConnectionConfig) : Act bool :=
  match c with
  | None => mret true
  | Some r =>
      t ← Now;
      cn ← gets (λ w, sv_get (w_server w) r);
      match cn with
      | None => mret true
      | Some cn =>
          let '(cn, ok) := rate_gate (effective_TPS cc) (Z.div t Second) cn in
          conn_do r (λ _, cn);; mret ok
      end
  end.

(** Answered and recorded; the task that is to be queued for forwarding. *)
Definition answer_submit (c : option conn_ref) (connID : bytes) (seqNum : Z)
    (body sourceAddr destAddr : bytes) : Act forwardTask :=
  (if decide (destAddr = []) then mret tt
   else modify (λ w, set_affinity (ShardMap_Set (w_affinity w) destAddr connID) w));;
  n ← next_seq;
  let gwMsgID := str "GW-" ++ itoa n in
  match c with
  | Some r => conn_do r (SendSubmitSMResp seqNum StatusOK gwMsgID)
  | None => mret tt
  end;;
  emit (EvAccepted gwMsgID connID c);;
  add_totals 1 0 0 0 0;;
  t ← Now;
  modify (λ w, set_gwCorr (ShardMap_Set (w_gwCorr w) gwMsgID (mkCorr gwMsgID connID destAddr t)) w);;
  store_at (λ t, StoreSubmit (mkSubmitRecord gwMsgID [] connID seqNum destAddr sourceAddr body t));;
  store_at (λ t s, (LogMessage t (log_entry gwMsgID connID sourceAddr destAddr (str "accepted")) s).2);;
  mret (mkTask c gwMsgID destAddr sourceAddr body).

(** HandleSubmit up to the forward queue: the task, [None] after a rejection. *)
Definition admit_submit (connID : bytes) (seqNum : Z) (body : bytes) : Act (option forwardTask) :=
  let '(sourceAddr, destAddr) := ParseSubmitSMAddresses body in
  c ← gets (λ w, GetConnection connID (w_server w));
  cc ← gets (λ w, r ← c; cn ← sv_get (w_server w) r; cn_connConfig cn);
  match source_policy cc body sourceAddr with
  | None => reject_submit c connID seqNum StatusSubmitFail sourceAddr destAddr;; mret None
  | Some (body, sourceAddr) =>
      blocked ← gets (λ w, blacklisted w destAddr);
      if blocked : bool then reject_submit c connID seqNum StatusSubmitFail sourceAddr destAddr;; mret None
      else if negb (prefix_allowed cc destAddr) then
        reject_submit c connID seqNum StatusSubmitFail sourceAddr destAddr;; mret None
      else
        ok ← admit_rate c cc;
        if negb ok then
          add_totals 0 0 0 0 1;;
          reject_submit c connID seqNum StatusThrottled sourceAddr destAddr;; mret None
        else
          task ← answer_submit c connID seqNum body sourceAddr destAddr;
          mret (Some task)
  end.

Definition inflight_add (c : option conn_ref) (delta : Z) : Act unit :=
  match c with Some r => conn_do r (InFlightAdd delta) | None => mret tt end.

(** The select with a default: false when the queue is full. *)
Definition offer_task (task : forwardTask) : Act bool :=
  queued ← gets (λ w, zlen (w_forwardCh w));
  if decide (queued < rc_queueSize cfg) then
    modify (λ w, set_forwardCh (w_forwardCh w ++ [task]) w);; mret true
  else mret false.

(** What is left of HandleSubmit: the counter, the queue, and when that is full the
    counter again and the retry queue. *)
Definition queue_submit (connID : bytes) (task : forwardTask) : Act unit :=
  inflight_add (ft_conn task) 1;;
  ok ← offer_task task;
  if ok : bool then mret tt
  else
    add_totals 0 0 0 0 1;;
    inflight_add (ft_conn task) (-1);;
    enqueueSubmitRetryOrFail (ft_gwMsgID task) connID (ft_destAddr task) (ft_sourceAddr task) (ft_rawBody task) 0.

Definition HandleSubmit (connID : bytes) (seqNum : Z) (body : bytes) : Act unit :=
  task ← admit_submit connID seqNum body;
  match task with
  | Some task => queue_submit connID task
  | None => mret tt
  end.

(** ** Forwarding *)

(** The route table first, then the fallback pool. *)
Definition resolve_submitter (destAddr : bytes) : Act (option sub_target) :=
  pm ← gets w_pm;
  routed ←
    match pm with
    | None => mret None
    | Some pm =>
        t ← gets w_mtRoutes;
        let '(t, res) := MT_Resolve pm destAddr t in
        modify (set_mtRoutes t);;
        match res with
        | Ret (r, _) => mret (Some (SubRoute r))
        | Fail _ => mret None
        | Panic => modify (set_panicked true);; mret None
        end
    end;
  match routed with
  | Some s => mret (Some s)
  | None => mret (if rc_southbound cfg then Some SubSouthbound else None)
  end.

(** The submit itself; [None] when there is nothing to submit to. *)
Definition submit_to_smsc (gwMsgID destAddr rawBody : bytes) : Act (option submit_answer) :=
  sub ← resolve_submitter destAddr;
  match sub with
  | None => mret None
  | Some s =>
      n ← tick;
      let a := env_submit n s rawBody in
      emit (EvSubmit gwMsgID s rawBody a);;
      mret (Some a)
  end.

Definition forwarded_log (smscMsgID : bytes) (e : MessageLogEntry) : MessageLogEntry :=
  mkLogEntry (le_GwMsgID e) smscMsgID (le_ConnID e) (le_SourceAddr e) (le_DestAddr e)
    (str "forwarded") (le_DLRStatus e) (le_Cost e) (le_CreatedAt e) (le_UpdatedAt e).

(** What a successful submit leaves behind, the same for a first try and a retry. *)
Definition record_forwarded (corr : correlation) (smscMsgID gwMsgID connID destAddr sourceAddr rawBody : bytes) :
    Act unit :=
  modify (λ w, set_smscCorr (ShardMap_Set (w_smscCorr w) smscMsgID corr) w);;
  store_do (StoreSubmit (mkSubmitRecord gwMsgID smscMsgID connID 0 destAddr sourceAddr rawBody (co_SubmittedAt corr)));;
  store_do (DeleteSubmitByGwID gwMsgID);;
  (if decide (connID = rest_api) then
     store_at (λ t, SetMessageStatus
       (mkMessageStatus gwMsgID destAddr sourceAddr [] (str "forwarded") [] smscMsgID t))
   else mret tt);;
  store_at (λ t s, (UpdateMessageLog t gwMsgID (forwarded_log smscMsgID) s).1);;
  add_totals 0 0 0 1 0.

(** What forwardSubmitRaw does with the answer. *)
Definition forward_finish (connID gwMsgID destAddr sourceAddr rawBody : bytes) (a : option submit_answer) :
    Act unit :=
  match a with
  | Some (SubmitOK smscMsgID) =>
      found ← gets (λ w, ShardMap_Get (w_gwCorr w) gwMsgID);
      corr ← match found with
             | Some corr => mret corr
             | None => t ← Now; mret (mkCorr gwMsgID connID destAddr t)
             end;
      record_forwarded corr smscMsgID gwMsgID connID destAddr sourceAddr rawBody
  | _ => enqueueSubmitRetryOrFail gwMsgID connID destAddr sourceAddr rawBody 0
  end.

(** The rest of forwardSubmitRaw, with the deferred decrement. *)
Definition forward_done (c : option conn_ref) (connID gwMsgID destAddr sourceAddr rawBody : bytes)
    (a : option submit_answer) : Act unit :=
  forward_finish connID gwMsgID destAddr sourceAddr rawBody a;;
  inflight_add c (-1).

Definition conn_id (c : option conn_ref) (w : World) : bytes :=
  match c ≫= sv_get (w_server w) with Some cn => cn_ID cn | None => [] end.

Definition forwardSubmitRaw (c : option conn_ref) (gwMsgID destAddr sourceAddr rawBody : bytes) : Act unit :=
  connID ← gets (conn_id c);
  a ← submit_to_smsc gwMsgID destAddr rawBody;
  forward_done c connID gwMsgID destAddr sourceAddr rawBody a.

(** One task of a worker. *)
Definition forwardWorker : Act unit :=
  ch ← gets w_forwardCh;
  match ch with
  | [] => mret tt
  | task :: ch =>
      modify (set_forwardCh ch);;
      forwardSubmitRaw (ft_conn task) (ft_gwMsgID task) (ft_destAddr task) (ft_sourceAddr task) (ft_rawBody task)
  end.

(** ** Receipts and MO messages *)

Definition dlr_log (status : bytes) (e : MessageLogEntry) : MessageLogEntry :=
  mkLogEntry (le_GwMsgID e) (le_SmscMsgID e) (le_ConnID e) (le_SourceAddr e) (le_DestAddr e)
    (if decide (status = str "DELIVRD") then str "delivered" else str "failed") status
    (le_Cost e) (le_CreatedAt e) (le_UpdatedAt e).

(** The correlation of a receipt, from memory or, after a restart, from the store. *)
Definition lookup_correlation (smscMsgID : bytes) : Act (option correlation) :=
  corr ← gets (λ w, ShardMap_Get (w_smscCorr w) smscMsgID);
  match corr with
  | Some corr => mret (Some corr)
  | None =>
      record ← store_get (λ s, got_opt (GetSubmit smscMsgID s));
      mret ((λ r, mkCorr (sr_GwMsgID r) (sr_NorthConnID r) (sr_MSISDN r) zero_time) <$> record)
  end.

Definition forget_correlation (smscMsgID gwMsgID : bytes) : Act unit :=
  modify (λ w, set_smscCorr (ShardMap_Delete (w_smscCorr w) smscMsgID) w);;
  modify (λ w, set_gwCorr (ShardMap_Delete (w_gwCorr w) gwMsgID) w);;
  store_do (DeleteSubmit smscMsgID).

Definition handleDLR (sourceAddr destAddr : bytes) (esmClass : Z) (payload : bytes) : Act unit :=
  add_totals 0 1 0 0 0;;
  match ParseDLRReceipt payload with
  | None => mret tt
  | Some receipt =>
      found ← lookup_correlation (dlr_MessageID receipt);
      match found with
      | None => mret tt
      | Some corr =>
          let translatedPayload := translateDLRMessageID payload (dlr_MessageID receipt) (co_GwMsgID corr) in
          let body := BuildDeliverSMBody sourceAddr destAddr esmClass translatedPayload in
          let connID := co_NorthConnID corr in
          store_at (λ t s, (UpdateMessageLog t (co_GwMsgID corr) (dlr_log (dlr_Status receipt)) s).1);;
          if decide (connID = rest_api) then
            deliverDLRCallback (co_GwMsgID corr) (dlr_Status receipt) destAddr sourceAddr;;
            store_at (λ t, SetMessageStatus
              (mkMessageStatus (co_GwMsgID corr) (co_MSISDN corr) [] [] (str "delivered") (dlr_Status receipt) [] t));;
            forget_correlation (dlr_MessageID receipt) (co_GwMsgID corr)
          else
            delivered ← deliverWithGrace connID body (co_MSISDN corr) esmClass sourceAddr destAddr (co_GwMsgID corr) true;
            if delivered : bool then
              forget_correlation (dlr_MessageID receipt) (co_GwMsgID corr);;
              deliverDLRCallback (co_GwMsgID corr) (dlr_Status receipt) destAddr sourceAddr
            else mret tt
      end
  end.

Definition mo_id : Act bytes := t ← Now; mret (str "mo-" ++ itoa (UnixNano t)).

Definition deliver_mo (connID sourceAddr destAddr : bytes) (esmClass : Z) (payload : bytes) : Act unit :=
  let body := BuildDeliverSMBody sourceAddr destAddr esmClass payload in
  id ← mo_id;
  deliverWithGrace connID body sourceAddr esmClass sourceAddr destAddr id false;;
  mret tt.

(** By affinity, else to any engine; with no engine the message waits. *)
Definition mo_fallback (sourceAddr destAddr : bytes) (esmClass : Z) (payload : bytes) : Act unit :=
  affinity ← gets (λ w, ShardMap_Get (w_affinity w) sourceAddr);
  match affinity with
  | Some connID => deliver_mo connID sourceAddr destAddr esmClass payload
  | None =>
      connID ← round_robin;
      if decide (connID = []) then
        h ← has_store;
        if h : bool then
          id ← mo_id;
          buffer_deliver false id [] sourceAddr (BuildDeliverSMBody sourceAddr destAddr esmClass payload) esmClass
            sourceAddr destAddr
        else mret tt
      else deliver_mo connID sourceAddr destAddr esmClass payload
  end.

Definition handleMO (sourceAddr destAddr : bytes) (esmClass : Z) (payload : bytes) : Act unit :=
  add_totals 0 0 1 0 0;;
  target ← gets (λ w, MO_Resolve sourceAddr destAddr (w_moRoutes w));
  match target with
  | Some target =>
      if decide (mot_Type target = str "http") then
        deliverMOCallback (mot_CallbackURL target) sourceAddr destAddr payload
      else if decide (mot_Type target = str "smpp" ∧ mot_ConnID target ≠ []) then
        deliver_mo (mot_ConnID target) sourceAddr destAddr esmClass payload
      else mo_fallback sourceAddr destAddr esmClass payload
  | None => mo_fallback sourceAddr destAddr esmClass payload
  end.

(** Always acknowledged: there is no error to return. *)
Definition HandleDeliver (sourceAddr destAddr : bytes) (esmClass : Z) (payload : bytes) : Act unit :=
  if IsDLR esmClass then handleDLR sourceAddr destAddr esmClass payload
  else handleMO sourceAddr destAddr esmClass payload.

(** ** The retry loops, one tick each *)

Definition requeue (p : PendingDeliver) : Act unit :=
  store_at (λ t, EnqueueRetry (str "retry-" ++ itoa (UnixNano t)) p);;
  emit (EvBuffered (IsDLR (pd_ESMClass p)) (pd_TargetConnID p) (pd_PDUBody p)).

Definition retry_deliver (p : PendingDeliver) : Act unit :=
  let isDLR := IsDLR (pd_ESMClass p) in
  known ← gets (λ w, GetConnection (pd_TargetConnID p) (w_server w));
  if decide (pd_TargetConnID p = [] ∨ known = None) then
    if isDLR : bool then requeue p
    else
      connID ← round_robin;
      if decide (connID = []) then requeue p
      else
        ok ← deliver isDLR connID (pd_PDUBody p);
        if ok : bool then mret tt else requeue p
  else
    ok ← deliver isDLR (pd_TargetConnID p) (pd_PDUBody p);
    if ok : bool then mret tt else requeue p.

Definition drainRetries (maxAge : Z) : Act unit :=
  h ← has_store;
  if h : bool then
    now ← Now; now' ← Now;
    pending ← gets (λ w, default [] (s ← w_store w; Some (DrainRetries now now' maxAge (rc_retryDrainLimit cfg) s).1));
    store_do (λ s, (DrainRetries now now' maxAge (rc_retryDrainLimit cfg) s).2);;
    mapM_ retry_deliver pending
  else mret tt.

(** What a retry does with the answer. *)
Definition retry_finish (p : PendingSubmit) (a : option submit_answer) : Act unit :=
  match a with
  | Some (SubmitOK smscMsgID) =>
      t ← Now;
      record_forwarded (mkCorr (ps_GwMsgID p) (ps_ConnID p) (ps_MSISDN p) t) smscMsgID (ps_GwMsgID p) (ps_ConnID p)
        (ps_MSISDN p) (ps_SourceAddr p) (ps_RawBody p)
  | _ => enqueueSubmitRetryOrFail (ps_GwMsgID p) (ps_ConnID p) (ps_MSISDN p) (ps_SourceAddr p) (ps_RawBody p)
           (ps_RetryCount p)
  end.

Definition retry_submit (p : PendingSubmit) : Act unit :=
  a ← submit_to_smsc (ps_GwMsgID p) (ps_MSISDN p) (ps_RawBody p);
  retry_finish p a.

Definition drainSubmitRetries : Act unit :=
  pending ← gets (λ w, default [] (s ← w_store w; Some (DrainSubmitRetries (rc_submitRetryDrainLimit cfg) s).1));
  store_do (λ s, (DrainSubmitRetries (rc_submitRetryDrainLimit cfg) s).2);;
  mapM_ retry_submit pending.

(** ** Expiry of correlations, one tick *)

Definition expired_keys (cutoff : Z) (m : ShardMap correlation) : list bytes :=
  ShardMap_Range (map_to_list <$> sm_shards m)
    (λ acc k c, (if decide (co_SubmittedAt c < cutoff) then acc ++ [k] else acc, true)) [].

Definition cleanup_map (cutoff : Z) (m : ShardMap correlation) : ShardMap correlation :=
  foldl ShardMap_Delete m (expired_keys cutoff m).

Definition CleanupCorrelations (maxAge : Z) : Act unit :=
  t ← Now;
  modify (λ w, set_smscCorr (cleanup_map (t - maxAge) (w_smscCorr w)) w);;
  modify (λ w, set_gwCorr (cleanup_map (t - maxAge) (w_gwCorr w)) w).

(** ** Readings for the dashboard *)

Definition AffinitySize (w : World) : Z := ShardMap_Len (w_affinity w).
Definition CorrelationSize (w : World) : Z := ShardMap_Len (w_smscCorr w).
Definition SubmitRetryCount (w : World) : Z :=
  match w_store w with Some s => PendingSubmitRetryCount s | None => 0 end.
Definition TotalSubmits (w : World) : Z := tt_submits (w_totals w).
Definition TotalDLRs (w : World) : Z := tt_dlrs (w_totals w).
Definition TotalMO (w : World) : Z := tt_mo (w_totals w).
Definition TotalForwarded (w : World) : Z := tt_forwarded (w_totals w).
Definition TotalThrottled (w : World) : Z := tt_throttled (w_totals w).

End router.
