(* ===== verification/RouterInv.v ===== *)
(** * The router's invariant

    What holds between the handlers of [Router], whatever the environment answers and
    in whatever order the handlers run: who a message belongs to, that an accepted
    message is somewhere until its fate is known, and that retries are bounded.

    The handlers are treated one at a time, with a small Hoare logic for the state
    monad of [Gateway] in which the recorded events are facts that stay true. *)

From S2P Require Import Prelude Constants Utf8 Pdu Connection ShardMap SliceSort.
From S2P Require Import PoolManager RouteTable Dlr Documents Format Store Server Gateway.
From S2P Require Import Callback Router.

Local Open Scope Z_scope.

(** ** Hoare triples *)

Section hoare.
Context {DB PM : Type}.
#[local] Abbreviation World := (Router DB PM).
#[local] Abbreviation Act := (M DB PM).

Definition hoare {A} (P : World → Prop) (m : Act A) (Q : A → World → Prop) : Prop :=
  ∀ w, P w → Q (m w).1 (m w).2.

Lemma hoare_ret {A} (a : A) (P : A → World → Prop) : hoare (P a) (mret a) P.
Proof. by intros w Hw. Qed.

Lemma hoare_bind {A B} P (m : Act A) R (f : A → Act B) Q :
  hoare P m R → (∀ a, hoare (R a) (f a) Q) → hoare P (m ≫= f) Q.
Proof.
  intros Hm Hf w Hw. unfold mbind, M_bind. specialize (Hm w Hw). destruct (m w) as [a w']. by apply Hf.
Qed.

Lemma hoare_conseq {A} P P' (m : Act A) Q Q' :
  hoare P' m Q' → (∀ w, P w → P' w) → (∀ a w, Q' a w → Q a w) → hoare P m Q.
Proof. intros Hm HP HQ w Hw. by apply HQ, Hm, HP. Qed.

Lemma hoare_gets {A} (f : World → A) (P : World → Prop) : hoare P (gets f) (λ a w, P w ∧ a = f w).
Proof. by intros w Hw. Qed.

Lemma hoare_modify (f : World → World) (P Q : World → Prop) :
  (∀ w, P w → Q (f w)) → hoare P (modify f) (λ _, Q).
Proof. intros Hf w Hw. by apply Hf. Qed.

Lemma hoare_ex {A X} (P : X → World → Prop) (m : Act A) Q :
  (∀ x, hoare (P x) m Q) → hoare (λ w, ∃ x, P x w) m Q.
Proof. intros Hm w [x Hw]. by apply (Hm x). Qed.

Lemma hoare_pure {A} (φ : Prop) (P : World → Prop) (m : Act A) Q :
  (φ → hoare P m Q) → hoare (λ w, P w ∧ φ) m Q.
Proof. intros Hm w [Hw Hφ]. by apply Hm. Qed.

Lemma hoare_mapM {A B} (f : A → Act B) (l : list A) (I : list A → World → Prop) :
  (∀ x l, hoare (I (x :: l)) (f x) (λ _, I l)) → hoare (I l) (mapM_ f l) (λ _, I []).
Proof.
  intros Hf. induction l as [|x l IH]; [apply (hoare_ret tt (λ _, I []))|].
  change (mapM_ f (x :: l)) with (f x ≫= λ _, mapM_ f l). apply hoare_bind with (λ _, I l); [apply Hf|done].
Qed.
End hoare.

(** Sequencing a triple whose first part keeps the invariant that is at hand. *)
Ltac hstep :=
  eapply hoare_bind; [|let a := fresh "a" in intros a; cbv beta; try (match type of a with unit => destruct a end)].

(** ** IDs *)

Definition gw_id (n : Z) : bytes := str "GW-" ++ itoa n.

Lemma gw_id_clean n : 0 <= n → clean_id (gw_id n) ∧ 58 ∉ gw_id n.
Proof.
  intros Hn. destruct (itoa_digits n Hn) as [_ Hd]. unfold gw_id, clean_id.
  assert (Forall (λ b, 33 <= b < 127 ∧ b ≠ 58) (str "GW-" ++ itoa n)) as Ha.
  { apply Forall_app. split.
    - change (str "GW-") with [71; 87; 45]. repeat constructor; lia.
    - eapply Forall_impl; [exact Hd|]. simpl. intros b ?. lia. }
  split.
  - split; [done|]. eapply Forall_impl; [exact Ha|]. simpl. intros. lia.
  - intros Hin. rewrite Forall_forall in Ha. by destruct (Ha _ Hin).
Qed.

Lemma json_string_gw n : 0 <= n → json_string (gw_id n) = gw_id n.
Proof.
  intros Hn. apply json_string_ascii. destruct (gw_id_clean n Hn) as [[_ Hc] _].
  eapply Forall_impl; [exact Hc|]. simpl. unfold ascii. lia.
Qed.

Lemma gw_id_inj n m : gw_id n = gw_id m → n = m.
Proof. intros He%app_inv_head. by apply (inj itoa). Qed.

(** ** The invariant *)

Section inv.
Context {DB : Type} `{!KV DB, !KVLaws DB} `{!Zone} {PM : Type} `{!PoolView PM} `{!SliceSort} `{!Env}.
Context (cfg : RouterConfig).
#[local] Abbreviation World := (Router DB PM).
#[local] Abbreviation Act := (M DB PM).

(** The clock reads times after 1970 that fit 64 bits of nanoseconds. *)
Context (clock_ok : ∀ n, 0 <= env_clock n < 2 ^ 63).

(** Whether sessions keep their IDs: a session that is in the registry, or whose message
    is on its way to the forward queue or in it, does not bind under another system ID
    (see [steady_step] in [RouterRun]).  Where a statement is about the owner of a
    message, it is about such runs; the rest of the invariant holds in all. *)
Context (steady : Prop).

(** [gw] was given to a submit of connection [c], by its session [r] when it had one. *)
Definition owner (w : World) (gw c : bytes) (r : option conn_ref) : Prop := EvAccepted gw c r ∈ w_events w.

(** [gw] was given, and [c] is the connection that submitted it; or no connection, when
    it was submitted without a session: over HTTP, or when the session had just gone. *)
Definition owned (w : World) (gw c : bytes) : Prop :=
  ∃ c0 r, owner w gw c0 r ∧ (steady → c = c0 ∨ (c = [] ∧ r = None)).

(** A deliver_sm body with a receipt for a message of [c]. *)
Definition dlr_body (w : World) (c body : bytes) : Prop :=
  ∃ gw src dst esm text, owned w gw c ∧ body = BuildDeliverSMBody src dst esm text ∧
    (text = synthetic_receipt gw ∨
     ∃ payload r, ParseDLRReceipt payload = Some r ∧
       text = translateDLRMessageID payload (dlr_MessageID r) gw).

Definition doc_owned (w : World) (v : doc) : Prop :=
  match v with
  | DSubmit r => owned w (sr_GwMsgID r) (sr_NorthConnID r)
  | DPendingSubmit p => owned w (ps_GwMsgID p) (ps_ConnID p) ∧ 1 <= ps_RetryCount p <= rc_maxSubmitRetries cfg
  | DPendingDeliver p => IsDLR (pd_ESMClass p) = true → dlr_body w (pd_TargetConnID p) (pd_PDUBody p)
  | _ => True
  end.

Definition event_owned (w : World) (e : event) : Prop :=
  match e with
  | EvSubmit gw _ _ _ => ∃ c r, owner w gw c r
  | EvDeliver true c body _ => dlr_body w c body
  | EvBuffered true c body => dlr_body w c body
  | EvSynthetic gw c => owned w gw c
  | _ => True
  end.

(** Where an accepted message is: queued for forwarding or for a retry, forwarded, or
    reported as failed. *)
Definition live (w : World) (gw : bytes) : Prop :=
  (∃ t, t ∈ w_forwardCh w ∧ ft_gwMsgID t = gw) ∨
  (∃ s x p, w_store w = Some s ∧ kv_get (st_db s) (key NsSubmitRetry x) = Some (DPendingSubmit p) ∧
     ps_GwMsgID p = gw) ∨
  (∃ s body id, EvSubmit gw s body (SubmitOK id) ∈ w_events w) ∨
  (∃ c, EvSynthetic gw c ∈ w_events w).

Definition accepted_id (e : event) : option bytes := match e with EvAccepted gw _ _ => Some gw | _ => None end.

(** A registered session is bound, under the ID it is registered for. *)
Definition named (sv : Server) : Prop :=
  ∀ id r, sv_conns sv !! id = Some r → ∃ c, sv_get sv r = Some c ∧ cn_bound c = true ∧ cn_ID c = id.

(** A task is for a message of its session. *)
Definition task_ok (w : World) (t : forwardTask) : Prop := owned w (ft_gwMsgID t) (conn_id (ft_conn t) w).

(** [X] are the messages a handler has in its hands. *)
Record inv (X : list bytes) (w : World) : Prop := {
  i_seq : 0 <= w_msgSeq w < 2 ^ 64;
  i_ids : ∀ gw c r, owner w gw c r → json_string c = c ∧ ∃ n, gw = gw_id n ∧ 0 < n <= w_msgSeq w;
  i_nodup : NoDup (omap accepted_id (w_events w));
  i_reg : steady → named (w_server w);
  i_maps : sm_ok (w_smscCorr w) ∧ sm_ok (w_gwCorr w);
  i_smsc : ∀ id co, ShardMap_Get (w_smscCorr w) id = Some co → owned w (co_GwMsgID co) (co_NorthConnID co);
  i_gw : ∀ id co, ShardMap_Get (w_gwCorr w) id = Some co → co_GwMsgID co = id ∧ ∃ r, owner w id (co_NorthConnID co) r;
  i_tasks : ∀ t, t ∈ w_forwardCh w → task_ok w t;
  i_store : ∃ s, w_store w = Some s ∧ store_typed s ∧ ∀ k v, holds s k v → doc_owned w v;
  i_events : ∀ e, e ∈ w_events w → event_owned w e;
  i_live : ∀ gw c r, owner w gw c r → gw ∈ X ∨ live w gw
}.

(** The invariant and events that have happened. *)
Definition I (X : list bytes) (F : list event) (w : World) : Prop :=
  inv X w ∧ ∀ e, e ∈ F → e ∈ w_events w.

Lemma owned_mono (w w' : World) gw c : w_events w ⊆ w_events w' → owned w gw c → owned w' gw c.
Proof. intros He (c0 & r & Ho & Hc). exists c0, r. split; [by apply He|done]. Qed.

Lemma dlr_body_mono (w w' : World) c body : w_events w ⊆ w_events w' → dlr_body w c body → dlr_body w' c body.
Proof. intros He (gw & src & dst & esm & text & Ho & Hb). eexists _, _, _, _, _. split; [by eapply owned_mono|exact Hb]. Qed.

Lemma doc_owned_mono (w w' : World) v : w_events w ⊆ w_events w' → doc_owned w v → doc_owned w' v.
Proof.
  intros He. destruct v; simpl; try done.
  - by apply owned_mono.
  - intros Hd Hesm. by eapply dlr_body_mono, Hd.
  - intros [Ho Hr]. split; [by eapply owned_mono|done].
Qed.

Lemma event_owned_mono (w w' : World) e : w_events w ⊆ w_events w' → event_owned w e → event_owned w' e.
Proof.
  intros He. destruct e as [gw c r|gw s b a|[] c b a|[] c b|gw c|u p ok]; simpl; try done.
  - intros (c & r & Hc). exists c, r. by apply He.
  - by apply dlr_body_mono.
  - by apply dlr_body_mono.
  - by apply owned_mono.
Qed.

(** *** Changes the invariant does not see *)

Lemma gateway_inv_same X (w w' : World) :
  w_msgSeq w' = w_msgSeq w → w_events w' = w_events w → w_server w' = w_server w →
  w_smscCorr w' = w_smscCorr w → w_gwCorr w' = w_gwCorr w → w_forwardCh w' = w_forwardCh w →
  w_store w' = w_store w → inv X w → inv X w'.
Proof.
  destruct w, w'. simpl. intros -> -> -> -> -> -> -> [? ? ? ? ? ? ? ? ? ? ?]. by split.
Qed.

Lemma h_same {A} (f : World → World) (a : A) X F :
  (∀ w, w_msgSeq (f w) = w_msgSeq w ∧ w_events (f w) = w_events w ∧ w_server (f w) = w_server w ∧
     w_smscCorr (f w) = w_smscCorr w ∧ w_gwCorr (f w) = w_gwCorr w ∧ w_forwardCh (f w) = w_forwardCh w ∧
     w_store (f w) = w_store w) →
  hoare (I X F) (λ w, (a, f w)) (λ _, I X F).
Proof.
  intros Hf w [Hi HF]. destruct (Hf w) as (E1 & E2 & E3 & E4 & E5 & E6 & E7). split.
  - by apply (gateway_inv_same X w).
  - intros e. cbn [fst snd]. rewrite E2. apply HF.
Qed.

Lemma h_modify_same (f : World → World) X F :
  (∀ w, w_msgSeq (f w) = w_msgSeq w ∧ w_events (f w) = w_events w ∧ w_server (f w) = w_server w ∧
     w_smscCorr (f w) = w_smscCorr w ∧ w_gwCorr (f w) = w_gwCorr w ∧ w_forwardCh (f w) = w_forwardCh w ∧
     w_store (f w) = w_store w) →
  hoare (I X F) (modify f) (λ _, I X F).
Proof. apply (h_same f tt). Qed.

Lemma h_tick X F : hoare (I X F) (tick (DB := DB) (PM := PM)) (λ _, I X F).
Proof. intros w [Hi HF]. split; [by apply (gateway_inv_same X w)|exact HF]. Qed.

Lemma h_now X F : hoare (I X F) Now (λ t w, I X F w ∧ 0 <= t < 2 ^ 63).
Proof.
  unfold Now. hstep; [apply h_tick|]. intros w Hw. split; [exact Hw|apply clock_ok].
Qed.

Lemma h_Now X F : hoare (I X F) Now (λ _, I X F).
Proof. intros w Hw. by apply (h_now X F w). Qed.

Lemma h_ret {A} (a : A) X F : hoare (I X F) (mret a) (λ _, I X F).
Proof. by intros w Hw. Qed.

Lemma h_add_totals a b c d e X F : hoare (I X F) (add_totals a b c d e) (λ _, I X F).
Proof. by apply h_modify_same. Qed.

Lemma h_round_robin X F : hoare (I X F) round_robin (λ _, I X F).
Proof. unfold round_robin. hstep; [apply h_tick|]. by intros w Hw. Qed.

(** A reading, forgotten. *)
Lemma h_gets {A} (f : World → A) X F : hoare (I X F) (gets f) (λ _, I X F).
Proof. by intros w Hw. Qed.

(** *** Sessions *)

Lemma conn_id_alter f r (c : option conn_ref) (w : World) :
  keeps_identity f → conn_id c (set_server (sv_alter f r (w_server w)) w) = conn_id c w.
Proof.
  intros Hf. unfold conn_id. destruct c as [r'|]; [|done]. cbn [mbind option_bind]. cbn [w_server set_server].
  rewrite sv_get_alter. case_decide; [|done]. destruct (sv_get (w_server w) r') as [cn|]; [|done].
  simpl. by destruct (Hf cn) as (-> & _).
Qed.

(** A server whose sessions keep their IDs is as good. *)
Lemma inv_server X (w : World) sv :
  (steady → named sv ∧ ∀ t, t ∈ w_forwardCh w → conn_id (ft_conn t) (set_server sv w) = conn_id (ft_conn t) w) →
  inv X w → inv X (set_server sv w).
Proof.
  intros Hs Hi. destruct Hi. split; try done; [by intros Hst; apply Hs|].
  intros t Ht. destruct (i_tasks0 t Ht) as (c0 & r & Ho & Hc). exists c0, r. split; [done|].
  intros Hst. rewrite (proj2 (Hs Hst) t Ht). by apply Hc.
Qed.

Lemma named_alter f r sv : keeps_identity f → named sv → named (sv_alter f r sv).
Proof.
  intros Hf Hn id r' Hid. destruct (Hn id r' Hid) as (c & Hc & Hb & Hi). rewrite sv_get_alter, Hc.
  case_decide; simpl; [|by eauto]. destruct (Hf c) as (E1 & _ & E3). eexists. split; [done|]. by rewrite E1, E3.
Qed.

Lemma inv_alter X (w : World) f r : keeps_identity f → inv X w → inv X (set_server (sv_alter f r (w_server w)) w).
Proof.
  intros Hf Hi. apply inv_server; [|done]. intros Hst. split; [by apply named_alter, (i_reg _ _ Hi)|].
  intros t _. by apply conn_id_alter.
Qed.

Lemma h_conn_do r f X F : keeps_identity f → hoare (I X F) (conn_do r f) (λ _, I X F).
Proof. intros Hf w [Hi HF]. split; [by apply inv_alter|exact HF]. Qed.

Lemma sendResponse_keeps cmdID status seqNum body : keeps_identity (sendResponse cmdID status seqNum body).
Proof. intros c. unfold sendResponse, WritePDU. by destruct (cn_open c). Qed.

Lemma delivered_keeps ack body c : 
  cn_ID (delivered_conn ack body c) = cn_ID c ∧ cn_SystemID (delivered_conn ack body c) = cn_SystemID c ∧
  cn_bound (delivered_conn ack body c) = cn_bound c.
Proof. unfold delivered_conn. by destruct (cn_open c). Qed.

(** *** Events *)

Lemma live_emit (w : World) e gw : live w gw → live (set_events (w_events w ++ [e]) w) gw.
Proof.
  intros [Hl|[Hl|[(s & b & id & Hl)|(c & Hl)]]]; [by left|by right; left| |]; right; right; [left|right];
    repeat eexists; cbn; apply elem_of_app; by left.
Qed.

Lemma inv_events X (w : World) e :
  (∀ gw c r, e = EvAccepted gw c r →
     json_string c = c ∧ (∃ n, gw = gw_id n ∧ 0 < n <= w_msgSeq w) ∧ (gw ∉ omap accepted_id (w_events w)) ∧ gw ∈ X) →
  event_owned (set_events (w_events w ++ [e]) w) e →
  inv X w → inv X (set_events (w_events w ++ [e]) w).
Proof.
  intros Ha He Hi. assert (w_events w ⊆ w_events (set_events (w_events w ++ [e]) w)) as Hsub.
  { intros e' Hin. cbn. apply elem_of_app. by left. }
  assert (∀ gw c r, owner (set_events (w_events w ++ [e]) w) gw c r → owner w gw c r ∨ e = EvAccepted gw c r) as Hown.
  { intros gw c r [Hin|Hin]%elem_of_app; [by left|right; by apply list_elem_of_singleton in Hin]. }
  destruct Hi. split; try done.
  - intros gw c r [Ho|Ho]%Hown; [by apply (i_ids0 _ _ r)|]. destruct (Ha gw c r Ho) as (? & ? & _). done.
  - cbn [w_events set_events]. rewrite omap_app. destruct e as [gw c r|gw s b a|d c b a|d c b|gw c|u p ok]; simpl;
      rewrite ?app_nil_r; try done. apply NoDup_app. split; [done|]. split; [|apply NoDup_singleton].
    intros x Hx ->%list_elem_of_singleton. by destruct (Ha gw c r eq_refl) as (_ & _ & Hn & _).
  - intros id co Hco. eapply owned_mono; [exact Hsub|by eapply i_smsc0].
  - intros id co Hco. destruct (i_gw0 id co Hco) as [? [r Ho]]. split; [done|exists r; by apply Hsub].
  - intros t Ht. eapply owned_mono; [exact Hsub|by apply i_tasks0].
  - destruct i_store0 as (s & Hs & Ht & Hd). exists s. split; [done|]. split; [done|].
    intros k v Hk. eapply doc_owned_mono; [exact Hsub|by eapply Hd].
  - intros e' [Hin|Hin]%elem_of_app; [eapply event_owned_mono; [exact Hsub|by apply i_events0]|].
    by apply list_elem_of_singleton in Hin as ->.
  - intros gw c r [Ho|Ho]%Hown.
    + destruct (i_live0 gw c r Ho) as [?|Hl]; [by left|right; by apply live_emit].
    + left. by destruct (Ha gw c r Ho) as (_ & _ & _ & ?).
Qed.

Lemma h_emit e X F :
  (∀ gw c r, e ≠ EvAccepted gw c r) → (∀ w, I X F w → event_owned w e) →
  hoare (I X F) (emit e) (λ _, I X (e :: F)).
Proof.
  intros Hne He w Hw. pose proof (He w Hw) as Hew. destruct Hw as [Hi HF]. split.
  - apply inv_events; [intros gw c r E; by destruct (Hne gw c r)| |done]. eapply event_owned_mono; [|exact Hew].
    intros e' Hin. cbn. apply elem_of_app. by left.
  - intros e' [->|Hin]%elem_of_cons; apply elem_of_app.
    + right. by apply list_elem_of_singleton.
    + left. by apply HF.
Qed.

Lemma inv_sub X X' (w : World) : inv X w → X ⊆ X' → inv X' w.
Proof.
  intros Hi HX. destruct Hi. split; try done.
  intros gw c r Ho. destruct (i_live0 gw c r Ho) as [?|?]; [left; by apply HX|by right].
Qed.

Lemma I_sub X X' F F' (w : World) : I X F w → F' ⊆ F → X ⊆ X' → I X' F' w.
Proof. intros [Hi HF] Hs HX. split; [by eapply inv_sub|by intros e He; apply HF, Hs]. Qed.

Lemma h_weaken {A} (m : Act A) X F F' X' X'' :
  hoare (I X' F') m (λ _, I X'' F') → F ⊆ F' → (∀ w, I X F w → I X' F' w) → hoare (I X F) m (λ _, I X'' F).
Proof.
  intros Hm Hs HP. eapply hoare_conseq; [exact Hm|exact HP|]. intros a w Hw.
  eapply I_sub; [exact Hw|exact Hs|done].
Qed.

(** *** The store *)

(** Operations that lose no pending submit. *)
Definition keeps_pending (op : store_op) : Prop :=
  ¬ touches op NsSubmitRetry ∨ ∃ p, op = OpEnqueueSubmitRetry p.

Lemma pending_kept op s x p : store_typed s → store_op_ok op → keeps_pending op →
  kv_get (st_db s) (key NsSubmitRetry x) = Some (DPendingSubmit p) →
  ∃ p', kv_get (st_db (run_store_op s op)) (key NsSubmitRetry x) = Some (DPendingSubmit p') ∧
    ps_GwMsgID p' = ps_GwMsgID p.
Proof.
  intros Ht Hok [Hn|[p' ->]] Hg; [exists p; by rewrite store_op_frame|].
  pose proof (get_db_Set (submit_retry_key (ps_EnqueuedAt p') (ps_GwMsgID p')) (json_pending_submit p') s
    (key NsSubmitRetry x)) as Hset.
  cbn [run_store_op]. unfold EnqueueSubmitRetry. cbn [st_db submitRetryCount_Add st_with_counts]. rewrite Hset.
  case_decide as Hk; [|by exists p].
  eexists. split; [reflexivity|].
  apply (ty_db _ Ht), entry_typed_key in Hg as (q & id & [= <-] & Hq & -> & Hid). simpl in Hok.
  apply time_key_inj in Hk as [_ Hk]; [|done..]. cbn. by rewrite Hid, Hk.
Qed.

Lemma inv_store X (w : World) op :
  store_op_ok op → keeps_pending op → (∀ v, op_doc op v → doc_owned w v) → inv X w →
  inv X (set_store ((λ s, run_store_op s op) <$> w_store w) w).
Proof.
  intros Hok Hk Hd Hi. destruct Hi. destruct i_store0 as (s & Hs & Ht & Ho). split; try done.
  - exists (run_store_op s op). cbn [w_store set_store]. rewrite Hs. split; [done|]. split; [by apply typed_op|].
    intros k v [Hh|Hv]%store_op_holds; [by eapply Ho|by apply Hd|done].
  - intros gw c r Hgw. destruct (i_live0 gw c r Hgw) as [?|[Hl|[(s' & x & p & Hs' & Hg & Hp)|Hl]]]; [by left|right..].
    + by left.
    + right. left. rewrite Hs in Hs'. injection Hs' as <-.
      destruct (pending_kept op s x p Ht Hok Hk Hg) as (p' & Hg' & Hp').
      exists (run_store_op s op), x, p'. cbn [w_store set_store]. rewrite Hs. by rewrite Hp'.
    + by right; right.
Qed.

Lemma h_store_do (op : store_op) X F :
  store_op_ok op → keeps_pending op → (∀ w, I X F w → ∀ v, op_doc op v → doc_owned w v) →
  hoare (I X F) (store_do (λ s, run_store_op s op)) (λ _, I X F).
Proof.
  intros Hok Hk Hd w Hw. pose proof (Hd w Hw) as Hdw. destruct Hw as [Hi HF].
  split; [by apply inv_store|exact HF].
Qed.

Lemma h_store_at (op : Z → store_op) X F :
  (∀ t, 0 <= t < 2 ^ 63 → store_op_ok (op t) ∧ keeps_pending (op t)) →
  (∀ t w, I X F w → ∀ v, op_doc (op t) v → doc_owned w v) →
  hoare (I X F) (store_at (λ t s, run_store_op s (op t))) (λ _, I X F).
Proof.
  intros Hok Hd. unfold store_at, has_store. hstep; [apply h_gets|].
  destruct a; [|apply h_ret]. hstep; [apply h_now|]. apply hoare_pure. intros Ht.
  destruct (Hok a Ht) as [H1' H2']. apply h_store_do; [done..|]. intros w Hw. by apply Hd.
Qed.

Lemma has_store_true X F : hoare (I X F) has_store (λ b w, I X F w ∧ b = true).
Proof.
  intros w Hw. split; [exact Hw|]. destruct Hw as [Hi _]. destruct (i_store _ _ Hi) as (s & Hs & _).
  unfold has_store, gets. cbn. rewrite Hs. by apply bool_decide_eq_true_2.
Qed.

Lemma h_update_log gw f X F :
  hoare (I X F) (store_at (λ t s, (UpdateMessageLog t gw f s).1)) (λ _, I X F).
Proof.
  apply (h_store_at (λ t, OpUpdateMessageLog t gw f)).
  - intros t Ht. split; [done|]. left. by simpl.
  - intros t w Hw v Hv. simpl in Hv. by destruct v.
Qed.

Lemma h_log_message e X F :
  hoare (I X F) (store_at (λ t s, (LogMessage t e s).2)) (λ _, I X F).
Proof.
  apply (h_store_at (λ t, OpLogMessage t e)).
  - intros t Ht. split; [done|]. left. simpl. by intros [?|?].
  - intros t w Hw v Hv. simpl in Hv. by destruct v.
Qed.

Lemma h_set_status (st : Z → MessageStatus) X F :
  hoare (I X F) (store_at (λ t, SetMessageStatus (st t))) (λ _, I X F).
Proof.
  apply (h_store_at (λ t, OpSetMessageStatus (st t))).
  - intros t Ht. split; [done|]. left. by simpl.
  - intros t w Hw v Hv. simpl in Hv. by destruct v.
Qed.

Lemma h_delete_submit id X F : hoare (I X F) (store_do (DeleteSubmit id)) (λ _, I X F).
Proof.
  apply (h_store_do (OpDeleteSubmit id)); [done|left; by simpl|]. intros w Hw v Hv. simpl in Hv. by destruct v.
Qed.

Lemma h_delete_gw id X F : hoare (I X F) (store_do (DeleteSubmitByGwID id)) (λ _, I X F).
Proof.
  apply (h_store_do (OpDeleteSubmitByGwID id)); [done|left; by simpl|]. intros w Hw v Hv. simpl in Hv. by destruct v.
Qed.

Lemma h_delete_key n x X F : n ≠ NsSubmitRetry → hoare (I X F) (store_do (DeleteKey (key n x))) (λ _, I X F).
Proof.
  intros Hn. apply (h_store_do (OpDeleteKey (key n x))); [done| |].
  - left. simpl. intros [y Hy]. by apply (key_inj n NsSubmitRetry x y) in Hy as [-> _].
  - intros w Hw v Hv. simpl in Hv. by destruct v.
Qed.

Lemma h_set_callback n x cb X F : n = NsCallback ∨ n = NsCallbackRetry →
  hoare (I X F) (store_do (SetJSON (key n x) (json_callback cb))) (λ _, I X F).
Proof.
  intros Hn. apply (h_store_do (OpSetJSON n x (json_callback cb))).
  - destruct Hn as [-> | ->]; simpl; eauto.
  - left. simpl. by destruct Hn as [-> | ->].
  - by intros w Hw v ->.
Qed.

(** *** Correlations *)

Lemma h_gw_delete gw X F :
  hoare (I X F) (modify (λ w, set_gwCorr (ShardMap_Delete (w_gwCorr w) gw) w)) (λ _, I X F).
Proof.
  intros w [Hi HF]. split; [|exact HF]. destruct Hi. destruct i_maps0 as [Hm1 Hm2]. split; try done.
  - split; [done|]. by apply sm_ok_Delete.
  - intros id co. cbn [w_gwCorr set_gwCorr modify snd]. rewrite ShardMap_Get_Delete by done. case_decide; [done|]. apply i_gw0.
Qed.

Lemma h_smsc_delete id X F :
  hoare (I X F) (modify (λ w, set_smscCorr (ShardMap_Delete (w_smscCorr w) id) w)) (λ _, I X F).
Proof.
  intros w [Hi HF]. split; [|exact HF]. destruct Hi. destruct i_maps0 as [Hm1 Hm2]. split; try done.
  - split; [|done]. by apply sm_ok_Delete.
  - intros id' co. cbn [w_smscCorr set_smscCorr modify snd]. rewrite ShardMap_Get_Delete by done. case_decide; [done|]. apply i_smsc0.
Qed.

Lemma h_smsc_set id co X F : (∀ w, I X F w → owned w (co_GwMsgID co) (co_NorthConnID co)) →
  hoare (I X F) (modify (λ w, set_smscCorr (ShardMap_Set (w_smscCorr w) id co) w)) (λ _, I X F).
Proof.
  intros Ho w Hw. specialize (Ho w Hw). destruct Hw as [Hi HF]. split; [|exact HF].
  destruct Hi. destruct i_maps0 as [Hm1 Hm2]. split; try done.
  - split; [|done]. by apply sm_ok_Set.
  - intros id' co'. cbn [w_smscCorr set_smscCorr modify snd]. rewrite ShardMap_Get_Set by done.
    case_decide; [by intros [= <-]|apply i_smsc0].
Qed.

Lemma h_gw_set gw co r X F : co_GwMsgID co = gw → EvAccepted gw (co_NorthConnID co) r ∈ F →
  hoare (I X F) (modify (λ w, set_gwCorr (ShardMap_Set (w_gwCorr w) gw co) w)) (λ _, I X F).
Proof.
  intros Hgw HF' w [Hi HF]. split; [|exact HF]. pose proof (HF _ HF') as Ho.
  destruct Hi. destruct i_maps0 as [Hm1 Hm2]. split; try done.
  - split; [done|]. by apply sm_ok_Set.
  - intros id co'. cbn [w_gwCorr set_gwCorr modify snd]. rewrite ShardMap_Get_Set by done.
    case_decide as Hid; [intros [= <-]; subst id; by eauto|apply i_gw0].
Qed.

(** *** Delivering *)

Lemma DeliverToConn_server ack connID body sv :
  (DeliverToConn ack connID body sv).2 = sv ∨
  ∃ r, (DeliverToConn ack connID body sv).2 = sv_alter (delivered_conn ack body) r sv.
Proof.
  rewrite DeliverToConn_eq. destruct (GetConnection connID sv) as [r|]; [|by left].
  destruct (sv_get sv r) as [c|] eqn:Hc; [|by left]. right. exists r. by apply sv_alter_const.
Qed.

Lemma h_deliver isDLR connID body X F :
  (∀ w, I X F w → isDLR = true → dlr_body w connID body) →
  hoare (I X F) (deliver isDLR connID body) (λ _, I X F).
Proof.
  intros Hb. unfold deliver. hstep; [apply h_tick|].
  apply hoare_bind with (λ sv w, I X F w ∧ sv = w_server w); [by intros w Hw|]. intros sv.
  destruct (DeliverToConn (env_ack a) connID body sv) as [res sv'] eqn:E.
  apply hoare_bind with (λ _, I X F).
  - intros w [Hw ->]. pose proof (DeliverToConn_server (env_ack a) connID body (w_server w)) as Hsv.
    rewrite E in Hsv. cbn [snd] in Hsv. destruct Hw as [Hi HF]. split; [|exact HF].
    destruct Hsv as [->|[r ->]].
    + apply (gateway_inv_same X w); done.
    + apply inv_alter; [intros c; apply delivered_keeps|done].
  - intros _. hstep; [apply h_emit; [done|]|].
    + intros w Hw. simpl. destruct isDLR; [|done]. by apply Hb.
    + intros w Hw. cbn. eapply I_sub; [exact Hw|set_solver|done].
Qed.

(** The IDs that own a message are what JSON makes of them. *)
Lemma owned_json X (w : World) gw c : inv X w → owned w gw c → owned w (json_string gw) (json_string c).
Proof.
  intros Hi (c0 & r & Ho & Hc). destruct (i_ids _ _ Hi _ _ _ Ho) as (Hc0 & n & -> & Hn).
  rewrite json_string_gw by lia. exists c0, r. split; [done|]. intros Hst.
  destruct (Hc Hst) as [->|[-> ->]]; [left; done|by right].
Qed.

Lemma gw_json X (w : World) gw c : inv X w → owned w gw c → json_string gw = gw.
Proof. intros Hi (c0 & r & Ho & Hc). destruct (i_ids _ _ Hi _ _ _ Ho) as (_ & n & -> & Hn). apply json_string_gw. lia. Qed.

Lemma dlr_body_json X (w : World) c body : inv X w → dlr_body w c body → dlr_body w (json_string c) body.
Proof.
  intros Hi (gw & src & dst & esm & text & Ho & Hb). exists gw, src, dst, esm, text. split; [|exact Hb].
  pose proof (owned_json _ _ _ _ Hi Ho) as Hj. by rewrite (gw_json _ _ _ _ Hi Ho) in Hj.
Qed.

Lemma h_enqueue_retry isDLR id (p : Z → PendingDeliver) X F :
  (∀ t, 0 <= t < 2 ^ 63 → 0 <= pd_EnqueuedAt (p t) < 2 ^ 63) →
  (∀ t, IsDLR (pd_ESMClass (p t)) = isDLR) →
  (∀ t w, I X F w → isDLR = true → dlr_body w (pd_TargetConnID (p t)) (pd_PDUBody (p t))) →
  hoare (I X F) (store_at (λ t, EnqueueRetry (id t) (p t))) (λ _, I X F).
Proof.
  intros Ht Hd Hb. apply (h_store_at (λ t, OpEnqueueRetry (id t) (p t))).
  - intros t Hr. split; [by apply Ht|]. left. by simpl.
  - intros t w Hw v ->. simpl. rewrite Hd. intros HD. specialize (Hb t w Hw HD).
    destruct Hw as [Hi _]. by apply (dlr_body_json X).
Qed.

Lemma h_buffer isDLR id connID msisdn body esm src dst X F :
  IsDLR esm = isDLR → (∀ w, I X F w → isDLR = true → dlr_body w connID body) →
  hoare (I X F) (buffer_deliver isDLR id connID msisdn body esm src dst) (λ _, I X F).
Proof.
  intros Hd Hb. unfold buffer_deliver. hstep; [apply h_gets|]. destruct a; [|apply h_ret].
  hstep; [by apply (h_enqueue_retry isDLR (λ _, id))|].
  intros w Hw. eapply I_sub; [|apply list_subseteq_cons; reflexivity|done]. apply h_emit; [done| |exact Hw].
  intros w' Hw'. simpl. destruct isDLR; [|done]. by apply Hb.
Qed.

Lemma h_deliverWithGrace connID body msisdn esm src dst id isDLR X F :
  IsDLR esm = isDLR → (∀ w, I X F w → isDLR = true → dlr_body w connID body) →
  hoare (I X F) (deliverWithGrace cfg connID body msisdn esm src dst id isDLR) (λ _, I X F).
Proof.
  intros Hd Hb. unfold deliverWithGrace. hstep; [by apply h_deliver|]. destruct a; [apply h_ret|].
  hstep; [apply h_gets|]. hstep; [apply h_now|]. apply hoare_pure. intros _.
  match goal with |- hoare _ (if ?b then _ else _) _ => destruct b end.
  - hstep; [by apply h_buffer|apply h_ret].
  - hstep.
    + destruct isDLR; [apply h_ret|]. hstep; [apply h_round_robin|]. case_decide; [apply h_ret|by apply h_deliver].
    + match goal with |- hoare _ (if ?b then _ else _) _ => destruct b end; [apply h_ret|].
      hstep; [by apply h_buffer|apply h_ret].
Qed.

(** *** Callbacks *)

Lemma h_post url p X F : hoare (I X F) (postCallback url p) (λ _, I X F).
Proof.
  unfold postCallback. hstep; [apply h_tick|]. hstep; [by apply h_emit|].
  intros w Hw. cbn. eapply I_sub; [exact Hw|set_solver|done].
Qed.

Lemma h_enqueue_callback gw cb X F : hoare (I X F) (enqueueCallbackRetry gw cb) (λ _, I X F).
Proof.
  unfold enqueueCallbackRetry. case_decide; [by apply h_delete_key|].
  case_decide; [by apply h_modify_same|]. hstep; [apply h_now|]. apply hoare_pure. intros _. cbv zeta.
  hstep; [apply h_set_callback; by right|]. apply h_set_callback. by left.
Qed.

Lemma h_dlr_callback gw st dst src X F : hoare (I X F) (deliverDLRCallback gw st dst src) (λ _, I X F).
Proof.
  unfold deliverDLRCallback, get_callback, store_get. hstep; [apply h_gets|]. destruct a as [cb|]; [|apply h_ret].
  hstep; [apply h_now|]. apply hoare_pure. intros _. hstep; [apply h_post|].
  match goal with |- hoare _ (if ?b then _ else _) _ => destruct b end; [by apply h_delete_key|apply h_enqueue_callback].
Qed.

Lemma h_mo_callback url src dst payload X F :
  hoare (I X F) (deliverMOCallback url src dst payload) (λ _, I X F).
Proof.
  unfold deliverMOCallback. hstep; [apply h_now|]. apply hoare_pure. intros _. hstep; [apply h_post|apply h_ret].
Qed.

(** *** The fate of a message *)

(** A message whose place is known is out of the handler's hands. *)
Lemma I_done gw X F (w : World) : I (gw :: X) F w → live w gw → I X F w.
Proof.
  intros [Hi HF] Hl. split; [|done]. destruct Hi. split; try done.
  intros gw' c r Ho. destruct (i_live0 gw' c r Ho) as [[->|?]%elem_of_cons|?]; [by right|by left|by right].
Qed.

(** Events that settle it. *)
Lemma I_settle e gw X F (w : World) :
  (∃ c, e = EvSynthetic gw c) ∨ (∃ s b id, e = EvSubmit gw s b (SubmitOK id)) →
  e ∈ F → I (gw :: X) F w → I X F w.
Proof.
  intros He HF' Hw. eapply I_done; [exact Hw|]. destruct Hw as [_ HF]. apply HF in HF'.
  destruct He as [[c ->]|(s & b & id & ->)]; right; right; [by right; exists c|by left; exists s, b, id].
Qed.

Lemma h_synthetic connID gw dst src X F :
  (∀ w, I (gw :: X) F w → owned w gw connID) →
  hoare (I (gw :: X) F) (sendSyntheticDLR cfg connID gw dst src) (λ _, I X F).
Proof.
  intros Ho. unfold sendSyntheticDLR. hstep; [apply h_emit; [done|exact Ho]|].
  eapply hoare_conseq with (P' := I X (EvSynthetic gw connID :: F)) (Q' := λ _, I X (EvSynthetic gw connID :: F)).
  2: { intros w Hw. apply (I_settle (EvSynthetic gw connID) gw); [left; eauto|by left|done]. }
  2: { intros [] w Hw. eapply I_sub; [exact Hw|set_solver|done]. }
  hstep; [apply h_update_log|].
  assert (∀ w, I X (EvSynthetic gw connID :: F) w → owned w gw connID) as Ho'.
  { intros w [Hi HF]. specialize (HF (EvSynthetic gw connID) (list_elem_of_here _ _)).
    exact (i_events _ _ Hi _ HF). }
  case_decide.
  - hstep; [apply (h_set_status (λ t, mkMessageStatus gw dst src [] (str "failed") (str "UNDELIV") [] t))|].
    hstep; [apply h_dlr_callback|]. apply h_gw_delete.
  - hstep; [|apply h_gw_delete]. apply h_deliverWithGrace; [done|]. intros w Hw _.
    exists gw, src, dst, 0x04, (synthetic_receipt gw). split; [by apply Ho'|]. split; [done|by left].
Qed.

Lemma h_enqueue_submit (p : Z → PendingSubmit) gw X F :
  (∀ t, ps_GwMsgID (p t) = gw ∧ ps_EnqueuedAt (p t) = t ∧ 1 <= ps_RetryCount (p t) <= rc_maxSubmitRetries cfg) →
  (∀ t w, I (gw :: X) F w → owned w gw (ps_ConnID (p t))) →
  hoare (I (gw :: X) F) (store_at (λ t, EnqueueSubmitRetry (p t))) (λ _, I X F).
Proof.
  intros Hp Ho. unfold store_at. hstep; [apply has_store_true|]. apply hoare_pure. intros ->.
  hstep; [apply h_now|]. apply hoare_pure. intros Ht w Hw. destruct (Hp a) as (Hgw & Hat & Hr).
  assert (∀ v, op_doc (OpEnqueueSubmitRetry (p a)) v → doc_owned w v) as Hd.
  { intros v ->. cbn. specialize (Ho a w Hw). rewrite Hgw.
    split; [by apply (owned_json (gw :: X)), Ho; apply Hw|done]. }
  pose proof (inv_store (gw :: X) w (OpEnqueueSubmitRetry (p a)) ltac:(simpl; by rewrite Hat)
    ltac:(right; eauto) Hd (proj1 Hw)) as Hi.
  eapply I_done; [split; [exact Hi|apply Hw]|]. right. left.
  destruct (i_store _ _ (proj1 Hw)) as (s & Hs & Hty & _).
  exists (EnqueueSubmitRetry (p a) s), (pad20 (UnixNano (ps_EnqueuedAt (p a))) ++ str ":" ++ ps_GwMsgID (p a)).
  eexists. split; [cbn; by rewrite Hs|]. split.
  - apply (eq_trans (get_db_Set _ _ s _)). by rewrite decide_True.
  - cbn. rewrite Hgw. by apply (gw_json _ _ _ _ (proj1 Hw) (Ho a w Hw)).
Qed.

Lemma h_enqueue_or_fail gw connID dst src body n X F :
  0 <= n → (∀ w, I (gw :: X) F w → owned w gw connID) →
  hoare (I (gw :: X) F) (enqueueSubmitRetryOrFail cfg gw connID dst src body n) (λ _, I X F).
Proof.
  intros Hn Ho. unfold enqueueSubmitRetryOrFail. hstep; [apply has_store_true|]. apply hoare_pure. intros ->.
  destruct (bool_decide (0 < rc_maxSubmitRetries cfg)) eqn:E1; [|by apply h_synthetic].
  destruct (bool_decide (n < rc_maxSubmitRetries cfg)) eqn:E2; [|by apply h_synthetic].
  apply bool_decide_eq_true in E1, E2. cbn [andb].
  apply (h_enqueue_submit (λ t, mkPendingSubmit gw connID dst src body (n + 1) t)); [|by intros t].
  intros t. cbn. split; [done|]. split; [done|lia].
Qed.

(** *** Forwarding *)

Lemma h_resolve dst X F : hoare (I X F) (resolve_submitter cfg dst) (λ _, I X F).
Proof.
  unfold resolve_submitter. hstep; [apply h_gets|]. hstep.
  - destruct a as [pm|]; [|apply h_ret]. hstep; [apply h_gets|].
    destruct (MT_Resolve pm dst a) as [t res]. hstep; [by apply h_modify_same|].
    destruct res as [[r name]| |]; [apply h_ret..|]. hstep; [by apply h_modify_same|apply h_ret].
  - match goal with |- hoare _ (match ?o with Some _ => _ | None => _ end) _ => destruct o end; apply h_ret.
Qed.

(** What is known after the submit: the event, with its answer. *)
Lemma h_submit gw dst body X F :
  (∀ w, I X F w → ∃ c r, owner w gw c r) →
  hoare (I X F) (submit_to_smsc cfg gw dst body)
    (λ a w, I X F w ∧ ∀ id, a = Some (SubmitOK id) → ∃ s, EvSubmit gw s body (SubmitOK id) ∈ w_events w).
Proof.
  intros Ho. unfold submit_to_smsc. hstep; [apply h_resolve|]. destruct a as [s|].
  2: { intros w Hw. split; [exact Hw|]. by intros id [=]. }
  hstep; [apply h_tick|]. cbv zeta. hstep; [apply h_emit; [done|by intros w Hw; apply Ho]|].
  intros w Hw. split; [eapply I_sub; [exact Hw|set_solver|done]|]. intros id [= Ha]. exists s.
  destruct Hw as [_ HF]. rewrite <-Ha. apply HF. by left.
Qed.

Lemma h_record corr smscID gw connID dst src body X F :
  (∀ w, I X F w → owned w (co_GwMsgID corr) (co_NorthConnID corr)) → (∀ w, I X F w → owned w gw connID) →
  hoare (I X F) (record_forwarded corr smscID gw connID dst src body) (λ _, I X F).
Proof.
  intros H1' H2'. unfold record_forwarded. hstep; [by apply h_smsc_set|].
  hstep.
  { apply (h_store_do (OpStoreSubmit (mkSubmitRecord gw smscID connID 0 dst src body (co_SubmittedAt corr)))).
    - done.
    - left. by intros [?|?].
    - intros w Hw v ->. change (owned w (json_string gw) (json_string connID)). by apply (owned_json X), H2'; apply Hw. }
  hstep; [apply h_delete_gw|]. hstep.
  { case_decide; [|apply h_ret].
    apply (h_set_status (λ t, mkMessageStatus gw dst src [] (str "forwarded") [] smscID t)). }
  hstep; [apply h_update_log|]. apply h_add_totals.
Qed.

(** What a success does, with the correlation that memory still has or a new one. *)
Definition forward_ok (connID gw dst src body id : bytes) : Act unit :=
  found ← gets (λ w, ShardMap_Get (w_gwCorr w) gw);
  corr ← match found with Some corr => mret corr | None => t ← Now; mret (mkCorr gw connID dst t) end;
  record_forwarded corr id gw connID dst src body.

Lemma h_forward_ok connID gw dst src body id X F :
  (∀ w, I X F w → owned w gw connID) → hoare (I X F) (forward_ok connID gw dst src body id) (λ _, I X F).
Proof.
  intros Ho. unfold forward_ok. apply hoare_bind with (λ found w, I X F w ∧
    ∀ co, found = Some co → co_GwMsgID co = gw ∧ ∃ r, owner w gw (co_NorthConnID co) r).
  { intros w Hw. split; [exact Hw|]. intros co Hco. by apply (i_gw _ _ (proj1 Hw)). }
  intros [co|].
  - intros w [Hw Hco]. destruct (Hco co eq_refl) as [Hgw [r Hco']].
    eapply (I_sub X X (EvAccepted gw (co_NorthConnID co) r :: F)); [|apply list_subseteq_cons; reflexivity|done].
    apply (h_record co id gw connID dst src body).
    + intros w' [_ HF']. exists (co_NorthConnID co), r. rewrite Hgw. split; [by apply HF'; left|by left].
    + intros w' Hw'. apply Ho. eapply I_sub; [exact Hw'|apply list_subseteq_cons; reflexivity|done].
    + split; [apply Hw|]. intros e [->|Hin]%elem_of_cons; [done|by apply Hw].
  - apply hoare_conseq with (P' := I X F) (Q' := λ _, I X F); [|by intros w [Hw _]|done].
    apply hoare_bind with (λ co w, I X F w ∧ co_GwMsgID co = gw ∧ co_NorthConnID co = connID).
    + hstep; [apply h_now|]. apply hoare_pure. intros _. by intros w Hw.
    + intros co. apply hoare_pure. intros [E1 E2]. apply h_record; [|exact Ho]. intros w Hw. rewrite E1, E2. by apply Ho.
Qed.

Lemma h_forward_finish connID gw dst src body a X F :
  (∀ w, I (gw :: X) F w → owned w gw connID) →
  hoare (λ w, I (gw :: X) F w ∧ ∀ id, a = Some (SubmitOK id) → ∃ s, EvSubmit gw s body (SubmitOK id) ∈ w_events w)
    (forward_finish cfg connID gw dst src body a) (λ _, I X F).
Proof.
  intros Ho. unfold forward_finish.
  assert (hoare (λ w, I (gw :: X) F w ∧ ∀ id, a = Some (SubmitOK id) → ∃ s, EvSubmit gw s body (SubmitOK id) ∈ w_events w)
    (enqueueSubmitRetryOrFail cfg gw connID dst src body 0) (λ _, I X F)) as Hfail.
  { eapply hoare_conseq; [by apply (h_enqueue_or_fail gw connID dst src body 0 X F)|by intros w [Hw _]|done]. }
  destruct a as [[| |id]|]; [exact Hfail..| |exact Hfail].
  intros w [Hw He]. destruct (He id eq_refl) as [s Hs]. destruct (Ho w Hw) as (c0 & r & Hc0 & Hc).
  assert (I (gw :: X) (EvSubmit gw s body (SubmitOK id) :: EvAccepted gw c0 r :: F) w) as Hw'.
  { split; [apply Hw|]. intros e [->|[->|Hin]%elem_of_cons]%elem_of_cons; [done|done|by apply Hw]. }
  apply (I_settle (EvSubmit gw s body (SubmitOK id)) gw) in Hw'; [|right; eauto|by left].
  eapply I_sub; [apply (h_forward_ok connID gw dst src body id); [|exact Hw']| |done].
  - intros w' [_ HF']. exists c0, r. split; [apply HF'; right; by left|exact Hc].
  - intros e Hin. right. by right.
Qed.

Lemma inflight_keeps d : keeps_identity (InFlightAdd d).
Proof. by intros c. Qed.

Lemma h_inflight (c : option conn_ref) d X F :
  hoare (I X F) (inflight_add c d) (λ _, I X F).
Proof. destruct c; [apply h_conn_do, inflight_keeps|apply h_ret]. Qed.

(** Taking a task from the queue. *)
Lemma take_task X (w : World) t ch : inv X w → w_forwardCh w = t :: ch →
  inv (ft_gwMsgID t :: X) (set_forwardCh ch w) ∧ task_ok w t.
Proof.
  intros Hi E. destruct Hi. split; [split; try done|apply i_tasks0; rewrite E; by left].
  - intros t' Hin. apply i_tasks0. rewrite E. by right.
  - intros gw c r Ho. destruct (i_live0 gw c r Ho) as [Hx|[(t' & Hin & Hg)|Hl]]; [left; by right| |by right; right].
    rewrite E in Hin. apply elem_of_cons in Hin as [->|Hin]; [left; subst; by left|]. right. left. by exists t'.
Qed.

(** *** Receipts and MO messages *)

(** With an ownership known, the events it rests on. *)
Lemma owned_facts X F (w : World) gw c : I X F w → owned w gw c →
  ∃ F', F ⊆ F' ∧ I X F' w ∧ ∀ X' w', I X' F' w' → owned w' gw c.
Proof.
  intros [Hi HF] (c0 & r & Ho & Hc). exists (EvAccepted gw c0 r :: F). split; [by apply list_subseteq_cons|].
  split; [split; [done|]; intros e [->|Hin]%elem_of_cons; [done|by apply HF]|].
  intros X' w' [_ HF']. exists c0, r. split; [by apply HF'; left|done].
Qed.

Lemma h_lookup id X F :
  hoare (I X F) (lookup_correlation id)
    (λ co w, I X F w ∧ ∀ c, co = Some c → owned w (co_GwMsgID c) (co_NorthConnID c)).
Proof.
  unfold lookup_correlation.
  apply hoare_bind with (λ co w, I X F w ∧ ∀ c, co = Some c → owned w (co_GwMsgID c) (co_NorthConnID c)).
  { intros w Hw. split; [exact Hw|]. intros c Hc. by apply (i_smsc _ _ (proj1 Hw) id). }
  intros [c|]; [by intros w Hw|].
  apply hoare_bind with (λ r w, I X F w ∧ ∀ r', r = Some r' → owned w (sr_GwMsgID r') (sr_NorthConnID r')).
  - intros w [Hw _]. split; [exact Hw|]. intros r Hr. destruct (i_store _ _ (proj1 Hw)) as (s & Hs & _ & Hd).
    unfold store_get, gets in Hr. cbn in Hr. rewrite Hs in Hr. cbn in Hr. unfold GetSubmit, get_as, got_opt in Hr.
    destruct (kv_get (st_db s) (key NsMsg id)) as [d|] eqn:E; [|done].
    destruct (un_submit d) as [r'|] eqn:Ed; [|done]. injection Hr as ->.
    destruct d; try done. injection Ed as ->. by apply (Hd (key NsMsg id) (DSubmit r)); left.
  - intros r w [Hw Hr]. split; [exact Hw|]. intros c Hc. destruct r as [r|]; [|done]. injection Hc as <-. by apply Hr.
Qed.

Lemma h_forget smsc gw X F : hoare (I X F) (forget_correlation smsc gw) (λ _, I X F).
Proof. unfold forget_correlation. hstep; [apply h_smsc_delete|]. hstep; [apply h_gw_delete|]. apply h_delete_submit. Qed.

Lemma h_handleDLR src dst esm payload X F : IsDLR esm = true →
  hoare (I X F) (handleDLR cfg src dst esm payload) (λ _, I X F).
Proof.
  intros Hesm. unfold handleDLR. hstep; [apply h_add_totals|].
  destruct (ParseDLRReceipt payload) as [receipt|] eqn:Hr; [|apply h_ret].
  hstep; [apply h_lookup|]. destruct a as [co|]; [|by intros w [Hw _]].
  intros w [Hw Hco]. destruct (owned_facts _ _ _ _ _ Hw (Hco co eq_refl)) as (F' & Hs & Hw' & Ho).
  eapply I_sub; [|exact Hs|done]. clear Hco Hs Hw. revert w Hw'. cbv zeta.
  match goal with |- ∀ w, I X F' w → I X F' (?m w).2 => change (hoare (I X F') m (λ _, I X F')) end.
  hstep; [apply h_update_log|]. case_decide.
  - hstep; [apply h_dlr_callback|].
    hstep; [apply (h_set_status (λ t, mkMessageStatus (co_GwMsgID co) (co_MSISDN co) [] [] (str "delivered") (dlr_Status receipt) [] t))|].
    apply h_forget.
  - hstep.
    + apply h_deliverWithGrace; [done|]. intros w Hw _. eexists _, src, dst, esm, _. split; [by eapply Ho|].
      split; [reflexivity|]. right. by exists payload, receipt.
    + destruct a; [|apply h_ret]. hstep; [apply h_forget|apply h_dlr_callback].
Qed.

Lemma h_mo_id X F : hoare (I X F) mo_id (λ _, I X F).
Proof. unfold mo_id. hstep; [apply h_now|]. apply hoare_pure. intros _. apply h_ret. Qed.

Lemma h_deliver_mo conn src dst esm payload X F : IsDLR esm = false →
  hoare (I X F) (deliver_mo cfg conn src dst esm payload) (λ _, I X F).
Proof.
  intros Hesm. unfold deliver_mo. hstep; [apply h_mo_id|]. hstep; [by apply h_deliverWithGrace|apply h_ret].
Qed.

Lemma h_mo_fallback src dst esm payload X F : IsDLR esm = false →
  hoare (I X F) (mo_fallback cfg src dst esm payload) (λ _, I X F).
Proof.
  intros Hesm. unfold mo_fallback. hstep; [apply h_gets|]. destruct a; [by apply h_deliver_mo|].
  hstep; [apply h_round_robin|]. case_decide; [|by apply h_deliver_mo].
  hstep; [apply h_gets|]. destruct a0; [|apply h_ret]. hstep; [apply h_mo_id|]. by apply h_buffer.
Qed.

Lemma h_HandleDeliver src dst esm payload X F : hoare (I X F) (HandleDeliver cfg src dst esm payload) (λ _, I X F).
Proof.
  unfold HandleDeliver. destruct (IsDLR esm) eqn:Hesm; [by apply h_handleDLR|].
  unfold handleMO. hstep; [apply h_add_totals|]. hstep; [apply h_gets|].
  destruct a as [target|]; [|by apply h_mo_fallback].
  case_decide; [apply h_mo_callback|]. case_decide; [by apply h_deliver_mo|by apply h_mo_fallback].
Qed.

(** *** The retry loops *)

(** A delivery taken from the store, on the events [F]. *)
Definition retry_ok (F : list event) (p : PendingDeliver) : Prop :=
  0 <= pd_EnqueuedAt p < 2 ^ 63 ∧
  ∀ X w, I X F w → IsDLR (pd_ESMClass p) = true → dlr_body w (pd_TargetConnID p) (pd_PDUBody p).

Lemma h_requeue p X F : retry_ok F p → hoare (I X F) (requeue p) (λ _, I X F).
Proof.
  intros [Ht Hb]. unfold requeue.
  hstep.
  { apply (h_enqueue_retry (IsDLR (pd_ESMClass p)) (λ t, str "retry-" ++ itoa (UnixNano t)) (λ _, p)); [done..|].
    intros t w Hw. by apply (Hb X). }
  intros w Hw. eapply I_sub; [|apply list_subseteq_cons; reflexivity|done]. apply h_emit; [done| |exact Hw].
  intros w' Hw'. simpl. destruct (IsDLR (pd_ESMClass p)) eqn:E; [|done]. by apply (Hb X).
Qed.

Lemma h_retry_deliver p X F : retry_ok F p → hoare (I X F) (retry_deliver p) (λ _, I X F).
Proof.
  intros Hp. unfold retry_deliver. hstep; [apply h_gets|]. case_decide.
  - destruct (IsDLR (pd_ESMClass p)) eqn:E; [by apply h_requeue|]. hstep; [apply h_round_robin|].
    case_decide; [by apply h_requeue|]. hstep; [by apply h_deliver|].
    match goal with |- hoare _ (if ?b then _ else _) _ => destruct b end; [apply h_ret|by apply h_requeue].
  - hstep; [apply h_deliver; intros w Hw; by apply (proj2 Hp X)|].
    match goal with |- hoare _ (if ?b then _ else _) _ => destruct b end; [apply h_ret|by apply h_requeue].
Qed.

Lemma retry_ok_mono F F' p : F ⊆ F' → retry_ok F p → retry_ok F' p.
Proof. intros Hs [Ht Hb]. split; [done|]. intros X w Hw. apply (Hb X). by eapply I_sub; [exact Hw|..]. Qed.

(** What is drained was in the store, so its ownership is known. *)
Lemma doc_retry_ok X F (w : World) p : I X F w → 0 <= pd_EnqueuedAt p < 2 ^ 63 →
  doc_owned w (DPendingDeliver p) → ∃ F', F ⊆ F' ∧ I X F' w ∧ retry_ok F' p.
Proof.
  intros Hw Ht Hd. destruct (IsDLR (pd_ESMClass p)) eqn:E.
  - destruct (Hd E) as (gw & src & dst & esm & text & Ho & Hb).
    destruct (owned_facts _ _ _ _ _ Hw Ho) as (F' & Hs & Hw' & Ho'). exists F'. split; [done|]. split; [done|].
    split; [done|]. intros X' w' Hw'' _. exists gw, src, dst, esm, text. split; [by eapply Ho'|done].
  - exists F. split; [done|]. split; [done|]. split; [done|]. intros X' w' _ Hd'. congruence.
Qed.

Lemma docs_retry_ok X F (w : World) ps : I X F w →
  Forall (λ p, 0 <= pd_EnqueuedAt p < 2 ^ 63 ∧ doc_owned w (DPendingDeliver p)) ps →
  ∃ F', F ⊆ F' ∧ I X F' w ∧ Forall (retry_ok F') ps.
Proof.
  intros Hw Hps. induction Hps as [|p ps [Ht Hd] _ IH]; [by exists F|].
  destruct IH as (F1 & Hs1 & Hw1 & Hps1). destruct (doc_retry_ok X F1 w p Hw1 Ht Hd) as (F2 & Hs2 & Hw2 & Hp).
  exists F2. split; [by transitivity F1|]. split; [done|]. constructor; [done|].
  eapply Forall_impl; [exact Hps1|]. intros q Hq. by apply (retry_ok_mono F1).
Qed.

Lemma drained_retries s now now' maxAge limit p : store_typed s → 0 <= now < 2 ^ 63 →
  p ∈ (DrainRetries now now' maxAge limit s).1 →
  0 <= pd_EnqueuedAt p < 2 ^ 63 ∧ ∃ k, kv_get (st_db s) k = Some (DPendingDeliver p).
Proof.
  intros Ht Hn. rewrite DrainRetries_eq by done. cbv zeta. cbn [fst].
  intros [_ Hin]%list_elem_of_filter. apply list_elem_of_fmap in Hin as ([k p'] & -> & Hin).
  assert ((k, p') ∈ due_retries now s) as Hd.
  { unfold drain_take in Hin. case_decide; [|done]. apply elem_of_take in Hin as (i & Hi & _). by eapply list_elem_of_lookup_2. }
  apply due_retries_elem in Hd as (Hg & [id ->] & _); [|done..]. split; [|eauto].
  by apply (ty_db _ Ht), (entry_typed_key NsRetry) in Hg as (q & id' & [= <-] & Hq & _).
Qed.

Lemma h_drainRetries maxAge X F : hoare (I X F) (drainRetries cfg maxAge) (λ _, I X F).
Proof.
  unfold drainRetries. hstep; [apply h_gets|]. destruct a; [|apply h_ret].
  hstep; [apply h_now|]. apply hoare_pure. intros Hn. hstep; [apply h_now|]. apply hoare_pure. intros _.
  apply hoare_bind with (λ ps w, I X F w ∧
    Forall (λ p, 0 <= pd_EnqueuedAt p < 2 ^ 63 ∧ doc_owned w (DPendingDeliver p)) ps).
  { intros w Hw. split; [exact Hw|]. destruct (i_store _ _ (proj1 Hw)) as (s & Hs & Ht & Hd).
    unfold gets. cbn [fst]. rewrite Hs. cbn [mbind option_bind default from_option id].
    apply Forall_forall. intros p Hp. destruct (drained_retries _ _ _ _ _ _ Ht Hn Hp) as [Hr [k Hk]].
    split; [done|]. apply (Hd k). by left. }
  intros ps w [Hw Hps]. destruct (docs_retry_ok X F w ps Hw Hps) as (F' & Hs & Hw' & Hok).
  eapply I_sub; [|exact Hs|done]. clear Hs Hw Hps. revert w Hw'.
  match goal with |- ∀ w, I X F' w → I X F' (?m w).2 => change (hoare (I X F') m (λ _, I X F')) end.
  hstep; [apply (h_store_do (OpDrainRetries a a0 maxAge (rc_retryDrainLimit cfg))); [done|left; by simpl|]|].
  { intros w Hw v Hv. simpl in Hv. by destruct v. }
  apply hoare_conseq with (P' := λ w, I X F' w ∧ Forall (retry_ok F') ps)
    (Q' := λ _ w, I X F' w ∧ Forall (retry_ok F') []); [|done|by intros _ w [Hw _]].
  apply (hoare_mapM retry_deliver ps (λ ps w, I X F' w ∧ Forall (retry_ok F') ps)).
  intros p l. apply hoare_pure. intros [Hp Hl]%Forall_cons w Hw. split; [|done]. by apply (h_retry_deliver p X F').
Qed.

(** A pending submit taken from the store, on the events [F]. *)
Definition submit_ok (F : list event) (p : PendingSubmit) : Prop :=
  1 <= ps_RetryCount p ∧ ∀ X w, I X F w → owned w (ps_GwMsgID p) (ps_ConnID p).

(** The answer to a retry. *)
Lemma h_retry_finish p a X F : submit_ok F p →
  hoare (λ w, I (ps_GwMsgID p :: X) F w ∧
      ∀ id, a = Some (SubmitOK id) → ∃ s, EvSubmit (ps_GwMsgID p) s (ps_RawBody p) (SubmitOK id) ∈ w_events w)
    (retry_finish cfg p a) (λ _, I X F).
Proof.
  intros [Hr Ho]. unfold retry_finish.
  assert (hoare (λ w, I (ps_GwMsgID p :: X) F w ∧
      ∀ id, a = Some (SubmitOK id) → ∃ s, EvSubmit (ps_GwMsgID p) s (ps_RawBody p) (SubmitOK id) ∈ w_events w)
    (enqueueSubmitRetryOrFail cfg (ps_GwMsgID p) (ps_ConnID p) (ps_MSISDN p) (ps_SourceAddr p) (ps_RawBody p) (ps_RetryCount p))
    (λ _, I X F)) as Hfail.
  { eapply hoare_conseq; [apply (h_enqueue_or_fail (ps_GwMsgID p) (ps_ConnID p) (ps_MSISDN p) (ps_SourceAddr p)
      (ps_RawBody p) (ps_RetryCount p) X F); [lia|by intros w Hw; apply (Ho (ps_GwMsgID p :: X))]|by intros w [Hw _]|done]. }
  destruct a as [[| |id]|]; [exact Hfail..| |exact Hfail]. clear Hfail.
  intros w [Hw He]. destruct (He id eq_refl) as [s Hs].
  assert (I (ps_GwMsgID p :: X) (EvSubmit (ps_GwMsgID p) s (ps_RawBody p) (SubmitOK id) :: F) w) as Hw'.
  { split; [apply Hw|]. intros e [->|Hin]%elem_of_cons; [done|by apply Hw]. }
  apply (I_settle (EvSubmit (ps_GwMsgID p) s (ps_RawBody p) (SubmitOK id)) (ps_GwMsgID p)) in Hw'; [|right; eauto|by left].
  eapply I_sub in Hw'; [|apply list_subseteq_cons; reflexivity|reflexivity]. clear He Hs Hw. revert w Hw'.
  match goal with |- ∀ w, I X F w → I X F (?m w).2 => change (hoare (I X F) m (λ _, I X F)) end.
  hstep; [apply h_now|]. apply hoare_pure. intros _. apply h_record; intros w Hw; by apply (Ho X).
Qed.

Lemma drained_submits s limit : store_typed s →
  Forall (λ p, ∃ k, kv_get (st_db s) k = Some (DPendingSubmit p)) (DrainSubmitRetries limit s).1 ∧
  ∀ x p, kv_get (st_db s) (key NsSubmitRetry x) = Some (DPendingSubmit p) →
    p ∈ (DrainSubmitRetries limit s).1 ∨
    kv_get (st_db (DrainSubmitRetries limit s).2) (key NsSubmitRetry x) = Some (DPendingSubmit p).
Proof.
  intros Ht. rewrite DrainSubmitRetries_eq by done. cbv zeta. cbn [fst snd].
  assert (∀ e, e ∈ drain_take limit 0 (due_submits s) → e ∈ due_submits s) as Hsub.
  { intros e. unfold drain_take. case_decide; [|done]. intros (i & Hi & _)%elem_of_take. by eapply list_elem_of_lookup_2. }
  split.
  - apply Forall_forall. intros p ([k p'] & -> & Hin%Hsub)%list_elem_of_fmap.
    apply (due_submits_elem _ _ _ Ht) in Hin as [Hg _]. eauto.
  - intros x p Hg. assert ((key NsSubmitRetry x, p) ∈ due_submits s) as Hd.
    { apply (due_submits_elem _ _ _ Ht). split; [done|by apply prefix_app_r]. }
    destruct (decide (key NsSubmitRetry x ∈ (drain_take limit 0 (due_submits s)).*1)) as [Hk|Hk].
    + left. apply list_elem_of_fmap in Hk as ([k' p'] & Hk' & Hin). cbn [fst] in Hk'. subst k'.
      apply list_elem_of_fmap. exists (key NsSubmitRetry x, p'). split; [|done]. cbn [snd].
      apply Hsub, (due_submits_elem _ _ _ Ht) in Hin as [Hg' _]. congruence.
    + right. apply (eq_trans (get_db_DeleteAll _ s _)). by rewrite decide_False.
Qed.

(** Taking retries from the store: they are in the drain's hands then. *)
Lemma take_submits X (w : World) s limit : inv X w → w_store w = Some s →
  inv ((ps_GwMsgID <$> (DrainSubmitRetries limit s).1) ++ X) (set_store (Some (DrainSubmitRetries limit s).2) w) ∧
  Forall (λ p, doc_owned w (DPendingSubmit p)) (DrainSubmitRetries limit s).1.
Proof.
  intros Hi Hs. destruct Hi. destruct i_store0 as (s0 & Hs0 & Ht & Hd).
  rewrite Hs in Hs0. injection Hs0 as <-. destruct (drained_submits s limit Ht) as [Hps Hrest].
  split; [split; try done|].
  - exists (DrainSubmitRetries limit s).2. split; [done|]. split.
    + by apply (typed_op (OpDrainSubmitRetries limit)).
    + intros k v Hh. apply (store_op_holds (OpDrainSubmitRetries limit)) in Hh as [Hh|Hv]; [by apply (Hd k)| |done].
      simpl in Hv. by destruct v.
  - intros gw c r Ho. destruct (i_live0 gw c r Ho) as [Hx|[Hl|[(s' & x & p & Hs' & Hg & Hp)|Hl]]].
    + left. apply elem_of_app. by right.
    + right. by left.
    + rewrite Hs in Hs'. injection Hs' as <-. destruct (Hrest x p Hg) as [Hin|Hg'].
      * left. apply elem_of_app. left. apply list_elem_of_fmap. by exists p.
      * right. right. left. by exists (DrainSubmitRetries limit s).2, x, p.
    + right. by right; right.
  - eapply Forall_impl; [exact Hps|]. intros p [k Hk]. apply (Hd k). by left.
Qed.

(** *** HandleSubmit *)

(** Steps that touch neither the ID counter nor the IDs of sessions. *)
Definition framed {A} (m : Act A) : Prop :=
  ∀ w, w_msgSeq (m w).2 = w_msgSeq w ∧ ∀ c, conn_id c (m w).2 = conn_id c w.

Lemma framed_bind {A B} (m : Act A) (f : A → Act B) : framed m → (∀ a, framed (f a)) → framed (m ≫= f).
Proof.
  intros Hm Hf w. unfold mbind, M_bind. destruct (Hm w) as [E1 E2]. destruct (m w) as [a w']. cbn [snd] in *.
  destruct (Hf a w') as [E1' E2']. split; [by rewrite E1'|]. intros c. by rewrite E2'.
Qed.

Lemma framed_conn_do r f : keeps_identity f → framed (conn_do r f).
Proof. intros Hf w. split; [done|]. intros c. by apply conn_id_alter. Qed.

Lemma framed_store_at f : framed (store_at f).
Proof.
  apply framed_bind; [done|]. intros [|]; [|done]. apply framed_bind; [|done].
  unfold Now. apply framed_bind; done.
Qed.

Lemma framed_Now : framed Now.
Proof. unfold Now. apply framed_bind; done. Qed.

(** What HandleSubmit knows about the session while it runs. *)
Definition session_of (c : option conn_ref) (connID : bytes) (w : World) : Prop :=
  steady → conn_id c w = connID ∨ (conn_id c w = [] ∧ c = None).

Lemma h_framed {A} (m : Act A) B c connID X F F' :
  hoare (I X F) m (λ _, I X F') → framed m →
  hoare (λ w, I X F w ∧ w_msgSeq w < B ∧ session_of c connID w) m
    (λ _ w, I X F' w ∧ w_msgSeq w < B ∧ session_of c connID w).
Proof.
  intros Hm Hf w (Hw & Hn & Hc). destruct (Hf w) as [E1 E2]. split; [by apply Hm|].
  rewrite E1. split; [done|]. unfold session_of. by rewrite E2.
Qed.

Lemma u64_id n : 0 <= n < 2 ^ 64 → u64 n = n.
Proof. intros. by apply Z.mod_small. Qed.

(** A new number: it is not the number of an ID given before. *)
Lemma h_next_seq c connID X F :
  hoare (λ w, I X F w ∧ w_msgSeq w < 2 ^ 64 - 1 ∧ session_of c connID w) next_seq
    (λ n w, I X F w ∧ session_of c connID w ∧ n = w_msgSeq w ∧ 0 < n ∧ gw_id n ∉ omap accepted_id (w_events w)).
Proof.
  intros w (Hw & Hn & Hc). unfold next_seq, gets, modify, mbind, M_bind. cbn [fst snd w_msgSeq set_msgSeq].
  destruct Hw as [Hi HF]. pose proof (i_seq _ _ Hi) as Hr. rewrite u64_id by lia.
  assert (gw_id (w_msgSeq w + 1) ∉ omap accepted_id (w_events w)) as Hfresh.
  { intros (e & He & Ha)%list_elem_of_omap. destruct e as [gw c' r'| | | | |]; try done. injection Ha as ->.
    destruct (i_ids _ _ Hi _ _ _ He) as (_ & n & Hg%gw_id_inj & Hle). lia. }
  split; [|split; [exact Hc|]; split; [done|]; split; [lia|exact Hfresh]].
  split; [|exact HF]. destruct Hi. split; try done.
  - cbn. lia.
  - intros gw c' r' Ho. destruct (i_ids0 gw c' r' Ho) as (Hj & n & -> & Hle). split; [done|]. exists n. cbn. split; [done|lia].
Qed.

Lemma h_reject c connID seqNum status src dst X F :
  hoare (λ w, I X F w ∧ w_msgSeq w < 2 ^ 64 - 1 ∧ session_of c connID w)
    (reject_submit c connID seqNum status src dst) (λ _, I X F).
Proof.
  unfold reject_submit. hstep; [apply hoare_gets|].
  apply hoare_bind with (λ _, I X F).
  - destruct a; [|by intros w ((Hw & _) & _)].
    apply hoare_conseq with (P' := λ w, I X F w ∧ w_msgSeq w < 2 ^ 64 - 1 ∧ session_of c connID w)
      (Q' := λ _, I X F); [|by intros w [Hw _]|done].
    hstep; [apply h_next_seq|]. eapply hoare_conseq; [apply h_log_message|by intros w [Hw _]|done].
  - intros _. destruct c; [apply h_conn_do, sendResponse_keeps|apply h_ret].
Qed.

(** The answer and the event: from here the message is in the handler's hands. *)
Lemma h_accepted c connID n X F : json_string connID = connID →
  hoare (λ w, I X F w ∧ session_of c connID w ∧ n = w_msgSeq w ∧ 0 < n ∧ gw_id n ∉ omap accepted_id (w_events w))
    (emit (EvAccepted (gw_id n) connID c))
    (λ _ w, I (gw_id n :: X) (EvAccepted (gw_id n) connID c :: F) w ∧ w_msgSeq w < 2 ^ 64 ∧ session_of c connID w).
Proof.
  intros Hj w (Hw & Hc & Hn & Hp & Hfresh). pose proof (i_seq _ _ (proj1 Hw)) as Hr.
  split; [|split; [exact (proj2 Hr)|exact Hc]]. split.
  - apply inv_events; [|done|apply (I_sub X (gw_id n :: X) F F w Hw); [done|set_solver]].
    intros gw c' r' [= <- <- <-]. split; [done|]. split; [exists n; split; [done|lia]|]. split; [done|by left].
  - intros e [->|Hin]%elem_of_cons; apply elem_of_app; [by right; left|left; by apply Hw].
Qed.

Lemma accepted_owned X F connID gw c w : EvAccepted gw connID c ∈ F → I X F w → owned w gw connID.
Proof. intros HF [_ Hw]. exists connID, c. split; [by apply Hw|by left]. Qed.

Lemma accepted_task X F connID t w : EvAccepted (ft_gwMsgID t) connID (ft_conn t) ∈ F → I X F w →
  session_of (ft_conn t) connID w → task_ok w t.
Proof. intros HF [_ Hw] Hc. exists connID, (ft_conn t). split; [by apply Hw|exact Hc]. Qed.

(** The queue takes the task. *)
Lemma h_push_task t X F :
  hoare (λ w, I (ft_gwMsgID t :: X) F w ∧ task_ok w t)
    (modify (λ w, set_forwardCh (w_forwardCh w ++ [t]) w)) (λ _, I X F).
Proof.
  intros w [Hw Ht]. eapply I_done.
  - split; [|apply Hw]. destruct Hw as [Hi HF']. destruct Hi. split; try done.
    + intros t' [Hin| ->%list_elem_of_singleton]%elem_of_app; [by apply i_tasks0|exact Ht].
    + intros gw' c' r' Ho'. destruct (i_live0 gw' c' r' Ho') as [?|[(t' & Hin & Hg)|Hl]]; [by left|right..].
      * left. exists t'. split; [|done]. cbn. apply elem_of_app. by left.
      * by right.
  - left. exists t. split; [|done]. cbn. apply elem_of_app. right. by left.
Qed.

(** Or it stays in hand. *)
Lemma h_offer_task t X F :
  hoare (λ w, I (ft_gwMsgID t :: X) F w ∧ task_ok w t) (offer_task cfg t)
    (λ (ok : bool) w, if ok then I X F w else I (ft_gwMsgID t :: X) F w).
Proof.
  unfold offer_task. apply hoare_bind with (λ _ w, I (ft_gwMsgID t :: X) F w ∧ task_ok w t); [by intros w Hw|].
  intros queued. case_decide; [|by intros w [Hw _]]. hstep; [apply h_push_task|]. by intros w Hw.
Qed.

Lemma h_answer c connID seqNum body src dst X F : json_string connID = connID →
  hoare (λ w, I X F w ∧ w_msgSeq w < 2 ^ 64 - 1 ∧ session_of c connID w)
    (answer_submit c connID seqNum body src dst)
    (λ t w, I (ft_gwMsgID t :: X) F w ∧ task_ok w t ∧ owned w (ft_gwMsgID t) connID).
Proof.
  intros Hj. unfold answer_submit. hstep.
  { apply h_framed; [|by case_decide]. case_decide; [apply h_ret|by apply h_modify_same]. }
  hstep; [apply h_next_seq|]. cbv zeta. fold (gw_id a).
  apply hoare_bind with (λ _ w, I X F w ∧ session_of c connID w ∧ a = w_msgSeq w ∧ 0 < a ∧
    gw_id a ∉ omap accepted_id (w_events w)).
  { destruct c as [r|]; [|by intros w Hw]. intros w (Hw & Hc & Hrest).
    pose proof (h_conn_do r (SendSubmitSMResp seqNum StatusOK (gw_id a)) X F (sendResponse_keeps _ _ _ _) w Hw) as Hw'.
    split; [exact Hw'|]. split; [|exact Hrest]. unfold session_of.
    destruct (framed_conn_do r (SendSubmitSMResp seqNum StatusOK (gw_id a)) (sendResponse_keeps _ _ _ _) w) as [_ ->].
    exact Hc. }
  intros _. hstep; [by apply h_accepted|]. set (F' := EvAccepted (gw_id a) connID c :: F).
  hstep; [apply h_framed; [apply h_add_totals|done]|].
  hstep; [apply h_framed; [apply h_Now|apply framed_Now]|].
  hstep; [apply h_framed; [apply (h_gw_set _ _ c); [done|by left]|done]|].
  hstep.
  { apply h_framed; [|apply framed_store_at].
    apply (h_store_at (λ t, OpStoreSubmit (mkSubmitRecord (gw_id a) [] connID seqNum dst src body t))).
    - intros t _. split; [done|]. left. by intros [?|?].
    - intros t w Hw v ->. change (owned w (json_string (gw_id a)) (json_string connID)).
      apply (owned_json _ _ _ _ (proj1 Hw)). eapply (accepted_owned _ F'); [by left|exact Hw]. }
  hstep; [apply h_framed; [apply h_log_message|apply framed_store_at]|].
  intros w (Hw & _ & Hc). cbn [mret M_ret fst snd ft_gwMsgID]. split.
  - eapply I_sub; [exact Hw|apply list_subseteq_cons; reflexivity|done].
  - split; [eapply (accepted_task _ F' connID); [by left|exact Hw|exact Hc]|eapply (accepted_owned _ F'); [by left|exact Hw]].
Qed.

Lemma rate_gate_keeps t now cn :
  cn_ID (rate_gate t now cn).1 = cn_ID cn ∧ cn_SystemID (rate_gate t now cn).1 = cn_SystemID cn ∧
  cn_bound (rate_gate t now cn).1 = cn_bound cn.
Proof. unfold rate_gate, RecordSubmit. by repeat case_decide. Qed.

(** Writing back a session that was read and changed. *)
Lemma h_write_back (f : Connection → Connection) r cn B c connID X F :
  keeps_identity f →
  hoare (λ w, (I X F w ∧ w_msgSeq w < B ∧ session_of c connID w) ∧ sv_get (w_server w) r = Some cn)
    (conn_do r (λ _, f cn)) (λ _ w, I X F w ∧ w_msgSeq w < B ∧ session_of c connID w).
Proof.
  intros Hf w [Hw Hcn]. unfold conn_do, modify. cbn [snd]. rewrite (sv_alter_const f cn r) by done.
  by apply (h_framed (conn_do r f) B c connID X F F (h_conn_do r f X F Hf) (framed_conn_do r f Hf) w).
Qed.

Lemma h_admit c cc B connID X F :
  hoare (λ w, I X F w ∧ w_msgSeq w < B ∧ session_of c connID w) (admit_rate cfg c cc)
    (λ _ w, I X F w ∧ w_msgSeq w < B ∧ session_of c connID w).
Proof.
  unfold admit_rate. destruct c as [r|]; [|by intros w Hw].
  hstep; [apply h_framed; [apply h_Now|apply framed_Now]|].
  apply hoare_bind with (λ cn w, (I X F w ∧ w_msgSeq w < B ∧ session_of (Some r) connID w) ∧ sv_get (w_server w) r = cn).
  { by intros w Hw. }
  intros [cn|]; [|by intros w [Hw _]].
  destruct (rate_gate (effective_TPS cfg cc) (a `div` Second) cn) as [cn' ok] eqn:E.
  apply hoare_bind with (λ _ w, I X F w ∧ w_msgSeq w < B ∧ session_of (Some r) connID w); [|by intros _ w Hw].
  apply hoare_conseq with (P' := λ w, (I X F w ∧ w_msgSeq w < B ∧ session_of (Some r) connID w) ∧ sv_get (w_server w) r = Some cn)
    (Q' := λ _ w, I X F w ∧ w_msgSeq w < B ∧ session_of (Some r) connID w); [|done|done].
  pose proof (h_write_back (λ cn, (rate_gate (effective_TPS cfg cc) (a `div` Second) cn).1) r cn B (Some r) connID X F) as Hwb.
  cbv beta in Hwb. rewrite E in Hwb. cbn [fst] in Hwb. apply Hwb. intros c. apply rate_gate_keeps.
Qed.

(** A submit of a session whose ID JSON keeps: the task is in hand. *)
Lemma h_admit_submit connID seqNum body X F : json_string connID = connID →
  hoare (λ w, I X F w ∧ w_msgSeq w < 2 ^ 64 - 1) (admit_submit cfg connID seqNum body)
    (λ o w, match o with
            | Some t => I (ft_gwMsgID t :: X) F w ∧ task_ok w t ∧ owned w (ft_gwMsgID t) connID
            | None => I X F w
            end).
Proof.
  intros Hj. unfold admit_submit. destruct (ParseSubmitSMAddresses body) as [src dst].
  apply hoare_bind with (λ c w, I X F w ∧ w_msgSeq w < 2 ^ 64 - 1 ∧ session_of c connID w).
  { intros w [Hw Hn]. split; [exact Hw|]. split; [exact Hn|]. unfold gets, session_of, conn_id, GetConnection. cbn [fst snd].
    intros Hst. destruct (sv_conns (w_server w) !! connID) as [r|] eqn:Er; [|by right].
    destruct (i_reg _ _ (proj1 Hw) Hst _ _ Er) as (cn & Hcn & Hb & Hi). rewrite Hcn, Hb. cbn [mbind option_bind].
    rewrite Hcn. by left. }
  assert (∀ c st b B, hoare (λ w, I X F w ∧ w_msgSeq w < 2 ^ 64 - 1 ∧ session_of c connID w)
    (reject_submit c connID seqNum st b dst;; mret None) (λ o w, match o with
      | Some t => I (ft_gwMsgID t :: X) F w ∧ task_ok w t ∧ B w t | None => I X F w end)) as Hrej.
  { intros c st b B. hstep; [apply h_reject|]. by intros w Hw. }
  intros c. hstep; [apply h_framed; [apply h_gets|done]|].
  destruct (source_policy a body src) as [[body' src']|]; [|apply Hrej].
  hstep; [apply h_framed; [apply h_gets|done]|].
  destruct a0; [apply Hrej|]. destruct (negb (prefix_allowed a dst)); [apply Hrej|].
  hstep; [apply h_admit|]. destruct a0; cbn [negb].
  - hstep; [by apply h_answer|]. by intros w Hw.
  - hstep; [apply h_framed; [apply h_add_totals|done]|]. apply Hrej.
Qed.

(** *** Expiry *)

Lemma cleanup_map_sub cutoff (m : ShardMap correlation) :
  sm_ok m → sm_ok (cleanup_map cutoff m) ∧
  ∀ k c, ShardMap_Get (cleanup_map cutoff m) k = Some c → ShardMap_Get m k = Some c.
Proof.
  unfold cleanup_map. generalize (expired_keys cutoff m). intros ks. revert m.
  induction ks as [|k ks IH]; intros m Hm; [done|]. cbn [foldl].
  destruct (IH (ShardMap_Delete m k) (sm_ok_Delete _ _ Hm)) as [Hok Hsub]. split; [done|].
  intros k' c Hc. apply Hsub in Hc. rewrite ShardMap_Get_Delete in Hc by done. by case_decide.
Qed.

Lemma h_CleanupCorrelations maxAge X F : hoare (I X F) (CleanupCorrelations maxAge) (λ _, I X F).
Proof.
  unfold CleanupCorrelations. hstep; [apply h_Now|]. apply hoare_bind with (λ _, I X F).
  - intros w [Hi HF]. split; [|exact HF]. destruct Hi. destruct i_maps0 as [Hm1 Hm2].
    destruct (cleanup_map_sub (a - maxAge) _ Hm1) as [Hok Hsub]. split; try done.
    intros id co Hco. by apply (i_smsc0 id), Hsub.
  - intros _ w [Hi HF]. split; [|exact HF]. destruct Hi. destruct i_maps0 as [Hm1 Hm2].
    destruct (cleanup_map_sub (a - maxAge) _ Hm2) as [Hok Hsub]. split; try done.
    intros id co Hco. by apply (i_gw0 id), Hsub.
Qed.

(** *** Callback retries *)

Lemma h_retry_callback k cb X F : ns_prefix NsCallbackRetry `prefix_of` k →
  hoare (I X F) (retry_callback (k, cb)) (λ _, I X F).
Proof.
  intros [x ->]. unfold retry_callback, get_callback, store_get. cbn [fst snd].
  hstep; [by apply (h_delete_key NsCallbackRetry)|]. hstep; [apply h_gets|].
  destruct a as [cb'|]; [|apply h_ret]. hstep; [apply h_now|]. apply hoare_pure. intros _.
  hstep; [apply h_post|].
  match goal with |- hoare _ (if ?b then _ else _) _ => destruct b end; [by apply h_delete_key|apply h_enqueue_callback].
Qed.

Lemma due_callbacks_prefix now (s : MessageStore (DB := DB)) :
  Forall (λ e, ns_prefix NsCallbackRetry `prefix_of` e.1) (due_callbacks now s).
Proof.
  unfold due_callbacks, ScanPrefix.
  change (prefixUpperBound (str "callback-retry:")) with (prefixUpperBound (str "callback-retry" ++ [58])).
  rewrite prefixUpperBound_snoc by lia.
  assert (Forall (λ e : bytes * doc, ns_prefix NsCallbackRetry `prefix_of` e.1)
    (kv_range (str "callback-retry:") (Some (str "callback-retry" ++ [58 + 1])) (st_db s))) as Hall.
  { apply Forall_forall. intros [k v] (_ & Hlo & Hhi)%kv_range_elem. cbn [fst]. simpl in Hhi.
    by apply (prefix_lt_bound (str "callback-retry") 58). }
  revert Hall. generalize (kv_range (str "callback-retry:") (Some (str "callback-retry" ++ [58 + 1])) (st_db s)).
  intros l Hall. assert (Forall (λ e : bytes * CallbackRecord, ns_prefix NsCallbackRetry `prefix_of` e.1) []) as Hacc by constructor.
  match goal with |- context [scan_loop ?f l _] => set (step := f) end.
  revert Hacc. generalize (@nil (bytes * CallbackRecord)). induction Hall as [|[k v] l Hk _ IH]; intros acc Hacc; [done|].
  cbn [scan_loop]. unfold step at 1. destruct (un_callback v) as [cb|]; [|by apply IH]. case_decide; [|by apply IH].
  apply IH. apply Forall_app. by repeat constructor.
Qed.

Lemma h_drainCallbackRetries X F : hoare (I X F) drainCallbackRetries (λ _, I X F).
Proof.
  unfold drainCallbackRetries. hstep; [apply h_now|]. apply hoare_pure. intros _.
  apply hoare_bind with (λ due w, I X F w ∧ Forall (λ e : bytes * CallbackRecord, ns_prefix NsCallbackRetry `prefix_of` e.1) (default [] due)).
  { intros w Hw. split; [exact Hw|]. unfold store_get, gets. cbn [fst].
    destruct (w_store w) as [s|]; [|constructor]. apply due_callbacks_prefix. }
  intros due. apply hoare_pure. intros Hdue.
  apply hoare_conseq with (P' := λ w, I X F w ∧ Forall (λ e : bytes * CallbackRecord, ns_prefix NsCallbackRetry `prefix_of` e.1) (default [] due))
    (Q' := λ _ w, I X F w ∧ Forall (λ e : bytes * CallbackRecord, ns_prefix NsCallbackRetry `prefix_of` e.1) []); [|done|by intros _ w [Hw _]].
  apply (hoare_mapM retry_callback (default [] due)
    (λ l w, I X F w ∧ Forall (λ e : bytes * CallbackRecord, ns_prefix NsCallbackRetry `prefix_of` e.1) l)).
  intros [k cb] l. apply hoare_pure. intros [Hk Hl]%Forall_cons w Hw. split; [|done]. by apply (h_retry_callback k cb X F).
Qed.

End inv.
