(* ===== verification/RestApi.v ===== *)
(** * The REST API (gateway/rest_api.go)

    Messages submitted over HTTP, one by one or in batches, and the query for what became
    of one.  A request is given as encoding/json decodes it, [None] when it does not;
    an answer is its status code and the value that is encoded.  The routes and the
    middleware that checks the API key are in [Accounts]. *)

From S2P Require Import Prelude Constants Connection ShardMap SliceSort PoolManager.
From S2P Require Import RouteTable Dlr Documents Format Store Server Gateway Callback.
From S2P Require Import Router RouterInv.

Local Open Scope Z_scope.

Record SMSSubmitRequest := mkSMSRequest {
  rq_To : bytes; rq_From : bytes; rq_Body : bytes; rq_Encoding : bytes; rq_CallbackURL : bytes;
  rq_Reference : bytes; rq_RegisteredDelivery : option bool
}.

Record SMSSubmitResponse := mkSMSResponse {
  rs_ID : bytes; rs_Status : bytes; rs_To : bytes; rs_Reference : bytes
}.

Record SMSBatchRequest := mkSMSBatch {
  bq_Messages : list SMSSubmitRequest; bq_CallbackURL : bytes; bq_ReferencePrefix : bytes
}.

Definition StatusOK_http : Z := 200.
Definition StatusAccepted : Z := 202.
Definition StatusBadRequest : Z := 400.
Definition StatusNotFound : Z := 404.

(** The value of an answer: an error, one result or several, or the fields of a map. *)
Inductive rest_value :=
| RError (msg : bytes)
| RSubmitted (r : SMSSubmitResponse)
| RBatch (rs : list SMSSubmitResponse)
| RFields (fields : list (bytes * bytes)).

Record rest_answer := writeJSON { ra_status : Z; ra_value : rest_value }.

Section rest.
Context {DB : Type} `{!KV DB} `{!Zone} {PM : Type} `{!PoolView PM} `{!SliceSort} `{!Env}.
Context (cfg : RouterConfig).
#[local] Abbreviation Act := (M DB PM).
#[local] Abbreviation World := (Router DB PM).

Definition nextMsgID : Act bytes := n ← next_seq; mret (str "GW-" ++ itoa n).

(** What the single and the batch handler do with a message. *)
Definition rest_submit (m : SMSSubmitRequest) : Act SMSSubmitResponse :=
  gwMsgID ← nextMsgID;
  emit (EvAccepted gwMsgID rest_api None);;
  let rawBody := BuildSubmitSMBody (rq_From m) (rq_To m) (rq_Body m) in
  t ← Now;
  modify (λ w, set_gwCorr (ShardMap_Set (w_gwCorr w) gwMsgID (mkCorr gwMsgID rest_api (rq_To m) t)) w);;
  store_at (λ t, StoreSubmit (mkSubmitRecord gwMsgID [] rest_api 0 (rq_To m) (rq_From m) rawBody t));;
  store_at (λ t, SetMessageStatus
    (mkMessageStatus gwMsgID (rq_To m) (rq_From m) (rq_Reference m) (str "accepted") [] [] t));;
  (if decide (rq_CallbackURL m = []) then mret tt
   else store_do (SetJSON (callback_key gwMsgID)
          (json_callback (mkCallback gwMsgID (rq_CallbackURL m) (rq_Reference m) 0 zero_time))));;
  queued ← gets (λ w, zlen (w_forwardCh w));
  (if decide (queued < rc_queueSize cfg) then
     modify (λ w, set_forwardCh (w_forwardCh w ++ [mkTask None gwMsgID (rq_To m) (rq_From m) rawBody]) w)
   else enqueueSubmitRetryOrFail cfg gwMsgID rest_api (rq_To m) (rq_From m) rawBody 0);;
  mret (mkSMSResponse gwMsgID (str "accepted") (rq_To m) (rq_Reference m)).

Definition HandleHTTPSubmit (body : option SMSSubmitRequest) : Act rest_answer :=
  match body with
  | None => mret (writeJSON StatusBadRequest (RError (str "invalid JSON")))
  | Some body =>
      if decide (rq_To body = [] ∨ rq_Body body = []) then
        mret (writeJSON StatusBadRequest (RError (str "to and body are required")))
      else
        r ← rest_submit body;
        mret (writeJSON StatusAccepted (RSubmitted r))
  end.

(** The defaults a batch gives its i-th message. *)
Definition batch_message (batch : SMSBatchRequest) (i : Z) (m : SMSSubmitRequest) : SMSSubmitRequest :=
  mkSMSRequest (rq_To m) (rq_From m) (rq_Body m) (rq_Encoding m)
    (if decide (rq_CallbackURL m = []) then bq_CallbackURL batch else rq_CallbackURL m)
    (if decide (rq_Reference m = [] ∧ bq_ReferencePrefix batch ≠ [])
     then bq_ReferencePrefix batch ++ str "-" ++ itoa i else rq_Reference m)
    (rq_RegisteredDelivery m).

Fixpoint submit_each (batch : SMSBatchRequest) (i : Z) (ms : list SMSSubmitRequest) : Act (list SMSSubmitResponse) :=
  match ms with
  | [] => mret []
  | m :: ms =>
      r ← rest_submit (batch_message batch i m);
      rs ← submit_each batch (i + 1) ms;
      mret (r :: rs)
  end.

Definition HandleHTTPBatchSubmit (body : option SMSBatchRequest) : Act rest_answer :=
  match body with
  | None => mret (writeJSON StatusBadRequest (RError (str "invalid JSON")))
  | Some batch =>
      if decide (bq_Messages batch = []) then
        mret (writeJSON StatusBadRequest (RError (str "messages array is empty")))
      else if decide (1000 < zlen (bq_Messages batch)) then
        mret (writeJSON StatusBadRequest (RError (str "max 1000 messages per batch")))
      else
        rs ← submit_each batch 0 (bq_Messages batch);
        mret (writeJSON StatusAccepted (RBatch rs))
  end.

Definition opt_field (name v : bytes) : list (bytes * bytes) := if decide (v = []) then [] else [(name, v)].

Definition status_fields (id : bytes) (st : MessageStatus) : list (bytes * bytes) :=
  [(str "id", id); (str "status", ms_Status st); (str "to", ms_To st)] ++
  opt_field (str "from") (ms_From st) ++ opt_field (str "reference") (ms_Reference st) ++
  opt_field (str "dlr_status") (ms_DLRStatus st) ++ opt_field (str "smsc_msg_id") (ms_SmscMsgID st).

(** The status record, then the record of the submit, then the correlation in memory. *)
Definition HandleHTTPQuery (id : bytes) (w : World) : rest_answer :=
  if decide (id = []) then writeJSON StatusBadRequest (RError (str "id required"))
  else
    match s ← w_store w; got_opt (GetMessageStatus id s) with
    | Some st => writeJSON StatusOK_http (RFields (status_fields id st))
    | None =>
        match s ← w_store w; got_opt (GetSubmitByGwID id s) with
        | Some record => writeJSON StatusOK_http
            (RFields [(str "id", id); (str "status", str "pending"); (str "to", sr_MSISDN record)])
        | None =>
            match ShardMap_Get (w_gwCorr w) id with
            | Some corr => writeJSON StatusOK_http
                (RFields [(str "id", id); (str "status", str "submitted"); (str "to", co_MSISDN corr)])
            | None => writeJSON StatusNotFound (RError (str "message not found"))
            end
        end
    end.

End rest.

(** ** The invariant *)

Section rest_inv.
Context {DB : Type} `{!KV DB, !KVLaws DB} `{!Zone} {PM : Type} `{!PoolView PM} `{!SliceSort} `{!Env}.
Context (cfg : RouterConfig).
#[local] Abbreviation World := (Router DB PM).
#[local] Abbreviation Act := (M DB PM).
Context (clock_ok : ∀ n, 0 <= env_clock n < 2 ^ 63).
Context (steady : Prop).
#[local] Abbreviation I := (I (DB := DB) (PM := PM) cfg steady).

(** Actions that leave the counter of IDs. *)
Definition seq_kept {A} (m : Act A) : Prop := ∀ w, w_msgSeq (m w).2 = w_msgSeq w.

Lemma seq_bind {A B} (m : Act A) (f : A → Act B) : seq_kept m → (∀ a, seq_kept (f a)) → seq_kept (m ≫= f).
Proof.
  intros Hm Hf w. unfold mbind, M_bind. specialize (Hm w). destruct (m w) as [a w']. cbn [snd] in Hm.
  by rewrite (Hf a w').
Qed.

Ltac seq_tac := repeat first
  [ done | apply seq_bind; [|let a := fresh "a" in intros a] | case_decide
  | match goal with |- seq_kept (match ?x with _ => _ end) => destruct x end ].

Lemma seq_store_at f : seq_kept (store_at f).
Proof. unfold store_at, Now, tick, has_store. seq_tac. Qed.

Lemma seq_deliver d c b : seq_kept (deliver d c b).
Proof.
  unfold deliver, tick. seq_tac.
Qed.

Lemma seq_enqueue_or_fail gw c dst src body n : seq_kept (enqueueSubmitRetryOrFail cfg gw c dst src body n).
Proof.
  unfold enqueueSubmitRetryOrFail, sendSyntheticDLR, deliverWithGrace, deliverDLRCallback, enqueueCallbackRetry,
    buffer_deliver, postCallback, round_robin, Now, tick, has_store, emit, get_callback, store_get.
  seq_tac; first [apply seq_store_at|apply seq_deliver].
Qed.

Lemma hoare_seq {A} (m : Act A) (P : World → Prop) (Q : A → World → Prop) B :
  hoare P m Q → seq_kept m → hoare (λ w, P w ∧ w_msgSeq w < B) m (λ a w, Q a w ∧ w_msgSeq w < B).
Proof. intros Hm Hs w [Hw Hn]. split; [by apply Hm|by rewrite Hs]. Qed.

Lemma h_nextMsgID N X F : N < 2 ^ 64 →
  hoare (λ w, I X F w ∧ w_msgSeq w < N) (nextMsgID (DB := DB) (PM := PM))
    (λ gw w, (∃ n, gw = gw_id n ∧ I X F w ∧ session_of steady None rest_api w ∧ n = w_msgSeq w ∧ 0 < n ∧
       gw_id n ∉ omap accepted_id (w_events w)) ∧ w_msgSeq w < N + 1).
Proof.
  intros HN w [Hw Hn]. pose proof (i_seq _ _ _ _ (proj1 Hw)) as Hr.
  destruct (h_next_seq cfg steady None rest_api X F w) as (Hw' & Hc & Hn' & Hp & Hf).
  { split; [done|]. split; [lia|by intros _; right]. }
  unfold nextMsgID, mbind, M_bind. destruct (next_seq w) as [n w'] eqn:E. cbn [fst snd] in *. split.
  - exists n. done.
  - assert (w' = (next_seq w).2) as -> by (by rewrite E). unfold next_seq, gets, modify, mbind, M_bind. cbn.
    rewrite u64_id by lia. lia.
Qed.

Lemma json_rest_api : json_string rest_api = rest_api.
Proof. reflexivity. Qed.

Lemma h_queue_rest gw dst src body X F : EvAccepted gw rest_api None ∈ F →
  hoare (I (gw :: X) F) (modify (λ w, set_forwardCh (w_forwardCh w ++ [mkTask None gw dst src body]) w)) (λ _, I X F).
Proof.
  intros HF w Hw. apply (h_push_task cfg steady (mkTask None gw dst src body) X F). split; [exact Hw|].
  eapply (accepted_task cfg steady _ F rest_api); [exact HF|exact Hw|by intros _; right].
Qed.

Lemma h_rest_submit m N X F : N < 2 ^ 64 →
  hoare (λ w, I X F w ∧ w_msgSeq w < N) (rest_submit cfg m) (λ _ w, I X F w ∧ w_msgSeq w < N + 1).
Proof.
  intros HN. unfold rest_submit. hstep; [by apply h_nextMsgID|]. cbv beta.
  apply hoare_conseq with
    (P' := λ w, ∃ n, ((I X F w ∧ session_of steady None rest_api w ∧ n = w_msgSeq w ∧ 0 < n ∧
       gw_id n ∉ omap accepted_id (w_events w)) ∧ w_msgSeq w < N + 1) ∧ a = gw_id n)
    (Q' := λ _ w, I X F w ∧ w_msgSeq w < N + 1);
    [|by intros w [(n & Ha & Hw) Hn]; exists n|done].
  apply hoare_ex. intros n. apply hoare_pure. intros ->. cbv zeta.
  set (e := EvAccepted (gw_id n) rest_api None).
  assert (∀ w, I (gw_id n :: X) (e :: F) w → owned steady w (gw_id n) rest_api) as Ho.
  { intros w. apply (accepted_owned cfg steady _ (e :: F) rest_api _ None). by left. }
  apply hoare_bind with (λ _ w, I (gw_id n :: X) (e :: F) w ∧ w_msgSeq w < N + 1).
  { apply (hoare_seq _ _ (λ _ w, I (gw_id n :: X) (e :: F) w)); [|done]. intros w Hw.
    apply (h_accepted cfg clock_ok steady None rest_api n X F json_rest_api w Hw). }
  intros []. hstep; [apply hoare_seq; [apply (h_Now cfg clock_ok steady)|done]|].
  hstep; [apply hoare_seq; [apply (h_gw_set cfg steady _ _ None); [done|by left]|done]|].
  hstep.
  { apply hoare_seq; [|apply seq_store_at].
    apply (h_store_at cfg clock_ok steady (λ t, OpStoreSubmit (mkSubmitRecord (gw_id n) [] rest_api 0 (rq_To m) (rq_From m)
      (BuildSubmitSMBody (rq_From m) (rq_To m) (rq_Body m)) t))).
    - intros t _. split; [done|]. left. by intros [?|?].
    - intros t w Hw v ->. change (owned steady w (json_string (gw_id n)) (json_string rest_api)).
      by eapply owned_json, Ho; [exact (proj1 Hw)|]. }
  hstep; [apply hoare_seq; [by apply h_set_status|apply seq_store_at]|].
  hstep.
  { apply hoare_seq; [|by case_decide]. case_decide; [apply h_ret|by apply h_set_callback; left]. }
  hstep; [apply hoare_seq; [apply h_gets|done]|].
  apply hoare_bind with (λ _ w, I X (e :: F) w ∧ w_msgSeq w < N + 1).
  - case_decide; (apply hoare_seq; [|first [done|apply seq_enqueue_or_fail]]).
    + apply h_queue_rest. by left.
    + by apply h_enqueue_or_fail.
  - intros [] w [Hw Hn]. split; [|exact Hn]. eapply I_sub; [exact Hw|apply list_subseteq_cons; reflexivity|done].
Qed.

Lemma h_submit_each batch ms : ∀ i N X F, N + zlen ms <= 2 ^ 64 →
  hoare (λ w, I X F w ∧ w_msgSeq w < N) (submit_each cfg batch i ms) (λ _ w, I X F w).
Proof.
  induction ms as [|m ms IH]; intros i N X F HN; [by intros w [Hw _]|]. unfold zlen in *. cbn [submit_each length] in *.
  hstep; [apply h_rest_submit; lia|]. hstep; [apply IH; unfold zlen; lia|]. by intros w Hw.
Qed.

(** The invariant through both handlers, while IDs last. *)
Lemma h_HandleHTTPSubmit body X F :
  hoare (λ w, I X F w ∧ w_msgSeq w < 2 ^ 64 - 1) (HandleHTTPSubmit cfg body) (λ _, I X F).
Proof.
  destruct body as [m|]; [|by intros w [Hw _]]. cbn [HandleHTTPSubmit]. case_decide; [by intros w [Hw _]|].
  hstep; [by apply (h_rest_submit m (2 ^ 64 - 1))|]. by intros w [Hw _].
Qed.

Lemma h_HandleHTTPBatchSubmit body X F :
  hoare (λ w, I X F w ∧ w_msgSeq w < 2 ^ 64 - 1000) (HandleHTTPBatchSubmit cfg body) (λ _, I X F).
Proof.
  destruct body as [b|]; [|by intros w [Hw _]]. cbn [HandleHTTPBatchSubmit].
  case_decide; [by intros w [Hw _]|]. case_decide; [by intros w [Hw _]|].
  hstep; [apply (h_submit_each b (bq_Messages b) 0 (2 ^ 64 - 1000)); lia|]. by intros w Hw.
Qed.

(** ** A submit and the query for it *)

(** Whether there is a store, the queue, the counter, and what the store and the
    correlation map say of a message. *)
Definition rest_view (h : bool) (q : list forwardTask) (n : Z) (φ : option (MessageStore (DB := DB)) → Prop)
    (ψ : ShardMap correlation → Prop) (w : World) : Prop :=
  bool_decide (is_Some (w_store w)) = h ∧ w_forwardCh w = q ∧ w_msgSeq w = n ∧ φ (w_store w) ∧ ψ (w_gwCorr w).

Lemma is_Some_fmap_bool {A B} (f : A → B) o : bool_decide (is_Some (f <$> o)) = bool_decide (is_Some o).
Proof. by destruct o. Qed.

Lemma rv_store_do (f : MessageStore → MessageStore) h q n φ φ' ψ :
  (∀ o, φ o → φ' (f <$> o)) → hoare (rest_view h q n φ ψ) (store_do f) (λ _, rest_view h q n φ' ψ).
Proof.
  intros Hf w (Hh & Hq & Hn & Hs & Hg). unfold rest_view, store_do, modify. cbn [snd w_store set_store w_forwardCh w_msgSeq w_gwCorr].
  rewrite is_Some_fmap_bool. split_and!; auto.
Qed.

Lemma rv_store_at (f : Z → MessageStore → MessageStore) h q n φ φ' ψ :
  (∀ o t, φ o → φ' (f t <$> o)) → hoare (rest_view h q n φ ψ) (store_at f) (λ _, rest_view h q n φ' ψ).
Proof.
  intros Hf. unfold store_at. apply hoare_bind with (λ b w, rest_view h q n φ ψ w ∧ b = bool_decide (is_Some (w_store w))).
  { by intros w Hw. }
  intros [|].
  - hstep; [instantiate (1 := λ _, rest_view h q n φ ψ); by intros w [Hw _]|]. apply rv_store_do. intros o. apply Hf.
  - intros w [(Hh & Hq & Hn & Hs & Hg) Hb]. symmetry in Hb. apply bool_decide_eq_false, eq_None_not_Some in Hb.
    split_and!; try done. specialize (Hf _ 0 Hs). cbn [mret M_ret snd]. by rewrite Hb in *.
Qed.

Lemma rv_unseen {A} (m : Act A) h q n φ ψ :
  (∀ w, w_forwardCh (m w).2 = w_forwardCh w ∧ w_msgSeq (m w).2 = w_msgSeq w ∧ w_store (m w).2 = w_store w ∧
     w_gwCorr (m w).2 = w_gwCorr w) →
  hoare (rest_view h q n φ ψ) m (λ _, rest_view h q n φ ψ).
Proof. intros Hm w Hw. destruct (Hm w) as (E1 & E2 & E3 & E4). unfold rest_view. by rewrite E1, E2, E3, E4. Qed.

Lemma rv_gw (f : ShardMap correlation → ShardMap correlation) h q n φ (ψ ψ' : ShardMap correlation → Prop) :
  (∀ g, ψ g → ψ' (f g)) →
  hoare (rest_view h q n φ ψ) (modify (λ w, set_gwCorr (f (w_gwCorr w)) w)) (λ _, rest_view h q n φ ψ').
Proof. intros Hf w (Hh & Hq & Hn & Hs & Hg). split_and!; try done. by apply Hf. Qed.

(** A status record, wherever there is a store. *)
Definition says (gw : bytes) (m : SMSSubmitRequest) (ref status dlr : bytes)
    (o : option (MessageStore (DB := DB))) : Prop :=
  ∀ s, o = Some s → ∃ t, kv_get (st_db s) (key NsStatus gw) =
    Some (json_status (mkMessageStatus gw (rq_To m) (rq_From m) ref status dlr [] t)).

(** Pending in the retry queue, for the first time. *)
Definition retry_stored (gw : bytes) (m : SMSSubmitRequest) (o : option (MessageStore (DB := DB))) : Prop :=
  ∀ s, o = Some s → ∃ t, kv_get (st_db s) (submit_retry_key t gw) = Some (json_pending_submit
    (mkPendingSubmit gw rest_api (rq_To m) (rq_From m) (BuildSubmitSMBody (rq_From m) (rq_To m) (rq_Body m)) 1 t)).

Lemma says_other (f : MessageStore → MessageStore) gw m ref st dlr o :
  (∀ s, kv_get (st_db (f s)) (key NsStatus gw) = kv_get (st_db s) (key NsStatus gw)) →
  says gw m ref st dlr o → says gw m ref st dlr (f <$> o).
Proof. intros Hf Ho s' (s & Hs & ->)%fmap_Some. rewrite Hf. by apply Ho. Qed.

Lemma says_Set k v gw m ref st dlr o : (∃ n x, n ≠ NsStatus ∧ k = key n x) →
  says gw m ref st dlr o → says gw m ref st dlr (SetJSON k v <$> o).
Proof.
  intros (n & x & Hn & ->). apply says_other. intros s. unfold SetJSON. rewrite get_db_Set, decide_False; [done|].
  intros E. by apply key_inj in E as [-> _].
Qed.

Lemma says_Delete k gw m ref st dlr o : (∃ n x, n ≠ NsStatus ∧ k = key n x) →
  says gw m ref st dlr o → says gw m ref st dlr (DeleteKey k <$> o).
Proof.
  intros (n & x & Hn & ->). apply says_other. intros s. unfold DeleteKey. rewrite get_db_Delete, decide_False; [done|].
  intros E. by apply key_inj in E as [-> _].
Qed.

Lemma says_SetStatus gw m ref st dlr t o :
  says gw m ref st dlr (SetMessageStatus (mkMessageStatus gw (rq_To m) (rq_From m) ref st dlr [] t) <$> o).
Proof.
  intros s' (s & Hs & ->)%fmap_Some. exists t. unfold SetMessageStatus, SetJSON. rewrite get_db_Set. by rewrite decide_True.
Qed.

(** A callback changes no status. *)
Lemma rv_dlr_callback gw' st dst src h q n gw m ref s dlr ψ :
  hoare (rest_view h q n (says gw m ref s dlr) ψ) (deliverDLRCallback gw' st dst src)
    (λ _, rest_view h q n (says gw m ref s dlr) ψ).
Proof.
  unfold deliverDLRCallback, get_callback, store_get. hstep; [by apply rv_unseen|]. destruct a as [cb|]; [|by intros w Hw].
  hstep; [by apply rv_unseen|]. hstep; [by apply rv_unseen|].
  assert (∀ k v, hoare (rest_view h q n (says gw m ref s dlr) ψ) (store_do (SetJSON (key NsCallback k) v))
    (λ _, rest_view h q n (says gw m ref s dlr) ψ)) as Hset.
  { intros k v. apply rv_store_do. intros o. apply says_Set. by exists NsCallback, k. }
  assert (∀ k, hoare (rest_view h q n (says gw m ref s dlr) ψ) (store_do (DeleteKey (callback_key k)))
    (λ _, rest_view h q n (says gw m ref s dlr) ψ)) as Hdel.
  { intros k. apply rv_store_do. intros o. apply says_Delete. by exists NsCallback, k. }
  match goal with |- hoare _ (if ?b then _ else _) _ => destruct b end; [apply Hdel|].
  unfold enqueueCallbackRetry. case_decide; [apply Hdel|]. case_decide; [by apply rv_unseen|].
  hstep; [by apply rv_unseen|]. cbv zeta.
  apply hoare_bind with (λ _, rest_view h q n (says gw m ref s dlr) ψ); [|intros _; apply Hset].
  apply rv_store_do. intros o. apply says_Set. by eexists NsCallbackRetry, _.
Qed.

Lemma rv_has_store h q n φ ψ :
  hoare (rest_view h q n φ ψ) has_store (λ b w, rest_view h q n φ ψ w ∧ b = h).
Proof. intros w Hw. split; [exact Hw|]. by destruct Hw as [<- _]. Qed.

(** What memory has of a message while it is on its way. *)
Definition remembered (gw : bytes) (m : SMSSubmitRequest) (g : ShardMap correlation) : Prop :=
  sm_ok g ∧ ∃ t, ShardMap_Get g gw = Some (mkCorr gw rest_api (rq_To m) t).

Definition any_store (_ : option (MessageStore (DB := DB))) : Prop := True.

(** A message over HTTP that has failed. *)
Lemma rv_synthetic gw m h q n φ :
  hoare (rest_view h q n φ (remembered gw m)) (sendSyntheticDLR cfg rest_api gw (rq_To m) (rq_From m))
    (λ _, rest_view h q n (says gw m [] (str "failed") (str "UNDELIV")) (λ g, ShardMap_Get g gw = None)).
Proof.
  unfold sendSyntheticDLR. hstep; [by apply rv_unseen|].
  hstep; [by apply (rv_store_at _ _ _ _ _ any_store)|]. rewrite decide_True by done.
  hstep; [apply (rv_store_at _ _ _ _ _ (says gw m [] (str "failed") (str "UNDELIV"))); intros; apply says_SetStatus|].
  apply hoare_bind with (λ _, rest_view h q n (says gw m [] (str "failed") (str "UNDELIV")) (remembered gw m));
    [apply rv_dlr_callback|intros _].
  apply (rv_gw (λ g, ShardMap_Delete g gw) _ _ _ _ (remembered gw m)). intros g [Hok _]. by rewrite ShardMap_Get_Delete, decide_True.
Qed.

(** A message that finds the queue full. *)
Lemma rv_enqueue_or_fail gw m h q n : 
  hoare (rest_view h q n (says gw m (rq_Reference m) (str "accepted") []) (remembered gw m))
    (enqueueSubmitRetryOrFail cfg gw rest_api (rq_To m) (rq_From m) (BuildSubmitSMBody (rq_From m) (rq_To m) (rq_Body m)) 0)
    (λ _ w, if h && bool_decide (0 < rc_maxSubmitRetries cfg)
       then rest_view h q n (λ o, says gw m (rq_Reference m) (str "accepted") [] o ∧ retry_stored gw m o) (remembered gw m) w
       else rest_view h q n (says gw m [] (str "failed") (str "UNDELIV")) (λ g, ShardMap_Get g gw = None) w).
Proof.
  unfold enqueueSubmitRetryOrFail. hstep; [apply rv_has_store|]. apply hoare_pure. intros ->.
  destruct h, (bool_decide (0 < rc_maxSubmitRetries cfg)); cbn [andb]; [|apply rv_synthetic..].
  apply rv_store_at. intros o t Ho. split.
  - apply says_other; [|exact Ho]. intros s. apply (eq_trans (get_db_Set _ _ s _)). rewrite decide_False; [done|].
    intros E. by apply key_inj in E as [? _].
  - intros s' (s & Hs & ->)%fmap_Some. exists t. apply (eq_trans (get_db_Set _ _ s _)). by rewrite decide_True.
Qed.

(** What the request leaves behind. *)
Lemma rest_submit_effect m h q n : 0 <= n < 2 ^ 64 - 1 →
  let gw := gw_id (n + 1) in
  let task := mkTask None gw (rq_To m) (rq_From m) (BuildSubmitSMBody (rq_From m) (rq_To m) (rq_Body m)) in
  hoare (rest_view h q n any_store sm_ok) (rest_submit cfg m) (λ r w,
    r = mkSMSResponse gw (str "accepted") (rq_To m) (rq_Reference m) ∧
    if decide (zlen q < rc_queueSize cfg) then
      rest_view h (q ++ [task]) (n + 1) (says gw m (rq_Reference m) (str "accepted") []) (remembered gw m) w
    else if h && bool_decide (0 < rc_maxSubmitRetries cfg)
    then rest_view h q (n + 1) (λ o, says gw m (rq_Reference m) (str "accepted") [] o ∧ retry_stored gw m o) (remembered gw m) w
    else rest_view h q (n + 1) (says gw m [] (str "failed") (str "UNDELIV")) (λ g, ShardMap_Get g gw = None) w).
Proof.
  intros Hn gw task. unfold rest_submit.
  apply hoare_bind with (λ id w, rest_view h q (n + 1) any_store sm_ok w ∧ id = gw).
  { intros w (Hh & Eq & En & Hs). unfold nextMsgID, next_seq, gets, modify, mbind, M_bind. cbn [fst snd mret M_ret].
    split; [|cbn; rewrite En, u64_id by lia; done].
    split; [exact Hh|]. split; [exact Eq|]. split; [cbn; rewrite En, u64_id by lia; done|exact Hs]. }
  intros id. apply hoare_pure. intros ->.
  hstep; [by apply rv_unseen|]. cbv zeta. hstep; [by apply rv_unseen|].
  hstep.
  { apply (rv_gw (λ g, ShardMap_Set g gw (mkCorr gw rest_api (rq_To m) a)) _ _ _ _ _ (remembered gw m)). intros g Hok.
    split; [by apply sm_ok_Set|]. exists a. by rewrite ShardMap_Get_Set, decide_True. }
  hstep; [by apply (rv_store_at _ _ _ _ _ any_store)|].
  hstep; [apply (rv_store_at _ _ _ _ _ (says gw m (rq_Reference m) (str "accepted") [])); intros; apply says_SetStatus|].
  apply hoare_bind with (λ _, rest_view h q (n + 1) (says gw m (rq_Reference m) (str "accepted") []) (remembered gw m)).
  { case_decide; [by intros w Hw|]. apply rv_store_do. intros o. apply says_Set. by eexists NsCallback, _. }
  intros []. apply hoare_bind with (λ queued w,
    rest_view h q (n + 1) (says gw m (rq_Reference m) (str "accepted") []) (remembered gw m) w ∧ queued = zlen q).
  { intros w Hw. split; [exact Hw|]. by destruct Hw as (_ & <- & _). }
  intros queued. apply hoare_pure. intros ->. case_decide.
  - apply hoare_bind with (λ _, rest_view h (q ++ [task]) (n + 1) (says gw m (rq_Reference m) (str "accepted") []) (remembered gw m)).
    + intros w (Hh & Eq & Hw). split; [exact Hh|]. split; [cbn; by rewrite Eq|exact Hw].
    + intros []. by intros w Hw.
  - hstep; [apply rv_enqueue_or_fail|]. by intros w Hw.
Qed.

(** What the query finds. *)
Lemma query_says gw m ref st dlr (w : World) : gw ≠ [] → is_Some (w_store w) → says gw m ref st dlr (w_store w) →
  HandleHTTPQuery gw w = writeJSON StatusOK_http (RFields
    ([(str "id", gw); (str "status", json_string st); (str "to", json_string (rq_To m))] ++
     opt_field (str "from") (json_string (rq_From m)) ++ opt_field (str "reference") (json_string ref) ++
     opt_field (str "dlr_status") (json_string dlr))).
Proof.
  intros Hne [s Hs] Hw. destruct (Hw s Hs) as [t Ht]. unfold HandleHTTPQuery. rewrite decide_False by done.
  rewrite Hs. cbn [mbind option_bind]. unfold GetMessageStatus, GetJSON, get_as. rewrite Ht. cbn [un_status json_status got_opt].
  unfold status_fields. cbn [ms_Status ms_To ms_From ms_Reference ms_DLRStatus ms_SmscMsgID].
  assert (opt_field (str "smsc_msg_id") (json_string []) = []) as -> by done. by rewrite app_nil_r.
Qed.

Lemma query_storeless gw (w : World) : gw ≠ [] → w_store w = None →
  HandleHTTPQuery gw w = match ShardMap_Get (w_gwCorr w) gw with
    | Some corr => writeJSON StatusOK_http
        (RFields [(str "id", gw); (str "status", str "submitted"); (str "to", co_MSISDN corr)])
    | None => writeJSON StatusNotFound (RError (str "message not found"))
    end.
Proof. intros Hne Hs. unfold HandleHTTPQuery. rewrite decide_False by done. by rewrite Hs. Qed.

(** C39: a message over HTTP.  A complete request is answered 202 with the next gateway
    ID, whatever the queue and the store.  With room in the forward queue the message is
    the last of it, with the body the client library would encode, and a query for the
    ID answers 200: with a store, with status "accepted" and the addresses and reference
    of the request, and without one with status "submitted" and the destination.  With
    the queue full, the queue stays as it is: with a store and retries configured the
    message is in the retry queue for its first retry and a query answers "accepted";
    with a store and no retries it has failed, and a query says so; without a store it
    has failed and is not found.  A request that is not JSON, or has no destination or
    text, is answered 400 and changes nothing. *)
Theorem rest_submit_query body (w : World) :
  0 <= w_msgSeq w < 2 ^ 64 - 1 → sm_ok (w_gwCorr w) →
  let res := HandleHTTPSubmit cfg body w in
  let gw := gw_id (w_msgSeq w + 1) in
  match body with
  | Some m =>
      let task := mkTask None gw (rq_To m) (rq_From m) (BuildSubmitSMBody (rq_From m) (rq_To m) (rq_Body m)) in
      let room := bool_decide (zlen (w_forwardCh w) < rc_queueSize cfg) in
      let retried := bool_decide (0 < rc_maxSubmitRetries cfg) in
      let fields status reference rest := writeJSON StatusOK_http (RFields
        ([(str "id", gw); (str "status", status); (str "to", json_string (rq_To m))] ++
         opt_field (str "from") (json_string (rq_From m)) ++ opt_field (str "reference") (json_string reference) ++ rest)) in
      if decide (rq_To m ≠ [] ∧ rq_Body m ≠ []) then
        res.1 = writeJSON StatusAccepted (RSubmitted (mkSMSResponse gw (str "accepted") (rq_To m) (rq_Reference m))) ∧
        w_forwardCh res.2 = (if room then w_forwardCh w ++ [task] else w_forwardCh w) ∧
        match w_store w with
        | Some _ =>
            HandleHTTPQuery gw res.2 =
              (if room || retried then fields (str "accepted") (rq_Reference m) []
               else fields (str "failed") [] [(str "dlr_status", str "UNDELIV")]) ∧
            (room = false → retried = true → retry_stored gw m (w_store res.2))
        | None =>
            HandleHTTPQuery gw res.2 =
              (if room then writeJSON StatusOK_http
                 (RFields [(str "id", gw); (str "status", str "submitted"); (str "to", rq_To m)])
               else writeJSON StatusNotFound (RError (str "message not found")))
        end
      else res = (writeJSON StatusBadRequest (RError (str "to and body are required")), w)
  | None => res = (writeJSON StatusBadRequest (RError (str "invalid JSON")), w)
  end.
Proof.
  intros Hn Hok. cbv zeta. destruct body as [m|]; [|done]. cbn [HandleHTTPSubmit].
  destruct (decide (rq_To m ≠ [] ∧ rq_Body m ≠ [])) as [[H1' H2']|Hno].
  2: { destruct (decide (rq_To m = [] ∨ rq_Body m = [])) as [|Hn']; [done|]. destruct Hno. tauto. }
  rewrite decide_False by tauto. unfold mbind, M_bind.
  destruct (rest_submit_effect m (match w_store w with Some _ => true | None => false end) (w_forwardCh w) (w_msgSeq w) Hn w)
    as [Hr Hv]; [by split; [destruct (w_store w)|]|].
  destruct (rest_submit cfg m w) as [r w']. cbn [fst snd mret M_ret] in *. subst r. split; [done|].
  assert (gw_id (w_msgSeq w + 1) ≠ []) as Hne by done. revert Hv. generalize (gw_id (w_msgSeq w + 1)), Hne.
  clear Hne. intros gw Hne.
  destruct (decide (zlen (w_forwardCh w) < rc_queueSize cfg)) as [Hroom|Hroom];
    [rewrite (bool_decide_eq_true_2 _ Hroom)|rewrite (bool_decide_eq_false_2 _ Hroom)]; cbn [orb];
    [|destruct (w_store w) as [s|]; cbn [andb]; [destruct (bool_decide (0 < rc_maxSubmitRetries cfg))|]];
    intros (Hh & Hq & _ & Hs & Hg); (split; [exact Hq|]).
  - destruct (w_store w) as [s|]; apply bool_decide_eq_true in Hh || apply bool_decide_eq_false, eq_None_not_Some in Hh.
    + split; [|done]. by rewrite (query_says gw m _ _ _ w' Hne Hh Hs).
    + rewrite query_storeless by done. by destruct Hg as (_ & t & ->).
  - apply bool_decide_eq_true in Hh. destruct Hs as [Hs Hp]. split; [|done]. by rewrite (query_says gw m _ _ _ w' Hne Hh Hs).
  - apply bool_decide_eq_true in Hh. split; [|done]. by rewrite (query_says gw m _ _ _ w' Hne Hh Hs).
  - apply bool_decide_eq_false, eq_None_not_Some in Hh. rewrite query_storeless by done. by rewrite Hg.
Qed.

End rest_inv.

(** ** Example *)

#[local] Existing Instance insertion_SliceSort.

Definition ex_request : SMSSubmitRequest :=
  mkSMSRequest (str "447911") (str "Shop") (str "hello") [] [] (str "order-1") None.

(** With room and a store; and without either, where the message is lost to the query. *)
Lemma rest_submit_query_witness :
  let w : Router (gmap bytes doc) PoolManager := NewRouter (Some (NewMessageStore ∅)) in
  let full := mkRouterConfig 30 0 3 0 0 0 true in
  HandleHTTPQuery (str "GW-1") (HandleHTTPSubmit ex_cfg (Some ex_request) w).2 =
    writeJSON StatusOK_http (RFields [(str "id", str "GW-1"); (str "status", str "accepted");
      (str "to", str "447911"); (str "from", str "Shop"); (str "reference", str "order-1")]) ∧
  w_forwardCh (HandleHTTPSubmit full (Some ex_request) w).2 = [] ∧
  HandleHTTPQuery (str "GW-1") (HandleHTTPSubmit full (Some ex_request)
    (NewRouter None : Router (gmap bytes doc) PoolManager)).2 =
    writeJSON StatusNotFound (RError (str "message not found")).
Proof.
  set (w := NewRouter (Some (NewMessageStore ∅)) : Router (gmap bytes doc) PoolManager). cbv zeta.
  assert (0 <= 0 < 2 ^ 64 - 1) as Hn by lia.
  pose proof (rest_submit_query ex_cfg (Some ex_request) w Hn sm_ok_New) as Hq.
  pose proof (rest_submit_query (mkRouterConfig 30 0 3 0 0 0 true) (Some ex_request) w Hn sm_ok_New) as Hf.
  pose proof (rest_submit_query (mkRouterConfig 30 0 3 0 0 0 true) (Some ex_request)
    (NewRouter None : Router (gmap bytes doc) PoolManager) Hn sm_ok_New) as Hl.
  cbv zeta in Hq, Hf, Hl. cbv beta iota in Hq, Hf, Hl.
  destruct (decide (rq_To ex_request ≠ [] ∧ rq_Body ex_request ≠ [])) as [_|Hno]; [|by destruct Hno].
  split; [exact (proj1 (proj2 (proj2 Hq)))|]. split; [exact (proj1 (proj2 Hf))|]. exact (proj2 (proj2 Hl)).
Defined.
