(* ===== verification/Quiet.v ===== *)
(** * What the handlers leave alone (gateway/router.go, gateway/rest_api.go)

    Most handlers change neither the forward queue nor the ID and the in-flight counter
    of a session ([still]); a submit over HTTP queues a task, but without a session
    ([calm]).  What is left are the few steps of [RouterRun] that queue, count or take
    the message of a session.  The lemmas are hints for composing handlers. *)

From S2P Require Import Prelude Constants Utf8 Pdu Operations Connection ShardMap SliceSort.
From S2P Require Import PoolManager RouteTable Dlr Documents Format Store Server Gateway.
From S2P Require Import Callback Router RouterInv RestApi.

Local Open Scope Z_scope.

Create HintDb still.

(** ** Sessions *)

(** The ID and the counter of every session, by reference. *)
Definition sessions (sv : Server) : list (bytes * Z) := (λ c, (cn_ID c, cn_inFlight c)) <$> sv_heap sv.

Definition keeps_account (f : Connection → Connection) : Prop :=
  ∀ c, cn_ID (f c) = cn_ID c ∧ cn_inFlight (f c) = cn_inFlight c.

Lemma sessions_get sv r : sessions sv !! r = (λ c, (cn_ID c, cn_inFlight c)) <$> sv_get sv r.
Proof. apply list_lookup_fmap. Qed.

Lemma sessions_alter f r sv : keeps_account f → sessions (sv_alter f r sv) = sessions sv.
Proof.
  intros Hf. apply list_eq. intros i. rewrite !sessions_get, sv_get_alter. case_decide; [|done].
  destruct (sv_get sv i) as [c|]; [|done]. simpl. by destruct (Hf c) as [-> ->].
Qed.

Lemma sendResponse_account cmdID status seqNum body : keeps_account (sendResponse cmdID status seqNum body).
Proof. intros c. unfold sendResponse, WritePDU. by destruct (cn_open c). Qed.

Section quiet.
Context {DB : Type} `{!KV DB} `{!Zone} {PM : Type} `{!PoolView PM} `{!SliceSort} `{!Env}.
Context (cfg : RouterConfig).
#[local] Abbreviation World := (Router DB PM).
#[local] Abbreviation Act := (M DB PM).

Lemma bind_eq {A B} (m : Act A) (f : A → Act B) w : (m ≫= f) w = f (m w).1 (m w).2.
Proof. unfold mbind, M_bind. by destruct (m w). Qed.

Lemma then_ret {A B} (m : Act A) (x : B) w : (m;; mret x) w = (x, (m w).2).
Proof. unfold mbind, M_bind. by destruct (m w). Qed.

(** The ID of a session, from that of all. *)
Lemma conn_id_sessions (w : World) c :
  conn_id c w = default [] (fst <$> (c ≫= λ r, sessions (w_server w) !! r)).
Proof.
  unfold conn_id. destruct c as [r|]; [|done]. cbn [mbind option_bind]. rewrite sessions_get.
  by destruct (sv_get (w_server w) r).
Qed.

(** ** The queue and the sessions *)

Definition fview (w : World) : list forwardTask * list (bytes * Z) := (w_forwardCh w, sessions (w_server w)).

(** Actions that change neither. *)
Definition still {A} (m : Act A) : Prop := ∀ w, fview (m w).2 = fview w.

Lemma still_ret {A} (a : A) : still (mret a).
Proof. done. Qed.
Lemma still_bind {A B} (m : Act A) (f : A → Act B) : still m → (∀ a, still (f a)) → still (m ≫= f).
Proof.
  intros Hm Hf w. unfold mbind, M_bind. specialize (Hm w). destruct (m w) as [a w']. cbn [snd] in Hm.
  by rewrite (Hf a w').
Qed.
Lemma still_gets {A} (f : World → A) : still (gets f).
Proof. done. Qed.
Lemma still_modify f : (∀ w, fview (f w) = fview w) → still (modify f).
Proof. intros Hf w. apply Hf. Qed.
Lemma still_conn_do r f : keeps_account f → still (conn_do r f).
Proof.
  intros Hf. apply still_modify. intros w. unfold fview. cbn [w_forwardCh w_server set_server].
  by rewrite sessions_alter.
Qed.
Lemma still_emit e : still (emit e).
Proof. by apply still_modify. Qed.
Lemma still_totals a b c d e : still (add_totals a b c d e).
Proof. by apply still_modify. Qed.
Lemma still_tick : still tick.
Proof. done. Qed.
Lemma still_Now : still Now.
Proof. done. Qed.
Lemma still_store_do f : still (store_do f).
Proof. by apply still_modify. Qed.
Lemma still_store_at f : still (store_at f).
Proof. apply still_bind; [apply still_gets|]. intros [|]; [|apply still_ret]. apply still_bind; [done|]. intros t. apply still_store_do. Qed.
Lemma still_round_robin : still round_robin.
Proof. done. Qed.
Lemma still_next_seq : still next_seq.
Proof. done. Qed.

Lemma still_deliver isDLR connID body : still (deliver isDLR connID body).
Proof.
  intros w. unfold deliver, tick, gets, modify, emit, mbind, M_bind. cbn [fst snd]. rewrite DeliverToConn_eq.
  cbn [w_server set_tick]. destruct (GetConnection connID (w_server w)) as [r|]; [|done].
  destruct (sv_get (w_server w) r) as [c|] eqn:E; [|done]. unfold fview. cbn [snd w_forwardCh w_server set_server set_events set_tick modify].
  f_equal. rewrite (sv_alter_const (delivered_conn (env_ack (w_tick w)) body) c r) by done.
  apply sessions_alter. intros c'. destruct (delivered_keeps (env_ack (w_tick w)) body c') as (E1 & _). split; [exact E1|].
  unfold delivered_conn. by destruct (cn_open c').
Qed.

Lemma still_match {A B} (x : option A) (f : A → Act B) (g : Act B) :
  (∀ a, still (f a)) → still g → still (match x with Some a => f a | None => g end).
Proof. by destruct x. Qed.

Lemma still_mapM {A B} (f : A → Act B) l : (∀ x, still (f x)) → still (mapM_ f l).
Proof. intros Hf. induction l as [|x l IH]; [done|]. apply still_bind; [apply Hf|done]. Qed.

#[local] Hint Resolve still_ret still_gets still_emit still_totals still_tick still_Now still_store_do still_store_at
  still_round_robin still_next_seq still_deliver : still.

Ltac still_tac := cbv zeta; repeat first
  [ solve [auto with still nocore]
  | apply still_bind; [|let a := fresh "a" in intros a]
  | apply still_mapM; intros ?
  | apply still_modify; by intros ?
  | case_decide
  | match goal with |- still (match ?x with _ => _ end) => destruct x end ].

Lemma still_buffer isDLR id connID msisdn body esm src dst :
  still (buffer_deliver isDLR id connID msisdn body esm src dst).
Proof. unfold buffer_deliver, has_store. still_tac. Qed.
#[local] Hint Resolve still_buffer : still.

Lemma still_grace connID body msisdn esm src dst id isDLR :
  still (deliverWithGrace cfg connID body msisdn esm src dst id isDLR).
Proof. unfold deliverWithGrace. still_tac. Qed.
#[local] Hint Resolve still_grace : still.

Lemma still_enqueueCallbackRetry gw cb : still (enqueueCallbackRetry gw cb).
Proof. unfold enqueueCallbackRetry. still_tac. Qed.
Lemma still_postCallback url p : still (postCallback url p).
Proof. unfold postCallback. still_tac. Qed.
Lemma still_get_callback gw : still (get_callback gw).
Proof. done. Qed.
#[local] Hint Resolve still_enqueueCallbackRetry still_postCallback still_get_callback : still.

Lemma still_deliverDLRCallback gw st dst src : still (deliverDLRCallback gw st dst src).
Proof. unfold deliverDLRCallback. still_tac. Qed.
#[local] Hint Resolve still_deliverDLRCallback : still.

Lemma still_retry_callbacks : still drainCallbackRetries.
Proof. unfold drainCallbackRetries, retry_callback, store_get. still_tac. Qed.

Lemma still_enqueue gw connID dst src body n : still (enqueueSubmitRetryOrFail cfg gw connID dst src body n).
Proof. unfold enqueueSubmitRetryOrFail, sendSyntheticDLR, has_store. still_tac. Qed.
#[local] Hint Resolve still_enqueue : still.

Lemma still_submit gw dst body : still (submit_to_smsc cfg gw dst body).
Proof. unfold submit_to_smsc, resolve_submitter. still_tac. Qed.

Lemma still_record co id gw connID dst src body : still (record_forwarded co id gw connID dst src body).
Proof. unfold record_forwarded. still_tac. Qed.
#[local] Hint Resolve still_submit still_record : still.

Lemma still_forward_finish connID gw dst src body a : still (forward_finish cfg connID gw dst src body a).
Proof. unfold forward_finish. still_tac. Qed.
Lemma still_retry_finish p a : still (retry_finish cfg p a).
Proof. unfold retry_finish. still_tac. Qed.
#[local] Hint Resolve still_forward_finish still_retry_finish : still.

Lemma still_HandleDeliver src dst esm payload : still (HandleDeliver cfg src dst esm payload).
Proof.
  unfold HandleDeliver, handleDLR, handleMO, mo_fallback, deliver_mo, deliverMOCallback, mo_id, lookup_correlation,
    forget_correlation, store_get, has_store.
  still_tac.
Qed.

Lemma still_drainRetries maxAge : still (drainRetries cfg maxAge).
Proof. unfold drainRetries, retry_deliver, requeue, has_store. still_tac. Qed.

Lemma still_Cleanup maxAge : still (CleanupCorrelations maxAge).
Proof. unfold CleanupCorrelations. still_tac. Qed.

Lemma still_load_lines lines n : still (load_lines lines n).
Proof.
  revert n. induction lines as [|l lines IH]; intros n; [done|]. cbn [load_lines]. cbv zeta.
  repeat case_decide; still_tac.
Qed.

Lemma still_reject c connID seqNum status src dst : still (reject_submit c connID seqNum status src dst).
Proof.
  unfold reject_submit, has_store. still_tac; apply still_conn_do, sendResponse_account.
Qed.

Lemma rate_gate_account t now : keeps_account (λ c, (rate_gate t now c).1).
Proof. intros c. unfold rate_gate, RecordSubmit. by repeat case_decide. Qed.

Lemma still_admit c cc : still (admit_rate cfg c cc).
Proof.
  unfold admit_rate. destruct c as [r|]; [|done]. apply still_bind; [apply still_Now|]. intros t w.
  unfold gets, mbind, M_bind. cbn [fst snd]. destruct (sv_get (w_server w) r) as [cn|] eqn:E; [|done].
  pose proof (rate_gate_account (effective_TPS cfg cc) (t `div` Second)) as Hk.
  destruct (rate_gate (effective_TPS cfg cc) (t `div` Second) cn) as [cn' ok] eqn:Eg.
  unfold conn_do, modify, fview. cbn [fst snd mret M_ret w_forwardCh w_server set_server]. f_equal.
  assert (cn' = (rate_gate (effective_TPS cfg cc) (t `div` Second) cn).1) as -> by (by rewrite Eg).
  rewrite (sv_alter_const (λ cn, (rate_gate (effective_TPS cfg cc) (t `div` Second) cn).1) cn r) by done.
  by apply sessions_alter.
Qed.

(** ** Submits *)

(** The same for the tasks of sessions only. *)
Definition cview (w : World) : list conn_ref * list (bytes * Z) := (omap ft_conn (w_forwardCh w), sessions (w_server w)).

Definition calm {A} (m : Act A) : Prop := ∀ w, cview (m w).2 = cview w.

Lemma still_calm {A} (m : Act A) : still m → calm m.
Proof. intros Hm w. pose proof (Hm w) as [= E1 E2]. unfold cview. by rewrite E1, E2. Qed.

Lemma calm_bind {A B} (m : Act A) (f : A → Act B) : calm m → (∀ a, calm (f a)) → calm (m ≫= f).
Proof. intros Hm Hf w. rewrite bind_eq. by rewrite Hf, Hm. Qed.

Lemma still_answer c connID seqNum body src dst : still (answer_submit c connID seqNum body src dst).
Proof. unfold answer_submit. still_tac. apply still_conn_do, sendResponse_account. Qed.

#[local] Hint Resolve still_reject still_admit still_answer : still.

Lemma still_admit_submit connID seqNum body : still (admit_submit cfg connID seqNum body).
Proof.
  unfold admit_submit. destruct (ParseSubmitSMAddresses body) as [src dst].
  still_tac.
Qed.

Lemma calm_rest_submit m : calm (rest_submit cfg m).
Proof.
  unfold rest_submit, nextMsgID. do 4 (apply calm_bind; [apply still_calm; still_tac|intros ?]).
  do 4 (apply calm_bind; [apply still_calm; still_tac|intros ?]).
  apply calm_bind; [|intros ?; by apply still_calm]. case_decide; [|apply still_calm, still_enqueue].
  intros w. unfold cview. cbn [modify snd w_forwardCh w_server set_forwardCh]. by rewrite omap_app, app_nil_r.
Qed.

Lemma calm_submit_each batch ms : ∀ i, calm (submit_each cfg batch i ms).
Proof.
  induction ms as [|m ms IH]; intros i; [done|]. cbn [submit_each]. apply calm_bind; [apply calm_rest_submit|]. intros r.
  apply calm_bind; [apply IH|]. by intros rs.
Qed.

Lemma calm_HandleHTTPSubmit body : calm (HandleHTTPSubmit cfg body).
Proof.
  destruct body as [m|]; [|done]. cbn [HandleHTTPSubmit]. case_decide; [done|].
  apply calm_bind; [apply calm_rest_submit|]. by intros r.
Qed.

Lemma calm_HandleHTTPBatchSubmit body : calm (HandleHTTPBatchSubmit cfg body).
Proof.
  destruct body as [b|]; [|done]. cbn [HandleHTTPBatchSubmit]. do 2 (case_decide; [done|]).
  apply calm_bind; [apply calm_submit_each|]. by intros rs.
Qed.

End quiet.
