(* ===== verification/RouterRun.v ===== *)
(** * Runs of the gateway

    The handlers of [Router] and [RestApi] in any order, with the steps of the sessions,
    of the store's writer and of its cleanup between them.  A submit that has been
    answered, a worker that forwards and the drain that retries have a message in their
    hands while other goroutines run: these are [work], and anything may happen between
    their steps.

    The theorems: no accepted message is lost ([no_message_lost]), and, as long as no
    session takes another system ID while it is registered or has a message on its way,
    receipts go to the engine that submitted the message ([router_ownership]). *)

From S2P Require Import Prelude Constants Utf8 Pdu Connection ShardMap SliceSort.
From S2P Require Import PoolManager RouteTable Dlr Documents Format Store Server Gateway.
From S2P Require Import Callback Router RouterInv RestApi Quiet.

Local Open Scope Z_scope.

(** ** Work in hand *)

Inductive work :=
| WkAnswered (t : forwardTask) (connID : bytes) (** answered and recorded, not counted yet *)
| WkCounted (t : forwardTask) (connID : bytes) (** counted, about to be queued *)
| WkFull (t : forwardTask) (connID : bytes) (** the queue was full *)
| WkRefused (t : forwardTask) (connID : bytes) (** and it is not counted any more *)
| WkForward (t : forwardTask) (connID : bytes) (a : option submit_answer) (** submitted, not dealt with *)
| WkDone (c : option conn_ref) (** dealt with, the deferred decrement is left *)
| WkRetry (p : PendingSubmit) (** taken from the store *)
| WkRetrySent (p : PendingSubmit) (a : option submit_answer).

(** The message that is in hand. *)
Definition wk_gw (k : work) : option bytes :=
  match k with
  | WkAnswered t _ | WkCounted t _ | WkFull t _ | WkRefused t _ | WkForward t _ _ => Some (ft_gwMsgID t)
  | WkDone _ => None
  | WkRetry p | WkRetrySent p _ => Some (ps_GwMsgID p)
  end.

(** A task on its way to the queue. *)
Definition wk_task (k : work) : option forwardTask :=
  match k with WkAnswered t _ | WkCounted t _ => Some t | _ => None end.

(** The steps that are left at most. *)
Definition wk_rank (k : work) : nat :=
  match k with
  | WkAnswered _ _ => 4
  | WkCounted _ _ => 3
  | WkFull _ _ | WkForward _ _ _ | WkRetry _ => 2
  | WkRefused _ _ | WkDone _ | WkRetrySent _ _ => 1
  end.

Section run.
Context {DB : Type} `{!KV DB} `{!Zone} {PM : Type} `{!PoolView PM} `{!SliceSort} `{!Env}.
Context (cfg : RouterConfig).
#[local] Abbreviation World := (Router DB PM).
#[local] Abbreviation Act := (M DB PM).

(** The read loop hands a submit to the router, which answers it. *)
Definition begin_submit (connID : bytes) (seqNum : Z) (body : bytes) : Act (option work) :=
  task ← admit_submit cfg connID seqNum body;
  mret ((λ t, WkAnswered t connID) <$> task).

(** A worker takes a task and submits it. *)
Definition begin_forward : Act (option work) :=
  ch ← gets w_forwardCh;
  match ch with
  | [] => mret None
  | t :: ch =>
      modify (set_forwardCh ch);;
      connID ← gets (conn_id (ft_conn t));
      a ← submit_to_smsc cfg (ft_gwMsgID t) (ft_destAddr t) (ft_rawBody t);
      mret (Some (WkForward t connID a))
  end.

(** The drain takes what is due from the store. *)
Definition begin_drain : Act (list work) :=
  pending ← gets (λ w, default [] (s ← w_store w; Some (DrainSubmitRetries (rc_submitRetryDrainLimit cfg) s).1));
  store_do (λ s, (DrainSubmitRetries (rc_submitRetryDrainLimit cfg) s).2);;
  mret (WkRetry <$> pending).

(** The next step of some work, and what is left of it. *)
Definition advance (k : work) : Act (option work) :=
  match k with
  | WkAnswered t connID => inflight_add (ft_conn t) 1;; mret (Some (WkCounted t connID))
  | WkCounted t connID =>
      ok ← offer_task cfg t;
      mret (if ok : bool then None else Some (WkFull t connID))
  | WkFull t connID => add_totals 0 0 0 0 1;; inflight_add (ft_conn t) (-1);; mret (Some (WkRefused t connID))
  | WkRefused t connID =>
      enqueueSubmitRetryOrFail cfg (ft_gwMsgID t) connID (ft_destAddr t) (ft_sourceAddr t) (ft_rawBody t) 0;;
      mret None
  | WkForward t connID a =>
      forward_finish cfg connID (ft_gwMsgID t) (ft_destAddr t) (ft_sourceAddr t) (ft_rawBody t) a;;
      mret (Some (WkDone (ft_conn t)))
  | WkDone c => inflight_add c (-1);; mret None
  | WkRetry p =>
      a ← submit_to_smsc cfg (ps_GwMsgID p) (ps_MSISDN p) (ps_RawBody p);
      mret (Some (WkRetrySent p a))
  | WkRetrySent p a => retry_finish cfg p a;; mret None
  end.

(** The steps that are left, with nothing in between; [wk_rank] is enough fuel. *)
Fixpoint finish (fuel : nat) (k : work) : Act unit :=
  match fuel with
  | O => mret tt
  | S fuel => o ← advance k; match o with Some k => finish fuel k | None => mret tt end
  end.

Definition finish_opt (o : option work) : Act unit :=
  match o with Some k => finish (wk_rank k) k | None => mret tt end.

Lemma advance_rank k (w : World) k' : (advance k w).1 = Some k' → (wk_rank k' < wk_rank k)%nat.
Proof.
  destruct k as [t c|t c|t c|t c|t c a|c|p|p a]; cbn [advance]; rewrite ?then_ret; try (intros [= <-]; cbn; lia); try done.
  - rewrite bind_eq. cbn [fst mret M_ret]. destruct (offer_task cfg t w).1; [done|]. intros [= <-]. cbn. lia.
  - rewrite bind_eq, then_ret. intros [= <-]. cbn. lia.
  - rewrite bind_eq. intros [= <-]. cbn. lia.
Qed.

(** Without anything in between, the steps are the functions of [Router]. *)
Lemma HandleSubmit_steps connID seqNum body (w : World) :
  run (HandleSubmit cfg connID seqNum body) w = run (begin_submit connID seqNum body ≫= finish_opt) w.
Proof.
  unfold run, HandleSubmit, begin_submit. rewrite !bind_eq.
  destruct (admit_submit cfg connID seqNum body w) as [[t|] w1]; [|done]. cbn [fst snd mret M_ret fmap option_fmap option_map finish_opt].
  cbn [wk_rank finish advance]. unfold queue_submit. repeat (rewrite !bind_eq; cbn [fst snd mret M_ret advance]).
  destruct (offer_task cfg t (inflight_add (ft_conn t) 1 w1).2) as [[] w2]; cbn [fst snd]; [done|].
  by repeat (rewrite !bind_eq; cbn [fst snd mret M_ret advance]).
Qed.

Lemma forwardWorker_steps (w : World) : run (forwardWorker cfg) w = run (begin_forward ≫= finish_opt) w.
Proof.
  unfold run, forwardWorker, begin_forward, forwardSubmitRaw. rewrite !bind_eq. cbn [fst snd gets].
  destruct (w_forwardCh w) as [|t ch]; [done|]. unfold forward_done.
  by repeat (rewrite !bind_eq; cbn [fst snd gets modify mret M_ret finish_opt wk_rank finish advance]).
Qed.

Lemma retry_submit_steps p (w : World) : run (retry_submit cfg p) w = run (finish 2 (WkRetry p)) w.
Proof.
  unfold run, retry_submit. cbn [finish advance]. by repeat (rewrite !bind_eq; cbn [fst snd mret M_ret advance]).
Qed.

(** ** Steps *)

Inductive handler :=
| HHTTPSubmit (body : option SMSSubmitRequest)
| HHTTPBatch (body : option SMSBatchRequest)
| HDeliver (sourceAddr destAddr : bytes) (esmClass : Z) (payload : bytes)
| HDrainRetries (maxAge : Z)
| HCleanup (maxAge : Z)
| HCallbackRetries
| HStore (op : store_op)
| HBlacklist (file : bytes)
| HMTRoutes (routes : list MTRoute)
| HMORoutes (routes : list MORoute)
| HPoolManager (pm : PM).

Definition handle (h : handler) (w : World) : World :=
  match h with
  | HHTTPSubmit body => run (HandleHTTPSubmit cfg body) w
  | HHTTPBatch body => run (HandleHTTPBatchSubmit cfg body) w
  | HDeliver src dst esm payload => run (HandleDeliver cfg src dst esm payload) w
  | HDrainRetries maxAge => run (drainRetries cfg maxAge) w
  | HCleanup maxAge => run (CleanupCorrelations maxAge) w
  | HCallbackRetries => run drainCallbackRetries w
  | HStore op => run (store_do (λ s, run_store_op s op)) w
  | HBlacklist file => run (LoadBlacklist file) w
  | HMTRoutes routes => run (SetMTRoutes routes) w
  | HMORoutes routes => run (SetMORoutes routes) w
  | HPoolManager pm => run (SetPoolManager pm) w
  end.

(** The store's own steps: its writer, closing it, its cleanup and the settings that are
    kept in it. *)
Definition background (op : store_op) : Prop :=
  match op with
  | OpWriterRecv | OpWriterFlush | OpClose | OpCleanup _ _ => True
  | OpSetJSON n x d => doc_in n x d ∧ n ≠ NsSubmitRetry ∧
      match d with DSubmit _ | DPendingDeliver _ | DPendingSubmit _ => False | _ => True end
  | OpDeleteKey k => ¬ ns_prefix NsSubmitRetry `prefix_of` k
  | _ => False
  end.

(** The counter of IDs does not wrap. *)
Definition handler_ok (h : handler) (w : World) : Prop :=
  match h with
  | HHTTPSubmit _ => w_msgSeq w < 2 ^ 64 - 1
  | HHTTPBatch _ => w_msgSeq w < 2 ^ 64 - 1000
  | HStore op => background op
  | _ => True
  end.

(** Whether the sessions may change to [sv]: in any way, or such that sessions that are
    registered or whose message is on its way to the queue or in it keep their IDs.
    What breaks the second is a session that binds again under another system ID. *)
Definition any_change (w : World) (ks : list work) (sv : Server) : Prop := True.

Definition keeps_names (w : World) (ks : list work) (sv : Server) : Prop :=
  (∀ id r, sv_conns (w_server w) !! id = Some r → cn_ID <$> sv_get sv r = cn_ID <$> sv_get (w_server w) r) ∧
  ∀ t, t ∈ w_forwardCh w ++ omap wk_task ks → conn_id (ft_conn t) (set_server sv w) = conn_id (ft_conn t) w.

(** Engines log in with an ID that JSON can write. *)
Inductive gw_step (allowed : World → list work → Server → Prop) : World * list work → World * list work → Prop :=
| GwHandle h w ks : handler_ok h w → gw_step allowed (w, ks) (handle h w, ks)
| GwServer sv w ks : server_step (w_server w) sv → allowed w ks sv →
    gw_step allowed (w, ks) (set_server sv w, ks)
| GwSubmit connID seqNum body w ks : json_string connID = connID → w_msgSeq w < 2 ^ 64 - 1 →
    gw_step allowed (w, ks) ((begin_submit connID seqNum body w).2,
      ks ++ option_list (begin_submit connID seqNum body w).1)
| GwForward w ks : gw_step allowed (w, ks) ((begin_forward w).2, ks ++ option_list (begin_forward w).1)
| GwDrain w ks : gw_step allowed (w, ks) ((begin_drain w).2, ks ++ (begin_drain w).1)
| GwWork w ks1 k ks2 :
    gw_step allowed (w, ks1 ++ k :: ks2) ((advance k w).2, ks1 ++ option_list (advance k w).1 ++ ks2).

(** The gateway starts with a store that holds no messages. *)
Definition fresh_db (db : DB) : Prop :=
  ∀ k v, kv_get db k = Some v → entry_typed k v ∧
    match v with DSubmit _ | DPendingDeliver _ | DPendingSubmit _ => False | _ => True end.

Definition started (db : DB) : World * list work := (NewRouter (Some (NewMessageStore db)), []).

(** *** Runs of whole functions *)

Lemma finish_run allowed n : ∀ k (w : World) ks1 ks2, (wk_rank k <= n)%nat →
  rtc (gw_step allowed) (w, ks1 ++ k :: ks2) (run (finish n k) w, ks1 ++ ks2).
Proof.
  induction n as [|n IH]; intros k w ks1 ks2 Hn; [by destruct k; cbn in Hn; lia|].
  eapply rtc_l; [apply GwWork|]. unfold run. cbn [finish]. rewrite bind_eq. pose proof (advance_rank k w) as Hr.
  destruct (advance k w) as [[k'|] w']; cbn [fst snd option_list app] in *; [|by apply rtc_refl].
  apply IH. specialize (Hr k' eq_refl). lia.
Qed.

Lemma finish_opt_run allowed (o : option work) (w : World) ks :
  rtc (gw_step allowed) (w, ks ++ option_list o) (run (finish_opt o) w, ks).
Proof.
  destruct o as [k|]; cbn [option_list finish_opt]; [|by rewrite app_nil_r; apply rtc_refl].
  rewrite <-(app_nil_r ks) at 2. by apply finish_run.
Qed.

Lemma submit_run allowed connID seqNum body (w : World) ks : json_string connID = connID → w_msgSeq w < 2 ^ 64 - 1 →
  rtc (gw_step allowed) (w, ks) (run (HandleSubmit cfg connID seqNum body) w, ks).
Proof.
  intros Hj Hn. rewrite HandleSubmit_steps. unfold run. rewrite bind_eq.
  eapply rtc_l; [by apply (GwSubmit _ connID seqNum body)|]. apply finish_opt_run.
Qed.

Lemma worker_run allowed (w : World) ks : rtc (gw_step allowed) (w, ks) (run (forwardWorker cfg) w, ks).
Proof.
  rewrite forwardWorker_steps. unfold run. rewrite bind_eq. eapply rtc_l; [apply GwForward|]. apply finish_opt_run.
Qed.

(** *** What the steps leave alone *)

Lemma handle_calm h (w : World) : cview (handle h w) = cview w.
Proof.
  assert (∀ A (m : Act A), still m → cview (run m w) = cview w) as Hs.
  { intros A m Hm. by apply still_calm. }
  destruct h; cbn [handle].
  - apply calm_HandleHTTPSubmit.
  - apply calm_HandleHTTPBatchSubmit.
  - apply Hs, still_HandleDeliver.
  - apply Hs, still_drainRetries.
  - apply Hs, still_Cleanup.
  - apply Hs, still_retry_callbacks.
  - apply Hs, still_store_do.
  - apply Hs, still_load_lines.
  - by apply Hs, still_modify.
  - by apply Hs, still_modify.
  - by apply Hs, still_modify.
Qed.

Lemma begin_submit_still connID seqNum body : still (begin_submit connID seqNum body).
Proof. apply still_bind; [apply still_admit_submit|]. by intros t. Qed.

Lemma begin_drain_still : still begin_drain.
Proof. done. Qed.

(** Taking a task, and nothing else that is in the view. *)
Lemma begin_forward_view (w : World) :
  let r := begin_forward w in
  fview r.2 = (tail (w_forwardCh w), sessions (w_server w)) ∧
  omap ft_conn (w_forwardCh w) = omap (λ k, match k with WkForward t _ _ => ft_conn t | _ => None end) (option_list r.1) ++
    omap ft_conn (tail (w_forwardCh w)).
Proof.
  unfold begin_forward. rewrite bind_eq. cbn [fst snd gets]. destruct (w_forwardCh w) as [|t ch] eqn:E.
  - split; [|done]. unfold fview. cbn [fst snd mret M_ret]. by rewrite E.
  - cbv zeta. rewrite !bind_eq. cbn [fst snd gets modify mret M_ret option_list tail]. split.
    + exact (still_submit cfg (ft_gwMsgID t) (ft_destAddr t) (ft_rawBody t) (set_forwardCh ch w)).
    + cbn. by destruct (ft_conn t).
Qed.

(** No step of the router gives a session another ID. *)
Definition ids_kept {A} (m : Act A) : Prop := ∀ w c, conn_id c (m w).2 = conn_id c w.

Lemma ids_bind {A B} (m : Act A) (f : A → Act B) : ids_kept m → (∀ a, ids_kept (f a)) → ids_kept (m ≫= f).
Proof. intros Hm Hf w c. rewrite bind_eq. by rewrite Hf, Hm. Qed.

Lemma sessions_ids (w w' : World) c : sessions (w_server w') = sessions (w_server w) → conn_id c w' = conn_id c w.
Proof. intros E. by rewrite !conn_id_sessions, E. Qed.

Lemma still_ids {A} (m : Act A) : still m → ids_kept m.
Proof. intros Hm w c. apply sessions_ids. exact (f_equal snd (Hm w)). Qed.

Lemma inflight_ids c d : ids_kept (inflight_add (DB := DB) (PM := PM) c d).
Proof. intros w c'. destruct c as [r|]; [|done]. by apply conn_id_alter. Qed.

Lemma advance_ids k : ids_kept (advance k).
Proof.
  assert (∀ A B (m : Act A) (f : A → B), ids_kept m → ids_kept (x ← m; mret (f x))) as Hr.
  { intros A B m f Hm. apply ids_bind; [exact Hm|done]. }
  destruct k as [t c|t c|t c|t c|t c a|c|p|p a]; cbn [advance].
  - apply (Hr _ _ _ (λ _, _)), inflight_ids.
  - apply Hr. intros w c'. unfold offer_task. rewrite bind_eq. cbn [fst snd gets]. by case_decide.
  - apply ids_bind; [done|]. intros _. apply (Hr _ _ _ (λ _, _)), inflight_ids.
  - apply (Hr _ _ _ (λ _, _)), still_ids, still_enqueue.
  - apply (Hr _ _ _ (λ _, _)), still_ids, still_forward_finish.
  - apply (Hr _ _ _ (λ _, _)), inflight_ids.
  - apply Hr, still_ids, still_submit.
  - apply (Hr _ _ _ (λ _, _)), still_ids, still_retry_finish.
Qed.

End run.

(** ** The invariant over runs *)

Section run_inv.
Context {DB : Type} `{!KV DB, !KVLaws DB} `{!Zone} {PM : Type} `{!PoolView PM} `{!SliceSort} `{!Env}.
Context (cfg : RouterConfig).
#[local] Abbreviation World := (Router DB PM).
#[local] Abbreviation Act := (M DB PM).
Context (clock_ok : ∀ n, 0 <= env_clock n < 2 ^ 63).
Context (allowed : World → list work → Server → Prop) (steady : Prop).
Context (allowed_steady : steady → ∀ w ks sv, allowed w ks sv → keeps_names w ks sv).
#[local] Abbreviation I := (I (DB := DB) (PM := PM) cfg steady).

Definition answer_seen (w : World) (gw body : bytes) (a : option submit_answer) : Prop :=
  ∀ id, a = Some (SubmitOK id) → ∃ s, EvSubmit gw s body (SubmitOK id) ∈ w_events w.

Definition work_ok (w : World) (k : work) : Prop :=
  match k with
  | WkAnswered t c | WkCounted t c => task_ok steady w t ∧ owned steady w (ft_gwMsgID t) c
  | WkFull t c | WkRefused t c => owned steady w (ft_gwMsgID t) c
  | WkForward t c a => owned steady w (ft_gwMsgID t) c ∧ answer_seen w (ft_gwMsgID t) (ft_rawBody t) a
  | WkDone _ => True
  | WkRetry p => doc_owned cfg steady w (DPendingSubmit p)
  | WkRetrySent p a => doc_owned cfg steady w (DPendingSubmit p) ∧ answer_seen w (ps_GwMsgID p) (ps_RawBody p) a
  end.

Definition run_ok (st : World * list work) : Prop :=
  inv cfg steady (omap wk_gw st.2) st.1 ∧ Forall (work_ok st.1) st.2.

(** The state is good, and no event is forgotten. *)
Definition run_on (w : World) (st : World * list work) : Prop := run_ok st ∧ w_events w ⊆ w_events st.1.

Lemma answer_seen_mono (w w' : World) gw body a :
  w_events w ⊆ w_events w' → answer_seen w gw body a → answer_seen w' gw body a.
Proof. intros He Hs id Ha. destruct (Hs id Ha) as [s Hin]. exists s. by apply He. Qed.

(** The owner of a task is whom its session is. *)
Lemma task_ok_mono (w w' : World) t : w_events w ⊆ w_events w' →
  (steady → conn_id (ft_conn t) w' = conn_id (ft_conn t) w) → task_ok steady w t → task_ok steady w' t.
Proof. intros He Hc (c0 & r & Ho & Hs). exists c0, r. split; [by apply He|]. intros Hst. rewrite Hc by done. by apply Hs. Qed.

Lemma work_ok_mono (w w' : World) k : w_events w ⊆ w_events w' →
  (steady → ∀ t, wk_task k = Some t → conn_id (ft_conn t) w' = conn_id (ft_conn t) w) → work_ok w k → work_ok w' k.
Proof.
  intros He Hc. destruct k as [t c|t c|t c|t c|t c a|c|p|p a]; cbn [work_ok wk_task] in *.
  1-2: intros [Ht Ho]; split; [eapply task_ok_mono; [exact He|by intros Hst; apply Hc|exact Ht]|by eapply owned_mono].
  1-2: by apply owned_mono.
  - intros [Ho Ha]. split; [by eapply owned_mono|by eapply answer_seen_mono].
  - done.
  - by apply doc_owned_mono.
  - intros [Ho Ha]. split; [by eapply (doc_owned_mono cfg steady w w')|by eapply answer_seen_mono].
Qed.

Lemma works_ok_mono (w w' : World) ks : w_events w ⊆ w_events w' →
  (∀ c, conn_id c w' = conn_id c w) → Forall (work_ok w) ks → Forall (work_ok w') ks.
Proof. intros He Hc Hk. eapply Forall_impl; [exact Hk|]. intros k. by apply work_ok_mono. Qed.

Lemma I_here X (w : World) : inv cfg steady X w → I X (w_events w) w.
Proof. by intros Hi. Qed.

(** A handler that takes no message in hand. *)
Lemma run_quiet {A} (m : Act A) (P : World → Prop) w ks :
  (∀ X F, hoare (λ w, I X F w ∧ P w) m (λ _, I X F)) → (∀ c, conn_id c (run m w) = conn_id c w) → P w →
  run_ok (w, ks) → run_on w (run m w, ks).
Proof.
  intros Hm Hc HP [Hi Hk]. cbn [fst snd] in *.
  destruct (Hm (omap wk_gw ks) (w_events w) w (conj (I_here _ _ Hi) HP)) as [Hi' HF].
  split; [|exact HF]. split; [exact Hi'|]. by eapply works_ok_mono.
Qed.

Lemma h_load_lines lines n X F : hoare (I X F) (load_lines lines n) (λ _, I X F).
Proof.
  revert n. induction lines as [|l lines IH]; intros n; [apply h_ret|]. cbn [load_lines].
  case_decide; [apply h_ret|]. cbv zeta. case_decide; [apply IH|]. destruct (HasPrefix _ _); [apply IH|].
  hstep; [by apply h_modify_same|apply IH].
Qed.

Lemma background_ok op : background op → store_op_ok op ∧ keeps_pending op ∧
  ∀ (w : World) v, op_doc op v → doc_owned cfg steady w v.
Proof.
  destruct op; simpl; try done; unfold keeps_pending; simpl.
  1-4: intros _; (split; [done|]; split; [left; naive_solver|by intros w [] Hd]).
  - intros (Hd & Hn & Hk). split; [done|]. split; [left; naive_solver|]. intros w v ->. by destruct d.
  - intros Hn. split; [done|]. split; [by left|by intros w [] Hd].
Qed.

Lemma run_handler h (w : World) ks : handler_ok h w → run_ok (w, ks) → run_on w (handle cfg h w, ks).
Proof.
  intros Hok. assert (∀ X F A (m : Act A), hoare (I X F) m (λ _, I X F) → hoare (λ w, I X F w ∧ True) m (λ _, I X F)) as Hq.
  { intros X F A m Hm w' [Hw _]. by apply Hm. }
  assert (∀ c, conn_id c (handle cfg h w) = conn_id c w) as Hc.
  { intros c. apply sessions_ids. exact (f_equal snd (handle_calm cfg h w)). }
  destruct h; cbn [handle] in *.
  - apply (run_quiet _ (λ w, w_msgSeq w < 2 ^ 64 - 1)); [|done..]. intros X F. by apply h_HandleHTTPSubmit.
  - apply (run_quiet _ (λ w, w_msgSeq w < 2 ^ 64 - 1000)); [|done..]. intros X F. by apply h_HandleHTTPBatchSubmit.
  - apply (run_quiet _ (λ _, True)); [|done..]. intros X F. by apply Hq, h_HandleDeliver.
  - apply (run_quiet _ (λ _, True)); [|done..]. intros X F. by apply Hq, h_drainRetries.
  - apply (run_quiet _ (λ _, True)); [|done..]. intros X F. by apply Hq, h_CleanupCorrelations.
  - apply (run_quiet _ (λ _, True)); [|done..]. intros X F. by apply Hq, h_drainCallbackRetries.
  - apply (run_quiet _ (λ _, True)); [|done..]. intros X F. destruct (background_ok _ Hok) as (H1' & H2' & H3').
    apply Hq, h_store_do; [done..|]. intros w' _. apply H3'.
  - apply (run_quiet _ (λ _, True)); [|done..]. intros X F. apply Hq, h_load_lines.
  - apply (run_quiet _ (λ _, True)); [|done..]. intros X F. by apply Hq, h_modify_same.
  - apply (run_quiet _ (λ _, True)); [|done..]. intros X F. by apply Hq, h_modify_same.
  - apply (run_quiet _ (λ _, True)); [|done..]. intros X F. by apply Hq, h_modify_same.
Qed.

(** New work, from a state whose other work is as good as before. *)
Lemma run_ok_app (w w' : World) ks new : Forall (work_ok w) ks → w_events w ⊆ w_events w' →
  (∀ c, conn_id c w' = conn_id c w) → inv cfg steady (omap wk_gw new ++ omap wk_gw ks) w' → Forall (work_ok w') new →
  run_on w (w', ks ++ new).
Proof.
  intros Hk He Hc Hi Hn. split; [|exact He]. split; cbn [fst snd].
  - eapply inv_sub; [exact Hi|]. rewrite omap_app. set_solver.
  - apply Forall_app. split; [by eapply works_ok_mono|exact Hn].
Qed.

Lemma begin_submit_ok connID seqNum body (w : World) ks : json_string connID = connID → w_msgSeq w < 2 ^ 64 - 1 →
  run_ok (w, ks) →
  run_on w ((begin_submit cfg connID seqNum body w).2, ks ++ option_list (begin_submit cfg connID seqNum body w).1).
Proof.
  intros Hj Hn [Hi Hk]. cbn [fst snd] in *.
  pose proof (h_admit_submit cfg clock_ok steady connID seqNum body (omap wk_gw ks) (w_events w) Hj w
    (conj (I_here _ _ Hi) Hn)) as Ha.
  pose proof (λ c, still_ids _ (still_admit_submit cfg connID seqNum body) w c) as Hc.
  unfold begin_submit. rewrite bind_eq. cbn [fst snd mret M_ret].
  destruct (admit_submit cfg connID seqNum body w) as [[t|] w']; cbn [fst snd fmap option_fmap option_map option_list] in *.
  - destruct Ha as ([Hi' He] & Ht & Ho). apply (run_ok_app w); [done|exact He|exact Hc|exact Hi'|]. by constructor.
  - destruct Ha as [Hi' He]. by apply (run_ok_app w).
Qed.

(** Submitting a message that is in hand. *)
Lemma submit_in_hand gw dst body X (w : World) c : inv cfg steady X w → owned steady w gw c →
  let r := submit_to_smsc cfg gw dst body w in
  inv cfg steady X r.2 ∧ w_events w ⊆ w_events r.2 ∧ answer_seen r.2 gw body r.1.
Proof.
  intros Hi (c0 & r0 & Ho & _). cbv zeta.
  destruct (h_submit cfg clock_ok steady gw dst body X (w_events w)) with (w := w) as [[Hi' HF] Ha]; [|done..].
  intros w' [_ HF]. exists c0, r0. by apply HF.
Qed.

Lemma begin_forward_ok (w : World) ks : run_ok (w, ks) →
  run_on w ((begin_forward cfg w).2, ks ++ option_list (begin_forward cfg w).1).
Proof.
  intros [Hi Hk]. cbn [fst snd] in *. unfold begin_forward. rewrite bind_eq. cbn [fst snd gets].
  destruct (w_forwardCh w) as [|t ch] eqn:E; [by rewrite app_nil_r; split|]. rewrite !bind_eq. cbn [fst snd gets modify mret M_ret option_list].
  destruct (take_task cfg steady _ w t ch Hi E) as [Hi' Ho].
  change (conn_id (ft_conn t) (set_forwardCh ch w)) with (conn_id (ft_conn t) w).
  destruct (submit_in_hand _ (ft_destAddr t) (ft_rawBody t) _ _ _ Hi' Ho) as (Hi'' & He & Ha).
  apply (run_ok_app w); [done|exact He| |exact Hi''|].
  - intros c. exact (still_ids _ (still_submit cfg (ft_gwMsgID t) (ft_destAddr t) (ft_rawBody t)) (set_forwardCh ch w) c).
  - constructor; [|done]. split; [by eapply owned_mono|done].
Qed.

Lemma begin_drain_ok (w : World) ks : run_ok (w, ks) →
  run_on w ((begin_drain cfg w).2, ks ++ (begin_drain cfg w).1).
Proof.
  intros [Hi Hk]. cbn [fst snd] in *. destruct (i_store _ _ _ _ Hi) as (s & Hs & _).
  assert (begin_drain cfg w = (WkRetry <$> (DrainSubmitRetries (rc_submitRetryDrainLimit cfg) s).1,
    set_store (Some (DrainSubmitRetries (rc_submitRetryDrainLimit cfg) s).2) w)) as ->.
  { unfold begin_drain, store_do, gets, modify, mbind, M_bind. cbn. by rewrite Hs. }
  cbn [fst snd]. destruct (take_submits cfg steady _ w s (rc_submitRetryDrainLimit cfg) Hi Hs) as [Hi' Hps].
  apply (run_ok_app w); [done..| |].
  - assert (∀ ps, omap wk_gw (WkRetry <$> ps) = ps_GwMsgID <$> ps) as ->; [|exact Hi'].
    intros ps. induction ps as [|p ps IH]; [done|]. by cbn; f_equal.
  - by apply Forall_fmap.
Qed.

(** The steps of a work that leave it in hand, and those that do not. *)
Lemma advance_hoare k X (w : World) :
  inv cfg steady (option_list (wk_gw k) ++ X) w → work_ok w k →
  let r := advance cfg k w in
  inv cfg steady (omap wk_gw (option_list r.1) ++ X) r.2 ∧ w_events w ⊆ w_events r.2 ∧
  Forall (work_ok r.2) (option_list r.1).
Proof.
  intros Hi Hk. cbv zeta. pose proof (λ c, advance_ids cfg k w c) as Hc. revert Hc.
  destruct k as [t c|t c|t c|t c|t c a|c|p|p a]; cbn [advance wk_gw work_ok option_list app] in *; rewrite ?bind_eq; cbn [fst snd mret M_ret]; intros Hc.
  - destruct (h_inflight cfg steady (ft_conn t) 1 (ft_gwMsgID t :: X) (w_events w) w (I_here _ _ Hi)) as [Hi' He].
    split; [exact Hi'|]. split; [exact He|]. constructor; [|done]. destruct Hk as [Ht Ho].
    split; [by eapply task_ok_mono|by eapply owned_mono].
  - destruct Hk as [Ht Ho]. pose proof (h_offer_task cfg steady t X (w_events w) w (conj (I_here _ _ Hi) Ht)) as Hm.
    destruct (offer_task cfg t w) as [[] w']; cbn [fst snd option_list] in *; destruct Hm as [Hi' He]; (split; [exact Hi'|]); (split; [exact He|]).
    + constructor.
    + constructor; [by eapply owned_mono|done].
  - assert (hoare (I (ft_gwMsgID t :: X) (w_events w)) (add_totals 0 0 0 0 1;; inflight_add (ft_conn t) (-1))
      (λ _, I (ft_gwMsgID t :: X) (w_events w))) as Hm.
    { hstep; [apply h_add_totals|apply h_inflight]. }
    specialize (Hm w (I_here _ _ Hi)). cbv beta in Hm. rewrite bind_eq in Hm. cbn [fst snd mret M_ret].
    rewrite ?bind_eq. destruct Hm as [Hi' He].
    split; [exact Hi'|]. split; [exact He|]. constructor; [|done]. by eapply owned_mono.
  - destruct (h_enqueue_or_fail (PM := PM) cfg clock_ok steady (ft_gwMsgID t) c (ft_destAddr t) (ft_sourceAddr t) (ft_rawBody t) 0 X (w_events w))
      with (w := w) as [Hi' He]; [done| |by apply I_here|by split].
    intros w' [_ HF]. by eapply owned_mono.
  - destruct Hk as [Ho Ha].
    destruct (h_forward_finish (PM := PM) cfg clock_ok steady c (ft_gwMsgID t) (ft_destAddr t) (ft_sourceAddr t) (ft_rawBody t) a X (w_events w))
      with (w := w) as [Hi' He]; [| |by split; [|split; [|constructor]]].
    + intros w' [_ HF]. by eapply owned_mono.
    + by split; [apply I_here|].
  - destruct (h_inflight cfg steady c (-1) X (w_events w) w (I_here _ _ Hi)) as [Hi' He]. by split.
  - destruct Hk as [Ho Hr]. destruct (submit_in_hand _ (ps_MSISDN p) (ps_RawBody p) _ _ _ Hi Ho) as (Hi' & He & Ha).
    split; [exact Hi'|]. split; [exact He|]. constructor; [|done]. split; [|done]. split; [by eapply owned_mono|done].
  - destruct Hk as [[Ho Hr] Ha].
    destruct (h_retry_finish (PM := PM) cfg clock_ok steady p a X (w_events w)) with (w := w) as [Hi' HF']; [|done|by split].
    split; [lia|]. intros X' w' [_ HF]. by eapply owned_mono.
Qed.

Lemma advance_ok (w : World) ks1 k ks2 : run_ok (w, ks1 ++ k :: ks2) →
  run_on w ((advance cfg k w).2, ks1 ++ option_list (advance cfg k w).1 ++ ks2).
Proof.
  intros [Hi Hk]. cbn [fst snd] in *. apply Forall_app in Hk as [Hk1 [Hk Hk2]%Forall_cons].
  destruct (advance_hoare k (omap wk_gw (ks1 ++ ks2)) w) as (Hi' & He & Hk'); [|done|].
  { eapply inv_sub; [exact Hi|]. rewrite !omap_app. cbn. destruct (wk_gw k); set_solver. }
  split; [|exact He]. split; cbn [fst snd].
  - eapply inv_sub; [exact Hi'|]. rewrite !omap_app. set_solver.
  - rewrite !Forall_app. split_and!; [| exact Hk'|]; (eapply works_ok_mono; [exact He|apply advance_ids|done]).
Qed.

Lemma started_ok (db : DB) : fresh_db db → run_ok (started db).
Proof.
  intros Hdb. split; [|by constructor]. cbn [fst snd started fmap list_fmap].
  assert (∀ gw c r, ¬ owner (NewRouter (PM := PM) (Some (NewMessageStore db))) gw c r) as Hno
    by (intros gw c r Ho; by apply elem_of_nil in Ho).
  split.
  - done.
  - intros gw c r Ho. by destruct (Hno gw c r).
  - constructor.
  - intros _ id r Hid. cbn in Hid. by rewrite lookup_empty in Hid.
  - split; apply sm_ok_New.
  - intros id co Hco. cbn [w_smscCorr NewRouter] in Hco. by rewrite ShardMap_Get_New in Hco.
  - intros id co Hco. cbn [w_gwCorr NewRouter] in Hco. by rewrite ShardMap_Get_New in Hco.
  - intros t Ht. by apply elem_of_nil in Ht.
  - exists (NewMessageStore db). split; [done|]. split.
    + apply New_typed. intros k v Hk. by apply Hdb.
    + intros k v [Hk|Hk].
      * destruct (Hdb k v Hk) as [_ Hv]. by destruct v.
      * destruct Hk as (op & Hop & _). by apply elem_of_nil in Hop.
  - intros e He. by apply elem_of_nil in He.
  - intros gw c r Ho. by destruct (Hno gw c r).
Qed.

(** A registered session is still the one it is registered as. *)
Lemma named_step sv sv' : server_step sv sv' →
  (∀ id r, sv_conns sv !! id = Some r → cn_ID <$> sv_get sv' r = cn_ID <$> sv_get sv r) → named sv → named sv'.
Proof.
  intros Hs Hk Hn. destruct Hs as [seq ip sv|r c c' sv Hc Hf|r c sv Hc Hb|now r sv].
  - intros id r Hl. destruct (Hn id r Hl) as (c & Hc & Hrest). exists c. split; [|done].
    unfold sv_get, accept in *. simpl. by apply lookup_app_l_Some.
  - intros id r' Hl. destruct (Hn id r' Hl) as (c0 & Hc0 & Hb & Hi). rewrite sv_get_alter, Hc0.
    case_decide; simpl; [|by eauto]. subst r'. rewrite Hc in Hc0. injection Hc0 as <-. destruct Hf as (E & _ & Hf).
    eexists. split; [done|]. split; [by apply Hf|congruence].
  - destruct (bind_refused sv c (cn_SystemID c)) eqn:E.
    { rewrite (onBind_refused _ _ _ _ Hc E). by apply named_alter; [intros c'|]. }
    destruct (onBind_conns _ _ _ _ Hc E) as [E1 _]. intros id r'. rewrite E1. intros Hl.
    destruct (onBind_get sv r c (cn_SystemID c) r' Hc E) as (f & Hf & Eg). rewrite Eg.
    assert (∃ c', (if decide (r = r') then Some (cn_with_ID c (cn_SystemID c)) else sv_get sv r') = Some c' ∧
      cn_bound c' = true ∧ cn_ID c' = id) as (c' & Ec & Hb' & Hi).
    { apply lookup_insert_Some in Hl as [[<- <-]|[Hne Hl]]; [rewrite decide_True by done; by eexists|].
      destruct (Hn id r' Hl) as (c1 & Hc1 & Hb1 & Hi1). specialize (Hk id r' Hl). revert Hk. rewrite Eg.
      case_decide as Er; [subst r'|by eauto]. rewrite Hc1. simpl. destruct (Hf (cn_with_ID c (cn_SystemID c))) as (-> & _).
      intros [= Ei]. eexists. split; [done|]. split; [exact Hb|]. by rewrite <-Hi1, <-Ei. }
    rewrite Ec. simpl. eexists. split; [done|]. destruct (Hf c') as (-> & _ & ->). done.
  - unfold handleConnection_end. destruct (sv_get sv r) as [c|]; [|done]. apply named_alter; [by intros c'|].
    destruct (cn_bound c); [|done]. destruct (sv_conns sv !! cn_ID c); [|done]. case_decide; [|done].
    intros id r' Hl. cbn [sv_conns] in Hl. apply lookup_delete_Some in Hl as [_ Hl]. by apply (Hn id r').
Qed.

Lemma step_ok (st st' : World * list work) : gw_step cfg allowed st st' → run_ok st → run_on st.1 st'.
Proof.
  intros Hs Hok. destruct Hs as [h w ks Hh|sv w ks Hs Hc|connID seqNum body w ks Hj Hn|w ks|w ks|w ks1 k ks2].
  - by apply run_handler.
  - destruct Hok as [Hi Hk]. cbn [fst snd] in *. split; [|done]. split; cbn [fst snd].
    + apply inv_server; [|exact Hi]. intros Hst. destruct (allowed_steady Hst _ _ _ Hc) as [Hr Ht].
      split; [apply (named_step _ _ Hs Hr), (i_reg _ _ _ _ Hi Hst)|]. intros t Hin. apply Ht, elem_of_app. by left.
    + rewrite Forall_forall in *. intros k Hin. apply (work_ok_mono w); [done| |by apply Hk].
      intros Hst t Et. destruct (allowed_steady Hst _ _ _ Hc) as [_ Ht]. apply Ht, elem_of_app. right.
      apply list_elem_of_omap. eauto.
  - by apply begin_submit_ok.
  - by apply begin_forward_ok.
  - by apply begin_drain_ok.
  - by apply advance_ok.
Qed.

Lemma steps_ok (st st' : World * list work) : rtc (gw_step cfg allowed) st st' → run_ok st → run_on st.1 st'.
Proof.
  induction 1 as [st|st1 st2 st3 H12 _ IH]; [by split|]. intros Hok. destruct (step_ok st1 st2 H12 Hok) as [Hok2 He].
  destruct (IH Hok2) as [Hok3 He3]. split; [exact Hok3|]. by transitivity (w_events st2.1).
Qed.

Lemma reachable_run_ok (db : DB) st : fresh_db db → rtc (gw_step cfg allowed) (started db) st → run_ok st.
Proof. intros Hdb Hr. by apply (steps_ok _ _ Hr), started_ok. Qed.

End run_inv.

(** ** Theorems *)

Section run_theorems.
Context {DB : Type} `{!KV DB, !KVLaws DB} `{!Zone} {PM : Type} `{!PoolView PM} `{!SliceSort} `{!Env}.
Context (cfg : RouterConfig).
#[local] Abbreviation World := (Router DB PM).
Context (clock_ok : ∀ n, 0 <= env_clock n < 2 ^ 63).

(** Any run, and a run in which sessions keep their IDs. *)
Lemma reachable_ok (db : DB) (st : World * list work) : fresh_db db →
  rtc (gw_step cfg any_change) (started db) st → run_ok cfg False st.
Proof. intros Hdb. by apply (reachable_run_ok cfg clock_ok any_change False). Qed.

Lemma reachable_events (db : DB) (st st' : World * list work) : fresh_db db →
  rtc (gw_step cfg any_change) (started db) st → rtc (gw_step cfg any_change) st st' → w_events st.1 ⊆ w_events st'.1.
Proof.
  intros Hdb Hr Hr'. pose proof (reachable_ok db st Hdb Hr) as Hok.
  by destruct (steps_ok cfg clock_ok any_change False ltac:(done) _ _ Hr' Hok).
Qed.

Lemma steady_ok (db : DB) (st : World * list work) : fresh_db db →
  rtc (gw_step cfg keeps_names) (started db) st → run_ok cfg True st.
Proof. intros Hdb. by apply (reachable_run_ok cfg clock_ok keeps_names True). Qed.

Lemma gw_step_any allowed (st st' : World * list work) : gw_step cfg allowed st st' → gw_step cfg any_change st st'.
Proof. intros Hs. destruct Hs as [h w ks Hh|sv w ks Hs _|connID seqNum body w ks Hj Hn|w ks|w ks|w ks1 k ks2]; by constructor. Qed.

Lemma run_any allowed (st st' : World * list work) :
  rtc (gw_step cfg allowed) st st' → rtc (gw_step cfg any_change) st st'.
Proof. intros Hr. eapply (rtc_congruence (λ st, st)); [|exact Hr]. intros st1 st2. apply gw_step_any. Qed.

(** The sessions by themselves. *)
Lemma server_steps_run (w : World) sv ks : rtc server_step (w_server w) sv →
  rtc (gw_step cfg any_change) (w, ks) (set_server sv w, ks).
Proof.
  intros Hs. assert (set_server (w_server w) w = w) as Hw by by destruct w. rewrite <-Hw at 1. revert Hs.
  generalize (w_server w). induction 1 as [sv1|sv1 sv2 sv3 H12 _ IH]; [constructor|]. eapply rtc_l; [|exact IH].
  exact (GwServer cfg any_change sv2 (set_server sv1 w) ks H12 Logic.I).
Qed.

(** C1: no accepted message is lost.  Whatever the interleaving, a message whose
    submit the gateway has accepted is in the queue of the workers, in the hands of the
    submit that is still queuing it, of a worker or of a drain, in the durable retry
    queue, or its fate is known: the SMSC has taken it, or a failure receipt was made
    for it. *)
Theorem no_message_lost (db : DB) (w : World) ks gw c r :
  fresh_db db → rtc (gw_step cfg any_change) (started db) (w, ks) → EvAccepted gw c r ∈ w_events w →
  (∃ t, t ∈ w_forwardCh w ∧ ft_gwMsgID t = gw) ∨
  (∃ k, k ∈ ks ∧ wk_gw k = Some gw) ∨
  (∃ s x p, w_store w = Some s ∧ kv_get (st_db s) (key NsSubmitRetry x) = Some (DPendingSubmit p) ∧
     ps_GwMsgID p = gw ∧ 1 <= ps_RetryCount p <= rc_maxSubmitRetries cfg) ∨
  (∃ s body id, EvSubmit gw s body (SubmitOK id) ∈ w_events w) ∨
  (∃ c', EvSynthetic gw c' ∈ w_events w).
Proof.
  intros Hdb Hr Ha. destruct (reachable_ok db _ Hdb Hr) as [Hi _]. cbn [fst snd] in Hi.
  destruct (i_live _ _ _ _ Hi gw c r Ha) as [(k & Hk & Hg)%list_elem_of_omap|[Hl|[(s & x & p & Hs & Hg & Hp)|Hl]]].
  - right. left. eauto.
  - by left.
  - right. right. left. destruct (i_store _ _ _ _ Hi) as (s' & Hs' & _ & Hd). rewrite Hs' in Hs. injection Hs as ->.
    destruct (Hd _ (DPendingSubmit p) (or_introl Hg)) as [_ Hc]. by exists s, x, p.
  - by right; right; right.
Qed.

(** [c] is the connection whose submit was given [gw]; no connection only for a submit
    that was answered without a session. *)
Definition submitted_by (w : World) (gw c : bytes) : Prop :=
  ∃ c0 r, EvAccepted gw c0 r ∈ w_events w ∧ (c = c0 ∨ c = [] ∧ r = None).

(** The body of a deliver_sm with a receipt for [gw]: one that was made up, or one of
    the SMSC's with the ID translated. *)
Definition receipt_for (gw body : bytes) : Prop :=
  ∃ src dst esm text, body = BuildDeliverSMBody src dst esm text ∧
    (text = synthetic_receipt gw ∨
     ∃ payload r, ParseDLRReceipt payload = Some r ∧ text = translateDLRMessageID payload (dlr_MessageID r) gw).

Lemma owned_submitted (w : World) gw c : owned True w gw c → submitted_by w gw c.
Proof. intros (c0 & r & Ho & Hc). exists c0, r. split; [exact Ho|by apply Hc]. Qed.

Lemma dlr_body_submitted (w : World) c body : dlr_body True w c body →
  ∃ gw, receipt_for gw body ∧ submitted_by w gw c.
Proof.
  intros (gw & src & dst & esm & text & Ho & Hb). exists gw. split; [|by apply owned_submitted].
  by exists src, dst, esm, text.
Qed.

(** C2: receipts go to the engine that sent the message.  In every run in which
    sessions that are registered or have a message on its way keep their IDs, however handlers, session changes, submits, forwards and
    retries interleave: the IDs the gateway has given are pairwise different, and every
    receipt it has delivered, buffered or made up is for an ID it gave, with that ID in
    its text, and addressed to the connection whose submit got the ID; only a message
    that was answered without a session (over HTTP, or because the session had just
    gone) can have a receipt addressed to no connection.  The submit records in the
    store name the same connection. *)
Theorem router_ownership (db : DB) (w : World) ks :
  fresh_db db → rtc (gw_step cfg keeps_names) (started db) (w, ks) →
  NoDup (omap accepted_id (w_events w)) ∧
  (∀ c body ok, EvDeliver true c body ok ∈ w_events w → ∃ gw, receipt_for gw body ∧ submitted_by w gw c) ∧
  (∀ c body, EvBuffered true c body ∈ w_events w → ∃ gw, receipt_for gw body ∧ submitted_by w gw c) ∧
  (∀ gw c, EvSynthetic gw c ∈ w_events w → submitted_by w gw c) ∧
  ∀ s id co, w_store w = Some s → got_opt (GetSubmit id s) = Some co ∨ got_opt (GetSubmitByGwID id s) = Some co →
    submitted_by w (sr_GwMsgID co) (sr_NorthConnID co).
Proof.
  intros Hdb Hr. destruct (steady_ok db _ Hdb Hr) as [Hi _]. cbn [fst snd] in Hi.
  pose proof (i_events _ _ _ _ Hi) as He.
  split; [apply (i_nodup _ _ _ _ Hi)|]. split; [intros c body ok Hin; by apply dlr_body_submitted, (He _ Hin)|].
  split; [intros c body Hin; by apply dlr_body_submitted, (He _ Hin)|].
  split; [intros gw c Hin; by apply owned_submitted, (He _ Hin)|].
  destruct (i_store _ _ _ _ Hi) as (s' & Hs' & _ & Hd). intros s id co Hs. rewrite Hs' in Hs. injection Hs as ->.
  intros Hg. apply owned_submitted.
  assert (∃ k, kv_get (st_db s) k = Some (DSubmit co)) as [k Hk]; [|by apply (Hd k (DSubmit co)); left].
  unfold GetSubmit, GetSubmitByGwID, get_as in Hg.
  destruct Hg as [Hg|Hg]; (match type of Hg with context [kv_get ?d ?k] => exists k; destruct (kv_get d k) as [v|] end; [|done]);
    destruct v; try done; by injection Hg as ->.
Qed.

End run_theorems.

(** ** A run: a message and its receipt *)

#[local] Existing Instance insertion_SliceSort.

(** The gateway with an engine. *)
Definition ex_connected : Router (gmap bytes doc) PoolManager := set_server sv_example (started ∅).1.

Definition ex_body : bytes := BuildSubmitSMBody (str "4470") (str "447911") (str "hi").
Definition ex_dlr : bytes := str "id:S1 sub:001 dlvrd:001 stat:DELIVRD err:000".

Definition ex_accepted := run (HandleSubmit ex_cfg (str "engine") 7 ex_body) ex_connected.
Definition ex_submitted := (begin_forward ex_cfg ex_accepted).2.
Definition ex_work : work :=
  WkForward (mkTask (Some 0%nat) (str "GW-1") (str "447911") (str "4470") ex_body) (str "engine") (Some (SubmitOK (str "S1"))).
Definition ex_forwarded := run (finish ex_cfg 2 ex_work) ex_submitted.
Definition ex_received := handle ex_cfg (HDeliver (str "447911") (str "4470") 4 ex_dlr) ex_forwarded.

Lemma empty_keeps (w : Router (gmap bytes doc) PoolManager) sv :
  w_forwardCh w = [] → sv_conns (w_server w) = ∅ → keeps_names w [] sv.
Proof.
  intros Hq Hc. split; [intros id r; by rewrite Hc, lookup_empty|]. rewrite Hq. intros t Ht. by apply elem_of_nil in Ht.
Qed.

Lemma ex_connected_steps `{!Env} cfg : rtc (gw_step cfg keeps_names) (started ∅) (ex_connected, []).
Proof.
  set (w := (started ∅).1 : Router (gmap bytes doc) PoolManager).
  eapply rtc_l; [apply (GwServer cfg _ (accept 1 (str "10.0.0.1") NewServer).2 w); [constructor|by apply empty_keeps]|].
  set (sv1 := (accept 1 (str "10.0.0.1") NewServer).2).
  eapply rtc_l; [apply (GwServer cfg _ (sv_alter (λ _, sv_ex_bound) 0 sv1) (set_server sv1 w));
    [apply (StepChange 0 (NewConnection (str "pending-1") (str "10.0.0.1")) sv_ex_bound); [by vm_compute|done]|by apply empty_keeps]|].
  apply rtc_once.
  pose proof (GwServer cfg keeps_names sv_example (set_server (sv_alter (λ _, sv_ex_bound) 0 sv1) (set_server sv1 w)) []) as Hs.
  apply Hs; [|by apply empty_keeps]. apply (StepBind 0 sv_ex_bound); by vm_compute.
Qed.

Lemma ex_accepted_steps : rtc (gw_step ex_cfg keeps_names) (started ∅) (ex_accepted, []).
Proof. etransitivity; [apply ex_connected_steps|]. apply submit_run; by vm_compute. Qed.

Lemma ex_received_steps : rtc (gw_step ex_cfg keeps_names) (started ∅) (ex_received, []).
Proof.
  etransitivity; [exact ex_accepted_steps|]. eapply rtc_l; [apply GwForward|].
  assert ((begin_forward ex_cfg ex_accepted).1 = Some ex_work) as -> by (vm_compute; reflexivity).
  change ([] ++ option_list (Some ex_work)) with ([] ++ ex_work :: []).
  etransitivity; [by apply (finish_run ex_cfg keeps_names 2)|].
  apply rtc_once. apply (GwHandle ex_cfg _ (HDeliver (str "447911") (str "4470") 4 ex_dlr) ex_forwarded []). exact Logic.I.
Qed.

Lemma ex_clock_ok : ∀ n, 0 <= env_clock n < 2 ^ 63.
Proof. intros n. by vm_compute. Qed.
Lemma ex_fresh : fresh_db (∅ : gmap bytes doc).
Proof. intros k v Hk. by vm_compute in Hk. Qed.

(** The receipt for the SMSC's "S1" went to the engine with the gateway's "GW-1". *)
Lemma router_ownership_witness :
  ∃ body, EvDeliver true (str "engine") body true ∈ w_events ex_received ∧
    (∃ gw, receipt_for gw body ∧ submitted_by ex_received gw (str "engine")) ∧ NoDup (omap accepted_id (w_events ex_received)).
Proof.
  destruct (router_ownership ex_cfg ex_clock_ok ∅ ex_received [] ex_fresh ex_received_steps) as (Hn & Hd & _).
  exists (BuildDeliverSMBody (str "447911") (str "4470") 4 (str "id:GW-1 sub:001 dlvrd:001 stat:DELIVRD err:000")).
  assert (EvDeliver true (str "engine") (BuildDeliverSMBody (str "447911") (str "4470") 4
    (str "id:GW-1 sub:001 dlvrd:001 stat:DELIVRD err:000")) true ∈ w_events ex_received) as He.
  { vm_compute. repeat first [left; reflexivity|right]. }
  split; [exact He|]. split; [exact (Hd _ _ _ He)|exact Hn].
Defined.

Lemma no_message_lost_witness :
  EvAccepted (str "GW-1") (str "engine") (Some 0%nat) ∈ w_events ex_accepted ∧
  ∃ t, t ∈ w_forwardCh ex_accepted ∧ ft_gwMsgID t = str "GW-1".
Proof.
  assert (EvAccepted (str "GW-1") (str "engine") (Some 0%nat) ∈ w_events ex_accepted) as Ha by (vm_compute; left; reflexivity).
  split; [exact Ha|].
  destruct (no_message_lost ex_cfg ex_clock_ok ∅ ex_accepted [] _ _ _ ex_fresh (run_any _ _ _ _ ex_accepted_steps) Ha)
    as [Ht|[(k & Hk & _)|[(s & x & p & Hs & Hg & _)|[(s & b & id & He)|(c & He)]]]].
  - exact Ht.
  - by apply elem_of_nil in Hk.
  - eexists. split; [vm_compute; left; reflexivity|reflexivity].
  - eexists. split; [vm_compute; left; reflexivity|reflexivity].
  - eexists. split; [vm_compute; left; reflexivity|reflexivity].
Defined.
