(* ===== verification/RetryEnd.v ===== *)
(** * Retries come to an end

    The durable queue of submits to retry (gateway/store.go) and the loop that drains it
    (gateway/router.go).  Every entry is worth the tries it still has; draining an entry
    forwards its message, makes a failure receipt, or puts the message back with one try
    less, so the queue empties after boundedly many drains whatever the SMSC answers.
    With the work in hand run to its end and the workers emptying the forward queue first,
    every message that the gateway has accepted is settled then ([retries_terminate]).

    At the end, a run in which a session takes another system ID while its message is on
    its way ([rebind_misroutes_receipt]). *)

From S2P Require Import Prelude Constants Utf8 Pdu Connection ShardMap SliceSort.
From S2P Require Import PoolManager RouteTable Dlr Documents Format Store Server Gateway.
From S2P Require Import Callback Router RouterInv RestApi Quiet RouterRun.

Local Open Scope Z_scope.

Section retry_end.
Context {DB : Type} `{!KV DB, !KVLaws DB} `{!Zone} {PM : Type} `{!PoolView PM} `{!SliceSort} `{!Env}.
Context (cfg : RouterConfig).
#[local] Abbreviation World := (Router DB PM).
#[local] Abbreviation Act := (M DB PM).
#[local] Abbreviation MStore := (MessageStore (DB := DB)).
Context (clock_ok : ∀ n, 0 <= env_clock n < 2 ^ 63).

(** ** What the queue is worth *)

(** The tries a pending submit has left, the one it waits for included. *)
Definition tries_left (p : PendingSubmit) : nat := Z.to_nat (rc_maxSubmitRetries cfg + 1 - ps_RetryCount p).

Definition queue_worth (l : list (bytes * PendingSubmit)) : nat := sum_list_with (λ e, tries_left e.2) l.

Definition pending (w : World) : list (bytes * PendingSubmit) :=
  match w_store w with Some s => due_submits s | None => [] end.

Lemma queue_worth_app l1 l2 : queue_worth (l1 ++ l2) = (queue_worth l1 + queue_worth l2)%nat.
Proof. apply sum_list_with_app. Qed.

Lemma queue_worth_sub l1 l2 : l1 ⊆+ l2 → (queue_worth l1 <= queue_worth l2)%nat.
Proof.
  unfold queue_worth. induction 1 as [|x l1 l2 _ IH|x y l|x l1 l2 _ IH|l1 l2 l3 _ IH1 _ IH2]; cbn [sum_list_with] in *; lia.
Qed.

(** ** Actions that do not touch the queue *)

Definition typed_world (w : World) : Prop := ∃ s, w_store w = Some s ∧ store_typed s.

(** [m] leaves a typed store, and adds at most [c] to the worth of the queue. *)
Definition costs {A} (m : Act A) (c : nat) : Prop :=
  ∀ w, typed_world w → typed_world (m w).2 ∧ (queue_worth (pending (m w).2) <= queue_worth (pending w) + c)%nat.

Lemma costs_same {A} (a : A) (f : World → World) : (∀ w, w_store (f w) = w_store w) → costs (λ w, (a, f w)) 0.
Proof.
  intros Hf w [s [Hs Ht]]. cbn [snd]. unfold typed_world, pending. rewrite Hf. split; [by exists s|apply Nat.le_add_r].
Qed.

Lemma costs_gets {A} (f : World → A) : costs (gets f) 0.
Proof. intros w Hw. split; [done|apply Nat.le_add_r]. Qed.

Lemma costs_ret {A} (a : A) : costs (mret a) 0.
Proof. intros w Hw. split; [done|apply Nat.le_add_r]. Qed.

Lemma costs_modify f : (∀ w, w_store (f w) = w_store w) → costs (modify f) 0.
Proof. apply (costs_same tt). Qed.

Lemma costs_tick : costs tick 0.
Proof. intros w Hw. split; [done|apply Nat.le_add_r]. Qed.

Lemma costs_bind {A B} (m : Act A) (f : A → Act B) c1 c2 c :
  costs m c1 → (∀ a, costs (f a) c2) → (c1 + c2 <= c)%nat → costs (m ≫= f) c.
Proof.
  intros Hm Hf Hc w Hw. unfold mbind, M_bind. destruct (Hm w Hw) as [Hw' Hq]. destruct (m w) as [a w'].
  cbn [snd] in *. destruct (Hf a w' Hw') as [Hw'' Hq']. split; [done|lia].
Qed.

Lemma costs_le {A} (m : Act A) c c' : costs m c → (c <= c')%nat → costs m c'.
Proof. intros Hm Hc w Hw. destruct (Hm w Hw). split; [done|lia]. Qed.

Lemma pending_sub (s s' : MStore) l : store_typed s → store_typed s' →
  (∀ x p, kv_get (st_db s') (key NsSubmitRetry x) = Some (DPendingSubmit p) →
     kv_get (st_db s) (key NsSubmitRetry x) = Some (DPendingSubmit p) ∨ (key NsSubmitRetry x, p) ∈ l) →
  (queue_worth (due_submits s') <= queue_worth (due_submits s) + queue_worth l)%nat.
Proof.
  intros Ht Ht' Hs. rewrite <-queue_worth_app. apply queue_worth_sub, NoDup_submseteq.
  - apply (NoDup_fmap_1 fst). by apply due_submits_NoDup.
  - intros [k p] Hin. apply elem_of_app. apply (due_submits_elem _ _ _ Ht') in Hin as [Hg [x ->]].
    destruct (Hs x p Hg) as [Hg'|?]; [left|by right]. apply (due_submits_elem _ _ _ Ht). split; [done|by apply prefix_app_r].
Qed.

Lemma costs_store_do op : store_op_ok op → ¬ touches op NsSubmitRetry →
  costs (store_do (λ s, run_store_op s op)) 0.
Proof.
  intros Hok Hn w [s [Hs Ht]]. unfold store_do, modify, typed_world, pending. cbn [snd w_store set_store]. rewrite Hs.
  cbn [fmap option_fmap option_map]. assert (store_typed (run_store_op s op)) as Ht' by by apply typed_op.
  split; [by eexists|]. pose proof (pending_sub s _ [] Ht Ht') as Hp. unfold queue_worth at 3 in Hp. simpl in Hp.
  apply Hp. intros x p. rewrite store_op_frame by done. by left.
Qed.

Lemma costs_now : ∀ w : World, (Now w).2 = set_tick (S (w_tick w)) w ∧ 0 <= (Now w).1 < 2 ^ 63.
Proof. intros w. split; [done|apply clock_ok]. Qed.

Lemma costs_Now : costs Now 0.
Proof. intros w Hw. rewrite (proj1 (costs_now w)). split; [exact Hw|apply Nat.le_add_r]. Qed.

Lemma costs_store_at (op : Z → store_op) :
  (∀ t, 0 <= t < 2 ^ 63 → store_op_ok (op t) ∧ ¬ touches (op t) NsSubmitRetry) →
  costs (store_at (λ t s, run_store_op s (op t))) 0.
Proof.
  intros Hop. unfold store_at. apply costs_bind with O O; [apply costs_gets| |lia]. intros [|]; [|apply costs_ret].
  intros w Hw. unfold mbind, M_bind. destruct (costs_now w) as [E Hr]. destruct (Now w) as [t w']. cbn [fst snd] in *.
  destruct (Hop t Hr) as [Hok Hn]. rewrite E. by apply (costs_store_do _ Hok Hn (set_tick (S (w_tick w)) w)).
Qed.

(** One step through an action that is not worth anything. *)
Ltac cost :=
  lazymatch goal with
  | |- costs (mret _) _ => apply costs_ret
  | |- costs (gets _) _ => apply costs_gets
  | |- costs tick _ => apply costs_tick
  | |- costs Now _ => apply costs_Now
  | |- costs has_store _ => apply costs_gets
  | |- costs (conn_do _ _) _ => by apply costs_modify
  | |- costs (emit _) _ => by apply costs_modify
  | |- costs (store_get _) _ => apply costs_gets
  | |- costs (add_totals _ _ _ _ _) _ => by apply costs_modify
  | |- costs (modify _) _ => by apply costs_modify
  | |- costs (_ ≫= _) _ => apply costs_bind with O O; [|let a := fresh "a" in intros a; cbv beta|lia]
  | |- costs (if ?b then _ else _) _ => destruct b
  | |- costs (match ?b with _ => _ end) _ => destruct b
  end.

(** ** The handlers *)

Lemma costs_update_log gw f : costs (store_at (λ t s, (UpdateMessageLog t gw f s).1)) 0.
Proof. by apply (costs_store_at (λ t, OpUpdateMessageLog t gw f)). Qed.

Lemma costs_set_status (st : Z → MessageStatus) : costs (store_at (λ t, SetMessageStatus (st t))) 0.
Proof. by apply (costs_store_at (λ t, OpSetMessageStatus (st t))). Qed.

Lemma costs_store_submit r : costs (store_do (StoreSubmit r)) 0.
Proof. apply (costs_store_do (OpStoreSubmit r)); [done|]. by intros [?|?]. Qed.

Lemma costs_delete_key n x : n ≠ NsSubmitRetry → costs (store_do (DeleteKey (key n x))) 0.
Proof.
  intros Hn. apply (costs_store_do (OpDeleteKey (key n x))); [done|]. simpl. intros [y Hy].
  by apply (key_inj n NsSubmitRetry x y) in Hy as [? _].
Qed.

Lemma costs_delete_gw gw : costs (store_do (DeleteSubmitByGwID gw)) 0.
Proof. by apply (costs_store_do (OpDeleteSubmitByGwID gw)). Qed.

Lemma costs_set_callback n x cb : n = NsCallback ∨ n = NsCallbackRetry →
  costs (store_do (SetJSON (key n x) (json_callback cb))) 0.
Proof.
  intros Hn. apply (costs_store_do (OpSetJSON n x (json_callback cb))); destruct Hn as [-> | ->]; simpl; eauto.
Qed.

Lemma costs_deliver isDLR connID body : costs (deliver isDLR connID body) 0.
Proof. unfold deliver. repeat cost. Qed.

Lemma costs_round_robin : costs round_robin 0.
Proof. unfold round_robin. repeat cost. Qed.

Lemma costs_buffer isDLR id connID msisdn body esm src dst :
  costs (buffer_deliver isDLR id connID msisdn body esm src dst) 0.
Proof.
  unfold buffer_deliver. repeat cost.
  by apply (costs_store_at (λ t, OpEnqueueRetry id (pending_deliver connID msisdn body esm src dst t))).
Qed.

Lemma costs_deliverWithGrace connID body msisdn esm src dst id isDLR :
  costs (deliverWithGrace cfg connID body msisdn esm src dst id isDLR) 0.
Proof.
  unfold deliverWithGrace. repeat cost; (apply costs_deliver || apply costs_buffer || apply costs_round_robin).
Qed.

Lemma costs_callback gw status dst src : costs (deliverDLRCallback gw status dst src) 0.
Proof.
  unfold deliverDLRCallback, get_callback, postCallback, enqueueCallbackRetry. repeat cost;
    first [by apply costs_delete_key|apply costs_set_callback; tauto].
Qed.

Lemma costs_synthetic connID gw dst src : costs (sendSyntheticDLR cfg connID gw dst src) 0.
Proof.
  unfold sendSyntheticDLR. repeat cost;
    (apply costs_update_log || apply costs_set_status || apply costs_callback || apply costs_deliverWithGrace).
Qed.

Lemma costs_submit gw dst body : costs (submit_to_smsc cfg gw dst body) 0.
Proof. unfold submit_to_smsc, resolve_submitter. repeat cost. Qed.

Lemma costs_record corr smscID gw connID dst src body :
  costs (record_forwarded corr smscID gw connID dst src body) 0.
Proof.
  unfold record_forwarded. repeat cost;
    (apply costs_store_submit || apply costs_delete_gw || apply costs_set_status || apply costs_update_log).
Qed.

(** Putting a message back costs the tries it still has. *)
Lemma costs_enqueue (p : Z → PendingSubmit) n :
  (∀ t, ps_EnqueuedAt (p t) = t ∧ ps_RetryCount (p t) = n) →
  costs (store_at (λ t, EnqueueSubmitRetry (p t))) (Z.to_nat (rc_maxSubmitRetries cfg + 1 - n)).
Proof.
  intros Hp. unfold store_at. apply costs_bind with O (Z.to_nat (rc_maxSubmitRetries cfg + 1 - n)); [apply costs_gets| |lia].
  intros [|]; [|eapply costs_le; [apply costs_ret|lia]].
  intros w Hw. unfold mbind, M_bind. destruct (costs_now w) as [E Hr]. destruct (Now w) as [t w']. cbn [fst snd] in *.
  subst w'. destruct Hw as [s [Hs Ht]]. destruct (Hp t) as [Ht' Hn].
  unfold store_do, modify, typed_world, pending. cbn [snd w_store set_store set_tick]. rewrite Hs.
  cbn [fmap option_fmap option_map].
  assert (store_typed (EnqueueSubmitRetry (p t) s)) as Hty.
  { apply (typed_op (OpEnqueueSubmitRetry (p t))); [simpl; by rewrite Ht'|done]. }
  split; [by eexists|].
  pose proof (pending_sub s _ [(submit_retry_key (ps_EnqueuedAt (p t)) (ps_GwMsgID (p t)),
    mkPendingSubmit (json_string (ps_GwMsgID (p t))) (json_string (ps_ConnID (p t))) (json_string (ps_MSISDN (p t)))
      (json_string (ps_SourceAddr (p t))) (ps_RawBody (p t)) (ps_RetryCount (p t)) (ps_EnqueuedAt (p t)))] Ht Hty) as Hq.
  unfold queue_worth at 3 in Hq. cbn [sum_list_with snd] in Hq. unfold tries_left in Hq at 1.
  cbn [ps_RetryCount] in Hq. rewrite Hn, Nat.add_0_r in Hq. apply Hq. clear Hq.
  intros x q. pose proof (get_db_Set (submit_retry_key (ps_EnqueuedAt (p t)) (ps_GwMsgID (p t)))
    (json_pending_submit (p t)) s (key NsSubmitRetry x)) as Hset.
  unfold EnqueueSubmitRetry. cbn [st_db submitRetryCount_Add st_with_counts]. rewrite Hset.
  case_decide as Hk; [|by left]. intros [= <-]. right. rewrite Hk. rewrite <-Hn. by left.
Qed.

Lemma costs_enqueue_or_fail gw connID dst src body n :
  costs (enqueueSubmitRetryOrFail cfg gw connID dst src body n) (Z.to_nat (rc_maxSubmitRetries cfg - n)).
Proof.
  unfold enqueueSubmitRetryOrFail. apply costs_bind with O (Z.to_nat (rc_maxSubmitRetries cfg - n)); [apply costs_gets| |lia].
  intros h. match goal with |- costs (if ?b then _ else _) _ => destruct b end.
  - replace (rc_maxSubmitRetries cfg - n) with (rc_maxSubmitRetries cfg + 1 - (n + 1)) by lia. by apply costs_enqueue.
  - eapply costs_le; [apply costs_synthetic|lia].
Qed.

Lemma costs_retry p : costs (retry_submit cfg p) (Z.to_nat (rc_maxSubmitRetries cfg - ps_RetryCount p)).
Proof.
  unfold retry_submit. apply costs_bind with O (Z.to_nat (rc_maxSubmitRetries cfg - ps_RetryCount p)); [apply costs_submit| |lia].
  intros a. unfold retry_finish. destruct a as [[| |id]|]; try apply costs_enqueue_or_fail.
  apply costs_le with O; [|lia]. apply costs_bind with O O; [apply costs_Now|intros; apply costs_record|lia].
Qed.

Lemma costs_retries ps :
  costs (mapM_ (retry_submit cfg) ps) (sum_list_with (λ p, Z.to_nat (rc_maxSubmitRetries cfg - ps_RetryCount p)) ps).
Proof.
  induction ps as [|p ps IH]; [apply costs_ret|].
  change (mapM_ (retry_submit cfg) (p :: ps)) with (retry_submit cfg p ≫= λ _, mapM_ (retry_submit cfg) ps).
  eapply costs_bind; [apply costs_retry|intros _; exact IH|done].
Qed.

(** ** One drain *)

Lemma due_bounded ks (w : World) s : run_ok cfg False (w, ks) → w_store w = Some s →
  Forall (λ e, 1 <= ps_RetryCount e.2 <= rc_maxSubmitRetries cfg) (due_submits s).
Proof.
  intros [Hi _] Hs. cbn [fst] in Hi. destruct (i_store _ _ _ _ Hi) as (s' & Hs' & Ht & Hd).
  rewrite Hs' in Hs. injection Hs as ->. apply Forall_forall. intros [k p] Hin.
  apply (due_submits_elem _ _ _ Ht) in Hin as [Hg _]. by destruct (Hd k (DPendingSubmit p) (or_introl Hg)).
Qed.

Lemma drain_takes_worth s limit : store_typed s →
  (queue_worth (due_submits (DrainSubmitRetries limit s).2) + queue_worth (drain_take limit 0 (due_submits s)) <=
   queue_worth (due_submits s))%nat.
Proof.
  intros Ht. set (l := due_submits s). set (taken := drain_take limit 0 l).
  assert (store_typed (DrainSubmitRetries limit s).2) as Ht' by by apply (typed_op (OpDrainSubmitRetries limit)).
  pose proof (due_submits_NoDup s Ht) as Hnd. apply NoDup_fmap_1 in Hnd. fold l in Hnd.
  assert (∀ e, e ∈ taken → e ∈ l) as Hsub.
  { intros e. subst taken. unfold drain_take. case_decide; [|done]. intros (i & Hi & _)%elem_of_take. by eapply list_elem_of_lookup_2. }
  rewrite <-queue_worth_app. apply queue_worth_sub, NoDup_submseteq.
  - apply NoDup_app. split; [apply (NoDup_fmap_1 fst); by apply due_submits_NoDup|]. split.
    + intros [k p] Hin Htk. apply (due_submits_elem _ _ _ Ht') in Hin as [Hg _].
      rewrite DrainSubmitRetries_eq in Hg by done. cbv zeta in Hg. cbn [snd st_db submitRetryCount_Add st_with_counts] in Hg.
      pose proof (get_db_DeleteAll taken.*1 s k) as Hget. fold l taken in Hg. rewrite Hget, decide_True in Hg; [done|].
      apply list_elem_of_fmap. by exists (k, p).
    + subst taken. unfold drain_take. case_decide; [|done]. rewrite <-(take_drop (Z.to_nat (limit - 0)) l) in Hnd.
      by apply NoDup_app in Hnd as [? _].
  - intros [k p] [Hin|Hin]%elem_of_app; [|by apply Hsub].
    apply (due_submits_elem _ _ _ Ht') in Hin as [Hg Hp]. apply (due_submits_elem _ _ _ Ht). split; [|done].
    rewrite DrainSubmitRetries_eq in Hg by done. cbv zeta in Hg. cbn [snd st_db submitRetryCount_Add st_with_counts] in Hg.
    pose proof (get_db_DeleteAll taken.*1 s k) as Hget. fold l taken in Hg. rewrite Hget in Hg. by case_decide.
Qed.

Lemma taken_worth (l : list (bytes * PendingSubmit)) :
  Forall (λ e, 1 <= ps_RetryCount e.2 <= rc_maxSubmitRetries cfg) l →
  (sum_list_with (λ p, Z.to_nat (rc_maxSubmitRetries cfg - ps_RetryCount p)) l.*2 + length l = queue_worth l)%nat.
Proof.
  unfold queue_worth, tries_left. induction 1 as [|[k p] l Hp _ IH]; [done|].
  cbn [sum_list_with fmap list_fmap length snd] in *. lia.
Qed.

Lemma drain_submits_run s (w : World) : w_store w = Some s →
  run (drainSubmitRetries cfg) w =
  run (mapM_ (retry_submit cfg) (DrainSubmitRetries (rc_submitRetryDrainLimit cfg) s).1)
    (set_store (Some (DrainSubmitRetries (rc_submitRetryDrainLimit cfg) s).2) w).
Proof. intros Hs. unfold run, drainSubmitRetries, store_do, gets, modify, mbind, M_bind. cbn. by rewrite Hs. Qed.

(** A drain of a queue that is not empty makes it worth less. *)
Lemma drain_decreases ks (w : World) : run_ok cfg False (w, ks) → pending w ≠ [] →
  (queue_worth (pending (run (drainSubmitRetries cfg) w)) < queue_worth (pending w))%nat.
Proof.
  intros Hok Hne. destruct (i_store _ _ _ _ (proj1 Hok)) as (s & Hs & Ht & _). cbn [fst] in Hs.
  pose proof (due_bounded ks w s Hok Hs) as Hb. rewrite (drain_submits_run s w Hs).
  set (limit := rc_submitRetryDrainLimit cfg). set (w' := set_store (Some (DrainSubmitRetries limit s).2) w).
  destruct (costs_retries (DrainSubmitRetries limit s).1 w') as [_ Hc].
  { eexists. split; [reflexivity|]. by apply (typed_op (OpDrainSubmitRetries limit)). }
  unfold run. eapply Nat.le_lt_trans; [exact Hc|]. unfold pending in *. cbn [w_store w' set_store]. rewrite Hs in *.
  pose proof (drain_takes_worth s limit Ht) as Hw. rewrite DrainSubmitRetries_eq at 2 by done. cbn [fst].
  assert (Forall (λ e, 1 <= ps_RetryCount e.2 <= rc_maxSubmitRetries cfg) (drain_take limit 0 (due_submits s))) as Hb'.
  { unfold drain_take. case_decide; [|done]. by apply Forall_take. }
  pose proof (taken_worth _ Hb') as Hq.
  assert (0 < length (drain_take limit 0 (due_submits s)))%nat as Hl.
  { unfold drain_take. destruct (due_submits s); [done|]. case_decide; [|simpl; lia].
    destruct (Z.to_nat (limit - 0)) eqn:E; [lia|]. simpl. lia. }
  lia.
Qed.

(** A drain is a run of its steps. *)
Lemma retries_run ps : ∀ (w : World) ks,
  rtc (gw_step cfg any_change) (w, ks ++ (WkRetry <$> ps)) (run (mapM_ (retry_submit cfg) ps) w, ks).
Proof.
  induction ps as [|p ps IH]; intros w ks; [rewrite app_nil_r; constructor|]. cbn [fmap list_fmap].
  etransitivity; [by apply (finish_run cfg any_change 2)|]. rewrite <-retry_submit_steps.
  replace (run (mapM_ (retry_submit cfg) (p :: ps)) w) with (run (mapM_ (retry_submit cfg) ps) (run (retry_submit cfg p) w)); [apply IH|].
  unfold run. change (mapM_ (retry_submit cfg) (p :: ps)) with (retry_submit cfg p ≫= λ _, mapM_ (retry_submit cfg) ps).
  by rewrite bind_eq.
Qed.

Lemma drain_steps (w : World) ks : typed_world w →
  rtc (gw_step cfg any_change) (w, ks) (run (drainSubmitRetries cfg) w, ks).
Proof.
  intros [s [Hs _]]. rewrite (drain_submits_run s w Hs). eapply rtc_l; [apply GwDrain|].
  assert (begin_drain cfg w = (WkRetry <$> (DrainSubmitRetries (rc_submitRetryDrainLimit cfg) s).1,
    set_store (Some (DrainSubmitRetries (rc_submitRetryDrainLimit cfg) s).2) w)) as ->; [|apply retries_run].
  unfold begin_drain, store_do, gets, modify, mbind, M_bind. cbn. by rewrite Hs.
Qed.

Definition drains (n : nat) (w : World) : World := Nat.iter n (run (drainSubmitRetries cfg)) w.

Lemma drains_end (db : DB) : fresh_db db → ∀ n (w : World) ks,
  rtc (gw_step cfg any_change) (started db) (w, ks) → (queue_worth (pending w) <= n)%nat →
  ∃ m, (m <= n)%nat ∧ rtc (gw_step cfg any_change) (w, ks) (drains m w, ks) ∧ pending (drains m w) = [].
Proof.
  intros Hdb. induction n as [|n IH]; intros w ks Hr Hn.
  - exists O. split; [done|]. split; [constructor|]. cbn. pose proof (reachable_ok cfg clock_ok db _ Hdb Hr) as Hok.
    destruct (decide (pending w = [])) as [|Hne]; [done|]. pose proof (drain_decreases ks w Hok Hne). lia.
  - destruct (decide (pending w = [])) as [He|Hne]; [exists O; split; [lia|]; split; [constructor|exact He]|].
    pose proof (reachable_ok cfg clock_ok db _ Hdb Hr) as Hok. pose proof (drain_decreases ks w Hok Hne) as Hd.
    assert (typed_world w) as Hty.
    { destruct (i_store _ _ _ _ (proj1 Hok)) as (s & Hs & Ht & _). by exists s. }
    pose proof (drain_steps w ks Hty) as Hs.
    destruct (IH (run (drainSubmitRetries cfg) w) ks) as (m & Hm & Hrun & He); [by etransitivity|lia|].
    exists (S m). assert (drains (S m) w = drains m (run (drainSubmitRetries cfg) w)) as ->.
    { unfold drains. by rewrite Nat.iter_succ_r. }
    split; [lia|]. split; [by etransitivity|exact He].
Qed.

(** ** Settling everything *)

(** The works in hand run to their ends, one after the other. *)
Definition finish_all (ks : list work) (w : World) : World := foldl (λ w k, run (finish_opt cfg (Some k)) w) w ks.

Lemma finish_all_run ks : ∀ w, rtc (gw_step cfg any_change) (w, ks) (finish_all ks w, []).
Proof.
  induction ks as [|k ks IH]; intros w; [constructor|]. etransitivity; [|apply IH].
  by apply (finish_run cfg any_change (wk_rank k) k w [] ks).
Qed.

(** A worker that takes a task leaves the rest of the queue. *)
Lemma worker_queue (w : World) : w_forwardCh (run (forwardWorker cfg) w) = tail (w_forwardCh w).
Proof.
  rewrite forwardWorker_steps. unfold run. rewrite bind_eq. destruct (begin_forward_view cfg w) as [Hv _].
  assert (∀ t c a, (begin_forward cfg w).1 = Some (WkForward t c a) → ∀ w', 
    w_forwardCh (finish_opt cfg (Some (WkForward t c a)) w').2 = w_forwardCh w') as Hf.
  { intros t c a _ w'. cbn [finish_opt wk_rank finish advance]. repeat (rewrite !bind_eq; cbn [fst snd mret M_ret advance]).
    transitivity (w_forwardCh (forward_finish cfg c (ft_gwMsgID t) (ft_destAddr t) (ft_sourceAddr t) (ft_rawBody t) a w').2).
    - by destruct (ft_conn t).
    - exact (f_equal fst (still_forward_finish cfg c (ft_gwMsgID t) (ft_destAddr t) (ft_sourceAddr t) (ft_rawBody t) a w')). }
  injection Hv as Hq _. rewrite <-Hq. clear Hq.
  assert ((begin_forward cfg w).1 = None ∨ ∃ t c a, (begin_forward cfg w).1 = Some (WkForward t c a)) as [E|(t & c & a & E)].
  { unfold begin_forward. rewrite bind_eq. cbn [fst snd gets]. destruct (w_forwardCh w) as [|t ch]; [by left|].
    right. rewrite !bind_eq. cbn [fst snd gets modify mret M_ret]. eauto. }
  - by rewrite E.
  - rewrite E. by eapply Hf.
Qed.

(** The works in hand, then the workers until the queue is empty. *)
Definition settle (ks : list work) (w : World) : World :=
  let w := finish_all ks w in Nat.iter (length (w_forwardCh w)) (run (forwardWorker cfg)) w.

Lemma workers_run n : ∀ w : World, rtc (gw_step cfg any_change) (w, []) (Nat.iter n (run (forwardWorker cfg)) w, []) ∧
  w_forwardCh (Nat.iter n (run (forwardWorker cfg)) w) = drop n (w_forwardCh w).
Proof.
  induction n as [|n IH]; intros w; [split; [constructor|done]|].
  change (Nat.iter (S n) (run (forwardWorker cfg)) w) with
    (run (forwardWorker cfg) (Nat.iter n (run (forwardWorker cfg)) w)). destruct (IH w) as [Hr Hq]. split.
  - etransitivity; [exact Hr|]. apply worker_run.
  - rewrite worker_queue, Hq. rewrite <-Nat.add_1_r, <-drop_drop. by destruct (drop n (w_forwardCh w)).
Qed.

Lemma settle_run ks (w : World) :
  rtc (gw_step cfg any_change) (w, ks) (settle ks w, []) ∧ w_forwardCh (settle ks w) = [].
Proof.
  unfold settle. cbv zeta. destruct (workers_run (length (w_forwardCh (finish_all ks w))) (finish_all ks w)) as [Hr Hq].
  split; [etransitivity; [apply finish_all_run|exact Hr]|]. by rewrite Hq, drop_all.
Qed.

Lemma drains_queue n (w : World) : w_forwardCh (drains n w) = w_forwardCh w.
Proof.
  unfold drains. induction n as [|n IH]; [done|]. rewrite Nat.iter_succ, <-IH. generalize (Nat.iter n (run (drainSubmitRetries cfg)) w).
  intros w'. apply (f_equal fst (x := fview (run (drainSubmitRetries cfg) w')) (y := fview w')).
  assert (still (drainSubmitRetries (DB := DB) (PM := PM) cfg)) as Hs; [|apply Hs].
  unfold drainSubmitRetries. apply still_bind; [apply still_gets|]. intros ps. apply still_bind; [apply still_store_do|]. intros _.
  apply still_mapM. intros p. unfold retry_submit. apply still_bind; [apply still_submit|]. intros a. apply still_retry_finish.
Qed.

(** C3: retries come to an end, and every message is settled.  From any reachable state,
    whatever the SMSC answers: when the submits, forwards and retries in hand have run
    to their ends, the workers have emptied the forward queue, and then the retry queue
    has been drained at most as often as its messages have tries left (at most the
    configured maximum for each), with nothing new submitted, nothing is in hand, the
    forward queue and the retry queue are empty, and of every message that was ever
    accepted the fate is known: the SMSC has taken it or a failure receipt was made. *)
Theorem retries_terminate (db : DB) (w : World) ks :
  fresh_db db → rtc (gw_step cfg any_change) (started db) (w, ks) →
  ∃ n, (n <= Z.to_nat (rc_maxSubmitRetries cfg) * length (pending (settle ks w)))%nat ∧
    let w' := drains n (settle ks w) in
    rtc (gw_step cfg any_change) (w, ks) (w', []) ∧ w_forwardCh w' = [] ∧ pending w' = [] ∧
    w_events w ⊆ w_events w' ∧
    ∀ gw c r, EvAccepted gw c r ∈ w_events w' →
      (∃ s body id, EvSubmit gw s body (SubmitOK id) ∈ w_events w') ∨ (∃ c', EvSynthetic gw c' ∈ w_events w').
Proof.
  intros Hdb Hr. destruct (settle_run ks w) as [Hs Hq]. set (ws := settle ks w) in *. clearbody ws.
  assert (rtc (gw_step cfg any_change) (started db) (ws, [])) as Hrs by by etransitivity.
  pose proof (reachable_ok cfg clock_ok db _ Hdb Hrs) as Hok.
  destruct (i_store _ _ _ _ (proj1 Hok)) as (s & Hst & _ & _). cbn [fst] in Hst.
  pose proof (due_bounded [] ws s Hok Hst) as Hb.
  destruct (drains_end db Hdb (queue_worth (pending ws)) ws [] Hrs (le_n _)) as (n & Hn & Hrun & He).
  exists n. split.
  - etransitivity; [exact Hn|]. unfold pending. rewrite Hst. clear -Hb. unfold queue_worth, tries_left.
    induction Hb as [|e l He _ IH]; [cbn; lia|]. cbn [sum_list_with length]. lia.
  - cbv zeta. assert (rtc (gw_step cfg any_change) (w, ks) (drains n ws, [])) as Hr' by by etransitivity.
    split; [exact Hr'|]. split; [by rewrite drains_queue|]. split; [exact He|].
    split; [exact (reachable_events cfg clock_ok db _ _ Hdb Hr Hr')|].
    intros gw c r Ha. assert (rtc (gw_step cfg any_change) (started db) (drains n ws, [])) as Hr'' by by etransitivity.
    destruct (reachable_ok cfg clock_ok db _ Hdb Hr'') as [Hi _]. cbn [fst snd] in Hi.
    destruct (i_live _ _ _ _ Hi gw c r Ha) as [Hk|[(t & Ht & _)|[(s' & x & p & Hs' & Hg & Hp)|Hl]]].
    + by apply elem_of_nil in Hk.
    + rewrite drains_queue, Hq in Ht. by apply elem_of_nil in Ht.
    + unfold pending in He. rewrite Hs' in He. destruct (i_store _ _ _ _ Hi) as (s'' & Hs'' & Ht'' & _).
      rewrite Hs'' in Hs'. injection Hs' as ->.
      assert ((key NsSubmitRetry x, p) ∈ due_submits s') as Hin.
      { apply (due_submits_elem _ _ _ Ht''). split; [done|by apply prefix_app_r]. }
      rewrite He in Hin. by apply elem_of_nil in Hin.
    + exact Hl.
Qed.

End retry_end.

(** ** A message the SMSC never takes *)

#[local] Existing Instance insertion_SliceSort.

(** An environment like [ex_env] whose SMSC rejects everything. *)
Definition rejecting_env : Env := {|
  env_clock n := 1700000000 * Second;
  env_ack _ := Some StatusOK;
  env_submit _ _ _ := SubmitRejected;
  env_post _ := true;
  env_iter _ m := map_to_list m;
  env_iter_perm _ m := Permutation_refl _
|}.

#[local] Existing Instance rejecting_env.

(** The engine's message has been answered and recorded, and is not queued yet. *)
Definition rj_answered := (begin_submit ex_cfg (str "engine") 7 ex_body ex_connected).
Definition rj_work : work :=
  WkAnswered (mkTask (Some 0%nat) (str "GW-1") (str "447911") (str "4470") ex_body) (str "engine").

Lemma rj_steps : rtc (gw_step ex_cfg any_change) (started ∅) (rj_answered.2, [rj_work]).
Proof.
  etransitivity; [apply (run_any _ keeps_names), ex_connected_steps|]. apply rtc_once.
  assert (rj_answered.1 = Some rj_work) as Hb by (vm_compute; reflexivity).
  change [rj_work] with ([] ++ option_list (Some rj_work)). rewrite <-Hb.
  assert (json_string (str "engine") = str "engine") as Hj by by vm_compute.
  assert (w_msgSeq ex_connected < 2 ^ 64 - 1) as Hn by by vm_compute.
  exact (GwSubmit ex_cfg any_change (str "engine") 7 ex_body ex_connected [] Hj Hn).
Qed.

Lemma rj_clock_ok : ∀ n, 0 <= env_clock n < 2 ^ 63.
Proof. intros n. by vm_compute. Qed.

(** One message is in the hands of its submit; the worker it goes to has it rejected, and
    at most three drains settle it. *)
Lemma retries_terminate_witness :
  length (pending (settle ex_cfg [rj_work] rj_answered.2)) = 1%nat ∧
  ∃ n, (n <= 3)%nat ∧ ∃ c, EvSynthetic (str "GW-1") c ∈ w_events (drains ex_cfg n (settle ex_cfg [rj_work] rj_answered.2)).
Proof.
  destruct (retries_terminate ex_cfg rj_clock_ok ∅ rj_answered.2 [rj_work]
    ex_fresh rj_steps) as (n & Hn & _ & _ & _ & Hev & Hf).
  assert (length (pending (settle ex_cfg [rj_work] rj_answered.2)) = 1%nat) as Hl by (vm_compute; reflexivity).
  split; [exact Hl|]. exists n. rewrite Hl in Hn. split; [exact Hn|].
  assert (EvAccepted (str "GW-1") (str "engine") (Some 0%nat) ∈ w_events rj_answered.2) as Ha by (vm_compute; left; reflexivity).
  destruct (Hf _ _ _ (Hev _ Ha)) as [(s & body & id & He)|Hs]; [exfalso|exact Hs].
  change (Z.to_nat (rc_maxSubmitRetries ex_cfg) * 1)%nat with 3%nat in Hn.
  assert (n = 0 ∨ n = 1 ∨ n = 2 ∨ n = 3)%nat as [->|[->|[->| ->]]] by lia; vm_compute in He;
    repeat (apply elem_of_cons in He as [He|He]; [discriminate He|]); by apply elem_of_nil in He.
Defined.

(** A session that binds again, as another engine, while its message is queued: the
    receipt for the message goes to the other engine.  So the runs of [router_ownership]
    have to be steady. *)
Theorem rebind_misroutes_receipt :
  let cfg := mkRouterConfig 30 0 0 0 0 100 true in
  let queued := run (HandleSubmit cfg (str "engine") 7 ex_body) ex_connected in
  let rebound := set_server (sv_ex_bind 0 (str "other") None (w_server queued)) queued in
  let w := run (forwardWorker cfg) rebound in
  rtc (gw_step cfg any_change) (started ∅) (w, []) ∧
  EvAccepted (str "GW-1") (str "engine") (Some 0%nat) ∈ w_events w ∧ EvSynthetic (str "GW-1") (str "other") ∈ w_events w.
Proof.
  intros cfg queued rebound w. split; [|split; vm_compute; repeat first [left; reflexivity|right]].
  etransitivity; [apply (run_any _ keeps_names), ex_connected_steps|].
  etransitivity; [apply (submit_run cfg any_change (str "engine") 7 ex_body); by vm_compute|].
  etransitivity; [|apply worker_run]. apply server_steps_run, sv_ex_bind_steps. vm_compute. by eexists.
Qed.
