(* ===== verification/ConfigStore.v ===== *)
(** * Persisted configuration: accounts, routes and pools

    gateway/conn_config.go and gateway/route_config.go, over the message store.  A kind
    of record kept as JSON under a prefix of its own is a [Stored] type, and
    [collection] relates a store to the finite map from keys to records it holds; the
    operations of both files are specified on that map.

    Password hashing is golang.org/x/crypto/bcrypt: [Bcrypt] is the part of it the
    gateway calls, with the salt it draws as an argument, and [BcryptLaws] what it
    documents. *)

From Stdlib Require Import QArith.
From S2P Require Import Prelude Utf8 Connection PoolManager RouteTable Dlr Documents Format.
From S2P Require Import Store.

Local Open Scope Z_scope.

(** ** Kinds of stored records *)

Class Stored (A : Type) := {
  rec_ns : namespace;
  rec_doc : A → doc;
  rec_un : doc → option A;
  rec_un_doc : ∀ d a, rec_un d = Some a ↔ d = rec_doc a
}.
Arguments rec_ns A {_}.

Definition un_conn_config (d : doc) : option ConnectionConfig := match d with DConnConfig c => Some c | _ => None end.
Definition un_mt_route (d : doc) : option MTRoute := match d with DMTRoute r => Some r | _ => None end.
Definition un_mo_route (d : doc) : option MORoute := match d with DMORoute r => Some r | _ => None end.
Definition un_pool (d : doc) : option SouthboundPoolConfig := match d with DPool c => Some c | _ => None end.
Definition un_api_key (d : doc) : option APIKey := match d with DAPIKey k => Some k | _ => None end.
Definition un_user (d : doc) : option AdminUser := match d with DUser u => Some u | _ => None end.

#[export] Instance conn_config_Stored : Stored ConnectionConfig.
Proof. refine {| rec_ns := NsConnConfig; rec_doc := DConnConfig; rec_un := un_conn_config |}; intros []; naive_solver. Defined.
#[export] Instance mt_route_Stored : Stored MTRoute.
Proof. refine {| rec_ns := NsMTRoute; rec_doc := DMTRoute; rec_un := un_mt_route |}; intros []; naive_solver. Defined.
#[export] Instance mo_route_Stored : Stored MORoute.
Proof. refine {| rec_ns := NsMORoute; rec_doc := DMORoute; rec_un := un_mo_route |}; intros []; naive_solver. Defined.
#[export] Instance pool_Stored : Stored SouthboundPoolConfig.
Proof. refine {| rec_ns := NsPool; rec_doc := DPool; rec_un := un_pool |}; intros []; naive_solver. Defined.
#[export] Instance api_key_Stored : Stored APIKey.
Proof. refine {| rec_ns := NsAPIKey; rec_doc := DAPIKey; rec_un := un_api_key |}; intros []; naive_solver. Defined.
#[export] Instance user_Stored : Stored AdminUser.
Proof. refine {| rec_ns := NsUser; rec_doc := DUser; rec_un := un_user |}; intros []; naive_solver. Defined.

(** ** bcrypt *)

Class Bcrypt := {
  (** GenerateFromPassword; [None] is its error (a password of more than 72 bytes) *)
  bcrypt_generate : bytes → bytes → option bytes;
  (** CompareHashAndPassword, true for a nil error *)
  bcrypt_compare : bytes → bytes → bool
}.

Class BcryptLaws `{!Bcrypt} : Prop := {
  bcrypt_ascii : ∀ salt p h, bcrypt_generate salt p = Some h → ascii_text h;
  bcrypt_correct : ∀ salt p h, bcrypt_generate salt p = Some h → bcrypt_compare h p = true
}.

(** ** Accounts of engines *)

Inductive config_err :=
| IDRequired | ConfigExists (systemID : bytes) | PasswordRequired | BcryptError
| ConfigNotFound (systemID : bytes) | ConfigUnreadable.

#[export] Instance config_err_eq_dec : EqDecision config_err.
Proof. solve_decision. Defined.

Definition cc_with_password (c : ConnectionConfig) (p : bytes) : ConnectionConfig :=
  mkConnConfig (cc_SystemID c) p (cc_Description c) (cc_Enabled c) (cc_AllowedIPs c) (cc_MaxTPS c)
    (cc_CostPerSMS c) (cc_AllowedPrefixes c) (cc_DefaultSourceAddr c) (cc_DefaultSourceTON c)
    (cc_DefaultSourceNPI c) (cc_SourceAddrMode c) (cc_ForceSourceAddr c) (cc_ForceSourceTON c)
    (cc_ForceSourceNPI c) (cc_AllowedSourceAddrs c) (cc_MaxBinds c) (cc_AllowedBindModes c)
    (cc_CreatedAt c) (cc_UpdatedAt c).

Definition cc_with_times (c : ConnectionConfig) (created updated : Z) : ConnectionConfig :=
  mkConnConfig (cc_SystemID c) (cc_Password c) (cc_Description c) (cc_Enabled c) (cc_AllowedIPs c)
    (cc_MaxTPS c) (cc_CostPerSMS c) (cc_AllowedPrefixes c) (cc_DefaultSourceAddr c)
    (cc_DefaultSourceTON c) (cc_DefaultSourceNPI c) (cc_SourceAddrMode c) (cc_ForceSourceAddr c)
    (cc_ForceSourceTON c) (cc_ForceSourceNPI c) (cc_AllowedSourceAddrs c) (cc_MaxBinds c)
    (cc_AllowedBindModes c) created updated.

(** The fields an update takes over: all but the ID, the password and the times. *)
Definition cc_merge (existing c : ConnectionConfig) : ConnectionConfig :=
  mkConnConfig (cc_SystemID existing) (cc_Password existing) (cc_Description c) (cc_Enabled c)
    (cc_AllowedIPs c) (cc_MaxTPS c) (cc_CostPerSMS c) (cc_AllowedPrefixes c) (cc_DefaultSourceAddr c)
    (cc_DefaultSourceTON c) (cc_DefaultSourceNPI c) (cc_SourceAddrMode c) (cc_ForceSourceAddr c)
    (cc_ForceSourceTON c) (cc_ForceSourceNPI c) (cc_AllowedSourceAddrs c) (cc_MaxBinds c)
    (cc_AllowedBindModes c) (cc_CreatedAt existing) (cc_UpdatedAt existing).

Definition connConfigKey (systemID : bytes) : bytes := key NsConnConfig systemID.

Section config_store.
Context {DB : Type} `{!KV DB} `{!Bcrypt}.

Abbreviation MessageStore := (MessageStore (DB := DB)).

(** The error, if any, the caller's record afterwards, and the store. *)
Definition cs_Create (salt : bytes) (now : Z) (cfg : ConnectionConfig) (s : MessageStore) :
    option config_err * ConnectionConfig * MessageStore :=
  if decide (cc_SystemID cfg = []) then (Some IDRequired, cfg, s)
  else
    match GetJSON un_conn_config (connConfigKey (cc_SystemID cfg)) s with
    | Got _ => (Some (ConfigExists (cc_SystemID cfg)), cfg, s)
    | _ =>
        if decide (cc_Password cfg = []) then (Some PasswordRequired, cfg, s)
        else
          match bcrypt_generate salt (cc_Password cfg) with
          | None => (Some BcryptError, cfg, s)
          | Some hash =>
              let cfg := cc_with_times (cc_with_password cfg hash) now now in
              (None, cfg, SetJSON (connConfigKey (cc_SystemID cfg)) (json_conn_config cfg) s)
          end
    end.

(** A record, nil for a key that is not there, or the error of the decoding. *)
Definition cs_Get (systemID : bytes) (s : MessageStore) : option ConnectionConfig + config_err :=
  match GetJSON un_conn_config (connConfigKey systemID) s with
  | Got cfg => inl (Some cfg)
  | GotNone => inl None
  | GotBad => inr ConfigUnreadable
  end.

Definition cs_Update (salt : bytes) (now : Z) (cfg : ConnectionConfig) (s : MessageStore) :
    option config_err * MessageStore :=
  if decide (cc_SystemID cfg = []) then (Some IDRequired, s)
  else
    match cs_Get (cc_SystemID cfg) s with
    | inr err => (Some err, s)
    | inl None => (Some (ConfigNotFound (cc_SystemID cfg)), s)
    | inl (Some existing) =>
        let password :=
          if decide (cc_Password cfg = []) then Some (cc_Password existing)
          else bcrypt_generate salt (cc_Password cfg) in
        match password with
        | None => (Some BcryptError, s)
        | Some password =>
            let existing := cc_merge (cc_with_password existing password) cfg in
            let existing := cc_with_times existing (cc_CreatedAt existing) now in
            (None, SetJSON (connConfigKey (cc_SystemID cfg)) (json_conn_config existing) s)
        end
    end.

Definition cs_Delete (systemID : bytes) (s : MessageStore) : MessageStore :=
  DeleteKey (connConfigKey systemID) s.

(** The callback of a listing: malformed records are skipped, [hide] clears the secret. *)
Definition list_record {A} `{!Stored A} (hide : A → A) (_ : bytes) (data : doc) (acc : list A) :
    list A + Empty_set :=
  match rec_un data with None => inl acc | Some a => inl (acc ++ [hide a]) end.

Definition cs_List (s : MessageStore) : list ConnectionConfig :=
  (ScanPrefix (str "connconfig:") (list_record (λ c, cc_with_password c [])) [] s).1.

Definition cs_Authenticate (systemID plainPassword : bytes) (s : MessageStore) : auth_answer :=
  match cs_Get systemID s with
  | inr _ => AuthError
  | inl None => AuthUnknown
  | inl (Some cfg) =>
      if negb (cc_Enabled cfg) then AuthError
      else if negb (bcrypt_compare (cc_Password cfg) plainPassword) then AuthError
      else AuthOK cfg
  end.

(** ** Routes and pools *)

Definition mt_route_key (prefix : bytes) : bytes := key NsMTRoute prefix.
Definition mo_route_key (destPattern sourcePrefix : bytes) : bytes :=
  key NsMORoute (destPattern ++ str ":" ++ sourcePrefix).
Definition pool_key (name : bytes) : bytes := key NsPool name.

(** The callback of a load: a record that does not decode ends it with the error. *)
Definition load_record {A} `{!Stored A} (_ : bytes) (data : doc) (acc : list A) : list A + unit :=
  match rec_un data with None => inr tt | Some a => inl (acc ++ [a]) end.

Definition SaveMTRoute (route : MTRoute) (s : MessageStore) : MessageStore :=
  SetJSON (mt_route_key (mt_Prefix route)) (json_mt_route route) s.
Definition DeleteMTRoute (prefix : bytes) (s : MessageStore) : MessageStore :=
  DeleteKey (mt_route_key prefix) s.
Definition LoadAllMTRoutes (s : MessageStore) : list MTRoute * option unit :=
  ScanPrefix (str "route:mt:") load_record [] s.

Definition SaveMORoute (route : MORoute) (s : MessageStore) : MessageStore :=
  SetJSON (mo_route_key (mo_DestPattern route) (mo_SourcePrefix route)) (json_mo_route route) s.
Definition DeleteMORoute (destPattern sourcePrefix : bytes) (s : MessageStore) : MessageStore :=
  DeleteKey (mo_route_key destPattern sourcePrefix) s.
Definition LoadAllMORoutes (s : MessageStore) : list MORoute * option unit :=
  ScanPrefix (str "route:mo:") load_record [] s.

Definition SavePoolConfig (cfg : SouthboundPoolConfig) (s : MessageStore) : MessageStore :=
  SetJSON (pool_key (sb_Name cfg)) (json_pool cfg) s.
Definition DeletePoolConfig (name : bytes) (s : MessageStore) : MessageStore :=
  DeleteKey (pool_key name) s.
Definition LoadAllPoolConfigs (s : MessageStore) : list SouthboundPoolConfig * option unit :=
  ScanPrefix (str "pool:") load_record [] s.

End config_store.

(** ** Collections *)

Section collections.
Context {DB : Type} `{!KV DB, !KVLaws DB}.

Abbreviation MessageStore := (MessageStore (DB := DB)).

(** The records of type [A] in the store, by the rest of their key. *)
Definition collection {A} `{!Stored A} (s : MessageStore) (m : gmap bytes A) : Prop :=
  ∀ x, kv_get (st_db s) (key (rec_ns A) x) = rec_doc <$> m !! x.

(** The records in the order of their keys. *)
Definition entries {A} (m : gmap bytes A) : list (bytes * A) := merge_sort entry_le (map_to_list m).

Lemma entries_elem {A} (m : gmap bytes A) k a : (k, a) ∈ entries m ↔ m !! k = Some a.
Proof. unfold entries. by rewrite (merge_sort_Permutation entry_le), elem_of_map_to_list. Qed.

Lemma entries_perm {A} (m : gmap bytes A) : entries m ≡ₚ map_to_list m.
Proof. apply merge_sort_Permutation. Qed.

Lemma entries_sorted {A} (m : gmap bytes A) : StronglySorted key_lt (entries m).*1.
Proof.
  apply StronglySorted_key_lt.
  - pose proof (StronglySorted_merge_sort entry_le (map_to_list m)) as Hs. unfold entries.
    induction Hs as [|x l Hs IH Hx]; simpl; constructor; [done|]. by apply Forall_fmap.
  - rewrite entries_perm. apply NoDup_fst_map_to_list.
Qed.

Lemma entries_NoDup {A} (m : gmap bytes A) : NoDup (entries m).*1.
Proof. rewrite entries_perm. apply NoDup_fst_map_to_list. Qed.

(** Every prefix ends with a colon, so the keys under it are those of its namespace. *)
Lemma ns_prefix_colon n : ∃ q, ns_prefix n = q ++ [58].
Proof. exists (removelast (ns_prefix n)). by destruct n. Qed.

Lemma prefix_scan {S E} n (fn : bytes → doc → S → S + E) (st : S) (s : MessageStore) l :
  StronglySorted key_lt l.*1 →
  (∀ k v, (k, v) ∈ l ↔ kv_get (st_db s) k = Some v ∧ ns_prefix n `prefix_of` k) →
  ScanPrefix (ns_prefix n) fn st s = scan_loop fn l st.
Proof.
  destruct (ns_prefix_colon n) as [q ->]. intros Hs He. unfold ScanPrefix.
  rewrite prefixUpperBound_snoc by lia. f_equal. apply kv_range_unique; [done|].
  intros k v. rewrite He. cbn [below].
  split; intros [Hg Hp]; (split; [done|]); by apply (prefix_upper_exact q 58 k).
Qed.

Lemma keys_sorted {A} n (con : A → doc) (l : list (bytes * A)) :
  StronglySorted key_lt l.*1 → StronglySorted key_lt ((λ e, (key n e.1, con e.2)) <$> l).*1.
Proof.
  induction l as [|[x a] l IH]; [by constructor|]. cbn. intros [Hs Hx]%StronglySorted_inv.
  constructor; [by apply IH|]. rewrite Forall_forall in Hx |- *.
  intros k [[k' v] [-> [[y b] [[= -> ->] Hin]]%list_elem_of_fmap]]%list_elem_of_fmap.
  unfold key_lt, key. cbn. rewrite blt_app. apply Hx, list_elem_of_fmap. by exists (y, b).
Qed.

Lemma scan_collection {A} `{!Stored A} {S E} (fn : bytes → doc → S → S + E) (st : S) (s : MessageStore)
    (m : gmap bytes A) :
  collection s m →
  ScanPrefix (ns_prefix (rec_ns A)) fn st s =
  scan_loop fn ((λ e, (key (rec_ns A) e.1, rec_doc e.2)) <$> entries m) st.
Proof.
  intros Hm. apply prefix_scan.
  - apply keys_sorted, entries_sorted.
  - intros k v. rewrite list_elem_of_fmap. split.
    + intros ([x a] & [= -> ->] & Hin). rewrite entries_elem in Hin. split.
      * by rewrite Hm, Hin.
      * by exists x.
    + intros [Hg [x ->]]. change (ns_prefix (rec_ns A) ++ x) with (key (rec_ns A) x) in *.
      rewrite Hm in Hg. apply fmap_Some in Hg as (a & Ha & ->). exists (x, a). by rewrite entries_elem.
Qed.

Lemma scan_list {A} `{!Stored A} (hide : A → A) (s : MessageStore) (m : gmap bytes A) :
  collection s m → ScanPrefix (ns_prefix (rec_ns A)) (list_record hide) [] s = (hide <$> (entries m).*2, None).
Proof.
  intros Hm. rewrite (scan_collection _ _ _ m Hm). change (hide <$> (entries m).*2) with ([] ++ (hide <$> (entries m).*2)).
  generalize (@nil A). induction (entries m) as [|[x a] l IH]; intros acc; cbn; [by rewrite app_nil_r|].
  unfold list_record at 1. rewrite (proj2 (rec_un_doc _ a)) by done. rewrite IH. by rewrite <-app_assoc.
Qed.

Lemma scan_load {A} `{!Stored A} (s : MessageStore) (m : gmap bytes A) :
  collection s m → ScanPrefix (ns_prefix (rec_ns A)) load_record [] s = ((entries m).*2, None).
Proof.
  intros Hm. rewrite (scan_collection _ _ _ m Hm). change ((entries m).*2) with ([] ++ (entries m).*2).
  generalize (@nil A). induction (entries m) as [|[x a] l IH]; intros acc; cbn; [by rewrite app_nil_r|].
  unfold load_record at 1. rewrite (proj2 (rec_un_doc _ a)) by done. rewrite IH. by rewrite <-app_assoc.
Qed.

Lemma get_collection {A} `{!Stored A} (s : MessageStore) (m : gmap bytes A) x :
  collection s m → GetJSON rec_un (key (rec_ns A) x) s = match m !! x with Some a => Got a | None => GotNone end.
Proof.
  intros Hm. unfold GetJSON, get_as. rewrite Hm. destruct (m !! x) as [a|]; simpl; [|done].
  by rewrite (proj2 (rec_un_doc _ a)).
Qed.

(** Sets and deletes, in the collection and in others. *)
Lemma collection_set {A} `{!Stored A} (s : MessageStore) (m : gmap bytes A) x a :
  collection s m → collection (SetJSON (key (rec_ns A) x) (rec_doc a) s) (<[x := a]> m).
Proof.
  intros Hm y. unfold SetJSON. rewrite get_db_Set. case_decide as He.
  - apply key_inj in He as [_ ->]. by rewrite lookup_insert_eq.
  - rewrite lookup_insert_ne by (intros ->; done). apply Hm.
Qed.
Lemma collection_delete {A} `{!Stored A} (s : MessageStore) (m : gmap bytes A) x :
  collection s m → collection (DeleteKey (key (rec_ns A) x) s) (delete x m).
Proof.
  intros Hm y. unfold DeleteKey. rewrite get_db_Delete. case_decide as He.
  - apply key_inj in He as [_ ->]. by rewrite lookup_delete_eq.
  - rewrite lookup_delete_ne by (intros ->; done). apply Hm.
Qed.

(** What a change of one namespace leaves alone. *)
Definition others_kept (n : namespace) (s s' : MessageStore) : Prop :=
  ∀ n' x, n' ≠ n → kv_get (st_db s') (key n' x) = kv_get (st_db s) (key n' x).

#[export] Instance others_kept_reflexive n : Reflexive (others_kept n).
Proof. by intros s. Qed.
Lemma others_kept_set n x d s : others_kept n s (SetJSON (key n x) d s).
Proof. intros n' y Hn. unfold SetJSON. rewrite get_db_Set, decide_False; [done|]. by intros [-> _]%key_inj. Qed.
Lemma others_kept_delete n x s : others_kept n s (DeleteKey (key n x) s).
Proof. intros n' y Hn. unfold DeleteKey. rewrite get_db_Delete, decide_False; [done|]. by intros [-> _]%key_inj. Qed.

Lemma collection_kept {A} `{!Stored A} (n : namespace) (s s' : MessageStore) (m : gmap bytes A) :
  n ≠ rec_ns A → others_kept n s s' → collection s m → collection s' m.
Proof. intros Hn Hk Hm x. rewrite Hk by done. apply Hm. Qed.

End collections.

(** ** Accounts: the refinement of a map *)

Section accounts.
Context {DB : Type} `{!KV DB, !KVLaws DB} `{!Bcrypt}.

Abbreviation MessageStore := (MessageStore (DB := DB)).

(** A configuration as JSON keeps it. *)
Definition json_image (c : ConnectionConfig) : ConnectionConfig :=
  match json_conn_config c with DConnConfig c => c | _ => c end.

(** What the operations promise, on a map from system IDs to configurations. *)
Definition spec_Create (salt : bytes) (now : Z) (c : ConnectionConfig) (m : gmap bytes ConnectionConfig) :
    option config_err * gmap bytes ConnectionConfig :=
  let id := cc_SystemID c in
  if decide (id = []) then (Some IDRequired, m)
  else if decide (is_Some (m !! id)) then (Some (ConfigExists id), m)
  else if decide (cc_Password c = []) then (Some PasswordRequired, m)
  else match bcrypt_generate salt (cc_Password c) with
       | None => (Some BcryptError, m)
       | Some hash => (None, <[id := json_image (cc_with_times (cc_with_password c hash) now now)]> m)
       end.

Definition spec_Update (salt : bytes) (now : Z) (c : ConnectionConfig) (m : gmap bytes ConnectionConfig) :
    option config_err * gmap bytes ConnectionConfig :=
  let id := cc_SystemID c in
  if decide (id = []) then (Some IDRequired, m)
  else match m !! id with
       | None => (Some (ConfigNotFound id), m)
       | Some old =>
           match (if decide (cc_Password c = []) then Some (cc_Password old)
                  else bcrypt_generate salt (cc_Password c)) with
           | None => (Some BcryptError, m)
           | Some hash =>
               (None, <[id := json_image (cc_with_times (cc_merge (cc_with_password old hash) c) (cc_CreatedAt old) now)]> m)
           end
       end.

Definition spec_Authenticate (id pw : bytes) (m : gmap bytes ConnectionConfig) : auth_answer :=
  match m !! id with
  | None => AuthUnknown
  | Some c => if cc_Enabled c && bcrypt_compare (cc_Password c) pw then AuthOK c else AuthError
  end.

Lemma connConfig_get (s : MessageStore) (m : gmap bytes ConnectionConfig) id :
  collection s m → GetJSON un_conn_config (connConfigKey id) s = match m !! id with Some c => Got c | None => GotNone end.
Proof. exact (get_collection (A := ConnectionConfig) s m id). Qed.

Lemma connConfig_set (s : MessageStore) (m : gmap bytes ConnectionConfig) id c :
  collection s m → collection (SetJSON (connConfigKey id) (json_conn_config c) s) (<[id := json_image c]> m).
Proof. exact (collection_set (A := ConnectionConfig) s m id (json_image c)). Qed.

Lemma Create_spec (salt : bytes) (now : Z) (c : ConnectionConfig) (s : MessageStore) (m : gmap bytes ConnectionConfig) : collection s m →
  (cs_Create salt now c s).1.1 = (spec_Create salt now c m).1 ∧
  collection (cs_Create salt now c s).2 (spec_Create salt now c m).2 ∧
  others_kept NsConnConfig s (cs_Create salt now c s).2.
Proof.
  intros Hm. unfold cs_Create, spec_Create. rewrite (connConfig_get s m) by done.
  case_decide; [done|]. destruct (m !! cc_SystemID c) as [old|] eqn:E.
  - by rewrite decide_True by eauto.
  - rewrite (decide_False (P := is_Some None)) by (by intros []). case_decide; [done|].
    destruct (bcrypt_generate salt (cc_Password c)) as [h|]; [|done].
    split; [done|]. split; [by apply connConfig_set|apply others_kept_set].
Qed.

Lemma Update_spec (salt : bytes) (now : Z) (c : ConnectionConfig) (s : MessageStore) (m : gmap bytes ConnectionConfig) : collection s m →
  (cs_Update salt now c s).1 = (spec_Update salt now c m).1 ∧
  collection (cs_Update salt now c s).2 (spec_Update salt now c m).2 ∧
  others_kept NsConnConfig s (cs_Update salt now c s).2.
Proof.
  intros Hm. unfold cs_Update, spec_Update, cs_Get. rewrite (connConfig_get s m) by done.
  case_decide; [done|]. destruct (m !! cc_SystemID c) as [old|] eqn:E; [|done].
  destruct (if decide (cc_Password c = []) then _ else _) as [h|]; [|done].
  split; [done|]. split; [by apply connConfig_set|apply others_kept_set].
Qed.

Lemma Authenticate_spec (id pw : bytes) (s : MessageStore) (m : gmap bytes ConnectionConfig) : collection s m →
  cs_Authenticate id pw s = spec_Authenticate id pw m.
Proof.
  intros Hm. unfold cs_Authenticate, spec_Authenticate, cs_Get. rewrite (connConfig_get s m) by done.
  destruct (m !! id) as [c|]; [|done]. by destruct (cc_Enabled c), (bcrypt_compare _ _).
Qed.

(** C34: the account store is a map.  On the map from system IDs to the configurations
    in the store, Create adds one that is new, has an ID and a password that bcrypt
    takes; Update changes one that is there, keeping its password when none is given;
    both refuse otherwise and then change nothing; Delete removes; Get looks up; List
    gives all of them in the order of their IDs without their password hashes; and
    Authenticate tells unknown, wrong or disabled, and right apart.  No other kind of
    record is touched. *)
Theorem ConnConfig_refines_map (salt : bytes) (now : Z) (c : ConnectionConfig) (id pw : bytes) (s : MessageStore) (m : gmap bytes ConnectionConfig) :
  collection s m →
  (let '(err, _, s') := cs_Create salt now c s in
   let '(err', m') := spec_Create salt now c m in
   err = err' ∧ collection s' m' ∧ others_kept NsConnConfig s s') ∧
  (let '(err, s') := cs_Update salt now c s in
   let '(err', m') := spec_Update salt now c m in
   err = err' ∧ collection s' m' ∧ others_kept NsConnConfig s s') ∧
  (collection (cs_Delete id s) (delete id m) ∧ others_kept NsConnConfig s (cs_Delete id s)) ∧
  cs_Get id s = inl (m !! id) ∧
  cs_List s = (λ c, cc_with_password c []) <$> (entries m).*2 ∧
  cs_Authenticate id pw s = spec_Authenticate id pw m.
Proof.
  intros Hm. split_and!.
  - pose proof (Create_spec salt now c s m Hm) as Hc.
    by destruct (cs_Create salt now c s) as [[err c'] s'], (spec_Create salt now c m).
  - pose proof (Update_spec salt now c s m Hm) as Hu.
    by destruct (cs_Update salt now c s), (spec_Update salt now c m).
  - exact (collection_delete (A := ConnectionConfig) s m id Hm).
  - apply others_kept_delete.
  - unfold cs_Get. rewrite (connConfig_get s m) by done. by destruct (m !! id).
  - unfold cs_List. change (str "connconfig:") with (ns_prefix (rec_ns ConnectionConfig)).
    by rewrite (scan_list _ s m).
  - by apply Authenticate_spec.
Qed.

(** The life of an account.  Once Create has accepted an account, its password
    authenticates it; after an update the new password does, or the old when the update
    has none, and the updated limits apply; a disabled account never authenticates, a
    deleted one is unknown; and no other account notices. *)
Theorem account_lifecycle `{!BcryptLaws} (salt salt' : bytes) (now now' : Z) (c c1 u : ConnectionConfig) (s1 s2 s : MessageStore) 
    (m : gmap bytes ConnectionConfig) (id' pw' : bytes) :
  let id := cc_SystemID c in
  collection s m →
  cs_Create salt now c s = (None, c1, s1) →
  cc_SystemID u = id → cs_Update salt' now' u s1 = (None, s2) → id' ≠ id →
  cs_Authenticate id (cc_Password c) s1 = (if cc_Enabled c then AuthOK (json_image c1) else AuthError) ∧
  (let pw := if decide (cc_Password u = []) then cc_Password c else cc_Password u in
   ∃ c2, cc_MaxTPS c2 = cc_MaxTPS u ∧ cc_MaxBinds c2 = cc_MaxBinds u ∧
     cc_AllowedIPs c2 = json_string <$> cc_AllowedIPs u ∧ cc_CreatedAt c2 = now ∧ cc_UpdatedAt c2 = now' ∧
     cs_Authenticate id pw s2 = if cc_Enabled u then AuthOK c2 else AuthError) ∧
  cs_Authenticate id pw' (cs_Delete id s2) = AuthUnknown ∧
  cs_Authenticate id' pw' (cs_Delete id s2) = cs_Authenticate id' pw' s.
Proof.
  intros id Hm Hc Hu Hup Hne. subst id.
  pose proof (Create_spec salt now c s m Hm) as (He & Hm1 & _). rewrite Hc in He, Hm1. cbn [fst snd] in He, Hm1.
  assert (∃ h, bcrypt_generate salt (cc_Password c) = Some h ∧
    c1 = cc_with_times (cc_with_password c h) now now ∧
    (spec_Create salt now c m).2 = <[cc_SystemID c := json_image c1]> m) as (h & Hh & -> & Hs1).
  { revert Hc He. unfold cs_Create, spec_Create. rewrite (connConfig_get s m) by done.
    repeat case_decide; destruct (m !! cc_SystemID c); try done;
      destruct (bcrypt_generate salt (cc_Password c)) as [h|]; try done; intros [= <- _] _; by exists h. }
  rewrite Hs1 in Hm1. clear He Hs1.
  pose proof (Update_spec salt' now' u s1 _ Hm1) as (He & Hm2 & _). rewrite Hup in He, Hm2. cbn [fst snd] in He, Hm2.
  revert He Hm2. unfold spec_Update. rewrite Hu, lookup_insert_eq. case_decide; [done|].
  destruct (if decide (cc_Password u = []) then _ else _) as [h2|] eqn:Eh; [|done]. intros _. cbn [snd]. intros Hm2.
  assert (json_string h = h) as Hj by (eapply json_string_ascii, bcrypt_ascii, Hh).
  assert (json_string h2 = h2 ∧ bcrypt_compare h2 (if decide (cc_Password u = []) then cc_Password c else cc_Password u) = true)
    as [Hj2 Hcmp].
  { revert Eh. case_decide; [|intros Eh; split; [eapply json_string_ascii, bcrypt_ascii, Eh|by eapply bcrypt_correct]].
    intros [= <-]. cbn [cc_Password cc_Enabled json_image json_conn_config cc_with_times cc_with_password cc_merge cc_CreatedAt].
    rewrite !Hj. split; [done|]. by eapply bcrypt_correct. }
  split_and!.
  - rewrite (Authenticate_spec _ _ s1 _ Hm1). unfold spec_Authenticate. rewrite lookup_insert_eq.
    cbn [cc_Password cc_Enabled json_image json_conn_config cc_with_times cc_with_password cc_merge cc_CreatedAt].
    rewrite Hj, (bcrypt_correct salt (cc_Password c) h Hh), andb_true_r. done.
  - eexists. split_and!; cycle 5.
    + rewrite (Authenticate_spec _ _ s2 _ Hm2). unfold spec_Authenticate. rewrite lookup_insert_eq.
      cbn [cc_Password cc_Enabled json_image json_conn_config cc_with_times cc_with_password cc_merge cc_CreatedAt].
      rewrite Hj2, Hcmp, andb_true_r. reflexivity.
    + done. + done. + done. + done. + done.
  - rewrite (Authenticate_spec _ _ _ _ (collection_delete _ _ (cc_SystemID c) Hm2)).
    unfold spec_Authenticate. by rewrite lookup_delete_eq.
  - rewrite (Authenticate_spec _ _ _ _ (collection_delete _ _ (cc_SystemID c) Hm2)).
    rewrite (Authenticate_spec _ _ s m Hm). unfold spec_Authenticate.
    by rewrite lookup_delete_ne, !lookup_insert_ne by done.
Qed.

End accounts.

(** ** Examples *)

(** A hash that shows the password, for ASCII passwords of at most 72 bytes. *)
Definition plain_hash (salt p : bytes) : option bytes :=
  if decide (zlen p <= 72 ∧ ascii_text p) then Some (str "$2a$10$" ++ p) else None.
#[export] Instance ascii_text_dec s : Decision (ascii_text s).
Proof. unfold ascii_text, ascii. apply _. Defined.

Definition plain_Bcrypt : Bcrypt := {|
  bcrypt_generate := plain_hash;
  bcrypt_compare h p := bool_decide (h = str "$2a$10$" ++ p)
|}.

Lemma plain_BcryptLaws : @BcryptLaws plain_Bcrypt.
Proof.
  split; cbn; unfold plain_hash; intros salt p h; case_decide as Hp; try done; intros <-%(inj Some).
  - apply ascii_app. split; [|apply Hp]. vm_compute. repeat constructor; done.
  - by apply bool_decide_eq_true.
Qed.

Definition ex_account (id pw : string) (tps : Z) : ConnectionConfig :=
  mkConnConfig (str id) (str pw) [] true [] tps (QArith_base.Qmake 0 1) [] [] 0 0 (str "passthrough") [] 0 0 []
    0 [] 0 0.

Definition ex_empty : MessageStore (DB := gmap bytes doc) := NewMessageStore ∅.

Lemma ex_empty_collection {A} `{!Stored A} : collection (A := A) ex_empty ∅.
Proof. intros x. by rewrite lookup_empty. Qed.

Definition ex_created := @cs_Create _ _ plain_Bcrypt [] 5 (ex_account "acme" "secret" 10) ex_empty.
Definition ex_updated := @cs_Update _ _ plain_Bcrypt [] 7 (ex_account "acme" "" 20) ex_created.2.

Lemma ConnConfig_refines_map_witness :
  collection ex_empty (∅ : gmap bytes ConnectionConfig) ∧
  collection ex_created.2 (@spec_Create plain_Bcrypt [] 5 (ex_account "acme" "secret" 10) ∅).2.
Proof.
  split; [apply ex_empty_collection|].
  exact (proj1 (proj2 (proj1 (@ConnConfig_refines_map _ _ _ plain_Bcrypt [] 5 (ex_account "acme" "secret" 10) [] []
    ex_empty ∅ ex_empty_collection)))).
Defined.

Lemma account_lifecycle_witness :
  ∃ c, cc_MaxTPS c = 20 ∧
    @cs_Authenticate _ _ plain_Bcrypt (str "acme") (str "secret") ex_updated.2 = AuthOK c.
Proof.
  destruct (@account_lifecycle _ _ _ plain_Bcrypt plain_BcryptLaws [] [] 5 7 (ex_account "acme" "secret" 10)
    ex_created.1.2 (ex_account "acme" "" 20) ex_created.2 ex_updated.2 ex_empty ∅ (str "other") []
    ex_empty_collection (eq_refl _) (eq_refl _) (eq_refl _) ltac:(by vm_compute))
    as (_ & (c & Htps & _ & _ & _ & _ & Ha) & _).
  exists c. split; [exact Htps|exact Ha].
Defined.
