(* ===== verification/Encodings.v ===== *)
(** * Package encodings of the standard library

    What the gateway uses of encoding/hex and encoding/base64 (the URL alphabet without
    padding), and of package strings: splitting at a dot and cutting a prefix. *)

From S2P Require Import Prelude.

Local Open Scope Z_scope.

(** ** encoding/hex *)

Definition hex_char (n : Z) : Z := if decide (n < 10) then 48 + n else 87 + n.

Definition hex_encode (bs : bytes) : bytes :=
  bs ≫= λ b, [hex_char (Z.div b 16); hex_char (Z.modulo b 16)].

(** ** base64.RawURLEncoding *)

Definition b64_char (n : Z) : Z :=
  if decide (n < 26) then 65 + n
  else if decide (n < 52) then 71 + n
  else if decide (n < 62) then n - 4
  else if decide (n = 62) then 45 else 95.

Definition b64_value (c : Z) : option Z :=
  if decide (65 <= c <= 90) then Some (c - 65)
  else if decide (97 <= c <= 122) then Some (c - 71)
  else if decide (48 <= c <= 57) then Some (c + 4)
  else if decide (c = 45) then Some 62
  else if decide (c = 95) then Some 63 else None.

Definition sextets (v : Z) : list Z := [Z.div v 262144; Z.div v 4096 mod 64; Z.div v 64 mod 64; v mod 64].

Fixpoint b64_encode (src : bytes) : bytes :=
  match src with
  | a :: b :: c :: src => (b64_char <$> sextets (a * 65536 + b * 256 + c)) ++ b64_encode src
  | [a; b] => b64_char <$> take 3 (sextets (a * 65536 + b * 256))
  | [a] => b64_char <$> take 2 (sextets (a * 65536))
  | [] => []
  end.

(** Four characters at a time; a last group of three or two gives two or one bytes, the
    bits beyond them are not looked at; a single last character is an error. *)
Fixpoint b64_groups (vs : list Z) : option bytes :=
  match vs with
  | w :: x :: y :: z :: vs =>
      let v := w * 262144 + x * 4096 + y * 64 + z in
      bs ← b64_groups vs; Some (Z.div v 65536 :: Z.div v 256 mod 256 :: v mod 256 :: bs)
  | [w; x; y] =>
      let v := w * 262144 + x * 4096 + y * 64 in Some [Z.div v 65536; Z.div v 256 mod 256]
  | [w; x] => Some [Z.div (w * 262144 + x * 4096) 65536]
  | [_] => None
  | [] => Some []
  end.

(** Carriage returns and line feeds are skipped wherever they stand. *)
Definition b64_decode (src : bytes) : option bytes :=
  vs ← mapM b64_value (filter (λ c, c ≠ 13 ∧ c ≠ 10) src); b64_groups vs.

(** ** Package strings *)

(** [strings.Split(s, ".")] *)
Fixpoint split_dots (s : bytes) : list bytes :=
  match s with
  | [] => [[]]
  | b :: s =>
      if decide (b = 46) then [] :: split_dots s
      else match split_dots s with p :: ps => (b :: p) :: ps | [] => [[b]] end
  end.

(** [strings.HasPrefix] and [strings.TrimPrefix] together. *)
Definition cut_prefix (s prefix : bytes) : option bytes :=
  if decide (take (length prefix) s = prefix) then Some (drop (length prefix) s) else None.

(** ** Lemmas *)

Lemma hex_char_inj a b : 0 <= a < 16 → 0 <= b < 16 → hex_char a = hex_char b → a = b.
Proof. unfold hex_char. intros ? ? ?. repeat case_decide; lia. Qed.

Lemma hex_char_ascii n : 0 <= n < 16 → 33 <= hex_char n < 127.
Proof. unfold hex_char. intros. case_decide; lia. Qed.

Lemma hex_encode_inj a b : bytes_ok a → bytes_ok b → hex_encode a = hex_encode b → a = b.
Proof.
  revert b. induction a as [|x a IH]; intros [|y b] Ha Hb; [done..|]. unfold hex_encode in *. cbn.
  apply Forall_cons in Ha as [Hx Ha]. apply Forall_cons in Hb as [Hy Hb]. unfold byte_ok in *.
  intros [= H1 H2 H3]. apply hex_char_inj in H1; [|(Z.to_euclidean_division_equations; lia)..].
  apply hex_char_inj in H2; [|(Z.to_euclidean_division_equations; lia)..].
  f_equal; [(Z.to_euclidean_division_equations; lia)|by apply IH].
Qed.

Lemma hex_encode_ascii bs : bytes_ok bs → Forall (λ c, 33 <= c < 127) (hex_encode bs).
Proof.
  induction 1 as [|b bs Hb Hbs IH]; [constructor|]. unfold hex_encode in *. cbn. unfold byte_ok in Hb.
  constructor; [apply hex_char_ascii; (Z.to_euclidean_division_equations; lia)|].
  constructor; [apply hex_char_ascii; (Z.to_euclidean_division_equations; lia)|done].
Qed.

Lemma b64_value_char n : 0 <= n < 64 → b64_value (b64_char n) = Some n.
Proof. intros Hn. unfold b64_char, b64_value. repeat case_decide; try lia; f_equal; lia. Qed.

(** What the alphabet leaves out: the dot among others. *)
Lemma b64_char_plain n : 0 <= n < 64 → 45 <= b64_char n <= 122 ∧ b64_char n ≠ 46.
Proof. intros Hn. unfold b64_char. repeat case_decide; lia. Qed.

Lemma sextets_ok v : 0 <= v < 16777216 → Forall (λ n, 0 <= n < 64) (sextets v).
Proof. intros Hv. unfold sextets. repeat constructor; Z.to_euclidean_division_equations; lia. Qed.

(** Induction three bytes at a time. *)
Lemma triple_ind (P : bytes → Prop) :
  P [] → (∀ a, P [a]) → (∀ a b, P [a; b]) → (∀ a b c s, P s → P (a :: b :: c :: s)) → ∀ s, P s.
Proof.
  intros H0 H1 H2 H3 s. enough (P s ∧ (∀ a, P (a :: s)) ∧ ∀ a b, P (a :: b :: s)) by tauto.
  induction s as [|c s (IH0 & IH1 & IH2)]; [done|]. split_and!; [apply IH1|intros a; apply IH2|intros a b; by apply H3].
Qed.

(** The characters of an encoding are those of some sextets. *)
Lemma b64_encode_sextets bs : bytes_ok bs →
  ∃ vs, b64_encode bs = b64_char <$> vs ∧ Forall (λ n, 0 <= n < 64) vs ∧ b64_groups vs = Some bs.
Proof.
  revert bs. apply (triple_ind (λ bs, bytes_ok bs → _)).
  - intros _. by exists [].
  - intros a Ha. apply Forall_cons in Ha as [Ha _]. unfold byte_ok in Ha.
    exists (take 2 (sextets (a * 65536))). split; [done|]. split; [apply Forall_take, sextets_ok; lia|].
    cbn. do 2 f_equal. Z.to_euclidean_division_equations; lia.
  - intros a b Hall. apply Forall_cons in Hall as [Ha Hall]. apply Forall_cons in Hall as [Hb _]. unfold byte_ok in *.
    exists (take 3 (sextets (a * 65536 + b * 256))). split; [done|]. split; [apply Forall_take, sextets_ok; lia|].
    cbn. repeat f_equal; Z.to_euclidean_division_equations; lia.
  - intros a b c s IH Hall. apply Forall_cons in Hall as [Ha Hall]. apply Forall_cons in Hall as [Hb Hall].
    apply Forall_cons in Hall as [Hc Hs]. unfold byte_ok in *. destruct (IH Hs) as (vs & E & Hv & Hg).
    exists (sextets (a * 65536 + b * 256 + c) ++ vs). split; [cbn [b64_encode]; by rewrite E, fmap_app|].
    split; [apply Forall_app; split; [apply sextets_ok; lia|done]|].
    cbn [sextets app b64_groups]. rewrite Hg. cbn. repeat f_equal; Z.to_euclidean_division_equations; lia.
Qed.

Lemma b64_encode_plain bs : bytes_ok bs → Forall (λ c, 45 <= c <= 122 ∧ c ≠ 46) (b64_encode bs).
Proof.
  intros (vs & -> & Hv & _)%b64_encode_sextets. apply Forall_fmap. eapply Forall_impl; [exact Hv|]. apply b64_char_plain.
Qed.

Lemma mapM_b64_value vs : Forall (λ n, 0 <= n < 64) vs → mapM b64_value (b64_char <$> vs) = Some vs.
Proof. intros Hv. apply mapM_Some. induction Hv; constructor; [by apply b64_value_char|done]. Qed.

Lemma filter_all {A} (P : A → Prop) `{!∀ x, Decision (P x)} l : Forall P l → filter P l = l.
Proof. induction 1 as [|x l Hx Hl IH]; [done|]. rewrite filter_cons, decide_True by done. by rewrite IH. Qed.

(** What is encoded decodes to itself. *)
Lemma b64_decode_encode bs : bytes_ok bs → b64_decode (b64_encode bs) = Some bs.
Proof.
  intros Hbs. pose proof (b64_encode_plain bs Hbs) as Hp. unfold b64_decode.
  destruct (b64_encode_sextets bs Hbs) as (vs & E & Hv & Hg). rewrite filter_all.
  - rewrite E, mapM_b64_value by done. done.
  - eapply Forall_impl; [exact Hp|]. cbn. lia.
Qed.

Lemma split_dots_plain s : 46 ∉ s → split_dots s = [s].
Proof.
  induction s as [|b s IH]; [done|]. intros [Hb Hs]%not_elem_of_cons. cbn. rewrite decide_False by done. by rewrite IH.
Qed.
Lemma split_dots_app s t : 46 ∉ s → split_dots (s ++ 46 :: t) = s :: split_dots t.
Proof.
  induction s as [|b s IH]; cbn; [done|]. intros [Hb Hs]%not_elem_of_cons. rewrite decide_False by done. by rewrite IH.
Qed.

(** [strings.Join(parts, ".")], which undoes the split. *)
Fixpoint join_dots (ps : list bytes) : bytes :=
  match ps with [] => [] | [p] => p | p :: ps => p ++ 46 :: join_dots ps end.

Lemma split_dots_cons s : ∃ p ps, split_dots s = p :: ps.
Proof. destruct s as [|b s]; cbn; [by eexists _, _|]. case_decide; [by eexists _, _|]. destruct (split_dots s); by eexists _, _. Qed.

Lemma join_split_dots s : join_dots (split_dots s) = s.
Proof.
  induction s as [|b s IH]; [done|]. cbn [split_dots]. destruct (split_dots_cons s) as (p & ps & E). rewrite E in *.
  case_decide as Hb; [subst b; change (46 :: join_dots (p :: ps) = 46 :: s); by rewrite IH|]. destruct ps; cbn [join_dots app] in *; by rewrite IH.
Qed.

Lemma cut_prefix_app p s : cut_prefix (p ++ s) p = Some s.
Proof. unfold cut_prefix. by rewrite take_app_length, drop_app_length, decide_True. Qed.

(** Test vectors (RFC 4648, with the URL alphabet). *)
Example b64_example : b64_encode (str "foobar") = str "Zm9vYmFy" ∧ b64_encode (str "fooba") = str "Zm9vYmE" ∧
  b64_encode [255; 239; 254] = str "_-_-".
Proof. by vm_compute. Qed.
