(* ===== verification/Sha256.v ===== *)
(** * crypto/sha256 and crypto/hmac

    SHA-256 (FIPS 180-4) and HMAC (RFC 2104) as functions on byte lists, so that the
    checks of keys and tokens can be evaluated.  The constants are computed from the
    primes they come from.  The theorems that use these functions rely on nothing but
    the shape of their results; the published test vectors are checked below. *)

From S2P Require Import Prelude.

Local Open Scope Z_scope.

(** ** The constants *)

Definition prime (n : Z) : bool :=
  forallb (λ d, negb (bool_decide (n mod d = 0))) (seqZ 2 (n - 2)).
Definition primes : list Z := filter (λ n, prime n = true) (seqZ 2 310).

(** The integer cube root, bit by bit. *)
Definition cube_root (x : Z) : Z :=
  foldl (λ acc i, let t := acc + 2 ^ i in if decide (t * t * t <= x) then t else acc) 0 (reverse (seqZ 0 40)).

(** The first 32 bits of the fractions of cube and square roots. *)
Definition round_constants : list Z := Eval vm_compute in (λ p, u32 (cube_root (p * 2 ^ 96))) <$> primes.
Definition initial_hash : list Z := Eval vm_compute in (λ p, u32 (Z.sqrt (p * 2 ^ 64))) <$> take 8 primes.

(** ** The compression function *)

Definition rotr (n x : Z) : Z := Z.lor (Z.shiftr x n) (u32 (Z.shiftl x (32 - n))).
Definition xor3 (a b c : Z) : Z := Z.lxor (Z.lxor a b) c.

(** The message schedule, newest word first. *)
Fixpoint schedule (n : nat) (ws : list Z) : list Z :=
  match n with
  | O => ws
  | S n =>
      let w2 := nth 1 ws 0 in
      let w15 := nth 14 ws 0 in
      schedule n
        (u32 (xor3 (rotr 17 w2) (rotr 19 w2) (Z.shiftr w2 10) + nth 6 ws 0 +
              xor3 (rotr 7 w15) (rotr 18 w15) (Z.shiftr w15 3) + nth 15 ws 0) :: ws)
  end.

Definition round (h : list Z) (kw : Z * Z) : list Z :=
  match h with
  | [a; b; c; d; e; f; g; hh] =>
      let ch := Z.lxor (Z.land e f) (Z.land (Z.lxor e 0xFFFFFFFF) g) in
      let maj := xor3 (Z.land a b) (Z.land a c) (Z.land b c) in
      let t1 := hh + xor3 (rotr 6 e) (rotr 11 e) (rotr 25 e) + ch + kw.1 + kw.2 in
      let t2 := xor3 (rotr 2 a) (rotr 13 a) (rotr 22 a) + maj in
      [u32 (t1 + t2); a; b; c; u32 (d + t1); e; f; g]
  | h => h
  end.

Fixpoint words (n : nat) (bs : bytes) : list Z :=
  match n, bs with
  | S n, a :: b :: c :: d :: bs => (a * 2 ^ 24 + b * 2 ^ 16 + c * 2 ^ 8 + d) :: words n bs
  | _, _ => []
  end.

Definition compress (h : list Z) (block : bytes) : list Z :=
  let w := reverse (schedule 48 (reverse (words 16 block))) in
  zip_with (λ x y, u32 (x + y)) h (foldl round h (zip round_constants w)).

(** ** Padding and blocks *)

Definition pad (msg : bytes) : bytes :=
  let n := zlen msg in
  msg ++ [128] ++ replicate (Z.to_nat ((55 - n) mod 64)) 0 ++
  PutUint32 (u32 (Z.div (8 * n) (2 ^ 32))) ++ PutUint32 (u32 (8 * n)).

Fixpoint blocks (n : nat) (bs : bytes) : list bytes :=
  match n with O => [] | S n => take 64 bs :: blocks n (drop 64 bs) end.

(** [sha256.Sum256] *)
Definition sha256 (msg : bytes) : bytes :=
  let p := pad msg in
  foldl compress initial_hash (blocks (length p / 64)%nat p) ≫= PutUint32.

(** [hmac.New(sha256.New, key)], written [msg], summed. *)
Definition hmac_sha256 (k msg : bytes) : bytes :=
  let k := if decide (64 < zlen k) then sha256 k else k in
  let k := k ++ replicate (64 - length k) 0 in
  sha256 ((Z.lxor 0x5C <$> k) ++ sha256 ((Z.lxor 0x36 <$> k) ++ msg)).

(** ** The shape of a digest *)

Lemma length_round h kw : length (round h kw) = length h.
Proof. unfold round. by repeat case_match; subst. Qed.

Lemma length_rounds kws h : length (foldl round h kws) = length h.
Proof. revert h. induction kws as [|kw kws IH]; intros h; [done|]. cbn. by rewrite IH, length_round. Qed.

Lemma length_compress h block : length (compress h block) = length h.
Proof. unfold compress. rewrite length_zip_with, length_rounds. lia. Qed.

Lemma compress_words h block : Forall (λ w, 0 <= w < 2 ^ 32) (compress h block).
Proof.
  unfold compress. apply Forall_lookup. intros i w.
  rewrite lookup_zip_with_Some. intros (x & y & -> & _ & _). apply u32_range.
Qed.

Lemma sha256_shape msg : length (sha256 msg) = 32%nat ∧ bytes_ok (sha256 msg).
Proof.
  unfold sha256. cbv zeta. set (bs := blocks _ _). clearbody bs.
  assert (length (foldl compress initial_hash bs) = 8%nat ∧
    Forall (λ w, 0 <= w < 2 ^ 32) (foldl compress initial_hash bs)) as [Hl Hw].
  { assert (length initial_hash = 8%nat ∧ Forall (λ w, 0 <= w < 2 ^ 32) initial_hash) as Hi.
    { split; [done|]. unfold initial_hash. repeat (constructor; [lia|]). constructor. }
    revert Hi. generalize initial_hash. induction bs as [|b bs IH]; [done|]. intros h [Hl Hw]. cbn. apply IH.
    split; [by rewrite length_compress|apply compress_words]. }
  revert Hl Hw. generalize (foldl compress initial_hash bs). intros h Hl Hw. split.
  - do 9 (destruct h as [|? h]; try done).
  - clear Hl. induction Hw as [|w h Hw0 Hw IH]; [constructor|].
    change (bytes_ok (PutUint32 w ++ (h ≫= PutUint32))). apply bytes_ok_app_2; [apply PutUint32_ok|done].
Qed.

Lemma hmac_shape k msg : length (hmac_sha256 k msg) = 32%nat ∧ bytes_ok (hmac_sha256 k msg).
Proof. apply sha256_shape. Qed.

(** ** Test vectors (FIPS 180-4 and RFC 4231) *)

Example sha256_abc : sha256 (str "abc") =
  [186; 120; 22; 191; 143; 1; 207; 234; 65; 65; 64; 222; 93; 174; 34; 35;
   176; 3; 97; 163; 150; 23; 122; 156; 180; 16; 255; 97; 242; 0; 21; 173].
Proof. by vm_compute. Qed.

Example sha256_two_blocks :
  take 4 (sha256 (str "abcdbcdecdefdefgefghfghighijhijkijkljklmklmnlmnomnopnopq")) = [36; 141; 106; 97].
Proof. by vm_compute. Qed.

Example hmac_jefe : take 4 (hmac_sha256 (str "Jefe") (str "what do ya want for nothing?")) = [91; 220; 193; 70].
Proof. by vm_compute. Qed.
