(* ===== verification/Json.v ===== *)
(** * encoding/json, as far as tokens need it

    Strings as json.Marshal writes and json.Unmarshal reads them, the grammar of JSON
    values, and the reading of an object into named fields.  The parser takes the
    length of its input as fuel; every round consumes a byte. *)

From S2P Require Import Prelude Utf8 Dlr Documents Format Encodings.

Local Open Scope Z_scope.

(** ** Writing *)

Definition unicode_escape (u : Z) : bytes :=
  [92; 117; hex_char (u / 4096 mod 16); hex_char (u / 256 mod 16); hex_char (u / 16 mod 16); hex_char (u mod 16)].

(** One rune of a string and the bytes it stands for; Marshal escapes what HTML could
    misread, and writes U+FFFD for a byte that is not UTF-8. *)
Definition quote_rune (r : rune) (chunk : bytes) : bytes :=
  if decide (r = 34 ∨ r = 92) then [92; r]
  else if decide (r = 8) then [92; 98]
  else if decide (r = 12) then [92; 102]
  else if decide (r = 10) then [92; 110]
  else if decide (r = 13) then [92; 114]
  else if decide (r = 9) then [92; 116]
  else if decide (r < 32 ∨ r = 60 ∨ r = 62 ∨ r = 38 ∨ r = 0x2028 ∨ r = 0x2029) then unicode_escape r
  else if decide (r = RuneError ∧ length chunk = 1%nat) then unicode_escape RuneError
  else chunk.

Fixpoint quote_loop (fuel : nat) (s : bytes) : bytes :=
  match fuel, s with
  | S fuel, _ :: _ =>
      let '(r, sz) := DecodeRune s in quote_rune r (take sz s) ++ quote_loop fuel (drop sz s)
  | _, _ => []
  end.

Definition json_quote (s : bytes) : bytes := [34] ++ quote_loop (length s) s ++ [34].

(** ** Reading strings *)

Definition hex_value (c : Z) : option Z :=
  if decide (48 <= c <= 57) then Some (c - 48)
  else if decide (97 <= c <= 102) then Some (c - 87)
  else if decide (65 <= c <= 70) then Some (c - 55) else None.

(** Four hexadecimal digits. *)
Definition hex4 (s : bytes) : option (Z * bytes) :=
  match s with
  | a :: b :: c :: d :: s =>
      a ← hex_value a; b ← hex_value b; c ← hex_value c; d ← hex_value d;
      Some (a * 4096 + b * 256 + c * 16 + d, s)
  | _ => None
  end.

Definition simple_escape (c : Z) : option Z :=
  if decide (c = 34 ∨ c = 92 ∨ c = 47) then Some c
  else if decide (c = 98) then Some 8
  else if decide (c = 102) then Some 12
  else if decide (c = 110) then Some 10
  else if decide (c = 114) then Some 13
  else if decide (c = 116) then Some 9 else None.

(** The rune of a "\u" escape: a surrogate needs its second half in the next escape. *)
Definition escaped_rune (u : Z) (s : bytes) : rune * bytes :=
  if decide (0xD800 <= u < 0xE000) then
    match s with
    | 92 :: 117 :: s' =>
        match hex4 s' with
        | Some (v, s'') =>
            if decide (u < 0xDC00 ∧ 0xDC00 <= v < 0xE000) then ((u - 0xD800) * 1024 + (v - 0xDC00) + 0x10000, s'')
            else (RuneError, s)
        | None => (RuneError, s)
        end
    | _ => (RuneError, s)
    end
  else (u, s).

(** The rest of a string after its opening quote, and what follows it. *)
Fixpoint unquote (fuel : nat) (s : bytes) : option (bytes * bytes) :=
  match fuel, s with
  | S fuel, b :: s' =>
      let emit r rest := '(v, rest) ← unquote fuel rest; Some (EncodeRune r ++ v, rest) in
      if decide (b = 34) then Some ([], s')
      else if decide (b = 92) then
        match s' with
        | 117 :: s'' => '(u, rest) ← hex4 s''; let '(r, rest) := escaped_rune u rest in emit r rest
        | e :: s'' => r ← simple_escape e; emit r s''
        | [] => None
        end
      else if decide (b < 32) then None
      else let '(r, sz) := DecodeRune s in emit r (drop sz s)
  | _, _ => None
  end.

(** ** Values *)

Inductive json :=
| JNull | JBool (b : bool) | JNumber (lit : bytes) | JString (s : bytes) | JArray (vs : list json)
| JObject (ms : list (bytes * json)).

Fixpoint skip_space (s : bytes) : bytes :=
  match s with
  | b :: s' => if decide (b = 32 ∨ b = 9 ∨ b = 10 ∨ b = 13) then skip_space s' else s
  | [] => []
  end.

Definition is_digit (b : Z) : Prop := 48 <= b <= 57.
#[export] Instance is_digit_dec b : Decision (is_digit b).
Proof. unfold is_digit. apply _. Defined.

Fixpoint span_digits (s : bytes) : bytes * bytes :=
  match s with
  | b :: s' => if decide (is_digit b) then let '(ds, rest) := span_digits s' in (b :: ds, rest) else ([], s)
  | [] => ([], [])
  end.

(** The parts of a number: a sign, digits without a zero in front, a fraction and an
    exponent. *)
Definition sign_part (s : bytes) : bytes * bytes :=
  match s with c :: s' => if decide (c = 45) then ([45], s') else ([], s) | [] => ([], s) end.
Definition int_part (s : bytes) : bytes * bytes :=
  match s with c :: s' => if decide (c = 48) then ([48], s') else span_digits s | [] => ([], s) end.
Definition frac_part (s : bytes) : option (bytes * bytes) :=
  match s with
  | c :: s' =>
      if decide (c = 46) then
        let '(fs, s') := span_digits s' in if decide (fs = []) then None else Some (46 :: fs, s')
      else Some ([], s)
  | [] => Some ([], s)
  end.
Definition exp_sign (s : bytes) : bytes * bytes :=
  match s with c :: s' => if decide (c = 43 ∨ c = 45) then ([c], s') else ([], s) | [] => ([], s) end.
Definition exp_part (s : bytes) : option (bytes * bytes) :=
  match s with
  | e :: s' =>
      if decide (e = 101 ∨ e = 69) then
        let '(sg, s') := exp_sign s' in
        let '(xs, s') := span_digits s' in
        if decide (xs = []) then None else Some (e :: sg ++ xs, s')
      else Some ([], s)
  | [] => Some ([], s)
  end.

Definition number (s : bytes) : option (bytes * bytes) :=
  let '(sign, s) := sign_part s in
  let '(ds, s) := int_part s in
  if decide (ds = []) then None
  else
    '(fs, s) ← frac_part s;
    '(es, s) ← exp_part s;
    Some (sign ++ ds ++ fs ++ es, s).

Definition expect (w s : bytes) : option bytes := cut_prefix s w.

(** What follows the byte [b], when it comes first. *)
Definition cut (b : Z) (s : bytes) : option bytes :=
  match s with c :: s' => if decide (c = b) then Some s' else None | [] => None end.

(** A value and what follows it; the elements of an array from the first on; the
    members of an object from the first on. *)
Fixpoint value (fuel : nat) (s : bytes) : option (json * bytes) :=
  match fuel with
  | O => None
  | S fuel =>
      match skip_space s with
      | b :: s' =>
          if decide (b = 34) then '(v, rest) ← unquote (length s') s'; Some (JString v, rest)
          else if decide (b = 123) then
            match cut 125 (skip_space s') with
            | Some rest => Some (JObject [], rest)
            | None => '(ms, rest) ← members fuel s'; Some (JObject ms, rest)
            end
          else if decide (b = 91) then
            match cut 93 (skip_space s') with
            | Some rest => Some (JArray [], rest)
            | None => '(vs, rest) ← elements fuel s'; Some (JArray vs, rest)
            end
          else if decide (b = 116) then rest ← expect (str "rue") s'; Some (JBool true, rest)
          else if decide (b = 102) then rest ← expect (str "alse") s'; Some (JBool false, rest)
          else if decide (b = 110) then rest ← expect (str "ull") s'; Some (JNull, rest)
          else '(lit, rest) ← number (b :: s'); Some (JNumber lit, rest)
      | [] => None
      end
  end
with elements (fuel : nat) (s : bytes) : option (list json * bytes) :=
  match fuel with
  | O => None
  | S fuel =>
      '(v, rest) ← value fuel s;
      match cut 44 (skip_space rest) with
      | Some rest => '(vs, rest) ← elements fuel rest; Some (v :: vs, rest)
      | None => rest ← cut 93 (skip_space rest); Some ([v], rest)
      end
  end
with members (fuel : nat) (s : bytes) : option (list (bytes * json) * bytes) :=
  match fuel with
  | O => None
  | S fuel =>
      s' ← cut 34 (skip_space s);
      '(k, rest) ← unquote (length s') s';
      rest ← cut 58 (skip_space rest);
      '(v, rest) ← value fuel rest;
      match cut 44 (skip_space rest) with
      | Some rest => '(ms, rest) ← members fuel rest; Some ((k, v) :: ms, rest)
      | None => rest ← cut 125 (skip_space rest); Some ([(k, v)], rest)
      end
  end.

(** A whole input: one value and nothing but space after it. *)
Definition json_parse (s : bytes) : option json :=
  '(v, rest) ← value (2 * length s) s;
  match skip_space rest with [] => Some v | _ => None end.

(** ** Fields of a struct *)

(** Field names match whatever their case; of the runes that are not ASCII two fold to letters that are. *)
Definition fold_rune (r : rune) : rune :=
  if decide (97 <= r <= 122) then r - 32
  else if decide (r = 0x17F) then 83
  else if decide (r = 0x212A) then 75 else r.
Definition fold_name (s : bytes) : list rune := fold_rune <$> runes s.

(** Decoding a value into a string field and into an int64 field: null leaves the field
    as it is, a value of another kind is an error. *)
Definition set_string (v : json) (old : bytes) : option bytes :=
  match v with JString s => Some s | JNull => Some old | _ => None end.

Definition digits_value (ds : bytes) : Z := foldl (λ acc d, acc * 10 + (d - 48)) 0 ds.

Definition parse_int64 (lit : bytes) : option Z :=
  let '(neg, ds) := match lit with 45 :: ds => (true, ds) | _ => (false, lit) end in
  if decide (Forall is_digit ds ∧ ds ≠ []) then
    let n := if neg : bool then - digits_value ds else digits_value ds in
    if decide (- 2 ^ 63 <= n < 2 ^ 63) then Some n else None
  else None.

Definition set_int64 (v : json) (old : Z) : option Z :=
  match v with JNumber lit => parse_int64 lit | JNull => Some old | _ => None end.

(** ** Decimals *)

Lemma pretty_N_go_app (x : N) s : str (pretty_N_go x s) = str (pretty_N_go x "") ++ str s.
Proof.
  revert s. induction (N.lt_wf_0 x) as [x _ IH]; intros s.
  destruct (decide (x = 0%N)) as [->|Hx]; [by rewrite !pretty_N_go_0|].
  rewrite !(pretty_N_go_step x) by lia.
  rewrite (IH (x `div` 10)%N (N.div_lt x 10 ltac:(lia) ltac:(lia)) (String.String _ s)).
  rewrite (IH (x `div` 10)%N (N.div_lt x 10 ltac:(lia) ltac:(lia)) (String.String _ "")).
  by rewrite <-app_assoc.
Qed.

Lemma itoa_pos n : 0 < n → itoa n = str (pretty_N_go (Z.to_N n) "").
Proof.
  intros Hn. destruct n as [|p|p]; [lia| |lia]. unfold itoa. change (pretty (Z.pos p)) with (pretty (N.pos p)).
  unfold pretty, pretty_N. by rewrite decide_False by lia.
Qed.

(** The decimals of a number: those of its tenth, and the last one. *)
Lemma itoa_step n : 0 < n → itoa n = (if decide (n < 10) then [] else itoa (n / 10)) ++ [48 + n mod 10].
Proof.
  intros Hn. rewrite itoa_pos, pretty_N_go_step by lia. rewrite pretty_N_go_app.
  assert (str (String.String (pretty_N_char (Z.to_N n `mod` 10)) "") = [48 + n mod 10]) as ->.
  { change 10%N with (Z.to_N 10). rewrite <-Z2N.inj_mod by lia.
    pose proof (Z.mod_pos_bound n 10 ltac:(lia)) as Hr. revert Hr. generalize (n mod 10). intros r Hr.
    assert (r = 0 ∨ r = 1 ∨ r = 2 ∨ r = 3 ∨ r = 4 ∨ r = 5 ∨ r = 6 ∨ r = 7 ∨ r = 8 ∨ r = 9) as Hc by lia.
    by destruct_or! Hc; subst r. }
  f_equal. change 10%N with (Z.to_N 10). rewrite <-Z2N.inj_div by lia. case_decide.
  - rewrite Z.div_small by lia. by rewrite pretty_N_go_0.
  - rewrite itoa_pos; [done|]. apply Z.div_str_pos. lia.
Qed.

Lemma decimal_ind (P : Z → Prop) :
  P 0 → (∀ n, 0 < n < 10 → P n) → (∀ n, 10 <= n → P (n / 10) → P n) → ∀ n, 0 <= n → P n.
Proof.
  intros H0 H1 H2 n Hn. pattern n. apply Zlt_0_ind; [|done]. intros x IH Hx.
  destruct (decide (x = 0)) as [->|]; [done|]. destruct (decide (x < 10)); [apply H1; lia|].
  apply H2; [lia|]. apply IH. split; [by apply Z.div_pos; lia|apply Z.div_lt; lia].
Qed.

Lemma digits_value_snoc ds d : digits_value (ds ++ [d]) = digits_value ds * 10 + (d - 48).
Proof. unfold digits_value. by rewrite foldl_app. Qed.

Lemma digits_value_itoa n : 0 <= n → digits_value (itoa n) = n.
Proof.
  revert n. apply decimal_ind; [done| |].
  - intros n Hn. rewrite itoa_step, decide_True by lia. rewrite digits_value_snoc. unfold digits_value. cbn.
    rewrite Z.mod_small; lia.
  - intros n Hn IH. rewrite itoa_step, decide_False by lia. rewrite digits_value_snoc, IH.
    pose proof (Z.div_mod n 10 ltac:(lia)). lia.
Qed.

(** No zero stands in front. *)
Lemma itoa_head n : 0 < n → ∃ d ds, itoa n = d :: ds ∧ d ≠ 48.
Proof.
  intros Hn. assert (0 <= n) as H0 by lia. revert n H0 Hn. apply (decimal_ind (λ n, 0 < n → _)); [lia| |].
  - intros n Hn _. rewrite itoa_step, decide_True by lia. eexists _, _. split; [done|]. rewrite Z.mod_small; lia.
  - intros n Hn IH _. destruct IH as (d & ds & E & Hd); [apply Z.div_str_pos; lia|].
    rewrite itoa_step, decide_False, E by lia. by eexists _, _.
Qed.

Lemma parse_int64_itoa n : 0 <= n < 2 ^ 63 → parse_int64 (itoa n) = Some n.
Proof.
  intros Hn. destruct (itoa_digits n) as [Hne Hd]; [lia|]. unfold parse_int64.
  assert (∃ d ds, itoa n = d :: ds ∧ 48 <= d <= 57) as (d & ds & E & Hb).
  { destruct (itoa n) as [|d ds]; [done|]. apply Forall_cons in Hd as [? _]. by exists d, ds. }
  rewrite E. assert (match d with 45 => (true, ds) | _ => (false, d :: ds) end = (false, d :: ds)) as ->
    by (repeat case_match; (lia || done)).
  rewrite <-E, decide_True, digits_value_itoa, decide_True by (lia || done). done.
Qed.

(** ** Strings: what is written is read *)

Lemma quote_loop_fuel f : ∀ f' s, bytes_ok s → (length s <= f)%nat → (length s <= f')%nat →
  quote_loop f s = quote_loop f' s.
Proof.
  induction f as [|f IH]; intros [|f'] [|b s] Hs Hf Hf'; cbn [length] in *; try done; try lia.
  cbn [quote_loop]. destruct (DecodeRune (b :: s)) as [r sz] eqn:E.
  pose proof (DecodeRune_size _ _ _ Hs ltac:(done) E). f_equal.
  apply IH; [by apply bytes_ok_drop|rewrite length_drop; cbn; lia..].
Qed.

Lemma quote_loop_step s r sz : bytes_ok s → s ≠ [] → DecodeRune s = (r, sz) →
  quote_loop (length s) s = quote_rune r (take sz s) ++ quote_loop (length (drop sz s)) (drop sz s).
Proof.
  intros Hs Hne E. pose proof (DecodeRune_size s r sz Hs Hne E).
  destruct s as [|b s]; [done|]. cbn [length quote_loop]. rewrite E. f_equal.
  apply quote_loop_fuel; [by apply bytes_ok_drop|rewrite length_drop; cbn; lia|done].
Qed.

Lemma hex_value_char n : 0 <= n < 16 → hex_value (hex_char n) = Some n.
Proof. intros Hn. unfold hex_value, hex_char. repeat case_decide; try lia; f_equal; lia. Qed.

Lemma hex4_escape u t : 0 <= u < 65536 → hex4 (drop 2 (unicode_escape u) ++ t) = Some (u, t).
Proof.
  intros Hu. cbn. rewrite !hex_value_char by (apply Z.mod_pos_bound; lia). cbn. do 2 f_equal.
  Z.to_euclidean_division_equations; lia.
Qed.

(** A rune and its bytes, as DecodeRune finds them. *)
Definition rune_chunk (r : rune) (chunk : bytes) : Prop :=
  (valid_rune r ∧ chunk = EncodeRune r) ∨ (r = RuneError ∧ length chunk = 1%nat).

Lemma DecodeRune_chunk s r sz : bytes_ok s → s ≠ [] → DecodeRune s = (r, sz) → rune_chunk r (take sz s).
Proof.
  intros Hs Hne E. destruct (DecodeRune_shape s r sz Hs Hne E) as [[-> ->]|(Hv & Hd & ->)].
  - right. split; [done|]. by destruct s.
  - left. split; [done|]. rewrite Hd at 1. by rewrite take_app_length.
Qed.

Lemma EncodeRune_ascii r : 0 <= r < 128 → EncodeRune r = [r].
Proof. intros Hr. unfold EncodeRune. by rewrite decide_True by lia. Qed.

(** The bytes of a rune that is not ASCII are not taken for one that is. *)
Definition emit (fuel : nat) (r : rune) (rest : bytes) : option (bytes * bytes) :=
  '(v, rest) ← unquote fuel rest; Some (EncodeRune r ++ v, rest).

Lemma unquote_plain fuel r t : valid_rune r → 32 <= r → r ≠ 34 → r ≠ 92 →
  unquote (S fuel) (EncodeRune r ++ t) = emit fuel r t.
Proof.
  intros Hv H32 H34 H92. pose proof (DecodeRune_Encode r t Hv) as Hd.
  assert (∃ b l, EncodeRune r = b :: l ∧ 32 <= b ∧ b ≠ 34 ∧ b ≠ 92) as (b & l & E & H1 & H2 & H3).
  { destruct (decide (r < 128)); [rewrite EncodeRune_ascii by lia; by eexists _, _|].
    pose proof (EncodeRune_high r Hv ltac:(lia)) as Hh. pose proof (EncodeRune_nonempty r).
    destruct (EncodeRune r) as [|b l]; [simpl in *; lia|]. apply Forall_cons in Hh as [Hb _]. exists b, l. split; [done|lia]. }
  rewrite E in *. cbn [app] in *. cbn [unquote]. rewrite decide_False, decide_False, decide_False by lia.
  rewrite Hd. change (b :: l ++ t) with ((b :: l) ++ t). by rewrite drop_app_length.
Qed.

Lemma unquote_escape fuel u t : 0 <= u < 65536 → ¬ (0xD800 <= u < 0xE000) →
  unquote (S fuel) (unicode_escape u ++ t) = emit fuel u t.
Proof.
  intros Hu Hs. change (unicode_escape u ++ t) with (92 :: 117 :: (drop 2 (unicode_escape u) ++ t)).
  cbn [unquote]. rewrite decide_False, decide_True by done. rewrite hex4_escape by done. cbn [mbind option_bind].
  unfold escaped_rune. by rewrite decide_False by done.
Qed.

Lemma unquote_rune fuel r chunk t : rune_chunk r chunk →
  unquote (S fuel) (quote_rune r chunk ++ t) = emit fuel r t.
Proof.
  intros Hc. assert (valid_rune r) as Hv by (destruct Hc as [[? _]|[-> _]]; [done|apply RuneError_valid]).
  unfold quote_rune. case_decide as Hq; [by destruct Hq as [->| ->]|].
  case_decide; [by subst|]. case_decide; [by subst|]. case_decide; [by subst|]. case_decide; [by subst|].
  case_decide; [by subst|]. case_decide as Hu.
  { apply unquote_escape; unfold valid_rune, MaxRune in Hv; lia. }
  case_decide as Hr; [destruct Hr as [-> _]; apply unquote_escape; unfold RuneError; lia|].
  destruct Hc as [[_ ->]|[-> Hl]]; [|tauto]. apply unquote_plain; [done|lia..].
Qed.

(** Marshal's text of a string reads back as the string JSON can hold. *)
Lemma unquote_quote s fuel t : bytes_ok s → (length s < fuel)%nat →
  unquote fuel (quote_loop (length s) s ++ 34 :: t) = Some (json_string s, t).
Proof.
  intros Hs. revert s Hs fuel.
  apply (string_ind (λ s, ∀ fuel, (length s < fuel)%nat → unquote fuel _ = Some (json_string s, t))).
  - intros [|fuel] Hf; [lia|]. done.
  - intros s r sz Hs Hne E IH [|fuel] Hf; [lia|].
    rewrite (quote_loop_step s r sz), <-app_assoc by done.
    rewrite unquote_rune by by eapply DecodeRune_chunk. unfold emit.
    pose proof (DecodeRune_size s r sz Hs Hne E).
    rewrite IH by (rewrite length_drop; destruct s; [done|cbn in *; lia]). cbn. unfold json_string.
    rewrite (runes_step s r sz) by done. by unfold string_of_runes.
Qed.

(** ** Numbers and members *)

Lemma span_digits_app ds b t : Forall is_digit ds → ¬ is_digit b → span_digits (ds ++ b :: t) = (ds, b :: t).
Proof.
  induction 1 as [|d ds Hd Hds IH]; intros Hb; cbn [app span_digits].
  - by rewrite decide_False.
  - by rewrite decide_True, IH by done.
Qed.

Lemma number_itoa n b t : 0 <= n → b = 44 ∨ b = 125 → number (itoa n ++ b :: t) = Some (itoa n, b :: t).
Proof.
  intros Hn Hb. assert (¬ is_digit b ∧ b ≠ 46 ∧ b ≠ 101 ∧ b ≠ 69) as (H1 & H2 & H3 & H4) by (unfold is_digit; lia).
  destruct (itoa_digits n Hn) as [Hne Hd].
  assert (sign_part (itoa n ++ b :: t) = ([], itoa n ++ b :: t)) as Es.
  { destruct (itoa n) as [|d ds]; [done|]. apply Forall_cons in Hd as [Hd _]. cbn. by rewrite decide_False by lia. }
  assert (int_part (itoa n ++ b :: t) = (itoa n, b :: t)) as Ei.
  { destruct (decide (n = 0)) as [->|]; [done|]. destruct (itoa_head n) as (d & ds & E & H48); [lia|]. rewrite E in *.
    unfold int_part. cbn [app]. rewrite decide_False by done. by apply (span_digits_app (d :: ds)). }
  unfold number. rewrite Es, Ei, decide_False by done. unfold frac_part. rewrite decide_False by done.
  cbn [mbind option_bind]. unfold exp_part. rewrite decide_False by lia. cbn [mbind option_bind].
  by rewrite !app_nil_r.
Qed.

(** A field name without anything to escape. *)
Definition plain_name (s : bytes) : Prop := Forall (λ b, 32 <= b < 128 ∧ b ≠ 34 ∧ b ≠ 92) s.
#[export] Instance plain_name_dec s : Decision (plain_name s).
Proof. unfold plain_name. apply _. Defined.

Lemma unquote_name s fuel t : plain_name s → (length s < fuel)%nat → unquote fuel (s ++ 34 :: t) = Some (s, t).
Proof.
  intros Hs. revert fuel. induction Hs as [|b s Hb Hs IH]; intros [|fuel] Hf; cbn [length] in *; [lia|done|lia|].
  assert (EncodeRune b = [b]) as E by (apply EncodeRune_ascii; lia).
  change ((b :: s) ++ 34 :: t) with ([b] ++ (s ++ 34 :: t)). rewrite <-E at 1.
  rewrite unquote_plain by (unfold valid_rune, MaxRune; lia). unfold emit. rewrite IH by lia. cbn. by rewrite E.
Qed.

Lemma value_quote fuel s t : bytes_ok s → value (S fuel) (json_quote s ++ t) = Some (JString (json_string s), t).
Proof.
  intros Hs. unfold json_quote. cbn [app value skip_space]. rewrite decide_False, decide_True by lia.
  rewrite <-app_assoc. cbn [app]. rewrite unquote_quote; [done|done|].
  rewrite length_app. cbn [length]. enough (length s <= length (quote_loop (length s) s))%nat by lia.
  revert s Hs. apply (string_ind (λ s, length s <= length (quote_loop (length s) s))%nat); [done|].
  intros s r sz Hs Hne E IH. rewrite (quote_loop_step s r sz), length_app by done.
  enough (sz <= length (quote_rune r (take sz s)) ∨ length s = length (drop sz s))%nat as Hq.
  { rewrite length_drop in *. lia. }
  left. destruct (DecodeRune_shape s r sz Hs Hne E) as [[-> ->]|(Hv & Hd & ->)].
  - unfold quote_rune. repeat case_decide; cbn; try lia. destruct s; [done|cbn; lia].
  - rewrite Hd, take_app_length. unfold quote_rune.
    repeat case_decide; try (subst; cbn; lia); cbn [length unicode_escape]; try lia.
    all: pose proof (EncodeRune_ascii r); unfold EncodeRune, enc3; repeat case_decide; cbn; lia.
Qed.

Lemma value_itoa fuel n b t : 0 <= n → b = 44 ∨ b = 125 →
  value (S fuel) (itoa n ++ b :: t) = Some (JNumber (itoa n), b :: t).
Proof.
  intros Hn Hb. pose proof (number_itoa n b t Hn Hb) as Hnum. destruct (itoa_digits n Hn) as [Hne Hd].
  destruct (itoa n) as [|d ds]; [done|]. apply Forall_cons in Hd as [Hd _].
  cbn [app value skip_space] in *. rewrite !decide_False by lia. by rewrite Hnum.
Qed.

Lemma members_field fuel name v w b t : plain_name name → b = 44 ∨ b = 125 →
  value (S fuel) (w ++ b :: t) = Some (v, b :: t) →
  members (S (S fuel)) (34 :: name ++ 34 :: 58 :: w ++ b :: t) =
  if decide (b = 44) then '(ms, rest) ← members (S fuel) t; Some ((name, v) :: ms, rest)
  else Some ([(name, v)], t).
Proof.
  intros Hn Hb Hv. set (n := S fuel) in *. cbn [members].
  change (cut 34 (skip_space (34 :: name ++ 34 :: 58 :: w ++ b :: t))) with (Some (name ++ 34 :: 58 :: w ++ b :: t)).
  cbn [mbind option_bind]. rewrite unquote_name; [|done|rewrite length_app; cbn; lia].
  cbn [mbind option_bind]. change (cut 58 (skip_space (58 :: w ++ b :: t))) with (Some (w ++ b :: t)).
  cbn [mbind option_bind]. rewrite Hv. cbn [mbind option_bind]. by destruct Hb as [-> | ->].
Qed.

(** ** The fuel is enough *)

Lemma skip_space_le s : (length (skip_space s) <= length s)%nat.
Proof. induction s as [|b s IH]; cbn; [lia|]. case_decide; cbn; lia. Qed.

Lemma hex4_le s u rest : hex4 s = Some (u, rest) → (length rest < length s)%nat.
Proof.
  destruct s as [|a [|b [|c [|d s]]]]; try done. cbn. intros H.
  destruct (hex_value a), (hex_value b), (hex_value c), (hex_value d); try done. injection H as _ <-. lia.
Qed.

Lemma escaped_rune_le u s r rest : escaped_rune u s = (r, rest) → (length rest <= length s)%nat.
Proof.
  unfold escaped_rune. intros H. case_decide; [|by injection H as _ <-].
  repeat case_match; simplify_eq; try done.
  match goal with E : hex4 _ = Some _ |- _ => apply hex4_le in E end. cbn. lia.
Qed.

Lemma DecodeRune_pos b s : (0 < (DecodeRune (b :: s)).2)%nat.
Proof. cbn [DecodeRune]. repeat case_match; subst; cbn; lia. Qed.

(** A string ends before its input does, and more fuel than bytes changes nothing. *)
Lemma unquote_le fuel s v rest : unquote fuel s = Some (v, rest) → (length rest < length s)%nat.
Proof.
  revert s v rest. induction fuel as [|fuel IH]; intros [|b s] v rest H; try done. cbn [unquote] in H.
  assert (∀ r t, (length t <= length s)%nat → ('(v, rest) ← unquote fuel t; Some (EncodeRune r ++ v, rest)) = Some (v, rest) →
    (length rest < S (length s))%nat) as He.
  { intros r t Ht E. destruct (unquote fuel t) as [[v0 rest0]|] eqn:Eu; [|done]. cbn in E. injection E as _ <-.
    apply IH in Eu. lia. }
  cbn [length]. case_decide; [injection H as _ <-; lia|]. case_decide.
  - destruct s as [|e s]; [done|].
    assert ((r ← simple_escape e; '(v, rest) ← unquote fuel s; Some (EncodeRune r ++ v, rest)) = Some (v, rest) →
      (length rest < S (length (e :: s)))%nat) as Hs.
    { intros E. destruct (simple_escape e) as [r|]; [|done]. apply (He r s); [cbn; lia|done]. }
    destruct (decide (e = 117)) as [->|Hne].
    + destruct (hex4 s) as [[u t]|] eqn:Eh; [|done]. cbn [mbind option_bind] in H.
      destruct (escaped_rune u t) as [r t'] eqn:Er. apply hex4_le in Eh. apply escaped_rune_le in Er.
      apply (He r t'); [cbn; lia|done].
    + apply Hs. revert H. repeat case_match; (done || lia).
  - case_decide; [done|]. destruct (DecodeRune (b :: s)) as [r sz] eqn:Ed.
    pose proof (DecodeRune_pos b s) as Hp. rewrite Ed in Hp. cbn in Hp.
    apply (He r (drop sz (b :: s))); [|done]. rewrite length_drop. cbn. lia.
Qed.

Lemma span_digits_length s ds rest : span_digits s = (ds, rest) → (length ds + length rest = length s)%nat.
Proof.
  revert ds rest. induction s as [|b s IH]; cbn; intros ds rest; [intros [= <- <-]; done|].
  case_decide; [|intros [= <- <-]; done]. destruct (span_digits s) as [ds0 rest0]. intros [= <- <-]. cbn.
  rewrite <-(IH ds0 rest0) by done. lia.
Qed.

Ltac spans := repeat match goal with E : span_digits _ = _ |- _ => apply span_digits_length in E end.

Lemma sign_part_le s a r : sign_part s = (a, r) → (length r <= length s)%nat.
Proof. unfold sign_part. repeat case_match; intros [= <- <-]; cbn; lia. Qed.
Lemma int_part_le s a r : int_part s = (a, r) → (length a + length r = length s)%nat.
Proof.
  unfold int_part. destruct s as [|c s]; [intros [= <- <-]; done|].
  case_decide; [intros [= <- <-]; cbn; lia|]. apply span_digits_length.
Qed.
Lemma frac_part_le s a r : frac_part s = Some (a, r) → (length r <= length s)%nat.
Proof. unfold frac_part. repeat case_match; intros ?; simplify_eq; spans; cbn; lia. Qed.
Lemma exp_part_le s a r : exp_part s = Some (a, r) → (length r <= length s)%nat.
Proof. unfold exp_part, exp_sign. repeat case_match; intros ?; simplify_eq; spans; cbn in *; lia. Qed.

Lemma number_le s lit rest : number s = Some (lit, rest) → (length rest < length s)%nat.
Proof.
  unfold number. destruct (sign_part s) as [sign s1] eqn:E1. destruct (int_part s1) as [ds s2] eqn:E2.
  case_decide as Hd; [done|]. destruct (frac_part s2) as [[f s3]|] eqn:E3; [|done]. cbn [mbind option_bind].
  destruct (exp_part s3) as [[e s4]|] eqn:E4; [|done]. cbn [mbind option_bind]. intros [= _ <-].
  apply sign_part_le in E1. apply int_part_le in E2. apply frac_part_le in E3. apply exp_part_le in E4.
  destruct ds; [done|]. cbn in E2. lia.
Qed.

Lemma expect_le w s rest : expect w s = Some rest → (length rest <= length s)%nat.
Proof. unfold expect, cut_prefix. case_decide; [|done]. intros [= <-]. rewrite length_drop. lia. Qed.

Lemma cut_le b s rest : cut b s = Some rest → (length rest < length s)%nat.
Proof. destruct s as [|c s]; [done|]. cbn. case_decide; [|done]. intros [= <-]. lia. Qed.

Lemma cut_space_le b s rest : cut b (skip_space s) = Some rest → (length rest < length s)%nat.
Proof. intros H%cut_le. pose proof (skip_space_le s). lia. Qed.

(** Every value, list of elements and list of members takes a byte at least. *)
Lemma value_consumes n :
  (∀ s v rest, value n s = Some (v, rest) → (length rest < length s)%nat) ∧
  (∀ s v rest, elements n s = Some (v, rest) → (length rest < length s)%nat) ∧
  (∀ s v rest, members n s = Some (v, rest) → (length rest < length s)%nat).
Proof.
  induction n as [|n (IHv & IHe & IHm)]; [done|]. split_and!; intros s v rest H.
  - cbn [value] in H. pose proof (skip_space_le s) as Hs.
    destruct (skip_space s) as [|b s']; [done|]. cbn [length] in Hs.
    repeat case_decide; repeat case_match; try done.
    all: repeat match goal with
      | H : ?x ≫= _ = Some _ |- _ => destruct x as [[? ?]|] eqn:?; [|done]; cbn in H
      | H : ?x ≫= _ = Some _ |- _ => destruct x as [?|] eqn:?; [|done]; cbn in H
      end; simplify_eq.
    all: repeat match goal with
      | E : unquote _ _ = Some _ |- _ => apply unquote_le in E
      | E : cut _ (skip_space _) = Some _ |- _ => apply cut_space_le in E
      | E : expect _ _ = Some _ |- _ => apply expect_le in E
      | E : number _ = Some _ |- _ => apply number_le in E
      | E : members _ _ = Some _ |- _ => apply IHm in E
      | E : elements _ _ = Some _ |- _ => apply IHe in E
      end; cbn [length] in *; lia.
  - cbn [elements] in H. destruct (value n s) as [[w r]|] eqn:E; [|done]. cbn [mbind option_bind] in H. apply IHv in E.
    destruct (cut 44 (skip_space r)) as [r2|] eqn:E2.
    + apply cut_space_le in E2. destruct (elements n r2) as [[ws r3]|] eqn:E3; [|done]. injection H as _ <-. apply IHe in E3. lia.
    + destruct (cut 93 (skip_space r)) as [r3|] eqn:E3; [|done]. injection H as _ <-. apply cut_space_le in E3. lia.
  - cbn [members] in H. destruct (cut 34 (skip_space s)) as [s1|] eqn:E1; [|done]. apply cut_space_le in E1.
    cbn [mbind option_bind] in H. destruct (unquote _ s1) as [[k r]|] eqn:E2; [|done]. apply unquote_le in E2.
    cbn [mbind option_bind] in H. destruct (cut 58 (skip_space r)) as [r2|] eqn:E3; [|done]. apply cut_space_le in E3.
    cbn [mbind option_bind] in H. destruct (value n r2) as [[w r3]|] eqn:E4; [|done]. apply IHv in E4.
    cbn [mbind option_bind] in H. destruct (cut 44 (skip_space r3)) as [r4|] eqn:E5.
    + apply cut_space_le in E5. destruct (members n r4) as [[ws r5]|] eqn:E6; [|done]. injection H as _ <-. apply IHm in E6. lia.
    + destruct (cut 125 (skip_space r3)) as [r5|] eqn:E6; [|done]. injection H as _ <-. apply cut_space_le in E6. lia.
Qed.

(** Twice the length of the input is fuel enough. *)
Lemma value_fuel n : ∀ m, (n <= m)%nat →
  (∀ s, (2 * length s <= n)%nat → value m s = value n s) ∧
  (∀ s, (2 * length s < n)%nat → elements m s = elements n s) ∧
  (∀ s, (2 * length s < n)%nat → members m s = members n s).
Proof.
  induction n as [|n IH]; intros [|m] Hm; try done; [split_and!; intros s Hs; try lia; by destruct s; [|cbn in Hs; lia]|lia|].
  destruct (IH m ltac:(lia)) as (IHv & IHe & IHm). split_and!; intros s Hs.
  - cbn [value]. pose proof (skip_space_le s) as Hle. destruct (skip_space s) as [|b s']; [done|]. cbn [length] in Hle.
    by rewrite IHm, IHe by lia.
  - cbn [elements]. rewrite IHv by lia. destruct (value n s) as [[v r]|] eqn:E; [|done]. apply value_consumes in E.
    cbn [mbind option_bind]. destruct (cut 44 (skip_space r)) as [r2|] eqn:E2; [|done]. apply cut_space_le in E2.
    by rewrite IHe by lia.
  - cbn [members]. destruct (cut 34 (skip_space s)) as [s1|] eqn:E1; [|done]. apply cut_space_le in E1.
    cbn [mbind option_bind]. destruct (unquote _ s1) as [[k r]|] eqn:E2; [|done]. apply unquote_le in E2.
    cbn [mbind option_bind]. destruct (cut 58 (skip_space r)) as [r2|] eqn:E3; [|done]. apply cut_space_le in E3.
    cbn [mbind option_bind]. rewrite IHv by lia. destruct (value n r2) as [[w r3]|] eqn:E4; [|done]. apply value_consumes in E4.
    cbn [mbind option_bind]. destruct (cut 44 (skip_space r3)) as [r4|] eqn:E5; [|done]. apply cut_space_le in E5.
    by rewrite IHm by lia.
Qed.
