(* ===== verification/Accounts.v ===== *)
(** * API keys, admin users and their tokens

    gateway/rest_auth.go and gateway/admin_auth.go over the message store: keys for the
    REST API, kept under their SHA-256 hash; users of the admin UI with bcrypt hashes;
    and the signed tokens (JWT, HS256) that a login gives.  Random bytes, salts and the
    clock are arguments; crypto/rand does not return an error, it ends the program.  [key_run] is any sequence
    of what requests and the rest of the gateway do to the keys. *)

From S2P Require Import Prelude Utf8 Dlr Documents Format Store ConfigStore Encodings Sha256.
From S2P Require Import Json.

Local Open Scope Z_scope.

(** The header of a request: the token behind "Bearer ", if there is one. *)
Definition bearer (auth : bytes) : option bytes := cut_prefix auth (str "Bearer ").

Inductive auth_err :=
| BcryptFailed | InvalidKey | KeyNotFound (id : bytes) | InvalidCredentials | TokenFormat
| TokenEncoding | BadSignature | BadClaims | TokenExpired | UserGone | UserNotFound | WrongPassword.

#[export] Instance auth_err_eq_dec : EqDecision auth_err.
Proof. solve_decision. Defined.

(** What a middleware does with a request: answer 401 with an error, or pass it on. *)
Inductive gate (A : Type) := Refused (error : bytes) | Passed (who : A).
Arguments Refused {A} error.
Arguments Passed {A} who.

Section api_keys.
Context {DB : Type} `{!KV DB}.

Abbreviation MessageStore := (MessageStore (DB := DB)).

Definition api_key_hash (plainKey : bytes) : bytes := hex_encode (sha256 plainKey).
Definition api_key_key (keyHash : bytes) : bytes := key NsAPIKey keyHash.

(** [rnd] are 16 random bytes, [idBytes] 4. *)
Definition keys_Create (rnd idBytes : bytes) (now : Z) (label : bytes) (rateLimit : Z) (s : MessageStore) :
    bytes * MessageStore :=
  let plainKey := str "sk_live_" ++ hex_encode rnd in
  let keyHash := api_key_hash plainKey in
  let id := str "key_" ++ hex_encode idBytes in
  let apiKey := mkAPIKey id keyHash label rateLimit now zero_time in
  (plainKey, SetJSON (api_key_key keyHash) (json_api_key apiKey) s).

Definition ak_used (k : APIKey) (now : Z) : APIKey :=
  mkAPIKey (ak_ID k) (ak_KeyHash k) (ak_Label k) (ak_RateLimit k) (ak_CreatedAt k) now.

Definition keys_Validate (now : Z) (bearerToken : bytes) (s : MessageStore) : (APIKey + auth_err) * MessageStore :=
  let pebbleKey := api_key_key (api_key_hash bearerToken) in
  match GetJSON un_api_key pebbleKey s with
  | Got apiKey => let apiKey := ak_used apiKey now in (inl apiKey, SetJSON pebbleKey (json_api_key apiKey) s)
  | _ => (inr InvalidKey, s)
  end.

(** The scan of Revoke: the last key with the ID. *)
Definition find_key (id k : bytes) (data : doc) (targetKey : bytes) : bytes + Empty_set :=
  match un_api_key data with
  | None => inl targetKey
  | Some ak => inl (if decide (ak_ID ak = id) then k else targetKey)
  end.

Definition keys_Revoke (id : bytes) (s : MessageStore) : option auth_err * MessageStore :=
  let targetKey := (ScanPrefix (str "apikey:") (find_key id) [] s).1 in
  if decide (targetKey = []) then (Some (KeyNotFound id), s) else (None, DeleteKey targetKey s).

Definition ak_hide (k : APIKey) : APIKey :=
  mkAPIKey (ak_ID k) [] (ak_Label k) (ak_RateLimit k) (ak_CreatedAt k) (ak_LastUsed k).

Definition keys_List (s : MessageStore) : list APIKey :=
  (ScanPrefix (str "apikey:") (list_record ak_hide) [] s).1.

Definition APIKeyAuthMiddleware (now : Z) (auth : bytes) (s : MessageStore) : gate APIKey * MessageStore :=
  match bearer auth with
  | None => (Refused (str "missing or invalid Authorization header"), s)
  | Some token =>
      match keys_Validate now token s with
      | (inl apiKey, s) => (Passed apiKey, s)
      | (inr _, s) => (Refused (str "invalid API key"), s)
      end
  end.

(** ** Sequences of operations

    What the rest of the program does to the store between two requests with a key:
    other keys are created and revoked, requests come in with any header, and the other
    parts of the gateway write in their own namespaces. *)
Inductive key_op :=
| KCreate (rnd idBytes : bytes) (now : Z) (label : bytes) (rateLimit : Z)
| KRequest (now : Z) (auth : bytes)
| KRevoke (id : bytes)
| KElsewhere (f : MessageStore → MessageStore).

Definition key_do (s : MessageStore) (o : key_op) : MessageStore :=
  match o with
  | KCreate rnd idBytes now label rateLimit => (keys_Create rnd idBytes now label rateLimit s).2
  | KRequest now auth => (APIKeyAuthMiddleware now auth s).2
  | KRevoke id => (keys_Revoke id s).2
  | KElsewhere f => f s
  end.
Definition key_run (ops : list key_op) (s : MessageStore) : MessageStore := foldl key_do s ops.

(** The operations make no key with the hash of [plain]; and, while the key lives, none
    with its ID, and do not revoke it. *)
Definition other_hash (plain : bytes) (o : key_op) : Prop :=
  match o with
  | KCreate rnd _ _ _ _ => sha256 (str "sk_live_" ++ hex_encode rnd) ≠ sha256 plain
  | KElsewhere f => ∀ s x, kv_get (st_db (f s)) (key NsAPIKey x) = kv_get (st_db s) (key NsAPIKey x)
  | _ => True
  end.
Definition other_id (id : bytes) (o : key_op) : Prop :=
  match o with
  | KCreate _ idBytes _ _ _ => bytes_ok idBytes ∧ str "key_" ++ hex_encode idBytes ≠ id
  | KRevoke id' => id' ≠ id
  | _ => True
  end.

End api_keys.

(** ** Tokens *)

Record jwtClaims := mkClaims { jc_Sub : bytes; jc_Role : bytes; jc_Exp : Z; jc_Iat : Z }.

Definition base64URLEncode (data : bytes) : bytes := b64_encode data.
Definition base64URLDecode (s : bytes) : option bytes := b64_decode s.

(** json.Marshal of a struct: its fields in order, their values already written. *)
Fixpoint json_members (fs : list (bytes * bytes)) : bytes :=
  match fs with
  | [] => [125]
  | (k, v) :: fs =>
      34 :: k ++ 34 :: 58 :: v ++ (match fs with [] => 125 | _ => 44 end) :: (match fs with [] => [] | _ => json_members fs end)
  end.
Definition json_object (fs : list (bytes * bytes)) : bytes := 123 :: json_members fs.

Definition jwt_header : bytes :=
  json_object [(str "alg", json_quote (str "HS256")); (str "typ", json_quote (str "JWT"))].

Definition marshal_claims (c : jwtClaims) : bytes :=
  json_object [(str "sub", json_quote (jc_Sub c)); (str "role", json_quote (jc_Role c));
               (str "exp", itoa (jc_Exp c)); (str "iat", itoa (jc_Iat c))].

(** One member of an object into the struct: members of other names are ignored. *)
Definition set_claim (c : jwtClaims) (m : bytes * json) : option jwtClaims :=
  let name := fold_name m.1 in
  if decide (name = fold_name (str "sub")) then
    v ← set_string m.2 (jc_Sub c); Some (mkClaims v (jc_Role c) (jc_Exp c) (jc_Iat c))
  else if decide (name = fold_name (str "role")) then
    v ← set_string m.2 (jc_Role c); Some (mkClaims (jc_Sub c) v (jc_Exp c) (jc_Iat c))
  else if decide (name = fold_name (str "exp")) then
    v ← set_int64 m.2 (jc_Exp c); Some (mkClaims (jc_Sub c) (jc_Role c) v (jc_Iat c))
  else if decide (name = fold_name (str "iat")) then
    v ← set_int64 m.2 (jc_Iat c); Some (mkClaims (jc_Sub c) (jc_Role c) (jc_Exp c) v)
  else Some c.

Definition unmarshal_claims (s : bytes) : option jwtClaims :=
  match json_parse s with
  | Some (JObject ms) => foldl (λ c m, c ← c; set_claim c m) (Some (mkClaims [] [] 0 0)) ms
  | Some JNull => Some (mkClaims [] [] 0 0)
  | _ => None
  end.

(** [Time.Unix]. *)
Definition Unix (t : Z) : Z := t / Second.

Definition generateJWT (jwtSecret : bytes) (username role : bytes) (now : Z) : bytes :=
  let claims := mkClaims username role (Unix (now + 86400 * Second)) (Unix now) in
  let signingInput := base64URLEncode jwt_header ++ str "." ++ base64URLEncode (marshal_claims claims) in
  let signature := hmac_sha256 jwtSecret signingInput in
  signingInput ++ str "." ++ base64URLEncode signature.

Section admin_users.
Context {DB : Type} `{!KV DB} `{!Bcrypt}.

Abbreviation MessageStore := (MessageStore (DB := DB)).

Definition user_key (username : bytes) : bytes := key NsUser username.

(** The secret of the configuration, or 32 random bytes. *)
Definition NewAdminUserStore (rnd jwtSecret : bytes) : bytes := if decide (jwtSecret = []) then rnd else jwtSecret.

Definition users_Create (salt : bytes) (now : Z) (username password role : bytes) (s : MessageStore) :
    option auth_err * MessageStore :=
  match bcrypt_generate salt password with
  | None => (Some BcryptFailed, s)
  | Some hash => (None, SetJSON (user_key username) (json_user (mkAdminUser username hash role now false)) s)
  end.

Definition users_Authenticate (jwtSecret : bytes) (now : Z) (username password : bytes) (s : MessageStore) :
    bytes + auth_err :=
  match GetJSON un_user (user_key username) s with
  | Got user =>
      if bcrypt_compare (au_PasswordHash user) password
      then inl (generateJWT jwtSecret (au_Username user) (au_Role user) now)
      else inr InvalidCredentials
  | _ => inr InvalidCredentials
  end.

Definition ValidateJWT (jwtSecret : bytes) (now : Z) (token : bytes) (s : MessageStore) : AdminUser + auth_err :=
  match split_dots token with
  | [p0; p1; p2] =>
      let expectedSig := hmac_sha256 jwtSecret (p0 ++ str "." ++ p1) in
      match base64URLDecode p2 with
      | None => inr TokenEncoding
      | Some actualSig =>
          if decide (expectedSig ≠ actualSig) then inr BadSignature
          else
            match base64URLDecode p1 with
            | None => inr BadClaims
            | Some claimsJSON =>
                match unmarshal_claims claimsJSON with
                | None => inr BadClaims
                | Some claims =>
                    if decide (jc_Exp claims < Unix now) then inr TokenExpired
                    else
                      match GetJSON un_user (user_key (jc_Sub claims)) s with
                      | Got user => inl user
                      | _ => inr UserGone
                      end
                end
            end
      end
  | _ => inr TokenFormat
  end.

Definition users_ChangePassword (salt username oldPass newPass : bytes) (s : MessageStore) :
    option auth_err * MessageStore :=
  match GetJSON un_user (user_key username) s with
  | Got user =>
      if negb (bcrypt_compare (au_PasswordHash user) oldPass) then (Some WrongPassword, s)
      else
        match bcrypt_generate salt newPass with
        | None => (Some BcryptFailed, s)
        | Some hash =>
            let user := mkAdminUser (au_Username user) hash (au_Role user) (au_CreatedAt user) false in
            (None, SetJSON (user_key username) (json_user user) s)
        end
  | _ => (Some UserNotFound, s)
  end.

Definition users_Delete (username : bytes) (s : MessageStore) : MessageStore := DeleteKey (user_key username) s.

Definition au_hide (u : AdminUser) : AdminUser :=
  mkAdminUser (au_Username u) [] (au_Role u) (au_CreatedAt u) (au_MustChange u).

Definition users_List (s : MessageStore) : list AdminUser :=
  (ScanPrefix (str "user:") (list_record au_hide) [] s).1.

(** The callback that notes that there is a user. *)
Definition note_user (_ : bytes) (_ : doc) (_ : bool) : bool + Empty_set := inl true.

(** [rnd] are 12 random bytes. *)
Definition users_Bootstrap (rnd salt : bytes) (now : Z) (s : MessageStore) : option auth_err * MessageStore :=
  let exists_ := (ScanPrefix (str "user:") note_user false s).1 in
  if exists_ : bool then (None, s)
  else
    let defaultPassword := hex_encode rnd in
    match bcrypt_generate salt defaultPassword with
    | None => (Some BcryptFailed, s)
    | Some hash =>
        (None, SetJSON (user_key (str "admin")) (json_user (mkAdminUser (str "admin") hash (str "admin") now true)) s)
    end.

Definition AdminAuthMiddleware (jwtSecret : bytes) (now : Z) (auth : bytes) (s : MessageStore) : gate AdminUser :=
  match bearer auth with
  | None => Refused (str "unauthorized")
  | Some token =>
      match ValidateJWT jwtSecret now token s with
      | inl user => Passed user
      | inr _ => Refused (str "invalid or expired token")
      end
  end.

End admin_users.

(** ** Tokens read back *)

(** A written value and what the parser makes of it. *)
Definition written_as (v : bytes) (j : json) : Prop :=
  ∀ fuel b t, b = 44 ∨ b = 125 → value (S fuel) (v ++ b :: t) = Some (j, b :: t).

Lemma written_quote s : bytes_ok s → written_as (json_quote s) (JString (json_string s)).
Proof. intros Hs fuel b t _. by apply value_quote. Qed.
Lemma written_itoa n : 0 <= n → written_as (itoa n) (JNumber (itoa n)).
Proof. intros Hn fuel b t Hb. by apply value_itoa. Qed.

Definition field_written (f : bytes * bytes) (m : bytes * json) : Prop :=
  m.1 = f.1 ∧ plain_name f.1 ∧ written_as f.2 m.2.

Lemma field_intro k v j : bool_decide (plain_name k) = true → written_as v j → field_written (k, v) (k, j).
Proof. intros Hk%bool_decide_eq_true Hv. done. Qed.

Lemma members_written fs ms fuel : fs ≠ [] → Forall2 field_written fs ms → (length fs < fuel)%nat →
  members fuel (json_members fs) = Some (ms, []).
Proof.
  intros Hne Hf. revert fuel Hne. induction Hf as [|[k v] [k' j] fs ms (Hk & Hp & Hv) Hf IH]; [done|].
  cbn [fst snd] in *. subst k'. intros [|[|fuel]] _ Hl; cbn [length] in Hl; [lia|lia|].
  cbn [json_members]. destruct Hf as [|f m fs ms Hm Hf].
  - rewrite (members_field fuel k j v 125 []); [done|done|by right|apply Hv; by right].
  - rewrite (members_field fuel k j v 44); [|done|by left|apply Hv; by left].
    rewrite decide_True by done. rewrite IH by (done || cbn [length] in *; lia). done.
Qed.

Lemma json_members_head fs : fs ≠ [] → ∃ t, json_members fs = 34 :: t.
Proof. destruct fs as [|[k v] fs]; [done|]. intros _. by eexists. Qed.

Lemma length_json_members fs : (length fs < length (json_members fs))%nat.
Proof.
  induction fs as [|[k v] fs IH]; [cbn; lia|]. cbn [json_members length]. rewrite length_app. cbn [length].
  rewrite length_app. cbn [length]. destruct fs; cbn [length] in *; lia.
Qed.

(** What json.Marshal writes for a struct, Unmarshal takes apart. *)
Lemma json_parse_object fs ms : fs ≠ [] → Forall2 field_written fs ms → json_parse (json_object fs) = Some (JObject ms).
Proof.
  intros Hne Hf. unfold json_parse, json_object. set (w := json_members fs).
  assert ((length fs < length w)%nat) as Hl by apply length_json_members.
  destruct (json_members_head fs Hne) as [t Ht]. fold w in Ht.
  replace (2 * length (123%Z :: w))%nat with (S (2 * length w + 1))%nat by (cbn [length]; lia).
  cbn [value]. change (skip_space (123 :: w)) with (123 :: w). cbv iota. rewrite decide_False, decide_True by done.
  rewrite Ht at 1. change (cut 125 (skip_space (34 :: t))) with (@None bytes). cbv iota.
  rewrite (members_written fs ms) by (done || lia). done.
Qed.

Definition claims_ok (c : jwtClaims) : Prop :=
  bytes_ok (jc_Sub c) ∧ bytes_ok (jc_Role c) ∧ 0 <= jc_Exp c < 2 ^ 63 ∧ 0 <= jc_Iat c < 2 ^ 63.

Lemma unmarshal_marshal c : claims_ok c →
  unmarshal_claims (marshal_claims c) = Some (mkClaims (json_string (jc_Sub c)) (json_string (jc_Role c)) (jc_Exp c) (jc_Iat c)).
Proof.
  intros (Hs & Hr & He & Hi). unfold unmarshal_claims, marshal_claims.
  rewrite (json_parse_object _ [(str "sub", JString (json_string (jc_Sub c))); (str "role", JString (json_string (jc_Role c)));
    (str "exp", JNumber (itoa (jc_Exp c))); (str "iat", JNumber (itoa (jc_Iat c)))]); [|done|].
  - cbn [foldl mbind option_bind]. unfold set_claim.
    repeat first [rewrite decide_True by (by vm_compute) | rewrite decide_False by (by vm_compute)
      | progress cbn [fst snd set_string set_int64 mbind option_bind jc_Sub jc_Role jc_Exp jc_Iat]].
    rewrite !parse_int64_itoa by done. cbn [mbind option_bind]. done.
  - repeat (apply Forall2_cons; split;
      [apply field_intro; [by vm_compute|first [by apply written_quote | apply written_itoa; lia]]|]).
    constructor.
Qed.

(** ** API keys *)

Section api_key_props.
Context {DB : Type} `{!KV DB, !KVLaws DB}.

Abbreviation MessageStore := (MessageStore (DB := DB)).
Abbreviation keys := (gmap bytes APIKey).

Definition json_key (k : APIKey) : APIKey := match json_api_key k with DAPIKey k => k | _ => k end.

Lemma api_key_get (s : MessageStore) (m : keys) (h : bytes) : collection s m →
  GetJSON un_api_key (api_key_key h) s = match m !! h with Some k => Got k | None => GotNone end.
Proof. exact (get_collection (A := APIKey) s m h). Qed.
Lemma api_key_set (s : MessageStore) (m : keys) (h : bytes) (k : APIKey) : collection s m →
  collection (SetJSON (api_key_key h) (json_api_key k) s) (<[h := json_key k]> m).
Proof. exact (collection_set (A := APIKey) s m h (json_key k)). Qed.

Lemma api_key_delete (s : MessageStore) (m : keys) (h : bytes) : collection s m →
  collection (DeleteKey (api_key_key h) s) (delete h m).
Proof. exact (collection_delete (A := APIKey) s m h). Qed.

Lemma Validate_spec (now : Z) (token : bytes) (s : MessageStore) (m : keys) : collection s m →
  (keys_Validate now token s).1 =
    match m !! api_key_hash token with Some k => inl (ak_used k now) | None => inr InvalidKey end.
Proof. intros Hm. unfold keys_Validate. rewrite (api_key_get s m) by done. by destruct (m !! _). Qed.

Lemma middleware_spec (now : Z) (token : bytes) (s : MessageStore) (m : keys) : collection s m →
  (APIKeyAuthMiddleware now (str "Bearer " ++ token) s).1 =
    match m !! api_key_hash token with Some k => Passed (ak_used k now) | None => Refused (str "invalid API key") end.
Proof.
  intros Hm. unfold APIKeyAuthMiddleware, bearer. rewrite cut_prefix_app.
  pose proof (Validate_spec now token s m Hm) as Hv. destruct (keys_Validate now token s) as [res s']. cbn [fst] in Hv.
  subst res. by destruct (m !! _).
Qed.

(** The scan of Revoke ends with a key of the ID, if there is one. *)
Lemma find_key_scan id (l : list (bytes * APIKey)) t :
  let res := (scan_loop (find_key id) ((λ e, (key NsAPIKey e.1, DAPIKey e.2)) <$> l) t).1 in
  (∃ h k, (h, k) ∈ l ∧ ak_ID k = id ∧ res = key NsAPIKey h) ∨ (res = t ∧ ∀ h k, (h, k) ∈ l → ak_ID k ≠ id).
Proof.
  revert t. induction l as [|[h k] l IH]; intros t.
  { right. split; [done|]. by intros h k ?%elem_of_nil. }
  rewrite fmap_cons. cbn [scan_loop fst snd].
  change (find_key id (key NsAPIKey h) (DAPIKey k) t) with
    (@inl bytes Empty_set (if decide (ak_ID k = id) then key NsAPIKey h else t)). cbv iota.
  set (t' := if decide (ak_ID k = id) then _ else _). specialize (IH t').
  destruct IH as [(h' & k' & Hin & Hid & ->)|[-> Hno]].
  { left. exists h', k'. split; [by right|done]. }
  unfold t'. case_decide as Hid.
  - left. exists h, k. split; [by left|done].
  - right. split; [done|]. intros h' k' [[= -> ->]|Hin]%elem_of_cons; [done|by eapply Hno].
Qed.

(** Revoke takes one key of the ID out, or reports that there is none. *)
Lemma Revoke_spec (id : bytes) (s : MessageStore) (m : keys) : collection s m →
  (∃ h k, m !! h = Some k ∧ ak_ID k = id ∧ keys_Revoke id s = (None, DeleteKey (api_key_key h) s)) ∨
  ((∀ h k, m !! h = Some k → ak_ID k ≠ id) ∧ keys_Revoke id s = (Some (KeyNotFound id), s)).
Proof.
  intros Hm. unfold keys_Revoke. change (str "apikey:") with (ns_prefix (rec_ns APIKey)).
  rewrite (scan_collection _ _ s m Hm). cbn [rec_ns rec_doc api_key_Stored].
  destruct (find_key_scan id (entries m) []) as [(h & k & Hin & Hid & ->)|[-> Hno]].
  - left. exists h, k. apply entries_elem in Hin. split; [done|]. split; [done|].
    rewrite decide_False; [done|]. unfold key. by intros [? _]%app_nil.
  - right. split; [|done]. intros h k Hk. apply (Hno h). by apply entries_elem.
Qed.

Lemma api_key_hash_inj a b : api_key_hash a = api_key_hash b → sha256 a = sha256 b.
Proof. apply hex_encode_inj; apply sha256_shape. Qed.

Lemma plain_ascii p bs : bool_decide (ascii_text p) = true → bytes_ok bs → json_string (p ++ hex_encode bs) = p ++ hex_encode bs.
Proof.
  intros Hp%bool_decide_eq_true Hb. apply json_string_ascii, ascii_app. split; [done|].
  eapply Forall_impl; [by apply hex_encode_ascii|]. unfold ascii. cbn. lia.
Qed.

(** The key [k] is stored, up to its last use, and is the only one with its ID. *)
Definition alive (h : bytes) (k : APIKey) (s : MessageStore) : Prop :=
  ∃ m, collection s m ∧ (∃ k', m !! h = Some k' ∧ ak_used k' 0 = ak_used k 0) ∧
    ∀ h' k', m !! h' = Some k' → h' ≠ h → json_string (ak_ID k') = ak_ID k' ∧ ak_ID k' ≠ ak_ID k.
Definition dead (h : bytes) (s : MessageStore) : Prop := ∃ m : keys, collection s m ∧ m !! h = None.

(** The strings of the key are as JSON keeps them. *)
Definition settled (k : APIKey) : Prop :=
  json_string (ak_ID k) = ak_ID k ∧ json_string (ak_KeyHash k) = ak_KeyHash k ∧ json_string (ak_Label k) = ak_Label k.

Lemma used_fields k k' : ak_used k' 0 = ak_used k 0 →
  ak_ID k' = ak_ID k ∧ ak_KeyHash k' = ak_KeyHash k ∧ ak_Label k' = ak_Label k ∧
  ak_RateLimit k' = ak_RateLimit k ∧ ak_CreatedAt k' = ak_CreatedAt k.
Proof. destruct k, k'. unfold ak_used. cbn. by intros [= -> -> -> -> ->]. Qed.
Lemma used_again k k' now : ak_used k' 0 = ak_used k 0 → ak_used k' now = ak_used k now.
Proof. intros (E1 & E2 & E3 & E4 & E5)%used_fields. unfold ak_used. by rewrite E1, E2, E3, E4, E5. Qed.

(** What a request does to the keys: it notes the use of the one it names. *)
Lemma request_store (now : Z) (auth : bytes) (s : MessageStore) (m : keys) : collection s m →
  (APIKeyAuthMiddleware now auth s).2 = s ∨
  ∃ h k, m !! h = Some k ∧ (APIKeyAuthMiddleware now auth s).2 = SetJSON (api_key_key h) (json_api_key (ak_used k now)) s.
Proof.
  intros Hm. unfold APIKeyAuthMiddleware, keys_Validate. destruct (bearer auth) as [t|]; [|by left].
  rewrite (api_key_get s m) by done. destruct (m !! _) as [k|] eqn:Hk; [right; eauto|by left].
Qed.

Lemma collection_elsewhere (f : MessageStore → MessageStore) (s : MessageStore) (m : keys) :
  (∀ s x, kv_get (st_db (f s)) (key NsAPIKey x) = kv_get (st_db s) (key NsAPIKey x)) → collection s m → collection (f s) m.
Proof. intros Hf Hm x. change (rec_ns APIKey) with NsAPIKey. rewrite Hf. apply Hm. Qed.

Lemma alive_passes h k token now s : alive h k s → api_key_hash token = h →
  (APIKeyAuthMiddleware now (str "Bearer " ++ token) s).1 = Passed (ak_used k now).
Proof.
  intros (m & Hm & (k' & Hk & Hu) & _) <-. by rewrite (middleware_spec _ _ _ _ Hm), Hk, (used_again k k').
Qed.
Lemma dead_fails h token now s : dead h s → api_key_hash token = h →
  (APIKeyAuthMiddleware now (str "Bearer " ++ token) s).1 = Refused (str "invalid API key").
Proof. intros (m & Hm & Hk) <-. by rewrite (middleware_spec _ _ _ _ Hm), Hk. Qed.

Lemma created_id idBytes : bytes_ok idBytes → json_string (str "key_" ++ hex_encode idBytes) = str "key_" ++ hex_encode idBytes.
Proof. intros Hb. apply plain_ascii; [by vm_compute|done]. Qed.

(** Noting a use, of the key or of another one. *)
Lemma alive_used h k h' k' now s m : settled k → alive h k s → collection s m → m !! h' = Some k' →
  alive h k (SetJSON (api_key_key h') (json_api_key (ak_used k' now)) s).
Proof.
  intros (J1 & J2 & J3) (m' & Hm' & (k0 & Hk0 & E) & Hu) Hm Hk'.
  assert (m' !! h' = Some k') as Hk1.
  { pose proof (api_key_get s m h' Hm) as G1. rewrite (api_key_get s m' h' Hm'), Hk' in G1. by destruct (m' !! h'); simplify_eq. }
  exists (<[h' := json_key (ak_used k' now)]> m'). split; [by apply api_key_set|].
  destruct (decide (h' = h)) as [->|Hne].
  - rewrite Hk0 in Hk1. injection Hk1 as <-. destruct (used_fields _ _ E) as (E1 & E2 & E3 & E4 & E5).
    rewrite lookup_insert_eq. split.
    + eexists. split; [done|]. unfold json_key, ak_used. cbn -[json_string]. by rewrite E1, E2, E3, E4, E5, J1, J2, J3.
    + intros h2 k2 [[<- <-]|[Hn H2]]%lookup_insert_Some Hi; [done|by eapply Hu].
  - rewrite lookup_insert_ne by done. split; [eauto|].
    intros h2 k2 [[<- <-]|[Hn H2]]%lookup_insert_Some Hi; [|by eapply Hu].
    destruct (Hu _ _ Hk1 Hne) as [Hj Hi']. unfold json_key, ak_used. cbn -[json_string]. by rewrite !Hj.
Qed.

(** The other operations keep the key. *)
Lemma alive_do plain k o s : settled k →
  other_hash plain o → other_id (ak_ID k) o → alive (api_key_hash plain) k s → alive (api_key_hash plain) k (key_do s o).
Proof.
  intros Hk Hh Hi Ha. pose proof Ha as (m & Hm & (k0 & Hk0 & E) & Hu).
  destruct o as [rnd idBytes now label rl|now auth|id|f]; cbn [key_do].
  - destruct Hi as [Hb Hi]. unfold keys_Create. cbn [snd]. set (k' := mkAPIKey _ _ _ _ _ _).
    assert (api_key_hash (str "sk_live_" ++ hex_encode rnd) ≠ api_key_hash plain) as Hne
      by (intros He; apply Hh; by apply api_key_hash_inj).
    eexists. split; [by apply api_key_set|]. rewrite lookup_insert_ne by done. split; [eauto|].
    intros h2 k2 [[<- <-]|[Hn H2]]%lookup_insert_Some Hni; [|by eapply Hu].
    unfold json_key, k'. cbn -[json_string hex_encode str]. by rewrite !created_id.
  - destruct (request_store now auth s m Hm) as [->|(h' & k' & Hk' & ->)]; [done|by eapply alive_used].
  - destruct (Revoke_spec id s m Hm) as [(h' & k' & Hk' & Hid & ->)|[_ ->]]; [|done]. cbn [snd].
    assert (h' ≠ api_key_hash plain) as Hne.
    { intros ->. rewrite Hk0 in Hk'. injection Hk' as ->. apply Hi. by rewrite <-Hid, (proj1 (used_fields _ _ E)). }
    exists (delete h' m). split; [by apply api_key_delete|]. rewrite lookup_delete_ne by done. split; [eauto|].
    intros h2 k2 [_ H2]%lookup_delete_Some. by apply Hu.
  - exists m. split; [by apply collection_elsewhere|eauto].
Qed.

Lemma dead_do plain o s : other_hash plain o → dead (api_key_hash plain) s → dead (api_key_hash plain) (key_do s o).
Proof.
  intros Hh (m & Hm & Hk). destruct o as [rnd idBytes now label rl|now auth|id|f]; cbn [key_do].
  - unfold keys_Create. cbn [snd]. eexists. split; [by apply api_key_set|]. rewrite lookup_insert_ne; [done|].
    intros He. apply Hh. by apply api_key_hash_inj.
  - destruct (request_store now auth s m Hm) as [->|(h' & k' & Hk' & ->)]; [by exists m|].
    eexists. split; [by apply api_key_set|]. rewrite lookup_insert_ne; [done|]. intros ->. by rewrite Hk in Hk'.
  - destruct (Revoke_spec id s m Hm) as [(h' & k' & Hk' & Hid & ->)|[_ ->]]; [|by exists m]. cbn [snd].
    exists (delete h' m). split; [by apply api_key_delete|]. by apply lookup_delete_None; right.
  - exists m. split; [by apply collection_elsewhere|done].
Qed.

Lemma alive_run plain k ops s : settled k → Forall (λ o, other_hash plain o ∧ other_id (ak_ID k) o) ops →
  alive (api_key_hash plain) k s → alive (api_key_hash plain) k (key_run ops s).
Proof.
  intros Hk Ho. revert s. induction Ho as [|o ops [H1' H2'] _ IH]; intros s Ha; [done|].
  apply IH. by apply alive_do.
Qed.
Lemma dead_run plain ops s : Forall (other_hash plain) ops →
  dead (api_key_hash plain) s → dead (api_key_hash plain) (key_run ops s).
Proof. intros Ho. revert s. induction Ho as [|o ops H1' _ IH]; intros s Ha; [done|]. apply IH. by apply dead_do. Qed.

(** Revoking takes the key out, and no other. *)
Lemma alive_revoke h k s : alive h k s →
  keys_Revoke (ak_ID k) s = (None, DeleteKey (api_key_key h) s) ∧ dead h (DeleteKey (api_key_key h) s).
Proof.
  intros (m & Hm & (k0 & Hk0 & E) & Hu). destruct (used_fields _ _ E) as [E1 _].
  destruct (Revoke_spec (ak_ID k) s m Hm) as [(h' & k' & Hk' & Hid & Er)|[Hno _]]; [|by destruct (Hno h k0 Hk0)].
  destruct (decide (h' = h)) as [->|Hne]; [|by destruct (Hu h' k' Hk' Hne)].
  split; [done|]. exists (delete h m). split; [by apply api_key_delete|apply lookup_delete_eq].
Qed.

(** The new key is alive. *)
Lemma created_alive rnd idBytes now label rl s m : collection s m → bytes_ok idBytes → bytes_ok label →
  (∀ h k, m !! h = Some k → json_string (ak_ID k) = ak_ID k ∧ ak_ID k ≠ str "key_" ++ hex_encode idBytes) →
  let '(plain, s1) := keys_Create rnd idBytes now label rl s in
  let k := mkAPIKey (str "key_" ++ hex_encode idBytes) (api_key_hash plain) (json_string label) rl now zero_time in
  settled k ∧ alive (api_key_hash plain) k s1.
Proof.
  intros Hm Hb Hl Hnew. unfold keys_Create. set (plain := str "sk_live_" ++ hex_encode rnd). cbv zeta.
  assert (json_string (api_key_hash plain) = api_key_hash plain) as Hh
    by (apply (plain_ascii []); [by vm_compute|apply sha256_shape]).
  split; [split_and!; [by apply created_id|exact Hh|by apply json_string_idem]|].
  eexists. split; [by apply api_key_set|]. rewrite lookup_insert_eq. split.
  - eexists. split; [done|]. unfold json_key, ak_used. cbn -[json_string hex_encode str api_key_hash].
    by rewrite created_id, Hh by done.
  - intros h' k' [[<- <-]|[Hn H2]]%lookup_insert_Some Hni; [done|by eapply Hnew].
Qed.

(** A revoked key that returns: a request has read the record before the key is revoked
    and writes its last use afterwards; [keys_Validate] does both without a lock. *)
Theorem revoked_key_returns (token : bytes) (now now' : Z) (s : MessageStore) (m : keys) (k : APIKey) :
  collection s m → m !! api_key_hash token = Some k →
  (∀ h' k', m !! h' = Some k' → ak_ID k' = ak_ID k → h' = api_key_hash token) →
  GetJSON un_api_key (api_key_key (api_key_hash token)) s = Got k ∧
  let '(err, s1) := keys_Revoke (ak_ID k) s in
  err = None ∧ (APIKeyAuthMiddleware now' (str "Bearer " ++ token) s1).1 = Refused (str "invalid API key") ∧
  let s2 := SetJSON (api_key_key (api_key_hash token)) (json_api_key (ak_used k now)) s1 in
  (APIKeyAuthMiddleware now' (str "Bearer " ++ token) s2).1 = Passed (ak_used (json_key k) now').
Proof.
  intros Hm Hk Hu. split; [by rewrite (api_key_get s m), Hk|].
  destruct (Revoke_spec (ak_ID k) s m Hm) as [(h' & k' & Hk' & Hid & ->)|[Hno _]]; [|by destruct (Hno _ _ Hk)].
  rewrite (Hu h' k' Hk' Hid). pose proof (api_key_delete s m (api_key_hash token) Hm) as Hm1.
  split; [done|]. split; [by rewrite (middleware_spec _ _ _ _ Hm1), lookup_delete_eq|].
  cbv zeta. pose proof (api_key_set _ _ (api_key_hash token) (ak_used k now) Hm1) as Hm2.
  by rewrite (middleware_spec _ _ _ _ Hm2), lookup_insert_eq.
Qed.

(** C24: the life of an API key.  The key that Create returns passes the REST API's
    authentication with its ID, label and rate limit, however often it and other headers are
    presented and whatever other keys are created and revoked in between, until it is
    revoked by its ID; from then on it fails, whatever follows.  The listing shows no
    hash; creating, using or revoking the key leaves the answer for a token with another
    hash as it was; what is not a "Bearer" header fails.  The ID has 32 random bits and
    the key 128: no other key has the ID while this one lives, and none the hash. *)
Theorem api_key_lifecycle (rnd idBytes : bytes) (now now' : Z) (label : bytes) (rateLimit : Z) (token : bytes)
    (ops ops' : list key_op) (s : MessageStore) (m : keys) :
  collection s m → bytes_ok idBytes → bytes_ok label →
  (∀ h k, m !! h = Some k → json_string (ak_ID k) = ak_ID k ∧ ak_ID k ≠ str "key_" ++ hex_encode idBytes) →
  let '(plain, s1) := keys_Create rnd idBytes now label rateLimit s in
  let id := str "key_" ++ hex_encode idBytes in
  let passes t s := (APIKeyAuthMiddleware now' (str "Bearer " ++ t) s).1 in
  Forall (λ o, other_hash plain o ∧ other_id id o) ops → Forall (other_hash plain) ops' →
  let s2 := key_run ops s1 in
  passes plain s2 = Passed (mkAPIKey id (api_key_hash plain) (json_string label) rateLimit now now') ∧
  (let '(err, s3) := keys_Revoke id s2 in
   err = None ∧ passes plain (key_run ops' s3) = Refused (str "invalid API key") ∧
   (sha256 token ≠ sha256 plain → passes token s3 = passes token s2)) ∧
  (sha256 token ≠ sha256 plain → passes token s1 = passes token s ∧
     ∀ t, passes token (APIKeyAuthMiddleware t (str "Bearer " ++ plain) s2).2 = passes token s2) ∧
  (∀ k, k ∈ keys_List s2 → ak_KeyHash k = []) ∧
  ∀ auth, bearer auth = None → APIKeyAuthMiddleware now' auth s2 = (Refused (str "missing or invalid Authorization header"), s2).
Proof.
  intros Hm Hb Hl Hnew. pose proof (created_alive rnd idBytes now label rateLimit s m Hm Hb Hl Hnew) as Ha.
  assert (∃ s1, keys_Create rnd idBytes now label rateLimit s = (str "sk_live_" ++ hex_encode rnd, s1) ∧
    ∃ k0, s1 = SetJSON (api_key_key (api_key_hash (str "sk_live_" ++ hex_encode rnd))) (json_api_key k0) s) as (s1 & E & k0 & E1)
    by (unfold keys_Create; eauto).
  rewrite E in *. clear E. set (plain := str "sk_live_" ++ _) in *. cbv zeta in *.
  set (k := mkAPIKey _ (api_key_hash plain) _ _ _ _) in *. destruct Ha as [Hk Ha]. intros Ho Ho'.
  pose proof (alive_run plain k ops s1 Hk Ho Ha) as Ha2. set (s2 := key_run ops s1) in *.
  change (str "key_" ++ hex_encode idBytes) with (ak_ID k).
  destruct (alive_revoke _ _ _ Ha2) as [-> Hd]. pose proof Ha2 as (m2 & Hm2 & (k2 & Hk2 & Hu2) & _).
  assert (sha256 token ≠ sha256 plain → api_key_hash plain ≠ api_key_hash token) as Hne
    by (intros Ht He; apply Ht; symmetry; by apply api_key_hash_inj).
  split_and!.
  - by apply (alive_passes _ _ _ _ _ Ha2).
  - done.
  - by apply (dead_fails (api_key_hash plain)); [apply dead_run|].
  - intros Ht. rewrite (middleware_spec _ _ _ _ (api_key_delete _ _ _ Hm2)), (middleware_spec _ _ _ _ Hm2).
    by rewrite lookup_delete_ne by auto.
  - intros Ht. split.
    + rewrite E1, (middleware_spec _ _ _ _ (api_key_set _ _ _ _ Hm)), (middleware_spec _ _ _ _ Hm).
      by rewrite lookup_insert_ne by auto.
    + intros t. rewrite (middleware_spec _ _ _ _ Hm2). unfold APIKeyAuthMiddleware at 2. unfold bearer. rewrite cut_prefix_app.
      unfold keys_Validate. rewrite (api_key_get s2 m2), Hk2 by done. cbn [snd].
      rewrite (middleware_spec _ _ _ _ (api_key_set _ _ _ _ Hm2)). by rewrite lookup_insert_ne by auto.
  - intros k' Hk'. unfold keys_List in Hk'. change (str "apikey:") with (ns_prefix (rec_ns APIKey)) in Hk'.
    rewrite (scan_list ak_hide s2 _ Hm2) in Hk'. cbn [fst] in Hk'. by apply list_elem_of_fmap in Hk' as (k1 & -> & _).
  - intros auth Hn. unfold APIKeyAuthMiddleware. by rewrite Hn.
Qed.

End api_key_props.

(** ** Admin users *)

Section admin_props.
Context {DB : Type} `{!KV DB, !KVLaws DB} `{!Bcrypt}.

Abbreviation MessageStore := (MessageStore (DB := DB)).
Abbreviation users := (gmap bytes AdminUser).

Definition json_admin (u : AdminUser) : AdminUser := match json_user u with DUser u => u | _ => u end.

Lemma user_get (s : MessageStore) (m : users) (n : bytes) : collection s m →
  GetJSON un_user (user_key n) s = match m !! n with Some u => Got u | None => GotNone end.
Proof. exact (get_collection (A := AdminUser) s m n). Qed.
Lemma user_set (s : MessageStore) (m : users) (n : bytes) (u : AdminUser) : collection s m →
  collection (SetJSON (user_key n) (json_user u) s) (<[n := json_admin u]> m).
Proof. exact (collection_set (A := AdminUser) s m n (json_admin u)). Qed.
Lemma user_delete (s : MessageStore) (m : users) (n : bytes) : collection s m →
  collection (users_Delete n s) (delete n m).
Proof. exact (collection_delete (A := AdminUser) s m n). Qed.

(** A header made of a token. *)
Lemma bearer_token token : bearer (str "Bearer " ++ token) = Some token.
Proof. apply cut_prefix_app. Qed.

(** The two signed parts of a token. *)
Definition signing_input (username role : bytes) (now : Z) : bytes :=
  base64URLEncode jwt_header ++ str "." ++
  base64URLEncode (marshal_claims (mkClaims username role (Unix (now + 86400 * Second)) (Unix now))).

Lemma json_quote_ok s : bytes_ok s → bytes_ok (json_quote s).
Proof.
  intros Hs. unfold json_quote. apply bytes_ok_app_2; [by repeat constructor|].
  apply bytes_ok_app_2; [|by repeat constructor]. revert s Hs.
  apply (string_ind (λ s, bytes_ok (quote_loop (length s) s))); [constructor|].
  intros s r sz Hs Hne E IH. rewrite (quote_loop_step s r sz) by done. apply bytes_ok_app_2; [|done].
  pose proof (DecodeRune_chunk s r sz Hs Hne E) as Hc. unfold quote_rune.
  assert (∀ u, bytes_ok (unicode_escape u)) as Hu.
  { intros u. unfold unicode_escape. repeat constructor; unfold byte_ok; try lia.
    all: match goal with |- context [hex_char ?n] =>
      assert (0 <= n < 16) as Hn by (apply Z.mod_pos_bound; lia); pose proof (hex_char_ascii n Hn); lia end. }
  repeat case_decide; try apply Hu; try (by apply bytes_ok_take); repeat constructor; unfold byte_ok; lia.
Qed.

Lemma itoa_ok n : 0 <= n → bytes_ok (itoa n).
Proof. intros Hn. destruct (itoa_digits n Hn) as [_ Hd]. eapply Forall_impl; [exact Hd|]. unfold byte_ok. cbn. lia. Qed.

Lemma json_members_ok fs : Forall (λ f, bytes_ok f.1 ∧ bytes_ok f.2) fs → bytes_ok (json_members fs).
Proof.
  induction 1 as [|[k v] fs [Hk Hv] Hf IH]; [by repeat constructor|]. cbn [json_members]. cbn [fst snd] in *.
  constructor; [by unfold byte_ok|]. apply bytes_ok_app_2; [done|]. constructor; [by unfold byte_ok|].
  constructor; [by unfold byte_ok|]. apply bytes_ok_app_2; [done|]. destruct fs; repeat constructor; done.
Qed.

Lemma jwt_header_ok : bytes_ok jwt_header.
Proof. apply (bool_decide_unpack _). by vm_compute. Qed.

Lemma marshal_claims_ok c : claims_ok c → bytes_ok (marshal_claims c).
Proof.
  intros (Hs & Hr & He & Hi). constructor; [by unfold byte_ok|]. apply json_members_ok.
  repeat (apply Forall_cons; split; [split; cbn [fst snd];
    first [apply str_ok | by apply json_quote_ok | apply itoa_ok; lia]|]). constructor.
Qed.

Lemma b64_no_dot bs : bytes_ok bs → 46 ∉ b64_encode bs.
Proof. intros Hb Hin. pose proof (b64_encode_plain bs Hb) as Hp. rewrite Forall_forall in Hp. by destruct (Hp 46 Hin). Qed.

(** The validation of a token that generateJWT made. *)
Lemma ValidateJWT_generate secret username role now now' (s : MessageStore) :
  claims_ok (mkClaims username role (Unix (now + 86400 * Second)) (Unix now)) →
  ValidateJWT secret now' (generateJWT secret username role now) s =
  if decide (Unix (now + 86400 * Second) < Unix now') then inr TokenExpired
  else match GetJSON un_user (user_key (json_string username)) s with Got u => inl u | _ => inr UserGone end.
Proof.
  intros Hc. unfold generateJWT. cbv zeta. set (c := mkClaims _ _ _ _) in *.
  set (sig := hmac_sha256 _ _). unfold base64URLEncode. unfold ValidateJWT.
  rewrite <-!app_assoc. cbn [app]. change (str ".") with [46]. cbn [app].
  rewrite split_dots_app by apply b64_no_dot, jwt_header_ok.
  rewrite split_dots_app by by apply b64_no_dot, marshal_claims_ok.
  rewrite split_dots_plain by apply b64_no_dot, hmac_shape. unfold base64URLDecode.
  rewrite b64_decode_encode by apply hmac_shape. unfold sig. change (str ".") with [46]. cbn [app].
  rewrite decide_False by (intros Hn; by apply Hn). rewrite b64_decode_encode by by apply marshal_claims_ok.
  by rewrite unmarshal_marshal by done.
Qed.

(** C25: a login.  The user that Create has made logs in with the password and gets a
    token; for 24 hours the token passes the admin API's authentication as that user,
    after that it is refused, and as soon as the user is deleted it is refused too.
    What bcrypt does not accept gives no token. *)
Theorem admin_login `{!BcryptLaws} (secret salt : bytes) (created now now' : Z) (username password role wrong : bytes)
    (s s1 : MessageStore) (m : users) :
  collection s m → json_string username = username → bytes_ok username → bytes_ok role →
  0 <= now → Unix (now + 86400 * Second) < 2 ^ 63 →
  users_Create salt created username password role s = (None, s1) →
  ∃ token hash, users_Authenticate secret now username password s1 = inl token ∧
    let user := mkAdminUser username hash (json_string role) created false in
    let answer s := AdminAuthMiddleware secret now' (str "Bearer " ++ token) s in
    answer s1 = (if decide (Unix now' <= Unix (now + 86400 * Second)) then Passed user else Refused (str "invalid or expired token")) ∧
    answer (users_Delete username s1) = Refused (str "invalid or expired token") ∧
    (bcrypt_compare hash wrong = false → users_Authenticate secret now username wrong s1 = inr InvalidCredentials).
Proof.
  intros Hm Hj Hu Hr Hnow Hexp Hc. unfold users_Create in Hc.
  destruct (bcrypt_generate salt password) as [hash|] eqn:Eh; [|done]. injection Hc as <-.
  pose proof (user_set s m username (mkAdminUser username hash role created false) Hm) as Hm1.
  set (s1 := SetJSON _ _ s) in *. clearbody s1.
  assert (json_string hash = hash) as Hjh by by eapply json_string_ascii, bcrypt_ascii.
  assert (json_admin (mkAdminUser username hash role created false) = mkAdminUser username hash (json_string role) created false) as E.
  { unfold json_admin. cbn [json_user au_Username au_PasswordHash au_Role au_CreatedAt au_MustChange]. by rewrite Hj, Hjh. }
  rewrite E in Hm1. clear E.
  assert (claims_ok (mkClaims username (json_string role) (Unix (now + 86400 * Second)) (Unix now))) as Hcl.
  { split; [done|]. split; [apply string_of_runes_ok|]. cbn [jc_Exp jc_Iat]. unfold Unix in *.
    pose proof (Z.div_pos now Second Hnow ltac:(unfold Second; lia)).
    pose proof (Z.div_le_mono now (now + 86400 * Second) Second ltac:(unfold Second; lia) ltac:(unfold Second; lia)). lia. }
  exists (generateJWT secret username (json_string role) now), hash. cbv zeta. split_and!.
  - unfold users_Authenticate. rewrite (user_get s1 _ username Hm1), lookup_insert_eq.
    cbn [au_PasswordHash au_Username au_Role]. by rewrite (bcrypt_correct salt password hash Eh).
  - unfold AdminAuthMiddleware. rewrite bearer_token, ValidateJWT_generate by done.
    rewrite Hj, (user_get s1 _ username Hm1), lookup_insert_eq. by repeat case_decide; try lia.
  - unfold AdminAuthMiddleware. rewrite bearer_token, ValidateJWT_generate by done.
    rewrite Hj, (user_get _ _ username (user_delete _ _ username Hm1)), lookup_delete_eq. by case_decide.
  - intros Hw. unfold users_Authenticate. rewrite (user_get s1 _ username Hm1), lookup_insert_eq.
    cbn [au_PasswordHash]. by rewrite Hw.
Qed.

(** C22: a token needs the secret.  Whatever is accepted, whatever algorithm its header
    names, has as its third part the HMAC-SHA256, under the secret, of the first two;
    its claims have not expired and name a user of the store.  So a token with the
    signature of a generated one and other content is an HMAC collision. *)
Theorem token_needs_secret (secret : bytes) (now : Z) (token : bytes) (s : MessageStore) (user : AdminUser) :
  ValidateJWT secret now token s = inl user →
  ∃ p0 p1 p2 claims, token = p0 ++ str "." ++ p1 ++ str "." ++ p2 ∧
    let signed := p0 ++ str "." ++ p1 in
    base64URLDecode p2 = Some (hmac_sha256 secret signed) ∧
    (base64URLDecode p1 ≫= unmarshal_claims) = Some claims ∧ Unix now <= jc_Exp claims ∧
    GetJSON un_user (user_key (jc_Sub claims)) s = Got user ∧
    ∀ username role t, p2 = base64URLEncode (hmac_sha256 secret (signing_input username role t)) →
      hmac_sha256 secret signed = hmac_sha256 secret (signing_input username role t).
Proof.
  intros Hv. unfold ValidateJWT in Hv. pose proof (join_split_dots token) as Hj.
  destruct (split_dots token) as [|p0 [|p1 [|p2 [|p3 ps]]]]; try done. cbn [join_dots] in Hj.
  destruct (base64URLDecode p2) as [sig|] eqn:E2; [|done]. case_decide as Hs; [done|].
  destruct (base64URLDecode p1) as [js|] eqn:E1; [|done].
  destruct (unmarshal_claims js) as [claims|] eqn:Ec; [|done]. case_decide as He; [done|].
  destruct (GetJSON un_user _ s) as [u| |] eqn:Eu; [|done..]. injection Hv as ->.
  exists p0, p1, p2, claims. cbv zeta. split_and!; try done.
  - by rewrite E2, Hs.
  - by rewrite E1.
  - lia.
  - intros username role t Hp. subst p2. unfold base64URLDecode, base64URLEncode in E2.
    rewrite b64_decode_encode in E2 by apply hmac_shape. injection E2 as <-. exact Hs.
Qed.

(** What the operations promise, on the map from names to users. *)
Definition spec_ChangePassword (salt username oldPass newPass : bytes) (m : users) : option auth_err * users :=
  match m !! username with
  | None => (Some UserNotFound, m)
  | Some u =>
      if bcrypt_compare (au_PasswordHash u) oldPass then
        match bcrypt_generate salt newPass with
        | Some hash => (None, <[username := json_admin (mkAdminUser (au_Username u) hash (au_Role u) (au_CreatedAt u) false)]> m)
        | None => (Some BcryptFailed, m)
        end
      else (Some WrongPassword, m)
  end.

Definition spec_NewUser (salt : bytes) (now : Z) (username password role : bytes) (mustChange : bool) (m : users) :
    option auth_err * users :=
  match bcrypt_generate salt password with
  | Some hash => (None, <[username := json_admin (mkAdminUser username hash role now mustChange)]> m)
  | None => (Some BcryptFailed, m)
  end.

Lemma note_user_scan (l : list (bytes * doc)) b :
  (scan_loop note_user l b).1 = (b || negb (bool_decide (l = []))).
Proof.
  revert b. induction l as [|[k v] l IH]; intros b; cbn; [by rewrite orb_false_r|]. rewrite IH. by destruct b.
Qed.

Lemma no_user_scan (s : MessageStore) (m : users) : collection s m →
  (ScanPrefix (str "user:") note_user false s).1 = negb (bool_decide (m = ∅)).
Proof.
  intros Hm. change (str "user:") with (ns_prefix (rec_ns AdminUser)). rewrite (scan_collection _ _ s m Hm), note_user_scan.
  cbn [orb]. f_equal. apply bool_decide_ext. split.
  - intros Hl%fmap_nil_inv. apply map_eq. intros n. rewrite lookup_empty. apply eq_None_not_Some. intros [u Hu].
    apply entries_elem in Hu. rewrite Hl in Hu. by apply elem_of_nil in Hu.
  - intros ->. done.
Qed.

(** The user store is a map.  Create adds or replaces a user, ChangePassword replaces
    the hash of one whose old password is right, both unless bcrypt refuses, and change
    nothing otherwise; Bootstrap creates "admin" exactly when there is nobody; Delete
    removes; List gives all users in the order of their names, without hashes.  No other
    kind of record is touched. *)
Theorem AdminUsers_refine_map (salt rnd : bytes) (now : Z) (username oldPass newPass role : bytes)
    (s : MessageStore) (m : users) :
  collection s m →
  (let '(err, s') := users_Create salt now username newPass role s in
   let '(err', m') := spec_NewUser salt now username newPass role false m in
   err = err' ∧ collection s' m' ∧ others_kept NsUser s s') ∧
  (let '(err, s') := users_ChangePassword salt username oldPass newPass s in
   let '(err', m') := spec_ChangePassword salt username oldPass newPass m in
   err = err' ∧ collection s' m' ∧ others_kept NsUser s s') ∧
  (let '(err, s') := users_Bootstrap rnd salt now s in
   let '(err', m') :=
     if decide (m = ∅) then spec_NewUser salt now (str "admin") (hex_encode rnd) (str "admin") true m else (None, m) in
   err = err' ∧ collection s' m' ∧ others_kept NsUser s s') ∧
  (collection (users_Delete username s) (delete username m) ∧ others_kept NsUser s (users_Delete username s)) ∧
  users_List s = au_hide <$> (entries m).*2.
Proof.
  intros Hm. split_and!.
  - unfold users_Create, spec_NewUser. destruct (bcrypt_generate salt newPass) as [h|]; [|done].
    split; [done|]. split; [by apply user_set|apply others_kept_set].
  - unfold users_ChangePassword, spec_ChangePassword. rewrite (user_get s m) by done.
    destruct (m !! username) as [u|]; [|done]. destruct (bcrypt_compare _ oldPass); [|done]. cbn [negb].
    destruct (bcrypt_generate salt newPass) as [h|]; [|done].
    split; [done|]. split; [by apply user_set|apply others_kept_set].
  - unfold users_Bootstrap. rewrite (no_user_scan s m) by done. case_decide as He.
    + rewrite bool_decide_true by done. cbn [negb]. unfold spec_NewUser.
      destruct (bcrypt_generate salt (hex_encode rnd)) as [h|]; [|done].
      split; [done|]. split; [by apply user_set|apply others_kept_set].
    + by rewrite bool_decide_false by done.
  - by apply user_delete.
  - apply others_kept_delete.
  - unfold users_List. change (str "user:") with (ns_prefix (rec_ns AdminUser)). by rewrite (scan_list _ s m).
Qed.

End admin_props.

(** ** Examples *)

Definition ex_key := keys_Create [1; 2; 3; 4; 5; 6; 7; 8; 9; 10; 11; 12; 13; 14; 15; 16] [1; 2; 3; 4] 5 (str "app") 10 ex_empty.

(** What happens before the key is revoked: it is used twice, another is made and one
    that does not exist revoked; and afterwards. *)
Definition ex_before : list (key_op (DB := gmap bytes doc)) :=
  [KRequest 6 (str "Bearer " ++ ex_key.1); KCreate [7] [9; 9; 9; 9] 6 (str "other") 1;
   KRevoke (str "key_00000000"); KRequest 7 (str "Bearer " ++ ex_key.1); KElsewhere (λ s, s)].
Definition ex_after : list (key_op (DB := gmap bytes doc)) :=
  [KRequest 8 (str "Bearer " ++ ex_key.1); KRevoke (str "key_09090909")].

Lemma api_key_lifecycle_witness :
  collection ex_empty (∅ : gmap bytes APIKey) ∧
  let s2 := key_run ex_before ex_key.2 in
  (∃ k, (APIKeyAuthMiddleware 9 (str "Bearer " ++ ex_key.1) s2).1 = Passed k ∧ ak_Label k = str "app") ∧
  (APIKeyAuthMiddleware 9 (str "Bearer " ++ ex_key.1) (key_run ex_after (keys_Revoke (str "key_01020304") s2).2)).1 =
    Refused (str "invalid API key").
Proof.
  split; [apply ex_empty_collection|].
  assert (bytes_ok [1; 2; 3; 4]) as Hb by (apply (bool_decide_unpack _); by vm_compute).
  assert (bytes_ok (str "app")) as Hl by (apply (bool_decide_unpack _); by vm_compute).
  pose proof (api_key_lifecycle [1; 2; 3; 4; 5; 6; 7; 8; 9; 10; 11; 12; 13; 14; 15; 16] [1; 2; 3; 4] 5 9 (str "app") 10 []
    ex_before ex_after ex_empty ∅ ex_empty_collection Hb Hl
    ltac:(intros h k Hk; by rewrite lookup_empty in Hk)) as H.
  change (keys_Create _ _ _ _ _ ex_empty) with (ex_key.1, ex_key.2) in H. cbv zeta iota in H.
  change (str "key_" ++ hex_encode [1; 2; 3; 4]) with (str "key_01020304") in H.
  assert (sha256 (str "sk_live_" ++ hex_encode [7]) ≠ sha256 ex_key.1) as Hh by (vm_compute; congruence).
  assert (bytes_ok [9; 9; 9; 9] ∧ str "key_" ++ hex_encode [9; 9; 9; 9] ≠ str "key_01020304") as Hi
    by (split; [apply (bool_decide_unpack _); by vm_compute|vm_compute; congruence]).
  destruct H as (Hp & Hr & _).
  - repeat constructor; try exact Hh; try apply Hi; done.
  - by repeat constructor.
  - cbv zeta. split; [eexists; split; [exact Hp|by vm_compute]|]. revert Hr.
    destruct (keys_Revoke _ _) as [err s3]. intros (_ & Hr & _). exact Hr.
Defined.

Definition ex_user := @users_Create _ _ plain_Bcrypt [] 5 (str "ann") (str "secret") (str "admin") ex_empty.

Lemma admin_login_witness :
  ∃ token, @users_Authenticate _ _ plain_Bcrypt (str "k") (7 * Second) (str "ann") (str "secret") ex_user.2 = inl token ∧
    AdminAuthMiddleware (str "k") (8 * Second) (str "Bearer " ++ token) (users_Delete (str "ann") ex_user.2) = Refused (str "invalid or expired token").
Proof.
  destruct (@admin_login _ _ _ plain_Bcrypt plain_BcryptLaws (str "k") [] 5 (7 * Second) (8 * Second) (str "ann") (str "secret")
    (str "admin") (str "x") ex_empty ex_user.2 ∅ ex_empty_collection ltac:(by vm_compute)
    ltac:(apply (bool_decide_unpack _); by vm_compute) ltac:(apply (bool_decide_unpack _); by vm_compute)
    ltac:(by vm_compute) ltac:(by vm_compute) ltac:(by vm_compute)) as (token & hash & Ha & _ & Hd & _).
  exists token. split; [exact Ha|exact Hd].
Defined.

Definition ex_token := generateJWT (str "k") (str "ann") (str "admin") (7 * Second).

Definition ex_ann := mkAdminUser (str "ann") (str "$2a$10$secret") (str "admin") 5 false.

(** The check passes on every store that has the user ann. *)
Lemma ex_token_valid (s : MessageStore (DB := gmap bytes doc)) :
  GetJSON un_user (user_key (str "ann")) s = Got ex_ann → ValidateJWT (str "k") (8 * Second) ex_token s = inl ex_ann.
Proof.
  intros Hs. unfold ex_token. rewrite ValidateJWT_generate by (apply (bool_decide_unpack _); by vm_compute).
  rewrite decide_False by (by vm_compute). replace (json_string (str "ann")) with (str "ann") by (by vm_compute). by rewrite Hs.
Qed.

Lemma token_needs_secret_witness :
  ∃ user p0 p1 p2, ValidateJWT (str "k") (8 * Second) ex_token ex_user.2 = inl user ∧
    ex_token = p0 ++ str "." ++ p1 ++ str "." ++ p2 ∧
    base64URLDecode p2 = Some (hmac_sha256 (str "k") (p0 ++ str "." ++ p1)).
Proof.
  exists ex_ann. assert (ValidateJWT (str "k") (8 * Second) ex_token ex_user.2 = inl ex_ann) as Hv
    by (apply ex_token_valid; by vm_compute).
  destruct (token_needs_secret (str "k") (8 * Second) ex_token ex_user.2 _ Hv)
    as (p0 & p1 & p2 & claims & Ht & Hs & _).
  exists p0, p1, p2. split; [exact Hv|]. split; [exact Ht|exact Hs].
Defined.

Lemma AdminUsers_refine_map_witness :
  collection ex_empty (∅ : gmap bytes AdminUser) ∧
  collection (@users_Bootstrap _ _ plain_Bcrypt [1; 2; 3; 4; 5; 6; 7; 8; 9; 10; 11; 12] [] 5 ex_empty).2
    (@spec_NewUser plain_Bcrypt [] 5 (str "admin") (hex_encode [1; 2; 3; 4; 5; 6; 7; 8; 9; 10; 11; 12]) (str "admin") true ∅).2.
Proof.
  split; [apply ex_empty_collection|].
  exact (proj1 (proj2 (proj1 (proj2 (proj2 (@AdminUsers_refine_map _ _ _ plain_Bcrypt [] [1; 2; 3; 4; 5; 6; 7; 8; 9; 10; 11; 12]
    5 [] [] [] [] ex_empty ∅ ex_empty_collection)))))).
Defined.

(** The signature's last character has bits that the decoder does not look at: another
    text of the same token is accepted too. *)
Example token_malleable : ∃ token' user, token' ≠ ex_token ∧
  ValidateJWT (str "k") (8 * Second) ex_token ex_user.2 = inl user ∧
  ValidateJWT (str "k") (8 * Second) token' ex_user.2 = inl user.
Proof.
  exists (take (length ex_token - 1) ex_token ++ [default 0 (last ex_token) + 1]),
    ex_ann.
  split; [by vm_compute|]. split; [apply ex_token_valid|]; by vm_compute.
Qed.
