(* ===== verification/Config.v ===== *)
(** * The configuration from environment variables

    gateway/config.go.  The environment is a function from names to values, empty for a
    variable that is not set, as os.Getenv reports it; strconv.Atoi accepts a sign and
    decimal digits within int64. *)

From S2P Require Import Prelude Utf8 Dlr Documents Format Encodings Json Gateway.

Local Open Scope Z_scope.

(** ** strconv.Atoi *)

Definition Atoi (s : bytes) : option Z :=
  let '(neg, ds) :=
    match s with
    | c :: s' => if decide (c = 45) then (true, s') else if decide (c = 43) then (false, s') else (false, s)
    | [] => (false, s)
    end in
  if decide (Forall is_digit ds ∧ ds ≠ []) then
    let n := if neg : bool then - digits_value ds else digits_value ds in
    if decide (- 2 ^ 63 <= n < 2 ^ 63) then Some n else None
  else None.

(** [strings.Split(s, ",")] *)
Fixpoint split_commas (s : bytes) : list bytes :=
  match s with
  | [] => [[]]
  | b :: s =>
      if decide (b = 44) then [] :: split_commas s
      else match split_commas s with p :: ps => (b :: p) :: ps | [] => [[b]] end
  end.

(** ** The configuration *)

Record Config := mkConfig {
  g_ListenAddr : bytes; g_AllowedEngines : list bytes; g_ServerSystemID : bytes; g_ServerPassword : bytes;
  g_SMSCHost : bytes; g_SMSCPort : Z; g_SMSCSystemID : bytes; g_SMSCPassword : bytes; g_SMSCSourceAddr : bytes;
  g_PoolConnections : Z; g_PoolWindowSize : Z;
  g_DataDir : bytes; g_MaxMessages : Z; g_MessageTTL : Z; g_CleanupInterval : Z;
  g_RetryInterval : Z; g_MaxRetryAge : Z; g_ReconnectGraceSec : Z;
  g_MaxSubmitRetries : Z; g_SubmitRetryInterval : Z;
  g_ForwardWorkers : Z; g_ForwardQueueSize : Z; g_RetryDrainLimit : Z; g_SubmitRetryDrainLimit : Z;
  g_RateLimitTPS : Z; g_BlacklistFile : bytes; g_EnquireLinkSec : Z; g_IdleTimeoutSec : Z;
  g_TLSCertFile : bytes; g_TLSKeyFile : bytes; g_HTTPAddr : bytes; g_HTTPTLSCertFile : bytes; g_HTTPTLSKeyFile : bytes;
  g_JWTSecret : bytes; g_DrainTimeoutSec : Z; g_MetricsAddr : bytes;
  g_SMPPVersion : bytes; g_BindMode : bytes; g_CongestionThreshold : Z
}.

Section config.
(** [os.Getenv] *)
Context (Getenv : bytes → bytes).

Definition getEnv (k fallback : bytes) : bytes := let v := Getenv k in if decide (v ≠ []) then v else fallback.

Definition getEnvInt (k : bytes) (fallback : Z) : Z :=
  let v := Getenv k in
  if decide (v ≠ []) then match Atoi v with Some n => n | None => fallback end else fallback.

(** [time.Duration(n) * unit] *)
Definition Duration (n unit_ : Z) : Z := i64 (n * unit_).

Definition LoadConfig : Config :=
  let v := getEnv (str "GW_ALLOWED_ENGINES") [] in
  mkConfig
    (getEnv (str "GW_LISTEN_ADDR") (str ":2776"))
    (if decide (v ≠ []) then split_commas v else [])
    (getEnv (str "GW_SERVER_SYSTEM_ID") (str "smscgw"))
    (getEnv (str "GW_SERVER_PASSWORD") (str "password"))
    (getEnv (str "GW_SMSC_HOST") (str "localhost"))
    (getEnvInt (str "GW_SMSC_PORT") 2775)
    (getEnv (str "GW_SMSC_SYSTEM_ID") (str "smppclient"))
    (getEnv (str "GW_SMSC_PASSWORD") (str "password"))
    (getEnv (str "GW_SMSC_SOURCE_ADDR") [])
    (getEnvInt (str "GW_POOL_CONNECTIONS") 5)
    (getEnvInt (str "GW_POOL_WINDOW_SIZE") 10)
    (getEnv (str "GW_DATA_DIR") (str "/tmp/smscgw-data"))
    (getEnvInt (str "GW_MAX_MESSAGES") 1000000)
    (Duration (getEnvInt (str "GW_MESSAGE_TTL_HOURS") 24) (3600 * Second))
    (Duration (getEnvInt (str "GW_CLEANUP_INTERVAL_MIN") 5) (60 * Second))
    (Duration (getEnvInt (str "GW_RETRY_INTERVAL_SEC") 5) Second)
    (Duration (getEnvInt (str "GW_MAX_RETRY_AGE_MIN") 60) (60 * Second))
    (getEnvInt (str "GW_RECONNECT_GRACE_SEC") 60)
    (getEnvInt (str "GW_MAX_SUBMIT_RETRIES") 3)
    (Duration (getEnvInt (str "GW_SUBMIT_RETRY_INTERVAL_SEC") 10) Second)
    (getEnvInt (str "GW_FORWARD_WORKERS") 64)
    (getEnvInt (str "GW_FORWARD_QUEUE_SIZE") 10000)
    (getEnvInt (str "GW_RETRY_DRAIN_LIMIT") 200)
    (getEnvInt (str "GW_SUBMIT_RETRY_DRAIN_LIMIT") 100)
    (getEnvInt (str "GW_RATE_LIMIT_TPS") 0)
    (getEnv (str "GW_BLACKLIST_FILE") [])
    (getEnvInt (str "GW_ENQUIRE_LINK_SEC") 30)
    (getEnvInt (str "GW_IDLE_TIMEOUT_SEC") 120)
    (getEnv (str "GW_TLS_CERT") [])
    (getEnv (str "GW_TLS_KEY") [])
    (getEnv (str "GW_HTTP_ADDR") (str ":8080"))
    (getEnv (str "GW_HTTP_TLS_CERT") [])
    (getEnv (str "GW_HTTP_TLS_KEY") [])
    (getEnv (str "GW_JWT_SECRET") [])
    (getEnvInt (str "GW_DRAIN_TIMEOUT_SEC") 10)
    (getEnv (str "GW_METRICS_ADDR") (str ":9090"))
    (getEnv (str "GW_SMPP_VERSION") (str "3.4"))
    (getEnv (str "GW_BIND_MODE") (str "transceiver"))
    (getEnvInt (str "GW_CONGESTION_THRESHOLD") 80).

End config.

(** What NewRouter takes of it. *)
Definition router_config (c : Config) (southbound : bool) : RouterConfig :=
  NewRouterConfig (g_ReconnectGraceSec c) (g_RateLimitTPS c) (g_MaxSubmitRetries c) (g_RetryDrainLimit c)
    (g_SubmitRetryDrainLimit c) (g_ForwardQueueSize c) southbound.

(** ** Reading numbers *)

(** A number reads back from its decimals, whatever the fallback; text that is not a
    number in range gives the fallback. *)
Theorem getEnvInt_reads Getenv k fallback n : 0 <= n < 2 ^ 63 →
  (Getenv k = itoa n → getEnvInt Getenv k fallback = n) ∧
  (Getenv k = 45 :: itoa n → getEnvInt Getenv k fallback = - n) ∧
  (Atoi (Getenv k) = None → getEnvInt Getenv k fallback = fallback).
Proof.
  intros Hn. destruct (itoa_digits n) as [Hne Hd]; [lia|]. unfold getEnvInt. split_and!.
  - intros ->. rewrite decide_True by done. unfold Atoi.
    destruct (itoa n) as [|d ds] eqn:E; [done|]. pose proof Hd as [Hd0 _]%Forall_cons.
    rewrite decide_False, decide_False by lia. rewrite decide_True by done.
    rewrite <-E, digits_value_itoa by lia. by rewrite decide_True by lia.
  - intros ->. rewrite decide_True by done. unfold Atoi. rewrite decide_True by done.
    rewrite decide_True by done. rewrite digits_value_itoa by lia. by rewrite decide_True by lia.
  - intros ->. by case_decide.
Qed.

Example LoadConfig_default :
  let c := LoadConfig (λ _, []) in
  g_ListenAddr c = str ":2776" ∧ g_AllowedEngines c = [] ∧ g_MessageTTL c = 86400 * Second ∧
  rc_queueSize (router_config c true) = 10000.
Proof. by vm_compute. Qed.
