(* ===== verification/AdminApi.v ===== *)
(** * The admin API

    gateway/admin_api.go: the handlers on decoded requests (a body that is not JSON is
    [None]; the times of a query come parsed), behind the token check that
    [RegisterRoutes] puts in front of all but the login.  [pool_entry] and
    [ListWithHealth] are from gateway/pool_manager.go.

    An operation reads from its [ApiEnv]: the clock, salts and random bytes, how a pool
    connects and closes, and the orders in which maps are iterated. *)

From Stdlib Require Import QArith.
From S2P Require Import Prelude Utf8 Client Pool SliceSort PoolManager RouteTable Connection Dlr.
From S2P Require Import Documents Format Store Server Gateway Router ConfigStore Encodings Json.
From S2P Require Import Accounts Config.

Local Open Scope Z_scope.

Definition Version : bytes := str "0.4.0".

(** ** Requests, answers and state *)

Record MessagesQuery := mkMessagesQuery {
  q_conn_id : bytes; q_status : bytes; q_from : bytes; q_to : bytes; q_limit : bytes;
  q_after : Z * Z; q_before : Z * Z   (** zero times when absent or malformed *)
}.

Inductive request :=
| Login (body : option (bytes * bytes))
| Stats | Connections | ConnectionDetail (id : bytes)
| ListMTRoutes | CreateMTRoute (body : option MTRoute) | RemoveMTRoute (prefix : bytes)
| ListMORoutes | CreateMORoute (body : option MORoute) | RemoveMORoute (id : bytes)
| ListPools | CreatePool (body : option SouthboundPoolConfig) | DeletePool (name : bytes)
| ListAPIKeys | CreateAPIKey (body : option (bytes * Z)) | DeleteAPIKey (id : bytes)
| ListUsers | CreateUser (body : option (bytes * bytes * bytes)) | DeleteUser (username : bytes)
| ChangePassword (username : bytes) (body : option (bytes * bytes))
| ListConnConfigs | GetConnConfig (systemID : bytes) | CreateConnConfig (body : option ConnectionConfig)
| UpdateConnConfig (systemID : bytes) (body : option ConnectionConfig) | DeleteConnConfig (systemID : bytes)
| ListMessages (q : MessagesQuery)
| WatchMetrics.

Record PoolListEntry := mkPoolEntry {
  pe_Name : bytes; pe_Host : bytes; pe_Port : Z; pe_SystemID : bytes; pe_Connections : Z; pe_WindowSize : Z;
  pe_BindMode : bytes; pe_InterfaceVersion : bytes; pe_ActiveConnections : Z; pe_Healthy : bool
}.

(** What the router counts. *)
Record RouterCounters := mkCounters {
  rs_totals : Totals; rs_affinity : Z; rs_correlations : Z
}.

Record GatewayStats := mkStats {
  gs_version : bytes; gs_pools : list PoolHealth; gs_connections : Z; gs_counters : RouterCounters;
  gs_submit_retries : Z; gs_pool_names : list bytes; gs_store_size : Z; gs_retry_queue : Z; gs_message_log_size : Z
}.

Record RealtimeMetrics := mkRealtime {
  rm_Timestamp : Z; rm_Pools : list PoolHealth; rm_NorthboundConns : Z; rm_StoreSize : Z; rm_RetryQueueSize : Z
}.

Inductive failure :=
| Message (text : bytes) | PoolFailure (e : pm_err) | AuthFailure (e : auth_err) | ConfigFailure (e : config_err).

Inductive payload :=
| NoContent
| Failure (e : failure)
| AToken (token : bytes)
| TheStats (s : GatewayStats) | TheMetrics (m : RealtimeMetrics)
| TheConnections (l : list ConnectionInfo) | TheConnection (d : ConnectionInfo * option ConnectionConfigSummary)
| TheMTRoutes (l : list MTRoute) | TheMTRoute (r : MTRoute)
| TheMORoutes (l : list MORoute) | TheMORoute (r : MORoute)
| ThePools (l : list PoolListEntry) | ThePool (c : SouthboundPoolConfig)
| TheKeys (l : list APIKey) | TheKey (k label : bytes)
| TheUsers (l : list AdminUser) | TheUser (username role : bytes)
| TheConnConfigs (l : list ConnectionConfig) | TheConnConfig (c : ConnectionConfig)
| TheMessages (l : list MessageLogEntry).

(** An answer, or a handler that panics: net/http drops the connection. *)
Inductive reply := Reply (status : Z) (p : payload) | Dropped.

Record ApiEnv := mkApiEnv {
  ae_now : Z; ae_salt : bytes; ae_rnd : bytes; ae_idBytes : bytes;
  ae_connect : Pool → Pool * option pool_err; ae_closed : nat → bool;
  ae_subs : list (bytes * pool_ref); ae_pools : list (bytes * pool_ref); ae_conns : list (bytes * conn_ref)
}.

Section admin.
Context {DB : Type} `{!KV DB} `{!Zone} `{!Bcrypt} `{!SliceSort}.

Abbreviation MessageStore := (MessageStore (DB := DB)).

Record Admin := mkAdmin {
  ad_store : MessageStore; ad_mt : MTRouteTable; ad_mo : MORouteTable; ad_pools : PoolManager;
  ad_server : Server; ad_counters : RouterCounters
}.

Definition with_store (st : Admin) (s : MessageStore) : Admin :=
  mkAdmin s (ad_mt st) (ad_mo st) (ad_pools st) (ad_server st) (ad_counters st).
Definition with_mt (st : Admin) (t : MTRouteTable) : Admin :=
  mkAdmin (ad_store st) t (ad_mo st) (ad_pools st) (ad_server st) (ad_counters st).
Definition with_mo (st : Admin) (t : MORouteTable) : Admin :=
  mkAdmin (ad_store st) (ad_mt st) t (ad_pools st) (ad_server st) (ad_counters st).
Definition with_pools (st : Admin) (pm : PoolManager) : Admin :=
  mkAdmin (ad_store st) (ad_mt st) (ad_mo st) pm (ad_server st) (ad_counters st).

Definition invalid_JSON : reply := Reply 400 (Failure (Message (str "invalid JSON"))).

(** ** Login and statistics *)

Definition handleLogin (jwtSecret : bytes) (e : ApiEnv) (body : option (bytes * bytes)) (st : Admin) : reply :=
  match body with
  | None => invalid_JSON
  | Some (username, password) =>
      match users_Authenticate jwtSecret (ae_now e) username password (ad_store st) with
      | inr _ => Reply 401 (Failure (Message (str "invalid credentials")))
      | inl token => Reply 200 (AToken token)
      end
  end.

Definition handleStats (e : ApiEnv) (st : Admin) : reply :=
  match pm_AllHealth (ae_subs e) (ae_pools e) (ad_pools st) with
  | Ret health =>
      Reply 200 (TheStats (mkStats Version health (ConnectionCount (ad_server st)) (ad_counters st)
        (PendingSubmitRetryCount (ad_store st)) (pm_Names (ae_subs e).*1 (ae_pools e).*1)
        (MessageCount (ad_store st)) (PendingRetryCount (ad_store st)) (MessageLogCount (ad_store st))))
  | _ => Dropped
  end.

Definition handleConnections (e : ApiEnv) (st : Admin) : reply :=
  Reply 200 (TheConnections (ListConnections (ae_now e / Second) (ae_conns e) (ad_server st))).

Definition handleConnectionDetail (e : ApiEnv) (connID : bytes) (st : Admin) : reply :=
  match GetConnectionDetail (ae_now e / Second) connID (ad_server st) with
  | None => Reply 404 (Failure (Message (str "connection not found")))
  | Some detail => Reply 200 (TheConnection detail)
  end.

(** ** Routes *)

Definition handleCreateMTRoute (body : option MTRoute) (st : Admin) : reply * Admin :=
  match body with
  | None => (invalid_JSON, st)
  | Some route =>
      let st := with_mt st (MT_AddRoute route (ad_mt st)) in
      let st := with_store st (SaveMTRoute route (ad_store st)) in
      (Reply 201 (TheMTRoute route), st)
  end.

Definition handleDeleteMTRoute (prefix : bytes) (st : Admin) : reply * Admin :=
  let st := with_mt st (MT_RemoveRoute prefix (ad_mt st)).1 in
  let st := with_store st (DeleteMTRoute prefix (ad_store st)) in
  (Reply 204 NoContent, st).

Definition handleCreateMORoute (body : option MORoute) (st : Admin) : reply * Admin :=
  match body with
  | None => (invalid_JSON, st)
  | Some route =>
      let st := with_mo st (MO_AddRoute route (ad_mo st)) in
      let st := with_store st (SaveMORoute route (ad_store st)) in
      (Reply 201 (TheMORoute route), st)
  end.

(** [strings.SplitN(id, ":", 2)]: the pattern, and the source prefix behind a colon. *)
Fixpoint split_colon (id : bytes) : bytes * bytes :=
  match id with
  | [] => ([], [])
  | b :: id' => if decide (b = 58) then ([], id') else let '(d, s) := split_colon id' in (b :: d, s)
  end.

Definition handleDeleteMORoute (id : bytes) (st : Admin) : reply * Admin :=
  let '(destPattern, sourcePrefix) := split_colon id in
  let st := with_mo st (MO_RemoveRoute destPattern sourcePrefix (ad_mo st)).1 in
  let st := with_store st (DeleteMORoute destPattern sourcePrefix (ad_store st)) in
  (Reply 204 NoContent, st).

(** ** Pools *)

(** Configuration and health of one pool. *)
Definition pool_entry (pm : PoolManager) (name : bytes) (active : Z) : PoolListEntry :=
  match pm_GetConfig pm name with
  | Some cfg =>
      mkPoolEntry name (sb_Host cfg) (sb_Port cfg) (sb_SystemID cfg) (sb_Connections cfg) (sb_WindowSize cfg)
        (sb_BindMode cfg) (sb_InterfaceVersion cfg) active (bool_decide (0 < active))
  | None => mkPoolEntry name [] 0 [] 0 0 [] [] active (bool_decide (0 < active))
  end.

Definition entry_before (a b : PoolListEntry) : bool := blt (pe_Name a) (pe_Name b).

Definition ListWithHealth (subs pools : list (bytes * pool_ref)) (pm : PoolManager) :
    outcome Empty_set (list PoolListEntry) :=
  health ← pm_AllHealth subs pools pm;
  Ret (sort_slice entry_before ((λ h, pool_entry pm (ph_Name h) (ph_ActiveConnections h)) <$> health)).

Definition handleListPools (e : ApiEnv) (st : Admin) : reply :=
  match ListWithHealth (ae_subs e) (ae_pools e) (ad_pools st) with
  | Ret entries => Reply 200 (ThePools entries)
  | _ => Dropped
  end.

Definition handleCreatePool (e : ApiEnv) (body : option SouthboundPoolConfig) (st : Admin) : reply * Admin :=
  match body with
  | None => (invalid_JSON, st)
  | Some cfg =>
      match pm_Add (ae_connect e) cfg (ad_pools st) with
      | (pm, Some err) => (Reply 400 (Failure (PoolFailure err)), with_pools st pm)
      | (pm, None) =>
          let st := with_pools st pm in
          (Reply 201 (ThePool cfg), with_store st (SavePoolConfig cfg (ad_store st)))
      end
  end.

Definition handleDeletePool (e : ApiEnv) (name : bytes) (st : Admin) : reply * Admin :=
  match pm_Remove (ae_closed e) name (ad_pools st) with
  | Panic => (Dropped, st)
  | Fail _ => (Reply 204 NoContent, with_store st (DeletePoolConfig name (ad_store st)))
  | Ret pm => (Reply 204 NoContent, with_store (with_pools st pm) (DeletePoolConfig name (ad_store st)))
  end.

(** ** Keys, users and accounts *)

Definition handleCreateAPIKey (e : ApiEnv) (body : option (bytes * Z)) (st : Admin) : reply * Admin :=
  match body with
  | None => (invalid_JSON, st)
  | Some (label, rateLimit) =>
      let '(k, s) := keys_Create (ae_rnd e) (ae_idBytes e) (ae_now e) label rateLimit (ad_store st) in
      (Reply 201 (TheKey k label), with_store st s)
  end.

Definition handleDeleteAPIKey (id : bytes) (st : Admin) : reply * Admin :=
  match keys_Revoke id (ad_store st) with
  | (Some err, s) => (Reply 404 (Failure (AuthFailure err)), with_store st s)
  | (None, s) => (Reply 204 NoContent, with_store st s)
  end.

Definition handleCreateUser (e : ApiEnv) (body : option (bytes * bytes * bytes)) (st : Admin) : reply * Admin :=
  match body with
  | None => (invalid_JSON, st)
  | Some (username, password, role) =>
      let role := if decide (role = []) then str "admin" else role in
      match users_Create (ae_salt e) (ae_now e) username password role (ad_store st) with
      | (Some err, s) => (Reply 400 (Failure (AuthFailure err)), with_store st s)
      | (None, s) => (Reply 201 (TheUser username role), with_store st s)
      end
  end.

Definition handleChangePassword (e : ApiEnv) (username : bytes) (body : option (bytes * bytes)) (st : Admin) :
    reply * Admin :=
  match body with
  | None => (invalid_JSON, st)
  | Some (oldPass, newPass) =>
      match users_ChangePassword (ae_salt e) username oldPass newPass (ad_store st) with
      | (Some err, s) => (Reply 400 (Failure (AuthFailure err)), with_store st s)
      | (None, s) => (Reply 204 NoContent, with_store st s)
      end
  end.

Definition handleGetConnConfig (systemID : bytes) (st : Admin) : reply :=
  match cs_Get systemID (ad_store st) with
  | inr err => Reply 500 (Failure (ConfigFailure err))
  | inl None => Reply 404 (Failure (Message (str "not found")))
  | inl (Some cfg) => Reply 200 (TheConnConfig (cc_with_password cfg []))
  end.

Definition handleCreateConnConfig (e : ApiEnv) (body : option ConnectionConfig) (st : Admin) : reply * Admin :=
  match body with
  | None => (invalid_JSON, st)
  | Some cfg =>
      match cs_Create (ae_salt e) (ae_now e) cfg (ad_store st) with
      | (Some err, _, s) => (Reply 400 (Failure (ConfigFailure err)), with_store st s)
      | (None, cfg, s) => (Reply 201 (TheConnConfig (cc_with_password cfg [])), with_store st s)
      end
  end.

Definition cc_with_ID (c : ConnectionConfig) (id : bytes) : ConnectionConfig :=
  mkConnConfig id (cc_Password c) (cc_Description c) (cc_Enabled c) (cc_AllowedIPs c) (cc_MaxTPS c)
    (cc_CostPerSMS c) (cc_AllowedPrefixes c) (cc_DefaultSourceAddr c) (cc_DefaultSourceTON c)
    (cc_DefaultSourceNPI c) (cc_SourceAddrMode c) (cc_ForceSourceAddr c) (cc_ForceSourceTON c)
    (cc_ForceSourceNPI c) (cc_AllowedSourceAddrs c) (cc_MaxBinds c) (cc_AllowedBindModes c)
    (cc_CreatedAt c) (cc_UpdatedAt c).

Definition handleUpdateConnConfig (e : ApiEnv) (systemID : bytes) (body : option ConnectionConfig) (st : Admin) :
    reply * Admin :=
  match body with
  | None => (invalid_JSON, st)
  | Some cfg =>
      match cs_Update (ae_salt e) (ae_now e) (cc_with_ID cfg systemID) (ad_store st) with
      | (Some err, s) => (Reply 400 (Failure (ConfigFailure err)), with_store st s)
      | (None, s) =>
          match cs_Get systemID s with
          | inl (Some updated) => (Reply 200 (TheConnConfig (cc_with_password updated [])), with_store st s)
          | _ => (Reply 500 (Failure (Message (str "failed to retrieve updated config"))), with_store st s)
          end
      end
  end.

(** ** The message log *)

Definition messages_filter (q : MessagesQuery) : MessageFilter :=
  mkFilter (q_conn_id q) (q_status q) (q_from q) (q_to q) (q_after q) (q_before q)
    (match Atoi (q_limit q) with Some n => if decide (0 < n <= 200) then n else 50 | None => 50 end).

Definition handleListMessages (q : MessagesQuery) (st : Admin) : reply :=
  Reply 200 (TheMessages (QueryMessages (messages_filter q) (ad_store st))).

(** One tick of the web socket. *)
Definition handleWebSocket (e : ApiEnv) (st : Admin) : reply :=
  match pm_AllHealth (ae_subs e) (ae_pools e) (ad_pools st) with
  | Ret health =>
      Reply 200 (TheMetrics (mkRealtime (ae_now e) health (ConnectionCount (ad_server st))
        (MessageCount (ad_store st)) (PendingRetryCount (ad_store st))))
  | _ => Dropped
  end.

(** ** The routes of the mux *)

Definition admin_handler (jwtSecret : bytes) (e : ApiEnv) (r : request) (st : Admin) : reply * Admin :=
  match r with
  | Login body => (handleLogin jwtSecret e body st, st)
  | Stats => (handleStats e st, st)
  | Connections => (handleConnections e st, st)
  | ConnectionDetail id => (handleConnectionDetail e id st, st)
  | ListMTRoutes => (Reply 200 (TheMTRoutes (MT_ListRoutes (ad_mt st))), st)
  | CreateMTRoute body => handleCreateMTRoute body st
  | RemoveMTRoute prefix => handleDeleteMTRoute prefix st
  | ListMORoutes => (Reply 200 (TheMORoutes (MO_ListRoutes (ad_mo st))), st)
  | CreateMORoute body => handleCreateMORoute body st
  | RemoveMORoute id => handleDeleteMORoute id st
  | ListPools => (handleListPools e st, st)
  | CreatePool body => handleCreatePool e body st
  | DeletePool name => handleDeletePool e name st
  | ListAPIKeys => (Reply 200 (TheKeys (keys_List (ad_store st))), st)
  | CreateAPIKey body => handleCreateAPIKey e body st
  | DeleteAPIKey id => handleDeleteAPIKey id st
  | ListUsers => (Reply 200 (TheUsers (users_List (ad_store st))), st)
  | CreateUser body => handleCreateUser e body st
  | DeleteUser username => (Reply 204 NoContent, with_store st (users_Delete username (ad_store st)))
  | ChangePassword username body => handleChangePassword e username body st
  | ListConnConfigs => (Reply 200 (TheConnConfigs (cs_List (ad_store st))), st)
  | GetConnConfig systemID => (handleGetConnConfig systemID st, st)
  | CreateConnConfig body => handleCreateConnConfig e body st
  | UpdateConnConfig systemID body => handleUpdateConnConfig e systemID body st
  | DeleteConnConfig systemID => (Reply 204 NoContent, with_store st (cs_Delete systemID (ad_store st)))
  | ListMessages q => (handleListMessages q st, st)
  | WatchMetrics => (handleWebSocket e st, st)
  end.

(** Only the login has no token check in front. *)
Definition is_login (r : request) : bool := match r with Login _ => true | _ => false end.

Definition RegisterRoutes (jwtSecret : bytes) (e : ApiEnv) (auth : bytes) (r : request) (st : Admin) : reply * Admin :=
  if is_login r then admin_handler jwtSecret e r st
  else
    match AdminAuthMiddleware jwtSecret (ae_now e) auth (ad_store st) with
    | Refused error => (Reply 401 (Failure (Message error)), st)
    | Passed _ => admin_handler jwtSecret e r st
    end.

End admin.

(** ** Properties *)

(** The requests that are answered from the state. *)
Definition read_only (r : request) : bool :=
  match r with
  | CreateMTRoute _ | RemoveMTRoute _ | CreateMORoute _ | RemoveMORoute _ | CreatePool _ | DeletePool _
  | CreateAPIKey _ | DeleteAPIKey _ | CreateUser _ | DeleteUser _ | ChangePassword _ _
  | CreateConnConfig _ | UpdateConnConfig _ _ | DeleteConnConfig _ => false
  | _ => true
  end.

(** What is stored of a secret, a password or a hash, is not in an answer. *)
Definition no_secret (p : payload) : Prop :=
  match p with
  | TheKeys l => Forall (λ k, ak_KeyHash k = []) l
  | TheUsers l => Forall (λ u, au_PasswordHash u = []) l
  | TheConnConfigs l => Forall (λ c, cc_Password c = []) l
  | TheConnConfig c => cc_Password c = []
  | _ => True
  end.

Section admin_props.
Context {DB : Type} `{!KV DB} `{!Zone} `{!Bcrypt} `{!SliceSort}.

Abbreviation MessageStore := (MessageStore (DB := DB)).
Abbreviation Admin := (Admin (DB := DB)).

Lemma read_only_kept jwtSecret e r st : read_only r = true → (admin_handler jwtSecret e r st).2 = st.
Proof. by destruct r. Qed.

(** Every element of a listing went through [hide]. *)
Lemma listing_hidden {A} `{!Stored A} (hide : A → A) (P : A → Prop) es acc :
  (∀ a, P (hide a)) → Forall P acc → Forall P (scan_loop (list_record hide) es acc).1.
Proof.
  intros Hh. revert acc. induction es as [|[k v] es IH]; intros acc Ha; cbn; [done|].
  unfold list_record at 1. destruct (rec_un v); apply IH; [|done]. apply Forall_app. split; [done|].
  by apply Forall_singleton.
Qed.

(** C23: nothing but the login is served without a valid token: if a request other than
    the login changes the state or gets an answer that is not a 401, its header is
    "Bearer" with a token that the check accepts at that time.  The login changes
    nothing, and answers 200 only with the token that the user store issues for the
    name and password of the body.  With a valid token the handler answers, and
    requests that read do not change the state. *)
Theorem admin_api_guarded (jwtSecret auth : bytes) (e : ApiEnv) (r : request) (st : Admin) :
  let '(rep, st') := RegisterRoutes jwtSecret e auth r st in
  ((∀ body, r ≠ Login body) → (st' ≠ st ∨ ∀ error, rep ≠ Reply 401 error) →
     ∃ token user, bearer auth = Some token ∧ ValidateJWT jwtSecret (ae_now e) token (ad_store st) = inl user) ∧
  (∀ body, r = Login body → st' = st ∧
     ∀ p, rep = Reply 200 p → ∃ username password token, body = Some (username, password) ∧ p = AToken token ∧
       users_Authenticate jwtSecret (ae_now e) username password (ad_store st) = inl token) ∧
  (∀ token user, bearer auth = Some token → ValidateJWT jwtSecret (ae_now e) token (ad_store st) = inl user →
     (rep, st') = admin_handler jwtSecret e r st) ∧
  (read_only r = true → st' = st).
Proof.
  destruct (RegisterRoutes jwtSecret e auth r st) as [rep st'] eqn:E. unfold RegisterRoutes, AdminAuthMiddleware in E.
  assert (read_only r = true → st' = st) as Hro.
  { intros Hr. apply (f_equal snd) in E. cbn [snd] in E. rewrite <-E. destruct (is_login r); [by apply read_only_kept|].
    destruct (bearer auth) as [token|]; [destruct (ValidateJWT _ _ _ _)|]; by try apply read_only_kept. }
  split; [|split; [|split; [|done]]].
  - intros Hl Hs. assert (is_login r = false) as Hf by (destruct r; [by destruct (Hl body)|done..]). rewrite Hf in E.
    destruct (bearer auth) as [token|].
    + destruct (ValidateJWT _ _ token _) as [user|err] eqn:Ev; [by exists token, user|]. injection E as <- <-.
      destruct Hs as [|Hs]; [done|]. by destruct (Hs _ eq_refl).
    + injection E as <- <-. destruct Hs as [|Hs]; [done|]. by destruct (Hs _ eq_refl).
  - intros body ->. split; [by apply Hro|]. intros p ->. cbn in E. destruct body as [[u pw]|]; [|done].
    cbn in E. destruct (users_Authenticate jwtSecret (ae_now e) u pw (ad_store st)) as [token|err] eqn:Ea; [|done].
    injection E as <- _. by exists u, pw, token.
  - intros token user Hb Hv. rewrite Hb, Hv in E. by destruct (is_login r).
Qed.

(** No answer shows a stored secret: keys are listed without their hash, users
    without theirs, accounts (listed, read, created or updated) without a password. *)
Theorem admin_answers_public (jwtSecret auth : bytes) (e : ApiEnv) (r : request) (st : Admin) :
  match (RegisterRoutes jwtSecret e auth r st).1 with Reply _ p => no_secret p | Dropped => True end.
Proof.
  assert (match (admin_handler jwtSecret e r st).1 with Reply _ p => no_secret p | Dropped => True end) as Hh.
  { destruct r as [body| | | | |body|prefix| |body|id| |body|name| |body|id| |body|u|u body| |id|body|id body|id|q|]; cbn [admin_handler].
    - destruct body as [[u pw]|]; [|done]. cbn. by destruct (users_Authenticate _ _ _ _ _).
    - unfold handleStats. cbn. by destruct (pm_AllHealth _ _ _).
    - done.
    - unfold handleConnectionDetail. cbn. by destruct (GetConnectionDetail _ _ _).
    - done.
    - by destruct body.
    - done.
    - done.
    - by destruct body.
    - unfold handleDeleteMORoute. by destruct (split_colon id).
    - unfold handleListPools. cbn. by destruct (ListWithHealth _ _ _).
    - destruct body as [c|]; [|done]. cbn. by destruct (pm_Add _ _ _) as [pm [err|]].
    - unfold handleDeletePool. by destruct (pm_Remove _ _ _).
    - cbn. by apply listing_hidden.
    - by destruct body as [[label rate]|].
    - unfold handleDeleteAPIKey. by destruct (keys_Revoke _ _) as [[err|] s].
    - cbn. by apply listing_hidden.
    - destruct body as [[[u p] role]|]; [|done]. cbn. by destruct (users_Create _ _ _ _ _ _) as [[err|] s].
    - done.
    - destruct body as [[p q]|]; [|done]. cbn. by destruct (users_ChangePassword _ _ _ _ _) as [[err|] s].
    - cbn. by apply listing_hidden.
    - unfold handleGetConnConfig. cbn. by destruct (cs_Get _ _) as [[c|]|err].
    - destruct body as [c|]; [|done]. cbn. by destruct (cs_Create _ _ _ _) as [[[err|] c'] s].
    - destruct body as [c|]; [|done]. cbn. destruct (cs_Update _ _ _ _) as [[err|] s]; [done|].
      by destruct (cs_Get id s) as [[u|]|?].
    - done.
    - done.
    - unfold handleWebSocket. cbn. by destruct (pm_AllHealth _ _ _). }
  unfold RegisterRoutes. destruct (is_login r); [done|]. by destruct (AdminAuthMiddleware _ _ _ _).
Qed.

End admin_props.

(** ** Example: a route added by the user ann *)

#[local] Existing Instance insertion_SliceSort.
#[local] Existing Instance plain_Bcrypt.

Definition ex_env : ApiEnv :=
  mkApiEnv (8 * Second) [] [1; 2; 3; 4; 5; 6; 7; 8; 9; 10; 11; 12; 13; 14; 15; 16] [1; 2; 3; 4] (λ p, (p, None)) (λ _, true) [] [] [].
Definition ex_auth : bytes := str "Bearer " ++ ex_token.
Definition ex_route : MTRoute := mkMTRoute (str "27") (str "round_robin") [mkRoutePool (str "default") 0; mkRoutePool (str "b") 1] 0.
Definition ex_admin : Admin (DB := gmap bytes doc) :=
  mkAdmin ex_user.2 [] [] NewPoolManager NewServer (mkCounters (mkTotals 0 0 0 0 0) 0 0).

Lemma ex_served r st : GetJSON un_user (user_key (str "ann")) (ad_store st) = Got ex_ann →
  RegisterRoutes (str "k") ex_env ex_auth r st = admin_handler (str "k") ex_env r st.
Proof.
  intros Hs. unfold RegisterRoutes, AdminAuthMiddleware, ex_auth. rewrite bearer_token. cbn [ae_now ex_env].
  rewrite ex_token_valid by done. by destruct (is_login r).
Qed.

Lemma admin_api_guarded_witness :
  ad_mt (RegisterRoutes (str "k") ex_env ex_auth (CreateMTRoute (Some ex_route)) ex_admin).2 = [ex_route] ∧
  ∃ token user, bearer ex_auth = Some token ∧ ValidateJWT (str "k") (8 * Second) token ex_user.2 = inl user.
Proof.
  assert (ad_mt (RegisterRoutes (str "k") ex_env ex_auth (CreateMTRoute (Some ex_route)) ex_admin).2 = [ex_route]) as Hr
    by (rewrite ex_served; by vm_compute).
  split; [exact Hr|].
  pose proof (admin_api_guarded (str "k") ex_auth ex_env (CreateMTRoute (Some ex_route)) ex_admin) as H.
  destruct (RegisterRoutes _ _ _ _ _) as [rep st']. destruct H as [H _]. apply H; [by intros|].
  left. intros ->. discriminate Hr.
Defined.
