(* ===== verification/Startup.v ===== *)
(** * Starting the gateway, and what a restart keeps

    The loading of cmd/smsc-gateway/main.go ([boot]): pools from the store, or one from
    the environment when there is none, the route tables, and the first admin user.
    [gateway_step] is everything that changes the configuration afterwards: requests to
    the admin API, resolutions (which advance round-robin counters) and restarts.  The
    invariant [persisted] says that the store has what the running gateway has; for MO
    routes, whose keys can clash, exactly that only when they were distinct ([distinct_mo]). *)

From Stdlib Require Import QArith.
From S2P Require Import Prelude Utf8 Client Pool SliceSort PoolManager RouteTable Connection Dlr.
From S2P Require Import Documents Format Store Server Gateway Router ConfigStore Encodings Json.
From S2P Require Import Accounts Config AdminApi.

Local Open Scope Z_scope.

(** The pool that the environment variables describe. *)
Definition default_pool (c : Config) : SouthboundPoolConfig :=
  mkSouthbound (str "default") (g_SMSCHost c) (g_SMSCPort c) (g_SMSCSystemID c) (g_SMSCPassword c) (g_SMSCSourceAddr c)
    (g_PoolConnections c) (g_PoolWindowSize c) false false (g_BindMode c) (g_SMPPVersion c).

Section startup.
Context {DB : Type} `{!KV DB} `{!Zone} `{!Bcrypt} `{!SliceSort}.

Abbreviation MessageStore := (MessageStore (DB := DB)).
Abbreviation Admin := (Admin (DB := DB)).

(** Pools that do not connect are left out with a warning. *)
Definition load_pools (connect : Pool → Pool * option pool_err) (cfgs : list SouthboundPoolConfig) : PoolManager :=
  foldl (λ pm pc, (pm_Add connect pc pm).1) NewPoolManager cfgs.

Definition boot_pools (connect : Pool → Pool * option pool_err) (c : Config) (s : MessageStore) :
    PoolManager * MessageStore :=
  let poolConfigs := (LoadAllPoolConfigs s).1 in
  let pm := load_pools connect poolConfigs in
  if decide (poolConfigs = [] ∧ g_SMSCHost c ≠ []) then
    match pm_Add connect (default_pool c) pm with
    | (pm, None) => (pm, SavePoolConfig (default_pool c) s)
    | (pm, Some _) => (pm, s)
    end
  else (pm, s).

Definition load_mt (routes : list MTRoute) : MTRouteTable := foldl (λ t r, MT_AddRoute r t) NewMTRouteTable routes.
Definition load_mo (routes : list MORoute) : MORouteTable := foldl (λ t r, MO_AddRoute r t) [] routes.

(** [run], with a server and counters that start anew. *)
Definition boot (c : Config) (e : ApiEnv) (s : MessageStore) : Admin :=
  let '(pm, s) := boot_pools (ae_connect e) c s in
  let mtRoutes := (LoadAllMTRoutes s).1 in
  let moRoutes := (LoadAllMORoutes s).1 in
  let s := (users_Bootstrap (ae_rnd e) (ae_salt e) (ae_now e) s).2 in
  mkAdmin s (load_mt mtRoutes) (load_mo moRoutes) pm NewServer (mkCounters (mkTotals 0 0 0 0 0) 0 0).

(** ** Configuration changes *)

(** A record as JSON decodes it; the unexported round-robin counter starts at zero. *)
Definition decoded_mt (r : MTRoute) : Prop := json_mt_route r = DMTRoute r.
Definition decoded_mo (r : MORoute) : Prop := json_mo_route r = DMORoute r.
Definition decoded_pool (c : SouthboundPoolConfig) : Prop := json_pool c = DPool c.

(** What a request brings has been decoded from JSON. *)
Definition request_ok (r : request) : Prop :=
  match r with
  | CreateMTRoute (Some r) => decoded_mt r
  | CreateMORoute (Some r) => decoded_mo r
  | CreatePool (Some c) => decoded_pool c
  | _ => True
  end.

(** A step of the running gateway; [allowed] can restrict the requests. *)
Inductive gateway_step (allowed : Admin → request → Prop) (jwtSecret : bytes) : Admin → Admin → Prop :=
| step_request e auth r st : request_ok r → allowed st r →
    gateway_step allowed jwtSecret st (RegisterRoutes jwtSecret e auth r st).2
| step_resolve msisdn st : gateway_step allowed jwtSecret st (with_mt st (MT_Resolve (ad_pools st) msisdn (ad_mt st)).1)
| step_restart c e st : decoded_pool (default_pool c) → gateway_step allowed jwtSecret st (boot c e (ad_store st)).

(** All requests; and those that add an MO route only for a pattern without a colon,
    and a pattern and source prefix that no route has. *)
Definition any_request (_ : Admin) (_ : request) : Prop := True.
Definition distinct_mo (st : Admin) (r : request) : Prop :=
  match r with
  | CreateMORoute (Some r) =>
      58 ∉ mo_DestPattern r ∧
      ∀ r', r' ∈ ad_mo st → ¬ (mo_DestPattern r' = mo_DestPattern r ∧ mo_SourcePrefix r' = mo_SourcePrefix r)
  | _ => True
  end.

End startup.

(** ** Tables loaded from a list *)

Section tables.
Context `{!SliceSort}.

(** The counter is not part of the configuration. *)
Definition mt_fresh (r : MTRoute) : MTRoute := mkMTRoute (mt_Prefix r) (mt_Strategy r) (mt_Pools r) 0.

Lemma load_mt_spec l : NoDup (mt_Prefix <$> l) → mt_ok (load_mt l) ∧ load_mt l ≡ₚ l.
Proof.
  unfold load_mt. induction l as [|r l IH] using rev_ind; [intros _; split; [split; [apply NoDup_nil_2|apply SSorted_nil]|done]|].
  rewrite fmap_app, foldl_app. cbn [foldl]. intros Hnd. apply NoDup_app in Hnd as (Hl & Hr & _).
  destruct (IH Hl) as [Hok Hp]. split; [by apply mt_ok_add|]. unfold MT_AddRoute.
  rewrite sort_slice_perm, removeByPrefix_not_found; [by rewrite Hp|].
  apply not_true_is_false. rewrite removeByPrefix_found, Hp. intros Hin. apply (Hr _ Hin). cbn. by left.
Qed.

Lemma load_mo_perm l : load_mo l ≡ₚ l.
Proof.
  unfold load_mo. induction l as [|r l IH] using rev_ind; [done|]. rewrite foldl_app. cbn [foldl].
  unfold MO_AddRoute. by rewrite sort_slice_perm, IH.
Qed.

(** Only the prefixes decide the order of the MT table. *)
Lemma no_inversion_fmap {A B} (less : A → A → bool) (f : B → B → bool) (g : A → B) l :
  (∀ a b, less a b = f (g a) (g b)) → no_inversion less l ↔ StronglySorted (λ x y, f y x = false) (g <$> l).
Proof.
  intros Hf. unfold no_inversion. induction l as [|a l IH]; cbn; [split; constructor|].
  split; intros [Hs Ha]%StronglySorted_inv; (constructor; [by apply IH|]).
  - apply Forall_fmap. eapply Forall_impl; [exact Ha|]. intros b. cbn. by rewrite Hf.
  - apply Forall_fmap in Ha. eapply Forall_impl; [exact Ha|]. intros b. cbn. by rewrite <-Hf.
Qed.

Lemma mt_ok_prefixes t t' : mt_Prefix <$> t' = mt_Prefix <$> t → mt_ok t → mt_ok t'.
Proof.
  intros He [Hu Hs]. split; [by rewrite He|].
  pose proof (λ l, no_inversion_fmap mt_less (λ x y, bool_decide (specificity y < specificity x)) mt_Prefix l mt_less_spec) as Hf.
  apply Hf. rewrite He. by apply Hf.
Qed.

Context {PM : Type} `{!PoolView PM}.

Lemma applyStrategy_fresh (pm : PM) r :
  mt_fresh (applyStrategy pm r).1 = mt_fresh r ∧ mt_Prefix (applyStrategy pm r).1 = mt_Prefix r.
Proof. unfold applyStrategy, resolveRoundRobin. by repeat case_decide. Qed.

(** A resolution changes nothing but a counter. *)
Lemma MT_Resolve_fresh (pm : PM) msisdn t :
  mt_fresh <$> (MT_Resolve pm msisdn t).1 = mt_fresh <$> t ∧ mt_Prefix <$> (MT_Resolve pm msisdn t).1 = mt_Prefix <$> t.
Proof.
  rewrite MT_Resolve_find. destruct (list_find _ t) as [[i r]|] eqn:Hf; [|done].
  apply list_find_Some in Hf as (Hi & _). cbn [fst]. rewrite !list_fmap_insert.
  destruct (applyStrategy_fresh pm r) as [-> ->].
  split; apply list_insert_id; by rewrite list_lookup_fmap, Hi.
Qed.

End tables.

(** ** The store has what the gateway has *)

Section saved.
Context {DB : Type} `{!KV DB, !KVLaws DB} `{!SliceSort}.

Abbreviation MessageStore := (MessageStore (DB := DB)).

(** Two stores agree on the records of a namespace. *)
Definition same_ns (n : namespace) (s s' : MessageStore) : Prop :=
  ∀ x, kv_get (st_db s') (key n x) = kv_get (st_db s) (key n x).

Lemma others_same n n' s s' : others_kept n s s' → n' ≠ n → same_ns n' s s'.
Proof. intros Hk Hn x. by apply Hk. Qed.

Lemma same_ns_trans n (s1 s2 s3 : MessageStore) : same_ns n s1 s2 → same_ns n s2 s3 → same_ns n s1 s3.
Proof. intros H1 H2 x. by rewrite H2. Qed.

Lemma collection_same {A} `{!Stored A} (s s' : MessageStore) (m : gmap bytes A) :
  same_ns (rec_ns A) s s' → collection s m → collection s' m.
Proof. intros Hs Hm x. rewrite Hs. apply Hm. Qed.

Definition mt_saved (s : MessageStore) (t : MTRouteTable) : Prop :=
  mt_ok t ∧ ∃ m : gmap bytes MTRoute, collection s m ∧
    ∀ p r, m !! p = Some r ↔ r ∈ mt_fresh <$> t ∧ mt_Prefix r = p.

(** The part of an MO route's key behind the namespace. *)
Definition mo_name (r : MORoute) : bytes := mo_DestPattern r ++ str ":" ++ mo_SourcePrefix r.

Definition mo_saved (s : MessageStore) (t : MORouteTable) : Prop :=
  NoDup (mo_name <$> t) ∧ Forall (λ r, 58 ∉ mo_DestPattern r) t ∧
  ∃ m : gmap bytes MORoute, collection s m ∧ ∀ k r, m !! k = Some r ↔ r ∈ t ∧ mo_name r = k.

(** Without a condition on the requests: what is stored is a route of the table, under
    its name.  [faithful] says that the condition holds throughout. *)
Definition mo_stored (s : MessageStore) (t : MORouteTable) : Prop :=
  ∃ m : gmap bytes MORoute, collection s m ∧ ∀ k r, m !! k = Some r → r ∈ t ∧ mo_name r = k.
Definition mo_kept (faithful : Prop) (s : MessageStore) (t : MORouteTable) : Prop :=
  mo_stored s t ∧ (faithful → mo_saved s t).

(** A pool that runs is stored; one that did not connect may be stored as well. *)
Definition pools_saved (s : MessageStore) (pm : PoolManager) : Prop :=
  pm_pools pm = pm_submitters pm ∧ dom (pm_configs pm) = dom (pm_submitters pm) ∧
  ∃ m : gmap bytes SouthboundPoolConfig, collection s m ∧
    (∀ n c, m !! n = Some c → sb_Name c = n) ∧ ∀ n c, pm_configs pm !! n = Some c → m !! n = Some c.

Lemma mt_saved_same s s' t : same_ns NsMTRoute s s' → mt_saved s t → mt_saved s' t.
Proof. intros Hs (Hok & m & Hm & Hr). split; [done|]. exists m. split; [|done]. by apply (collection_same s). Qed.
Lemma mo_saved_same s s' t : same_ns NsMORoute s s' → mo_saved s t → mo_saved s' t.
Proof. intros Hs (H1 & H2 & m & Hm & Hr). split; [done|]. split; [done|]. exists m. split; [|done]. by apply (collection_same s). Qed.
Lemma mo_kept_same faithful s s' t : same_ns NsMORoute s s' → mo_kept faithful s t → mo_kept faithful s' t.
Proof.
  intros Hs [(m & Hm & Hr) Hf]. split; [|intros Hall; eapply mo_saved_same; [done|by apply Hf]].
  exists m. split; [|done]. by apply (collection_same s).
Qed.
Lemma pools_saved_same s s' pm : same_ns NsPool s s' → pools_saved s pm → pools_saved s' pm.
Proof. intros Hs (H1 & H2 & m & Hm & Hr). split; [done|]. split; [done|]. exists m. split; [|done]. by apply (collection_same s). Qed.

(** *** MT routes *)

Lemma mt_fresh_elem (r : MTRoute) (t : MTRouteTable) : r ∈ mt_fresh <$> t ↔ ∃ r0, r0 ∈ t ∧ r = mt_fresh r0.
Proof. rewrite list_elem_of_fmap. naive_solver. Qed.

Lemma mt_saved_add s t r : decoded_mt r → mt_saved s t → mt_saved (SaveMTRoute r s) (MT_AddRoute r t).
Proof.
  intros Hd (Hok & m & Hm & Hr). split; [by apply mt_ok_add|]. exists (<[mt_Prefix r := r]> m). split.
  - unfold SaveMTRoute, mt_route_key. rewrite Hd. exact (collection_set (A := MTRoute) s m (mt_Prefix r) r Hm).
  - intros p r'. rewrite lookup_insert_Some, Hr, !mt_fresh_elem.
    assert (∀ r0, r0 ∈ MT_AddRoute r t ↔ r0 = r ∨ (r0 ∈ t ∧ mt_Prefix r0 ≠ mt_Prefix r)) as He.
    { intros r0. unfold MT_AddRoute.
      rewrite sort_slice_elem, elem_of_app, list_elem_of_singleton, removeByPrefix_elem; [tauto|apply Hok]. }
    assert (mt_fresh r = r) as Hf by (unfold decoded_mt, json_mt_route in Hd; by injection Hd as <-).
    split.
    + intros [[<- <-]|(Hp & (r0 & Hin & ->) & <-)].
      * split; [|done]. exists r. split; [apply He; by left|done].
      * split; [|done]. exists r0. split; [apply He; right; split; [done|]; by cbn in Hp|done].
    + intros [(r0 & [->|[Hin Hp]]%He & ->) <-].
      * left. by rewrite Hf.
      * right. split; [cbn; congruence|]. split; [by exists r0|done].
Qed.

Lemma mt_saved_remove s t p : mt_saved s t → mt_saved (DeleteMTRoute p s) (MT_RemoveRoute p t).1.
Proof.
  intros (Hok & m & Hm & Hr). split; [by apply mt_ok_remove|]. exists (delete p m). split.
  - exact (collection_delete (A := MTRoute) s m p Hm).
  - intros p' r'. rewrite lookup_delete_Some, Hr, !mt_fresh_elem. unfold MT_RemoveRoute.
    assert (∀ r0, r0 ∈ (removeByPrefixLocked p t).1 ↔ r0 ∈ t ∧ mt_Prefix r0 ≠ p) as He
      by (intros r0; apply removeByPrefix_elem, Hok).
    split.
    + intros (Hp & (r0 & Hin & ->) & <-). split; [|done]. exists r0. split; [|done]. apply He. split; [done|].
      cbn in Hp. congruence.
    + intros [(r0 & [Hin Hp]%He & ->) <-]. split; [cbn; congruence|]. split; [by exists r0|done].
Qed.

Lemma mt_saved_resolve {PM} `{!PoolView PM} (pm : PM) msisdn s t :
  mt_saved s t → mt_saved s (MT_Resolve pm msisdn t).1.
Proof.
  intros (Hok & m & Hm & Hr). destruct (MT_Resolve_fresh pm msisdn t) as [Hf Hp].
  split; [by eapply mt_ok_prefixes|]. exists m. split; [done|]. intros p r. by rewrite Hf.
Qed.

Lemma mt_saved_load s t : mt_saved s t →
  mt_saved s (load_mt (LoadAllMTRoutes s).1) ∧ load_mt (LoadAllMTRoutes s).1 ≡ₚ mt_fresh <$> t.
Proof.
  intros (Hok & m & Hm & Hr). unfold LoadAllMTRoutes. change (str "route:mt:") with (ns_prefix (rec_ns MTRoute)).
  rewrite (scan_load s m Hm). cbn [fst].
  assert (∀ r, r ∈ (entries m).*2 ↔ r ∈ mt_fresh <$> t) as He.
  { intros r. rewrite list_elem_of_fmap. split.
    - intros ([p r'] & -> & Hin%entries_elem). by apply Hr in Hin as [? _].
    - intros Hin. exists (mt_Prefix r, r). split; [done|]. by apply entries_elem, Hr. }
  assert (mt_Prefix <$> (entries m).*2 = (entries m).*1) as Hp.
  { rewrite <-list_fmap_compose. apply list_fmap_ext. intros i [p r] Hi. apply list_elem_of_lookup_2 in Hi.
    by apply entries_elem, Hr in Hi as [_ ?]. }
  assert (NoDup (mt_Prefix <$> (entries m).*2)) as Hnd by (rewrite Hp; apply entries_NoDup).
  destruct (load_mt_spec _ Hnd) as [Hok' Hl].
  assert (∀ r, mt_fresh <$> t = mt_fresh <$> t → r ∈ mt_fresh <$> t → mt_fresh r = r) as Hff
    by (intros r _ (r0 & -> & _)%list_elem_of_fmap; done).
  split.
  - split; [done|]. exists m. split; [done|]. intros p r. rewrite Hr, !mt_fresh_elem. split.
    + intros [(r0 & Hin & ->) Hpx]. split; [|done]. exists (mt_fresh r0). split; [|done]. rewrite Hl, He.
      apply list_elem_of_fmap. by exists r0.
    + intros [(r0 & Hin & ->) Hpx]. split; [|done]. rewrite Hl, He in Hin.
      apply list_elem_of_fmap in Hin as (r1 & -> & Hin). by exists r1.
  - rewrite Hl. apply NoDup_Permutation; [by eapply NoDup_fmap_1| |done].
    apply (NoDup_fmap_1 mt_Prefix). rewrite <-list_fmap_compose. by destruct Hok as [Hu _].
Qed.

(** *** MO routes *)

Lemma mo_name_inj r r' : 58 ∉ mo_DestPattern r → 58 ∉ mo_DestPattern r' → mo_name r = mo_name r' →
  mo_DestPattern r = mo_DestPattern r' ∧ mo_SourcePrefix r = mo_SourcePrefix r'.
Proof.
  unfold mo_name. generalize (mo_DestPattern r) (mo_DestPattern r') (mo_SourcePrefix r) (mo_SourcePrefix r').
  change (str ":") with [58]. intros d. induction d as [|b d IH]; intros [|b' d'] s s' H1 H2 He; cbn in He.
  - by injection He as <-.
  - injection He as <- _. exfalso. apply H2. by left.
  - injection He as -> _. exfalso. apply H1. by left.
  - injection He as <- He. apply not_elem_of_cons in H1 as [_ H1]. apply not_elem_of_cons in H2 as [_ H2].
    destruct (IH d' s s' H1 H2 He) as [-> ->]. done.
Qed.

Lemma split_colon_name id d s : split_colon id = (d, s) → 58 ∉ d.
Proof.
  revert d s. induction id as [|b id IH]; cbn; intros d s; [intros [= <- <-]; apply not_elem_of_nil|].
  case_decide as Hb; [intros [= <- <-]; apply not_elem_of_nil|]. destruct (split_colon id) as [d' s'].
  intros [= <- <-]. apply not_elem_of_cons. split; [done|by eapply IH].
Qed.

Lemma mo_saved_add s t r :
  decoded_mo r → 58 ∉ mo_DestPattern r →
  (∀ r', r' ∈ t → ¬ (mo_DestPattern r' = mo_DestPattern r ∧ mo_SourcePrefix r' = mo_SourcePrefix r)) →
  mo_saved s t → mo_saved (SaveMORoute r s) (MO_AddRoute r t).
Proof.
  intros Hd Hc Hnew (Hnd & Hcs & m & Hm & Hr).
  assert (MO_AddRoute r t ≡ₚ r :: t) as Hp by (unfold MO_AddRoute; by rewrite sort_slice_perm, Permutation_app_comm).
  assert (mo_name r ∉ mo_name <$> t) as Hfresh.
  { intros (r' & He & Hin)%list_elem_of_fmap. apply (Hnew r' Hin). rewrite Forall_forall in Hcs.
    destruct (mo_name_inj r r' Hc (Hcs _ Hin) He) as [-> ->]. done. }
  split; [rewrite Hp; by constructor|]. split; [rewrite Hp; by constructor|].
  exists (<[mo_name r := r]> m). split.
  - unfold SaveMORoute, mo_route_key. rewrite Hd. exact (collection_set (A := MORoute) s m (mo_name r) r Hm).
  - intros k r'. rewrite lookup_insert_Some, Hr, Hp, elem_of_cons. split; [naive_solver|].
    intros [[->|Hin] <-]; [by left|]. right. split; [|done]. intros He. apply Hfresh. rewrite He.
    apply list_elem_of_fmap. by exists r'.
Qed.

Lemma mo_saved_remove s t d p : 58 ∉ d → mo_saved s t → mo_saved (DeleteMORoute d p s) (MO_RemoveRoute d p t).1.
Proof.
  intros Hc (Hnd & Hcs & m & Hm & Hr).
  assert (collection (DeleteMORoute d p s) (delete (d ++ str ":" ++ p) m)) as Hm'
    by exact (collection_delete (A := MORoute) s m (d ++ str ":" ++ p) Hm).
  assert (∀ r, r ∈ t → mo_name r = d ++ str ":" ++ p ↔ (mo_DestPattern r = d ∧ mo_SourcePrefix r = p)) as Hname.
  { intros r Hin. rewrite Forall_forall in Hcs. split; [|intros [<- <-]; done]. intros He.
    exact (mo_name_inj r (mkMORoute d p (mo_Target r) 0) (Hcs _ Hin) Hc He). }
  pose proof (MO_RemoveRoute_spec d p t) as Hs. destruct (MO_RemoveRoute d p t) as [t' [|]]; cbn [fst].
  - destruct Hs as (pre & r & post & -> & -> & Hd & Hsrc & Hpre).
    assert (mo_name r = d ++ str ":" ++ p) as Hk by (apply Hname; [set_solver|done]).
    rewrite fmap_app, fmap_cons in Hnd.
    assert (mo_name r ∉ mo_name <$> (pre ++ post)) as Hout.
    { rewrite fmap_app, elem_of_app. apply NoDup_app in Hnd as (_ & Hx & [Hy _]%NoDup_cons).
      intros [Hin|Hin]; [|done]. apply (Hx _ Hin). by left. }
    split; [rewrite fmap_app; rewrite <-Permutation_middle in Hnd; by apply NoDup_cons in Hnd as [_ ?]|].
    split; [apply Forall_app in Hcs as [? [_ ?]%Forall_cons]; by apply Forall_app|].
    exists (delete (d ++ str ":" ++ p) m). split; [done|]. intros k r'. rewrite lookup_delete_Some, Hr.
    split.
    + intros (Hne & Hin & <-). split; [|done]. apply elem_of_app in Hin as [?|[->|?]%elem_of_cons]; [set_solver|congruence|set_solver].
    + intros [Hin <-]. split; [|split; [set_solver|done]]. rewrite <-Hk. intros He. apply Hout. rewrite He.
      apply list_elem_of_fmap. by exists r'.
  - destruct Hs as [-> Hno]. split; [done|]. split; [done|]. exists (delete (d ++ str ":" ++ p) m). split; [done|].
    intros k r. rewrite lookup_delete_Some, Hr. split; [tauto|]. intros [Hin <-]. split; [|done].
    intros He. rewrite Forall_forall in Hno. apply (Hno r Hin). by apply Hname.
Qed.

Lemma mo_saved_load s t : mo_saved s t →
  mo_saved s (load_mo (LoadAllMORoutes s).1) ∧ load_mo (LoadAllMORoutes s).1 ≡ₚ t.
Proof.
  intros (Hnd & Hcs & m & Hm & Hr). unfold LoadAllMORoutes. change (str "route:mo:") with (ns_prefix (rec_ns MORoute)).
  rewrite (scan_load s m Hm). cbn [fst].
  assert (load_mo (entries m).*2 ≡ₚ t) as Hp.
  { rewrite load_mo_perm. apply NoDup_Permutation.
    - apply (NoDup_fmap_1 mo_name). assert (mo_name <$> (entries m).*2 = (entries m).*1) as ->; [|apply entries_NoDup].
      rewrite <-list_fmap_compose. apply list_fmap_ext. intros i [k r] Hi. apply list_elem_of_lookup_2 in Hi.
      by apply entries_elem, Hr in Hi as [_ ?].
    - by apply (NoDup_fmap_1 mo_name).
    - intros r. rewrite list_elem_of_fmap. split.
      + intros ([k r'] & -> & Hin%entries_elem). by apply Hr in Hin as [? _].
      + intros Hin. exists (mo_name r, r). split; [done|]. by apply entries_elem, Hr. }
  split; [|done]. split; [by rewrite Hp|]. split; [by rewrite Hp|]. exists m. split; [done|].
  intros k r. by rewrite Hr, Hp.
Qed.

Lemma mo_stored_add s t r : decoded_mo r → mo_stored s t → mo_stored (SaveMORoute r s) (MO_AddRoute r t).
Proof.
  intros Hd (m & Hm & Hr).
  assert (MO_AddRoute r t ≡ₚ r :: t) as Hp by (unfold MO_AddRoute; by rewrite sort_slice_perm, Permutation_app_comm).
  exists (<[mo_name r := r]> m). split.
  - unfold SaveMORoute, mo_route_key. rewrite Hd. exact (collection_set (A := MORoute) s m (mo_name r) r Hm).
  - intros k r'. rewrite Hp. intros [[<- <-]|[_ [Hin <-]%Hr]]%lookup_insert_Some; (split; [|done]); [by left|by right].
Qed.

Lemma mo_stored_remove s t d p : mo_stored s t → mo_stored (DeleteMORoute d p s) (MO_RemoveRoute d p t).1.
Proof.
  intros (m & Hm & Hr). exists (delete (d ++ str ":" ++ p) m). split.
  { exact (collection_delete (A := MORoute) s m (d ++ str ":" ++ p) Hm). }
  intros k r [Hne [Hin <-]%Hr]%lookup_delete_Some. split; [|done].
  pose proof (MO_RemoveRoute_spec d p t) as Hs. destruct (MO_RemoveRoute d p t) as [t' [|]]; cbn [fst]; [|by destruct Hs as [-> _]].
  destruct Hs as (pre & r0 & post & -> & -> & <- & <- & _). apply elem_of_app in Hin as [Hin|[->|Hin]%elem_of_cons];
    [apply elem_of_app; by left|by destruct Hne|apply elem_of_app; by right].
Qed.

(** What is loaded: a part of the table, every name once. *)
Lemma mo_stored_load s t : mo_stored s t → let t' := load_mo (LoadAllMORoutes s).1 in
  mo_stored s t' ∧ (∀ r, r ∈ t' → r ∈ t) ∧ NoDup (mo_name <$> t').
Proof.
  intros (m & Hm & Hr). unfold LoadAllMORoutes. change (str "route:mo:") with (ns_prefix (rec_ns MORoute)).
  rewrite (scan_load s m Hm). cbn [fst]. cbv zeta.
  assert (∀ r, r ∈ load_mo (entries m).*2 ↔ ∃ k, m !! k = Some r) as Hin.
  { intros r. rewrite load_mo_perm, list_elem_of_fmap. split.
    - intros ([k r'] & -> & Hi%entries_elem). by exists k.
    - intros [k Hk]. exists (k, r). split; [done|]. by apply entries_elem. }
  split; [|split].
  - exists m. split; [done|]. intros k r Hk. split; [apply Hin; by exists k|]. by apply Hr.
  - intros r [k [? _]%Hr]%Hin. done.
  - rewrite load_mo_perm. assert (mo_name <$> (entries m).*2 = (entries m).*1) as ->; [|apply entries_NoDup].
    rewrite <-list_fmap_compose. apply list_fmap_ext. intros i [k r] Hi. apply list_elem_of_lookup_2 in Hi.
    by apply entries_elem, Hr in Hi as [_ ?].
Qed.

Lemma mo_kept_load faithful s t : mo_kept faithful s t → mo_kept faithful s (load_mo (LoadAllMORoutes s).1).
Proof. intros [Hs Hf]. split; [by apply (mo_stored_load s t)|]. intros Hall. by apply (mo_saved_load s t), Hf. Qed.

(** *** Pools *)

Lemma pools_saved_add connect c s pm :
  decoded_pool c → pools_saved s pm → 
  let '(pm', err) := pm_Add connect c pm in
  pools_saved (match err with None => SavePoolConfig c s | Some _ => s end) pm'.
Proof.
  intros Hd Hs. pose proof Hs as (H1 & H2 & m & Hm & Hk & Hr). unfold pm_Add, addSMPP.
  case_decide; [done|]. case_decide; [done|]. destruct (connect _) as [p [e|]]; [done|].
  split; [cbn; by rewrite H1|]. split; [cbn; by rewrite !dom_insert_L, H2|].
  exists (<[sb_Name c := c]> m). split.
  - unfold SavePoolConfig, pool_key. rewrite Hd. exact (collection_set (A := SouthboundPoolConfig) s m (sb_Name c) c Hm).
  - split.
    + intros n c' [[<- <-]|[_ Hc]]%lookup_insert_Some; [done|by apply Hk].
    + cbn. intros n c'. rewrite !lookup_insert_Some. naive_solver.
Qed.

(** The two maps of references agree, and every pool has its configuration. *)
Definition pm_paired (pm : PoolManager) : Prop :=
  pm_pools pm = pm_submitters pm ∧ dom (pm_configs pm) = dom (pm_submitters pm).

(** The pool of a configuration as a start finds it: there if a member connects. *)
Definition restarted (connect : Pool → Pool * option pool_err) (c : SouthboundPoolConfig) : option SouthboundPoolConfig :=
  match (connect (NewPool (southbound_client c) (southbound_pool c))).2 with None => Some c | Some _ => None end.

Lemma pm_Add_paired connect c pm : pm_paired pm →
  let pm' := (pm_Add connect c pm).1 in
  pm_paired pm' ∧
  (∀ n c', pm_configs pm' !! n = Some c' → (n = sb_Name c ∧ c' = c) ∨ pm_configs pm !! n = Some c') ∧
  (pm_configs pm !! sb_Name c = None →
    pm_configs pm' !! sb_Name c = restarted connect c ∧
    ∀ n, n ≠ sb_Name c → pm_configs pm' !! n = pm_configs pm !! n).
Proof.
  intros [H1 H2] pm'. subst pm'. unfold pm_Add, addSMPP. rewrite H1.
  destruct (decide (is_Some (pm_submitters pm !! sb_Name c))) as [Hs|_].
  { split; [done|]. split; [auto|]. intros Hn. apply elem_of_dom in Hs. rewrite <-H2 in Hs.
    apply elem_of_dom in Hs as [? ?]. congruence. }
  unfold restarted. destruct (connect _) as [p [e|]] eqn:Ec; cbn.
  - split; [done|]. split; [auto|]. done.
  - split; [split; [done|]; cbn; by rewrite !dom_insert_L, H2|]. split.
    + intros n c' [[<- <-]|[_ Hn]]%lookup_insert_Some; auto.
    + intros _. split; [apply lookup_insert_eq|]. intros n Hn. by rewrite lookup_insert_ne.
Qed.

Lemma load_pools_spec connect cfgs : NoDup (sb_Name <$> cfgs) →
  let pm := load_pools connect cfgs in
  pm_paired pm ∧ (∀ n c, pm_configs pm !! n = Some c → c ∈ cfgs ∧ sb_Name c = n) ∧
  (∀ c, c ∈ cfgs → pm_configs pm !! sb_Name c = restarted connect c).
Proof.
  unfold load_pools. induction cfgs as [|c cfgs IH] using rev_ind; intros Hnd; cbv zeta.
  { split; [done|]. split; [intros n c Hx; exfalso; exact (lookup_empty_Some n c Hx)|intros c Hx; by apply elem_of_nil in Hx]. }
  rewrite fmap_app in Hnd. apply NoDup_app in Hnd as (Hnd & Hc & _).
  destruct (IH Hnd) as (H1 & H2 & H3). rewrite foldl_app. cbn [foldl].
  set (pm := foldl (λ pm pc, (pm_Add connect pc pm).1) NewPoolManager cfgs) in *.
  assert (∀ c', c' ∈ cfgs → sb_Name c' ≠ sb_Name c) as Hne.
  { intros c' Hin He. apply (Hc (sb_Name c')); [apply list_elem_of_fmap; by exists c'|]. cbn. rewrite He. by left. }
  destruct (pm_Add_paired connect c pm H1) as (G1 & G2 & G3). split; [done|]. split.
  - intros n c' [[-> ->]|[? ?]%H2]%G2; (split; [|done]); apply elem_of_app; [right; by left|by left].
  - assert (pm_configs pm !! sb_Name c = None) as Hn.
    { destruct (pm_configs pm !! sb_Name c) as [c'|] eqn:E; [|done]. apply H2 in E as [Hin He]. by destruct (Hne c' Hin). }
    destruct (G3 Hn) as [G4 G5]. intros c' [Hin| ->%list_elem_of_singleton]%elem_of_app; [|done].
    rewrite G5; [by apply H3|]. by apply Hne.
Qed.

(** A restart: what the store holds is loaded, and saved still. *)
Lemma pools_saved_boot connect c s pm : decoded_pool (default_pool c) → pools_saved s pm →
  let '(pm', s') := boot_pools connect c s in
  pools_saved s' pm' ∧ others_kept NsPool s s' ∧
  (∀ n cfg, pm_configs pm !! n = Some cfg → pm_configs pm' !! n = restarted connect cfg).
Proof.
  intros Hd (_ & _ & m & Hm & Hk & Hr). unfold boot_pools, LoadAllPoolConfigs.
  change (str "pool:") with (ns_prefix (rec_ns SouthboundPoolConfig)). rewrite (scan_load s m Hm). cbn [fst].
  assert (sb_Name <$> (entries m).*2 = (entries m).*1) as Hp.
  { rewrite <-list_fmap_compose. apply list_fmap_ext. intros i [p r] Hi. apply list_elem_of_lookup_2 in Hi.
    by apply entries_elem, Hk in Hi. }
  assert (NoDup (sb_Name <$> (entries m).*2)) as Hnd by (rewrite Hp; apply entries_NoDup).
  destruct (load_pools_spec connect _ Hnd) as (H1 & H2 & H3).
  set (pm1 := load_pools connect (entries m).*2) in *.
  assert (pools_saved s pm1) as Hs1.
  { destruct H1. split; [done|]. split; [done|]. exists m. split; [done|]. split; [done|].
    intros n c' [([n' c''] & -> & Hin%entries_elem)%list_elem_of_fmap <-]%H2. cbn in *. by rewrite (Hk _ _ Hin). }
  assert (∀ n cfg, pm_configs pm !! n = Some cfg → pm_configs pm1 !! n = restarted connect cfg) as Hall.
  { intros n cfg Hn%Hr. rewrite <-(Hk _ _ Hn). apply H3. apply list_elem_of_fmap.
    exists (n, cfg). split; [done|]. by apply entries_elem. }
  case_decide as Hdef; [|by split_and!].
  pose proof (pools_saved_add connect (default_pool c) s pm1 Hd Hs1) as Ha.
  assert (∀ n cfg, pm_configs pm !! n = Some cfg →
    pm_configs (pm_Add connect (default_pool c) pm1).1 !! n = restarted connect cfg) as Hall2.
  { destruct Hdef as [Hdef _]. intros n cfg Hn%Hr. exfalso.
    assert ((n, cfg) ∈ entries m) as Hin by by apply entries_elem.
    assert (cfg ∈ (entries m).*2) as Hx by (apply list_elem_of_fmap; by exists (n, cfg)).
    rewrite Hdef in Hx. by apply elem_of_nil in Hx. }
  destruct (pm_Add connect (default_pool c) pm1) as [pm2 [err|]]; cbn [fst] in *; split_and!; try done.
  apply others_kept_set.
Qed.

Lemma pools_saved_remove oks n s pm : pools_saved s pm →
  match pm_Remove oks n pm with
  | Ret pm' => pools_saved (DeletePoolConfig n s) pm'
  | Fail _ => pools_saved (DeletePoolConfig n s) pm
  | Panic => True
  end.
Proof.
  intros (H1 & H2 & m & Hm & Hk & Hr).
  assert (collection (DeletePoolConfig n s) (delete n m)) as Hm' by exact (collection_delete (A := SouthboundPoolConfig) s m n Hm).
  assert (∀ x c, delete n m !! x = Some c → sb_Name c = x) as Hk' by (intros x c [_ Hx]%lookup_delete_Some; by apply Hk).
  unfold pm_Remove. rewrite H1. destruct (pm_submitters pm !! n) as [r|] eqn:Es.
  - destruct (close_ref oks (pm_heap pm) r) as [heap|e|]; [|done..].
    split; [done|]. cbn [pm_configs pm_submitters]. split; [by rewrite !dom_delete_L, H2|].
    exists (delete n m). split; [done|]. split; [done|]. intros x c [Hx Hc]%lookup_delete_Some.
    apply lookup_delete_Some. split; [done|by apply Hr].
  - split; [done|]. split; [done|]. exists (delete n m). split; [done|]. split; [done|]. intros x c Hc.
    apply lookup_delete_Some. split; [|by apply Hr]. intros <-. apply (not_elem_of_dom (D := gset bytes)) in Es.
    apply Es. rewrite <-H2. by eapply elem_of_dom_2.
Qed.

End saved.

(** ** The running gateway *)

Section gateway.
Context {DB : Type} `{!KV DB, !KVLaws DB} `{!Zone} `{!Bcrypt} `{!SliceSort}.

Abbreviation MessageStore := (MessageStore (DB := DB)).
Abbreviation Admin := (Admin (DB := DB)).

(** Whether all MO routes so far were distinct. *)
Context (faithful : Prop).

Definition persisted (st : Admin) : Prop :=
  mt_saved (ad_store st) (ad_mt st) ∧ mo_kept faithful (ad_store st) (ad_mo st) ∧ pools_saved (ad_store st) (ad_pools st) ∧
  ∃ m : gmap bytes APIKey, collection (ad_store st) m.

(** Namespaces that the invariant does not read. *)
Definition apart (n : namespace) : Prop := n ≠ NsMTRoute ∧ n ≠ NsMORoute ∧ n ≠ NsPool ∧ n ≠ NsAPIKey.

Lemma persisted_kept n st s' : apart n → others_kept n (ad_store st) s' → persisted st → persisted (with_store st s').
Proof.
  intros (N1 & N2 & N3 & N4) Hk (Hmt & Hmo & Hpl & m & Hak). split; [|split; [|split]]; cbn.
  - eapply mt_saved_same; [by eapply others_same|done].
  - eapply mo_kept_same; [by eapply others_same|done].
  - eapply pools_saved_same; [by eapply others_same|done].
  - exists m. by eapply collection_same; [eapply others_same|].
Qed.

Lemma users_Create_kept salt now u p r (s : MessageStore) : others_kept NsUser s (users_Create salt now u p r s).2.
Proof. unfold users_Create. destruct (bcrypt_generate salt p); [apply others_kept_set|done]. Qed.

Lemma users_ChangePassword_kept salt u p q (s : MessageStore) : others_kept NsUser s (users_ChangePassword salt u p q s).2.
Proof.
  unfold users_ChangePassword. destruct (GetJSON un_user (user_key u) s) as [user| |]; [|done..].
  destruct (bcrypt_compare _ p); [|done]. cbn [negb]. destruct (bcrypt_generate salt q); [apply others_kept_set|done].
Qed.

Lemma users_Bootstrap_kept rnd salt now (s : MessageStore) : others_kept NsUser s (users_Bootstrap rnd salt now s).2.
Proof.
  unfold users_Bootstrap. destruct (ScanPrefix _ _ _ _).1; [done|].
  destruct (bcrypt_generate salt _); [apply others_kept_set|done].
Qed.

Lemma cs_Create_kept salt now c (s : MessageStore) : others_kept NsConnConfig s (cs_Create salt now c s).2.
Proof.
  unfold cs_Create. case_decide; [done|]. destruct (GetJSON _ _ s); try done; (case_decide; [done|]);
    (destruct (bcrypt_generate salt _); [apply others_kept_set|done]).
Qed.

Lemma cs_Update_kept salt now c (s : MessageStore) : others_kept NsConnConfig s (cs_Update salt now c s).2.
Proof.
  unfold cs_Update. case_decide; [done|]. destruct (cs_Get _ s) as [[old|]|err]; [|done..].
  destruct (if decide _ then _ else _) as [h|]; [apply others_kept_set|done].
Qed.

Lemma keys_Create_kept rnd ids now label rate (s : MessageStore) : others_kept NsAPIKey s (keys_Create rnd ids now label rate s).2.
Proof. apply others_kept_set. Qed.

Lemma keys_Create_collection (rnd ids : bytes) (now : Z) (label : bytes) (rate : Z) (s : MessageStore) (m : gmap bytes APIKey) :
  collection s m → ∃ m' : gmap bytes APIKey, collection (keys_Create rnd ids now label rate s).2 m'.
Proof. intros Hm. eexists. apply api_key_set, Hm. Qed.

Lemma keys_Revoke_kept (id : bytes) (s : MessageStore) (m : gmap bytes APIKey) : collection s m →
  others_kept NsAPIKey s (keys_Revoke id s).2 ∧ ∃ m' : gmap bytes APIKey, collection (keys_Revoke id s).2 m'.
Proof.
  intros Hm. destruct (Revoke_spec id s m Hm) as [(h & k & _ & _ & ->)|[_ ->]]; cbn [snd].
  - split; [apply others_kept_delete|]. exists (delete h m). exact (collection_delete (A := APIKey) s m h Hm).
  - split; [done|by exists m].
Qed.

(** Keys change no routes and no pools. *)
Lemma persisted_keys (st : Admin) (s' : MessageStore) (m : gmap bytes APIKey) :
  others_kept NsAPIKey (ad_store st) s' → collection s' m → persisted st → persisted (with_store st s').
Proof.
  intros Hk Hc (Hmt & Hmo & Hpl & _). split; [|split; [|split]]; cbn.
  - eapply mt_saved_same; [by eapply others_same|done].
  - eapply mo_kept_same; [by eapply others_same|done].
  - eapply pools_saved_same; [by eapply others_same|done].
  - by exists m.
Qed.

Lemma saved_mt_kept st t s' : others_kept NsMTRoute (ad_store st) s' → mt_saved s' t → persisted st →
  persisted (with_store (with_mt st t) s').
Proof.
  intros Hk Hc (Hmt & Hmo & Hpl & m & Hak). split; [done|]. split; [|split]; cbn.
  - eapply mo_kept_same; [by eapply others_same|done].
  - eapply pools_saved_same; [by eapply others_same|done].
  - exists m. by eapply collection_same; [eapply others_same|].
Qed.

Lemma saved_mo_kept st t s' : others_kept NsMORoute (ad_store st) s' → mo_kept faithful s' t → persisted st →
  persisted (with_store (with_mo st t) s').
Proof.
  intros Hk Hc (Hmt & Hmo & Hpl & m & Hak). split; [|split; [done|split]]; cbn.
  - eapply mt_saved_same; [by eapply others_same|done].
  - eapply pools_saved_same; [by eapply others_same|done].
  - exists m. by eapply collection_same; [eapply others_same|].
Qed.

Lemma saved_pools_kept st pm s' : others_kept NsPool (ad_store st) s' → pools_saved s' pm → persisted st →
  persisted (with_store (with_pools st pm) s').
Proof.
  intros Hk Hc (Hmt & Hmo & Hpl & m & Hak). split; [|split; [|split; [done|]]]; cbn.
  - eapply mt_saved_same; [by eapply others_same|done].
  - eapply mo_kept_same; [by eapply others_same|done].
  - exists m. by eapply collection_same; [eapply others_same|].
Qed.

Lemma with_store_pools (st : Admin) pm : with_store (with_pools st pm) (ad_store st) = with_pools st pm.
Proof. done. Qed.
Lemma with_pools_store (st : Admin) s : with_store st s = with_store (with_pools st (ad_pools st)) s.
Proof. done. Qed.

Lemma create_pool_persisted e c st : decoded_pool c → persisted st → persisted (handleCreatePool e (Some c) st).2.
Proof.
  intros Hd Hst. pose proof (pools_saved_add (ae_connect e) c (ad_store st) (ad_pools st) Hd) as Ha.
  unfold handleCreatePool. destruct (pm_Add _ _ _) as [pm [err|]]; cbn [snd].
  - rewrite <-with_store_pools. apply saved_pools_kept; [done| |done]. apply Ha, Hst.
  - apply (saved_pools_kept st pm); [apply others_kept_set|apply Ha, Hst|done].
Qed.

Lemma delete_pool_persisted e n st : persisted st → persisted (handleDeletePool e n st).2.
Proof.
  intros Hst. pose proof (pools_saved_remove (ae_closed e) n (ad_store st) (ad_pools st)) as Ha.
  unfold handleDeletePool. destruct (pm_Remove _ _ _) as [pm|err|]; cbn [snd]; [| |done].
  - apply saved_pools_kept; [apply others_kept_delete|apply Ha, Hst|done].
  - rewrite with_pools_store. apply saved_pools_kept; [apply others_kept_delete|apply Ha, Hst|done].
Qed.

Lemma delete_mo_persisted id st : persisted st → persisted (handleDeleteMORoute id st).2.
Proof.
  intros Hst. unfold handleDeleteMORoute. destruct (split_colon id) as [d p] eqn:E. apply split_colon_name in E.
  cbn [snd]. apply (saved_mo_kept st); [apply others_kept_delete| |done]. destruct Hst as (_ & [Hs Hf] & _).
  split; [by apply mo_stored_remove|]. intros Hall. apply mo_saved_remove; [done|by apply Hf].
Qed.

Lemma apart_user : apart NsUser. Proof. by split_and!. Qed.
Lemma apart_conn : apart NsConnConfig. Proof. by split_and!. Qed.

(** A handler that ends in one of two answers with the same store. *)
Lemma persisted_answer {A} (x : option A * MessageStore) (f : A → reply) (g : reply) st :
  persisted (with_store st x.2) → persisted (match x with (Some err, s) => (f err, with_store st s) | (None, s) => (g, with_store st s) end).2.
Proof. by destruct x as [[?|] ?]. Qed.

Lemma admin_handler_persisted jwtSecret e r st :
  request_ok r → (faithful → distinct_mo st r) → persisted st → persisted (admin_handler jwtSecret e r st).2.
Proof.
  intros Hr Hdist Hst. pose proof Hst as (Hmt & Hmo & Hpl & m & Hak).
  destruct r as [| | | | |[r|]|prefix| |[r|]|id| |[c|]|name| |[[label rate]|]|id| |[[[u p] r]|]|u|u [[p q]|]
    | |id|[c|]|id [c|]|id|q|]; try exact Hst; cbn [admin_handler request_ok] in *.
  - apply (saved_mt_kept st); [apply others_kept_set|by apply mt_saved_add|done].
  - apply (saved_mt_kept st); [apply others_kept_delete|by apply mt_saved_remove|done].
  - apply (saved_mo_kept st); [apply others_kept_set| |done]. destruct Hmo as [Hs Hf]. split; [by apply mo_stored_add|].
    intros Hall. destruct (Hdist Hall). apply mo_saved_add; [done..|by apply Hf].
  - by apply delete_mo_persisted.
  - by apply create_pool_persisted.
  - by apply delete_pool_persisted.
  - cbn [handleCreateAPIKey]. destruct (keys_Create_collection (ae_rnd e) (ae_idBytes e) (ae_now e) label rate _ m Hak) as [m' Hm'].
    by apply (persisted_keys st _ m'); [apply keys_Create_kept| |].
  - destruct (keys_Revoke_kept id _ m Hak) as [Hk [m' Hm']]. apply persisted_answer. by eapply persisted_keys.
  - apply persisted_answer. eapply persisted_kept; [exact apart_user|apply users_Create_kept|done].
  - eapply persisted_kept; [exact apart_user|apply others_kept_delete|done].
  - apply persisted_answer. eapply persisted_kept; [exact apart_user|apply users_ChangePassword_kept|done].
  - pose proof (cs_Create_kept (ae_salt e) (ae_now e) c (ad_store st)) as Hk. cbn [handleCreateConnConfig].
    destruct (cs_Create _ _ _ _) as [[[err|] c'] s']; (eapply persisted_kept; [exact apart_conn|exact Hk|done]).
  - pose proof (cs_Update_kept (ae_salt e) (ae_now e) (cc_with_ID c id) (ad_store st)) as Hk. cbn [handleUpdateConnConfig].
    assert (persisted (with_store st (cs_Update (ae_salt e) (ae_now e) (cc_with_ID c id) (ad_store st)).2)) as Hp
      by (eapply persisted_kept; [exact apart_conn|exact Hk|done]).
    destruct (cs_Update _ _ _ _) as [[err|] s']; [done|]. by destruct (cs_Get id s') as [[?|]|?].
  - eapply persisted_kept; [exact apart_conn|apply others_kept_delete|done].
Qed.

Lemma boot_persisted c e st : decoded_pool (default_pool c) → persisted st → persisted (boot c e (ad_store st)).
Proof.
  intros Hd (Hmt & Hmo & Hpl & m & Hak). unfold boot.
  pose proof (pools_saved_boot (ae_connect e) c _ _ Hd Hpl) as Hb. destruct (boot_pools _ c _) as [pm s].
  destruct Hb as (Hpl' & Hk & _).
  assert (mt_saved s (ad_mt st)) as Hmt' by (eapply mt_saved_same; [by eapply others_same|done]).
  assert (mo_kept faithful s (ad_mo st)) as Hmo' by (eapply mo_kept_same; [by eapply others_same|done]).
  apply mt_saved_load in Hmt' as [Hmt' _]. apply mo_kept_load in Hmo'.
  apply (persisted_kept NsUser (mkAdmin s _ _ pm _ _)); [exact apart_user|apply users_Bootstrap_kept|].
  split; [done|]. split; [done|]. split; [done|]. exists m. by eapply collection_same; [eapply others_same|].
Qed.

Lemma step_persisted allowed jwtSecret st st' : (faithful → ∀ st r, allowed st r → distinct_mo st r) →
  gateway_step allowed jwtSecret st st' → persisted st → persisted st'.
Proof.
  intros Hall [e auth r st0 Hr Ha|msisdn st0|c e st0 Hd] Hst.
  - assert (faithful → distinct_mo st0 r) as Hdist by auto.
    unfold RegisterRoutes. destruct (is_login r); [by apply admin_handler_persisted|].
    destruct (AdminAuthMiddleware _ _ _ _); [done|by apply admin_handler_persisted].
  - destruct Hst as (Hmt & Hrest). split; [by apply mt_saved_resolve|exact Hrest].
  - by apply boot_persisted.
Qed.

Lemma run_persisted allowed jwtSecret st st' : (faithful → ∀ st r, allowed st r → distinct_mo st r) →
  rtc (gateway_step allowed jwtSecret) st st' → persisted st → persisted st'.
Proof.
  intros Hall Hrun. induction Hrun as [|st1 st2 st3 Hstep _ IH]; [done|].
  intros Hst. apply IH. by eapply step_persisted.
Qed.

(** Nothing stored yet. *)
Definition fresh_store (s : MessageStore) : Prop :=
  collection s (∅ : gmap bytes MTRoute) ∧ collection s (∅ : gmap bytes MORoute) ∧
  collection s (∅ : gmap bytes SouthboundPoolConfig) ∧ collection s (∅ : gmap bytes APIKey).

Lemma fresh_persisted s : fresh_store s → persisted (mkAdmin s [] [] NewPoolManager NewServer (mkCounters (mkTotals 0 0 0 0 0) 0 0)).
Proof.
  intros (Hmt & Hmo & Hpl & Hak). split; [|split; [|split; [|by eexists]]]; cbn.
  - split; [split; [apply NoDup_nil_2|apply SSorted_nil]|]. exists ∅. split; [done|]. intros p r. cbn.
    rewrite lookup_empty, elem_of_nil. naive_solver.
  - split; [exists ∅; split; [done|]; intros k r Hx; by apply lookup_empty_Some in Hx|]. intros _.
    split; [apply NoDup_nil_2|]. split; [constructor|]. exists ∅. split; [done|]. intros p r.
    rewrite lookup_empty, elem_of_nil. naive_solver.
  - split; [done|]. split; [cbn; set_solver|]. exists ∅. split; [done|]. split; intros n c Hx; [|exact Hx].
    by apply lookup_empty_Some in Hx.
Qed.

(** A restart, of a gateway whose store has what it runs with. *)
Lemma restart_keeps c e st : decoded_pool (default_pool c) → persisted st →
  let st' := boot c e (ad_store st) in
  (mt_ok (ad_mt st') ∧ ad_mt st' ≡ₚ mt_fresh <$> ad_mt st) ∧
  (∀ r, r ∈ ad_mo st' → r ∈ ad_mo st) ∧ NoDup (mo_name <$> ad_mo st') ∧ (faithful → ad_mo st' ≡ₚ ad_mo st) ∧
  ∀ n cfg, pm_GetConfig (ad_pools st) n = Some cfg → pm_GetConfig (ad_pools st') n = restarted (ae_connect e) cfg.
Proof.
  intros Hd (Hmt & Hmo & Hpl & _). cbv zeta. unfold boot.
  pose proof (pools_saved_boot (ae_connect e) c _ _ Hd Hpl) as Hb. destruct (boot_pools _ c _) as [pm s1].
  destruct Hb as (_ & Hk & Hpools).
  assert (mt_saved s1 (ad_mt st)) as Hmt' by (eapply mt_saved_same; [by eapply others_same|done]).
  assert (mo_kept faithful s1 (ad_mo st)) as [Hs Hf] by (eapply mo_kept_same; [by eapply others_same|done]).
  apply mt_saved_load in Hmt' as [[Hok _] Hp]. destruct (mo_stored_load _ _ Hs) as (_ & Hsub & Hnd).
  split; [done|]. split; [done|]. split; [done|]. split; [|done].
  intros Hall. by apply (mo_saved_load s1 (ad_mo st)), Hf.
Qed.

End gateway.

Section restart.
Context {DB : Type} `{!KV DB, !KVLaws DB} `{!Zone} `{!Bcrypt} `{!SliceSort}.

Abbreviation MessageStore := (MessageStore (DB := DB)).
Abbreviation Admin := (Admin (DB := DB)).

(** C15: what of the configuration survives a restart.  A gateway that started on a store without
    routes, pools and keys has since served any admin requests, resolved any numbers,
    and been restarted any number of times.  When it restarts now, it has the
    same MT routes, with their round robin at the first pool, in an order that the table's
    invariant holds of; a pool that ran has the same configuration and runs exactly if a
    member of it connects; and the MO routes are among those it had, no two with the same
    key (pattern, colon, source prefix).  They are the same ones when every MO route that was added had a
    pattern without a colon, and a pattern and source prefix that no route had then. *)
Theorem config_survives_restart (jwtSecret : bytes) (c0 c : Config) (e0 e : ApiEnv) (s : MessageStore) (st : Admin) :
  fresh_store s → decoded_pool (default_pool c0) → decoded_pool (default_pool c) →
  let st' := boot c e (ad_store st) in
  (rtc (gateway_step any_request jwtSecret) (boot c0 e0 s) st →
     (mt_ok (ad_mt st') ∧ ad_mt st' ≡ₚ mt_fresh <$> ad_mt st) ∧
     (∀ n cfg, pm_GetConfig (ad_pools st) n = Some cfg → pm_GetConfig (ad_pools st') n = restarted (ae_connect e) cfg) ∧
     (∀ r, r ∈ ad_mo st' → r ∈ ad_mo st) ∧ NoDup (mo_name <$> ad_mo st')) ∧
  (rtc (gateway_step distinct_mo jwtSecret) (boot c0 e0 s) st → ad_mo st' ≡ₚ ad_mo st).
Proof.
  intros Hs Hd0 Hd st'. split; intros Hrun.
  - pose proof (boot_persisted False c0 e0 _ Hd0 (fresh_persisted False s Hs)) as Hst.
    pose proof (run_persisted False any_request jwtSecret _ _ ltac:(done) Hrun Hst) as Hst'.
    by destruct (restart_keeps False c e st Hd Hst') as (? & ? & ? & _ & ?).
  - pose proof (boot_persisted True c0 e0 _ Hd0 (fresh_persisted True s Hs)) as Hst.
    pose proof (run_persisted True distinct_mo jwtSecret _ _ ltac:(done) Hrun Hst) as Hst'.
    by apply (restart_keeps True c e st Hd Hst').
Qed.

End restart.

(** ** Example: a route, a resolution, a restart *)

#[local] Existing Instance insertion_SliceSort.
#[local] Existing Instance plain_Bcrypt.

Definition ex_config : Config := LoadConfig (λ _, []).

(** The gateway on a store with the user ann: routes are added, then a number resolved. *)
Definition ex_booted := boot ex_config ex_env ex_user.2.
Definition ex_routed := (RegisterRoutes (str "k") ex_env ex_auth (CreateMTRoute (Some ex_route)) ex_booted).2.
Definition ex_mo (conn : bytes) : MORoute := mkMORoute (str "88*") [] (mkMOTarget (str "smpp") conn []) 5.
Definition ex_both := (RegisterRoutes (str "k") ex_env ex_auth (CreateMORoute (Some (ex_mo (str "c1")))) ex_routed).2.
Definition ex_running := with_mt ex_both (MT_Resolve (ad_pools ex_both) (str "2782") (ad_mt ex_both)).1.

Lemma distinct_mo_first (st : Admin (DB := gmap bytes doc)) r :
  ad_mo st = [] → 58 ∉ mo_DestPattern r → distinct_mo st (CreateMORoute (Some r)).
Proof. intros E Hc. split; [done|]. rewrite E. by intros r' ?%elem_of_nil. Qed.

Lemma ex_run allowed :
  allowed ex_booted (CreateMTRoute (Some ex_route)) → allowed ex_routed (CreateMORoute (Some (ex_mo (str "c1")))) →
  rtc (gateway_step allowed (str "k")) ex_booted ex_running.
Proof.
  intros Ha1 Ha2. eapply rtc_l; [|eapply rtc_l; [|eapply rtc_l; [|apply rtc_refl]]].
  - by apply (step_request allowed (str "k") ex_env ex_auth (CreateMTRoute (Some ex_route))).
  - by apply (step_request allowed (str "k") ex_env ex_auth (CreateMORoute (Some (ex_mo (str "c1"))))).
  - apply step_resolve.
Qed.

Lemma config_survives_restart_witness :
  ad_mt ex_running = [with_rrIndex ex_route 1] ∧ ad_mo ex_running = [ex_mo (str "c1")] ∧
  let st' := boot ex_config ex_env (ad_store ex_running) in
  ad_mt st' ≡ₚ [ex_route] ∧ ad_mo st' ≡ₚ [ex_mo (str "c1")] ∧
  pm_GetConfig (ad_pools st') (str "default") = Some (default_pool ex_config).
Proof.
  assert (fresh_store ex_user.2) as Hf.
  { repeat split; (eapply (collection_kept NsUser); [done|apply users_Create_kept|apply ex_empty_collection]). }
  assert (ad_mt ex_running = [with_rrIndex ex_route 1]) as Emt
    by (unfold ex_running, ex_both, ex_routed; rewrite !ex_served; by vm_compute).
  assert (ad_mo ex_routed = []) as Eno by (unfold ex_routed; rewrite ex_served; by vm_compute).
  assert (ad_mo ex_running = [ex_mo (str "c1")]) as Emo
    by (unfold ex_running, ex_both, ex_routed; rewrite !ex_served; by vm_compute).
  destruct (config_survives_restart (str "k") ex_config ex_config ex_env ex_env ex_user.2 ex_running Hf
    ltac:(by vm_compute) ltac:(by vm_compute)) as (H1' & H2').
  destruct (H1' (ex_run any_request Logic.I Logic.I)) as ((_ & Hmt) & Hp & _).
  assert (distinct_mo ex_routed (CreateMORoute (Some (ex_mo (str "c1"))))) as Hd.
  { apply (distinct_mo_first _ _ Eno). apply (bool_decide_unpack (58 ∉ str "88*")). by vm_compute. }
  specialize (H2' (ex_run distinct_mo Logic.I Hd)).
  split; [exact Emt|]. split; [exact Emo|]. split; [by rewrite Hmt, Emt|]. split; [by rewrite H2', Emo|].
  etransitivity; [apply (Hp _ (default_pool ex_config))|by vm_compute].
  unfold ex_running, ex_both, ex_routed. rewrite !ex_served; by vm_compute.
Defined.

(** Adding the same MO route twice, which [distinct_mo] leaves out: the table has it
    twice, the store once, and a restart forgets one. *)
Definition ex_twice :=
  let st := (RegisterRoutes (str "k") ex_env ex_auth (CreateMORoute (Some (ex_mo (str "c1")))) ex_booted).2 in
  (RegisterRoutes (str "k") ex_env ex_auth (CreateMORoute (Some (ex_mo (str "c2")))) st).2.

Example duplicate_MO_route_lost :
  ad_mo ex_twice = [ex_mo (str "c1"); ex_mo (str "c2")] ∧
  ad_mo (boot ex_config ex_env (ad_store ex_twice)) = [ex_mo (str "c2")].
Proof.
  unfold ex_twice. cbv zeta. rewrite !ex_served; by vm_compute.
Qed.
