(* ===== verification/Recovery.v ===== *)
(** * What a restart of the gateway keeps of its messages

    [start_gateway] is the state of a router after [run] of cmd/smsc-gateway/main.go has
    loaded what the store holds; [reopen] is the store of the next run, after [Close].
    A receipt for a message that was forwarded before the restart still reaches its
    engine ([receipt_survives_restart]), and the messages that wait for a retry wait on
    ([stored_survives_restart]).  What was only queued in memory is gone, and the
    numbering of messages starts anew ([queued_message_lost], [id_reused]). *)

From S2P Require Import Prelude Constants Utf8 Client Pool Pdu Connection ShardMap SliceSort.
From S2P Require Import PoolManager RouteTable Dlr Documents Format Store Server Gateway.
From S2P Require Import Callback Router RouterInv RestApi RouterRun RetryEnd RouterSpec ConfigStore.
From S2P Require Import Accounts Config AdminApi Startup.

Local Open Scope Z_scope.

Section recovery.
Context {DB : Type} `{!KV DB, !KVLaws DB} `{!Zone} `{!Bcrypt} `{!SliceSort} `{!Env}.

Abbreviation MessageStore := (MessageStore (DB := DB)).
Abbreviation World := (Router DB PoolManager).

(** The database as the next process opens it; its counters start at zero. *)
Definition reopen (s : MessageStore) : MessageStore := NewMessageStore (st_db (store_Close s)).

(** The router of a process that starts on a store.  [n] and [past] are the readings of
    the environment and the trace so far, which no code sees. *)
Definition start_gateway (c : Config.Config) (e : ApiEnv) (n : nat) (past : list event) (s : MessageStore) : World :=
  let a := boot c e s in
  mkRouter n (ad_server a) (Some (ad_store a)) (Some (ad_pools a)) (ad_mt a) (ad_mo a) NewShardMap NewShardMap NewShardMap
    NewShardMap 0 [] (mkTotals 0 0 0 0 0) past false.

(** [run]'s deferred calls, last first: the listener and its sessions, the pools, the store. *)
Definition shutdown (oks : nat → bool) (w : World) : World :=
  let w := set_server (Server_Stop (w_server w)) w in
  let w := match w_pm w with
           | Some pm => set_pm (match pm_Close oks pm with Ret pm => Some pm | _ => Some pm end) w
           | None => w
           end in
  set_store (store_Close <$> w_store w) w.

(** ** The store across a restart *)

Lemma boot_kept c e s n x : n ≠ NsPool → n ≠ NsUser →
  kv_get (st_db (ad_store (boot c e s))) (key n x) = kv_get (st_db s) (key n x).
Proof.
  intros Hp Hu. unfold boot, boot_pools.
  match goal with |- context [if ?d then _ else _] => destruct d end.
  - destruct (pm_Add _ _ _) as [pm [err|]]; cbn [ad_store].
    + by rewrite users_Bootstrap_kept.
    + rewrite users_Bootstrap_kept by done. exact (others_kept_set NsPool _ _ s n x Hp).
  - cbn [ad_store]. by rewrite users_Bootstrap_kept.
Qed.

(** What the next process reads is what was stored or queued to be stored. *)
Lemma restart_get c e k past s n x : n ≠ NsPool → n ≠ NsUser →
  ∃ s', w_store (start_gateway c e k past (reopen s)) = Some s' ∧ kv_get (st_db s') (key n x) = final_get s (key n x).
Proof.
  intros Hp Hu. eexists. split; [reflexivity|]. cbn [start_gateway w_store]. rewrite boot_kept by done. apply Close_final.
Qed.

Lemma final_same (s s' : MessageStore) k :
  st_batch s' = st_batch s → st_writeCh s' = st_writeCh s → kv_get (st_db s') k = kv_get (st_db s) k →
  final_get s' k = final_get s k.
Proof. intros E1 E2 E3. unfold final_get. rewrite E1, E2, !get_commit. by rewrite E3. Qed.

Lemma final_db_Set (s : MessageStore) k k' v : k' ≠ k → final_get (db_Set k' v s) k = final_get s k.
Proof. intros Hk. apply final_same; [done..|]. rewrite get_db_Set. by rewrite decide_False. Qed.

Lemma final_db_Delete (s : MessageStore) k k' : k' ≠ k → final_get (db_Delete k' s) k = final_get s k.
Proof. intros Hk. apply final_same; [done..|]. rewrite get_db_Delete. by rewrite decide_False. Qed.

Lemma final_update_log now id f (s : MessageStore) k : (∀ x, key NsLog x ≠ k) → store_typed s →
  final_get (UpdateMessageLog now id f s).1 k = final_get s k.
Proof.
  intros Hk Ht. unfold UpdateMessageLog. destruct (kv_get _ (key NsLogIdx id)) as [v|] eqn:E; [|done].
  apply (ty_db _ Ht), entry_typed_key in E as [y ->].
  destruct (kv_get _ (key NsLog y)) as [d|]; [|done]. destruct (un_log d); [|done]. cbn [fst]. by apply final_db_Set.
Qed.

(** ** Correlations *)

(** A store that takes records: open, or closed and written to at once. *)
Definition taking (s : MessageStore) : Prop := st_closed s = true ∨ st_chClosed s = false.

Definition forwarded_record (corr : correlation) (smscMsgID gw connID dst src body : bytes) : SubmitRecord :=
  mkSubmitRecord gw smscMsgID connID 0 dst src body (co_SubmittedAt corr).

(** The record that the store will hold under a key. *)
Definition will_hold (k : bytes) (d : doc) (w : World) : Prop :=
  ∃ s, w_store w = Some s ∧ store_typed s ∧ final_get s k = Some d.

Definition harmless_write (k : bytes) (f : MessageStore → MessageStore) : Prop :=
  ∀ s, store_typed s → store_typed (f s) ∧ final_get (f s) k = final_get s k.

Lemma held_store_do k d f : harmless_write k f → hoare (will_hold k d) (store_do f) (λ _, will_hold k d).
Proof.
  intros Hf w (s & Hs & Ht & Hg). destruct (Hf s Ht) as [Ht' Hg'].
  exists (f s). cbn. rewrite Hs, Hg'. done.
Qed.

Lemma held_store_at k d f : (∀ t, harmless_write k (f t)) → hoare (will_hold k d) (store_at f) (λ _, will_hold k d).
Proof.
  intros Hf. unfold store_at. apply hoare_bind with (λ _, will_hold k d); [by intros w Hw|]. intros [|]; [|by intros w Hw].
  apply hoare_bind with (λ _, will_hold k d); [by intros w Hw|]. intros t. by apply held_store_do.
Qed.

(** What dealing with the SMSC's acceptance leaves for the next process. *)
Lemma record_forwarded_held corr id gw connID dst src body (w : World) s :
  w_store w = Some s → store_typed s → taking s → ¬ queued s (key NsMsg id) → id ≠ [] →
  will_hold (key NsMsg id) (json_submit (forwarded_record corr id gw connID dst src body))
    (run (record_forwarded corr id gw connID dst src body) w).
Proof.
  intros Hs Ht Hc Hq Hid. set (r := forwarded_record corr id gw connID dst src body). set (d := json_submit r).
  assert (submit_key r = key NsMsg id) as Hk by (unfold submit_key; by rewrite decide_False).
  enough (hoare (λ w' : World, w_store w' = Some s) (record_forwarded corr id gw connID dst src body)
    (λ _, will_hold (key NsMsg id) d)) as Hh by (by apply Hh).
  unfold record_forwarded. apply hoare_bind with (λ _ w', w_store w' = Some s); [by intros w' Hw'|]. intros [].
  apply hoare_bind with (λ _, will_hold (key NsMsg id) d).
  { intros w' Hw'. exists (StoreSubmit r s). cbn. rewrite Hw'. split; [done|]. split; [by apply typed_StoreSubmit|].
    rewrite StoreSubmit_final by (rewrite ?Hk; done). by rewrite Hk, decide_True. }
  intros []. apply hoare_bind with (λ _, will_hold (key NsMsg id) d).
  { apply held_store_do. intros s' Ht'. split; [by apply typed_counts, typed_db_Delete|].
    apply (final_db_Delete s' (key NsMsg id) (key NsGw gw)). by apply key_ns_ne. }
  intros []. apply hoare_bind with (λ _, will_hold (key NsMsg id) d).
  { case_decide; [|by intros w' Hw']. apply held_store_at. intros t s' Ht'.
    split; [by apply (typed_op (OpSetMessageStatus _))|]. apply final_db_Set. by apply key_ns_ne. }
  intros []. apply hoare_bind with (λ _, will_hold (key NsMsg id) d); [|by intros [] w' Hw'].
  apply held_store_at. intros t s' Ht'. split; [by apply typed_UpdateMessageLog|].
  apply final_update_log; [|done]. intros x. by apply key_ns_ne.
Qed.

Lemma ParseDLRReceipt_id text r : ParseDLRReceipt text = Some r → dlr_MessageID r ≠ [].
Proof.
  unfold ParseDLRReceipt. cbv zeta. case_decide; [done|]. destruct (dlrIDRegex (TrimSpace text)) as [g|] eqn:E; [|done].
  intros [= <-]. cbn [dlr_MessageID]. by apply parse_id_place in E as (pre & post & _ & Hg & _).
Qed.

(** C8: a receipt finds its engine after a restart.  A message was forwarded, and the
    SMSC's answer dealt with, by a process that has since ended; whatever its store
    did in between, the record of the SMSC's ID was neither written again nor deleted.
    The next process, started on what the store wrote at its end, with its memory empty,
    offers the SMSC's receipt once, to the connection that sent the message, whose
    parser finds the gateway's ID in it. *)
Theorem receipt_survives_restart cfg cfg' connID gw dst src body id esm rsrc rdst payload receipt (w : World) s s2 c e n past sv :
  w_store w = Some s → store_typed s → taking s → ¬ queued s (key NsMsg id) →
  connID ≠ rest_api → json_string connID = connID → clean_id gw →
  IsDLR esm = true → ascii_text payload → ParseDLRReceipt payload = Some receipt → dlr_MessageID receipt = id →
  let w1 := run (forward_finish cfg connID gw dst src body (Some (SubmitOK id))) w in
  (∀ s1, w_store w1 = Some s1 → final_get s2 (key NsMsg id) = final_get s1 (key NsMsg id)) →
  let w2 := set_server sv (start_gateway c e n past (reopen s2)) in
  ∃ text receipt' taken rest,
    w_events (run (HandleDeliver cfg' rsrc rdst esm payload) w2) =
      past ++ EvDeliver true connID (BuildDeliverSMBody rsrc rdst esm text) taken :: rest ∧
    ParseDLRReceipt text = Some receipt' ∧ dlr_MessageID receipt' = gw.
Proof.
  intros Hs Ht Hc Hq Hr Hj Hgw Hesm Ha Hp Hid w1 Hkeep w2.
  assert (id ≠ []) as Hne by (subst id; by eapply ParseDLRReceipt_id).
  assert (∃ corr, will_hold (key NsMsg id) (json_submit (forwarded_record corr id gw connID dst src body)) w1) as (corr & s1 & Hs1 & _ & Hf).
  { subst w1. unfold run, forward_finish, gets, mbind, M_bind. cbn [fst snd].
    destruct (ShardMap_Get (w_gwCorr w) gw) as [corr|]; cbn [mret M_ret].
    - exists corr. by eapply record_forwarded_held.
    - eexists. eapply record_forwarded_held; done. }
  rewrite <-(Hkeep s1 Hs1) in Hf.
  destruct (restart_get c e n past s2 NsMsg id) as (s' & Hs' & Hg); [done..|]. rewrite Hf in Hg.
  assert (correlated w2 id = Some (mkCorr gw connID (json_string dst) zero_time)) as Hco.
  { unfold correlated. subst w2. cbn [w_smscCorr set_server start_gateway w_store]. rewrite ShardMap_Get_New.
    cbn [start_gateway w_store] in Hs'. rewrite Hs'. cbn [mbind option_bind]. unfold GetSubmit, get_as. rewrite Hg.
    cbn -[json_string].
    rewrite Hj, json_string_ascii; [done|]. by apply clean_word. }
  subst id. destruct (translation_parts payload gw receipt Ha Hgw Hp) as (l & pre & post & rr & _ & _ & Htr & Hp' & _).
  destruct (receipt_offered cfg' rsrc rdst esm payload receipt _ w2 Hesm Hp Hco Hr) as (taken & rest & Hv & _).
  injection Hv as Hev _ _ _. cbn [co_GwMsgID co_NorthConnID] in Hev. rewrite Htr in Hev.
  exists ((l ++ pre) ++ str "id:" ++ gw ++ post ++ rr), (parse_trimmed (pre ++ str "id:" ++ gw ++ post) gw), taken, rest.
  split; [exact Hev|done].
Qed.

(** ** Everything that is stored *)

(** A range inside a namespace depends on that namespace only. *)
Lemma range_same (db db' : DB) n x y : (∀ z, kv_get db' (key n z) = kv_get db (key n z)) →
  kv_range (key n x) (Some (ns_prefix n ++ y)) db' = kv_range (key n x) (Some (ns_prefix n ++ y)) db.
Proof.
  intros Hs. apply kv_range_unique; [apply kv_range_sorted|]. intros k v. rewrite kv_range_elem. unfold below.
  assert (key_le (key n x) k → key_lt k (ns_prefix n ++ y) → kv_get db' k = kv_get db k) as He.
  { intros Hlo Hhi. assert (key_le (ns_prefix n) k) as Hlo'.
    { etransitivity; [|exact Hlo]. apply key_le_app. }
    destruct (key_between_prefix _ _ _ Hlo' Hhi) as [z ->]. apply Hs. }
  split; intros (Hg & Hlo & Hhi); rewrite He in * by done; done.
Qed.

Lemma restart_same c e k past s n : n ≠ NsPool → n ≠ NsUser → n ≠ NsMsg → n ≠ NsGw → store_typed s →
  ∃ s', w_store (start_gateway c e k past (reopen s)) = Some s' ∧
    ∀ x, kv_get (st_db s') (key n x) = kv_get (st_db s) (key n x).
Proof.
  intros Hp Hu Hm Hg Ht. eexists. split; [reflexivity|]. intros x. cbn [start_gateway w_store]. rewrite boot_kept by done.
  apply (store_op_frame OpClose s n x Ht). by intros [?|?].
Qed.

Lemma users_Bootstrap_typed rnd salt now s : store_typed s → store_typed (users_Bootstrap rnd salt now s).2.
Proof.
  intros Ht. unfold users_Bootstrap. destruct (ScanPrefix _ _ _ _).1; [done|].
  destruct (bcrypt_generate salt _); [|done]. apply typed_db_Set; [|done]. apply entry_typed_key. cbn. eauto.
Qed.

Lemma boot_typed c e s : store_typed s → store_typed (ad_store (boot c e s)).
Proof.
  intros Ht. unfold boot, boot_pools.
  match goal with |- context [if ?d then _ else _] => destruct d end; [|by apply users_Bootstrap_typed].
  destruct (pm_Add _ _ _) as [pm [err|]]; cbn [ad_store]; apply users_Bootstrap_typed; [done|].
  apply typed_db_Set; [|done]. apply entry_typed_key. cbn. eauto.
Qed.

Lemma reopen_typed s : store_typed s → store_typed (reopen s).
Proof. intros Ht. apply New_typed. by apply typed_writer. Qed.

(** C16: what waits in the store waits on.  After a restart, whatever the new process's
    configuration, its store is well typed, holds the same messages to retry, both ways,
    and answers status queries and log queries as the old one did; its first drain
    submits what the old one's would have submitted.  Its queue, its correlations and
    its sessions are empty. *)
Theorem stored_survives_restart cfg c e k past s : store_typed s →
  let w := start_gateway c e k past (reopen s) in
  ∃ s', w_store w = Some s' ∧ store_typed s' ∧
    (∀ now, due_retries now s' = due_retries now s) ∧ pending w = due_submits s ∧
    (∀ id, GetMessageStatus id s' = GetMessageStatus id s) ∧
    (∀ f, QueryMessages f s' = QueryMessages f s) ∧
    run (drainSubmitRetries cfg) w =
      run (mapM_ (retry_submit cfg) (DrainSubmitRetries (rc_submitRetryDrainLimit cfg) s).1)
        (set_store (Some (DrainSubmitRetries (rc_submitRetryDrainLimit cfg) s').2) w) ∧
    w_forwardCh w = [] ∧ (∀ id, ShardMap_Get (w_smscCorr w) id = None ∧ ShardMap_Get (w_gwCorr w) id = None) ∧
    sv_conns (w_server w) = ∅.
Proof.
  intros Ht. cbv zeta. set (w := start_gateway c e k past (reopen s)).
  assert (store_typed (ad_store (boot c e (reopen s)))) as Ht' by by apply boot_typed, reopen_typed.
  assert (∀ n x, n ≠ NsPool → n ≠ NsUser → n ≠ NsMsg → n ≠ NsGw →
    kv_get (st_db (ad_store (boot c e (reopen s)))) (key n x) = kv_get (st_db s) (key n x)) as Hsame.
  { intros n x H1' H2' H3' H4'. destruct (restart_same c e k past s n) as (s' & [= <-] & Hx); done. }
  assert (w_store w = Some (ad_store (boot c e (reopen s)))) as Hw by done.
  set (s' := ad_store (boot c e (reopen s))) in *. clearbody s'.
  assert (∀ n x y, n ≠ NsPool → n ≠ NsUser → n ≠ NsMsg → n ≠ NsGw →
    kv_range (key n x) (Some (ns_prefix n ++ y)) (st_db s') = kv_range (key n x) (Some (ns_prefix n ++ y)) (st_db s)) as Hrange.
  { intros n x y H1' H2' H3' H4'. apply range_same. intros z. by apply Hsame. }
  assert (∀ n y, n ≠ NsPool → n ≠ NsUser → n ≠ NsMsg → n ≠ NsGw →
    kv_range (ns_prefix n) (Some (ns_prefix n ++ y)) (st_db s') = kv_range (ns_prefix n) (Some (ns_prefix n ++ y)) (st_db s)) as Hrange0.
  { intros n y. pose proof (Hrange n [] y) as Hx. unfold key in Hx. by rewrite app_nil_r in Hx. }
  assert (due_submits s' = due_submits s) as Hd by (unfold due_submits; by rewrite (Hrange0 NsSubmitRetry)).
  exists s'. split; [done|]. split; [done|]. split; [|split; [|split; [|split; [|split; [|split; [|split]]]]]].
  - intros now. unfold due_retries, retry_upper, key. by rewrite (Hrange0 NsRetry).
  - unfold pending. by rewrite Hw.
  - intros id. unfold GetMessageStatus, GetJSON, get_as. by rewrite Hsame.
  - intros f. unfold QueryMessages, query_range. do 2 f_equal.
    destruct (IsZero (mf_After f).1), (IsZero (mf_Before f).1); cbv zeta;
      first [apply (Hrange0 NsLog); done | apply (Hrange NsLog); done].
  - rewrite (drain_submits_run cfg s' w Hw). do 2 f_equal. rewrite !DrainSubmitRetries_eq by done. cbv zeta. by rewrite Hd.
  - done.
  - intros id. cbn. by rewrite !ShardMap_Get_New.
  - cbn. unfold boot. by destruct (boot_pools _ _ _).
Qed.

End recovery.

(** ** Examples *)

#[local] Existing Instance insertion_SliceSort.
#[local] Existing Instance plain_Bcrypt.

Definition ex_store_of (w : Router (gmap bytes doc) PoolManager) : MessageStore (DB := gmap bytes doc) :=
  default (NewMessageStore ∅) (w_store w).

Lemma ex_accepted_store : w_store ex_accepted = Some (ex_store_of ex_accepted) ∧ store_typed (ex_store_of ex_accepted).
Proof.
  destruct (steady_ok ex_cfg ex_clock_ok ∅ _ ex_fresh ex_accepted_steps) as [Hi _].
  destruct (i_store _ _ _ _ Hi) as (s & Hs & Ht & _). cbn [fst snd] in Hs. unfold ex_store_of. by rewrite Hs.
Qed.

(** The process that forwards the engine's message, ends. *)
Definition ex_finished := run (forward_finish ex_cfg (str "engine") (str "GW-1") (str "447911") (str "4470") ex_body
  (Some (SubmitOK (str "S1")))) ex_submitted.

Lemma receipt_survives_restart_witness :
  ∃ text receipt taken rest,
    w_events (run (HandleDeliver ex_cfg (str "447911") (str "4470") 4 ex_dlr)
      (set_server sv_example (start_gateway ex_config ex_env 0 [] (reopen (ex_store_of ex_finished))))) =
      EvDeliver true (str "engine") (BuildDeliverSMBody (str "447911") (str "4470") 4 text) taken :: rest ∧
    ParseDLRReceipt text = Some receipt ∧ dlr_MessageID receipt = str "GW-1".
Proof.
  destruct ex_accepted_store as [Hs Ht].
  assert (w_store ex_submitted = Some (ex_store_of ex_accepted)) as Hs' by (vm_compute; reflexivity).
  exact (receipt_survives_restart ex_cfg ex_cfg (str "engine") (str "GW-1") (str "447911") (str "4470") ex_body (str "S1") 4
    (str "447911") (str "4470") ex_dlr (mkReceipt (str "S1") (str "DELIVRD") (str "000")) ex_submitted (ex_store_of ex_accepted)
    (ex_store_of ex_finished) ex_config ex_env 0 [] sv_example Hs' Ht ltac:(right; vm_compute; reflexivity)
    ltac:(unfold queued; apply (bool_decide_unpack _); vm_compute; exact Logic.I) ltac:(vm_compute; discriminate) ltac:(vm_compute; reflexivity)
    ltac:(apply (bool_decide_unpack _); vm_compute; exact Logic.I) eq_refl
    ltac:(apply (bool_decide_unpack _); vm_compute; exact Logic.I) ex_dlr_parses eq_refl
    ltac:(intros s1 Hs1; unfold ex_store_of, ex_finished; rewrite Hs1; reflexivity)).
Defined.

(** The deliveries of [ex_store] that wait, seen at time 100. *)
Lemma stored_survives_restart_witness :
  ∃ s', w_store (start_gateway ex_config ex_env 0 [] (reopen ex_store)) = Some s' ∧
    pd_TargetConnID <$> (due_retries 100 s').*2 = [str "two"; str "one"].
Proof.
  destruct (stored_survives_restart ex_cfg ex_config ex_env 0 [] ex_store ex_store_typed) as (s' & Hs & _ & Hr & _).
  exists s'. split; [exact Hs|]. rewrite (Hr 100). vm_compute. reflexivity.
Defined.

(** A message that the gateway accepted and put in its queue, but that no worker had
    taken when the process ended: its record is still in the store, and nothing reads it.
    The new process has no task, nothing to retry, and the message was neither submitted
    nor reported as failed. *)
Example queued_message_lost :
  let w := start_gateway ex_config ex_env 0 (w_events ex_accepted) (reopen (ex_store_of ex_accepted)) in
  EvAccepted (str "GW-1") (str "engine") (Some 0%nat) ∈ w_events w ∧
  (∃ r, GetSubmitByGwID (str "GW-1") (ex_store_of w) = Got r ∧ sr_Payload r = ex_body) ∧
  w_forwardCh w = [] ∧ pending w = [] ∧
  omap (λ e, match e with EvSubmit g _ _ _ | EvSynthetic g _ => Some g | _ => None end) (w_events w) = [].
Proof.
  cbv zeta. split; [vm_compute; left|]. split; [eexists; split; vm_compute; reflexivity|]. by vm_compute.
Qed.

(** The counter of the IDs starts anew: the first message of the new process has an ID
    that the old one has given away, for another message of the same engine. *)
Example id_reused :
  let w := set_server sv_example (start_gateway ex_config ex_env 0 (w_events ex_accepted) (reopen (ex_store_of ex_accepted))) in
  omap accepted_id (w_events (run (HandleSubmit ex_cfg (str "engine") 9 (BuildSubmitSMBody (str "4470") (str "447922") (str "yo"))) w)) =
    [str "GW-1"; str "GW-1"].
Proof. by vm_compute. Qed.
