(* ===== verification/Drain.v ===== *)
(** * The drain (gateway/server.go, Stop; gateway/router.go, gateway/connection.go)

    Each session counts the messages it has sent that the router is queuing, has queued
    or is forwarding, and Stop waits until it has seen the counters of the registered
    sessions sum up to 0.  The router changes a counter where it queues a task and where
    it is done with one, in different goroutines, and Stop loads the counters one after
    the other while the router goes on: a [look] is such a sum, with steps of the gateway
    between the loads; the lock it holds keeps the registry as it is.

    What a sum of 0 says about the messages, and what it does not ([drain_waits],
    [answered_not_counted]). *)

From S2P Require Import Prelude Constants Utf8 Pdu Operations Connection ShardMap SliceSort.
From S2P Require Import PoolManager RouteTable Dlr Documents Format Store Server Gateway.
From S2P Require Import Callback Router RouterInv RestApi Quiet RouterRun RetryEnd.

Local Open Scope Z_scope.

(** ** Counters and the messages they count *)

Lemma omap_cons_list {A B} (f : A → option B) x l : omap f (x :: l) = option_list (f x) ++ omap f l.
Proof. cbn. by destruct (f x). Qed.

(** How often session [r] is in [L]. *)
Definition occ (r : conn_ref) (L : list conn_ref) : Z := zlen (filter (λ r', r' = r) L).

(** The counters [cs] of all sessions, by reference, count [L]. *)
Definition counts (cs : list Z) (L : list conn_ref) : Prop :=
  (∀ r n, cs !! r = Some n → n = i32 (occ r L)) ∧ ∀ r, r ∈ L → (r < length cs)%nat.

Lemma occ_cons r r' L : occ r (r' :: L) = occ r L + if decide (r' = r) then 1 else 0.
Proof. unfold occ, zlen. rewrite filter_cons. case_decide; simpl; lia. Qed.

Lemma occ_le r L : 0 <= occ r L <= zlen L.
Proof. unfold occ, zlen. pose proof (length_filter (λ r', r' = r) L). lia. Qed.

Lemma occ_zero r L : occ r L = 0 ↔ r ∉ L.
Proof.
  induction L as [|r' L IH]; [by split; [intros _; apply not_elem_of_nil|]|].
  rewrite occ_cons, not_elem_of_cons. pose proof (occ_le r L). case_decide as E; [|naive_solver lia].
  split; [lia|]. intros [? _]. congruence.
Qed.

Lemma counts_perm cs L L' : L ≡ₚ L' → counts cs L → counts cs L'.
Proof.
  intros Hp [Hc Hv]. split; [|intros r; rewrite <-Hp; apply Hv].
  intros r n Hn. rewrite (Hc r n Hn). unfold occ, zlen. by rewrite Hp.
Qed.

Lemma counts_add cs L r d L' : counts cs L → (∀ r, r ∈ L' → (r < length cs)%nat) →
  (∀ r', occ r' L' = occ r' L + if decide (r' = r) then d else 0) →
  counts (alter (λ n, i32 (n + d)) r cs) L'.
Proof.
  intros [Hc Hv] Hv' Ho. split; [|by intros r'; rewrite length_alter; apply Hv'].
  intros r' n Hn. rewrite Ho. destruct (decide (r' = r)) as [->|Hne].
  - rewrite list_lookup_alter_eq in Hn. destruct (cs !! r) as [m|] eqn:E; [|done].
    injection Hn as <-. rewrite (Hc r m E). by rewrite i32_add.
  - rewrite list_lookup_alter_ne in Hn by done. rewrite Z.add_0_r. by apply Hc.
Qed.

Lemma counts_bump cs L r : (r < length cs)%nat → counts cs L → counts (alter (λ n, i32 (n + 1)) r cs) (r :: L).
Proof.
  intros Hr Hc. apply (counts_add cs L); [done| |].
  - intros r' [->|Hin]%elem_of_cons; [done|by apply Hc].
  - intros r'. rewrite occ_cons. repeat case_decide; congruence.
Qed.

Lemma counts_drop cs L r : counts cs (r :: L) → counts (alter (λ n, i32 (n + -1)) r cs) L.
Proof.
  intros Hc. apply (counts_add cs (r :: L)); [done| |].
  - intros r' Hin. apply Hc. by right.
  - intros r'. rewrite occ_cons. repeat case_decide; subst; try congruence; lia.
Qed.

(** A new session counts nothing. *)
Lemma counts_new cs L : counts cs L → counts (cs ++ [0]) L.
Proof.
  intros [Hc Hv]. split.
  - intros r n [Hn|[Hr Hn]]%lookup_app_Some; [by apply Hc|].
    apply list_lookup_singleton_Some in Hn as [Hz <-]. rewrite (proj2 (occ_zero r L)); [done|].
    intros Hin%Hv. lia.
  - intros r Hin%Hv. rewrite length_app. simpl. lia.
Qed.

(** ** What the steps do to the counters *)

Definition counters (sv : Server) : list Z := cn_inFlight <$> sv_heap sv.

Lemma counters_sessions sv : counters sv = snd <$> sessions sv.
Proof. unfold counters, sessions. by rewrite <-list_fmap_compose. Qed.

Lemma counters_get sv r : counters sv !! r = cn_inFlight <$> sv_get sv r.
Proof. apply list_lookup_fmap. Qed.

Lemma counters_alter f r sv : (∀ c, sv_get sv r = Some c → cn_inFlight (f c) = cn_inFlight c) →
  counters (sv_alter f r sv) = counters sv.
Proof.
  intros Hf. apply list_eq. intros i. rewrite !counters_get, sv_get_alter. case_decide; [subst i|done].
  destruct (sv_get sv r) as [c|]; [|done]. simpl. by rewrite Hf.
Qed.

Lemma counters_inflight d r sv : counters (sv_alter (InFlightAdd d) r sv) = alter (λ n, i32 (n + d)) r (counters sv).
Proof.
  unfold counters, sv_alter. cbn [sv_heap]. apply list_eq. intros i. rewrite list_lookup_fmap.
  destruct (decide (i = r)) as [->|Hne]; [rewrite !list_lookup_alter_eq|rewrite !list_lookup_alter_ne by done];
    rewrite list_lookup_fmap; by destruct (sv_heap sv !! _).
Qed.

(** Sessions come with a counter of 0; nothing else that happens to them changes one. *)
Lemma server_step_counters sv sv' : server_step sv sv' → counters sv' = counters sv ∨ counters sv' = counters sv ++ [0].
Proof.
  intros Hs. destruct Hs as [seq ip sv|r c c' sv Hc (_ & E & _)|r c sv Hc _|now r sv].
  - right. unfold counters, accept. cbn [snd sv_heap]. by rewrite fmap_app.
  - left. apply counters_alter. intros c1 Hc1. congruence.
  - left. rewrite (onBind_eq _ _ _ _ Hc). destruct (bind_refused sv c (cn_SystemID c)); [by apply counters_alter|]. cbv zeta.
    assert (counters (sv_alter (λ c', cn_with_ID c' (cn_SystemID c)) r sv) = counters sv) as E by by apply counters_alter.
    destruct (sv_conns sv !! cn_SystemID c) as [old|]; [|exact E]. rewrite <-E. by apply (counters_alter Connection_Close old).
  - left. unfold handleConnection_end. destruct (sv_get sv r) as [c|]; [|done]. rewrite counters_alter by done.
    destruct (cn_bound c); [|done]. destruct (sv_conns sv !! cn_ID c); [|done]. by case_decide.
Qed.

(** The session whose counter counts some work in hand. *)
Definition wk_conn (k : work) : option conn_ref :=
  match k with
  | WkCounted t _ | WkFull t _ | WkForward t _ _ => ft_conn t
  | WkDone c => c
  | WkAnswered _ _ | WkRefused _ _ | WkRetry _ | WkRetrySent _ _ => None
  end.

Section drain.
Context {DB : Type} `{!KV DB} `{!Zone} {PM : Type} `{!PoolView PM} `{!SliceSort} `{!Env}.
Context (cfg : RouterConfig).
#[local] Abbreviation World := (Router DB PM).
#[local] Abbreviation Act := (M DB PM).

(** The sessions of the messages that are being queued, queued or being forwarded, with
    a task of each for every message. *)
Definition in_flight (st : World * list work) : list conn_ref :=
  omap ft_conn (w_forwardCh st.1) ++ omap wk_conn st.2.

(** ** The balance *)

(** The counters count the sessions of the queued tasks and of those in hand, [K]. *)
Definition balanced (K : list conn_ref) (w : World) : Prop :=
  counts (counters (w_server w)) (omap ft_conn (w_forwardCh w) ++ K).

Definition known (c : option conn_ref) (w : World) : Prop :=
  ∀ r, c = Some r → (r < length (counters (w_server w)))%nat.

Lemma balanced_perm K K' w : K ≡ₚ K' → balanced K w → balanced K' w.
Proof. intros Hp. apply counts_perm. by rewrite Hp. Qed.

Lemma calm_balanced {A} (m : Act A) K w : calm m → balanced K w → balanced K (m w).2.
Proof. intros Hm. unfold balanced. pose proof (Hm w) as Hv. injection Hv as E1 E2. by rewrite !counters_sessions, E1, E2. Qed.

Lemma calm_known {A} (m : Act A) c w : calm m → known c w → known c (m w).2.
Proof. intros Hm. unfold known. pose proof (f_equal snd (Hm w)) as E. cbn [snd cview] in E. by rewrite !counters_sessions, E. Qed.

Lemma bump_balanced K c w : known c w → balanced K w → balanced (option_list c ++ K) (inflight_add c 1 w).2.
Proof.
  intros Hk Hb. destruct c as [r|]; [|done]. unfold balanced, inflight_add, conn_do, modify in *.
  cbn [snd w_forwardCh w_server set_server option_list app]. rewrite counters_inflight.
  eapply counts_perm; [by apply Permutation_middle|]. apply counts_bump; [by apply Hk|exact Hb].
Qed.

Lemma drop_balanced K c w : balanced (option_list c ++ K) w → balanced K (inflight_add c (-1) w).2.
Proof.
  intros Hb. destruct c as [r|]; [|done]. unfold balanced, inflight_add, conn_do, modify in *.
  cbn [snd w_forwardCh w_server set_server option_list app] in *. rewrite counters_inflight. apply counts_drop.
  eapply counts_perm; [|exact Hb]. by rewrite Permutation_middle.
Qed.

Lemma offer_balanced K t w : balanced (option_list (ft_conn t) ++ K) w →
  let r := offer_task cfg t w in balanced (if r.1 then K else option_list (ft_conn t) ++ K) r.2.
Proof.
  intros Hb. unfold offer_task. rewrite bind_eq. cbn [fst snd gets]. case_decide; [|exact Hb]. cbv zeta. rewrite then_ret. cbn [fst snd modify].
  unfold balanced in *. cbn [w_forwardCh w_server set_forwardCh]. rewrite omap_app, <-app_assoc.
  replace (omap ft_conn [t]) with (option_list (ft_conn t)); [exact Hb|]. cbn. by destruct (ft_conn t).
Qed.

Lemma inflight_known c c' d w : known c w → known c (inflight_add c' d w).2.
Proof.
  intros Hk. destruct c' as [r|]; [|done]. unfold known, inflight_add, conn_do, modify. cbn [snd w_server set_server].
  by rewrite counters_inflight, length_alter.
Qed.

(** A submit is counted for the session that was looked up for it. *)
Lemma answer_conn c connID seqNum body src dst (w : World) : ft_conn (answer_submit c connID seqNum body src dst w).1 = c.
Proof. unfold answer_submit. by repeat (rewrite bind_eq; cbv zeta). Qed.

Lemma admit_conn connID seqNum body (w : World) t :
  (admit_submit cfg connID seqNum body w).1 = Some t → ft_conn t = GetConnection connID (w_server w).
Proof.
  unfold admit_submit. destruct (ParseSubmitSMAddresses body) as [src dst]. do 2 (rewrite bind_eq; cbn [fst snd gets]).
  destruct (source_policy _ body src) as [[body' src']|]; [|by rewrite bind_eq]. rewrite bind_eq. cbn [fst snd gets].
  destruct (blacklisted w dst); [by rewrite bind_eq|]. destruct (negb (prefix_allowed _ dst)); [by rewrite bind_eq|].
  rewrite bind_eq. destruct (admit_rate _ _ _ _).1; cbn [negb]; [|by rewrite !bind_eq].
  rewrite bind_eq. cbn [fst mret M_ret]. intros [= <-]. apply answer_conn.
Qed.

Lemma GetConnection_known connID (w : World) : known (GetConnection connID (w_server w)) w.
Proof.
  intros r. unfold GetConnection. destruct (sv_conns (w_server w) !! connID) as [r'|]; [|done].
  destruct (sv_get (w_server w) r') as [cn|] eqn:E; [|done]. destruct (cn_bound cn); [|done]. intros [= <-].
  apply (lookup_lt_Some _ _ (cn_inFlight cn)). by rewrite counters_get, E.
Qed.

(** The counters are right, and an answered message has a session that can be counted. *)
Definition counted (st : World * list work) : Prop :=
  balanced (omap wk_conn st.2) st.1 ∧ ∀ t c, WkAnswered t c ∈ st.2 → known (ft_conn t) st.1.

Lemma advance_counted k K (w : World) : (∀ t c, k = WkAnswered t c → known (ft_conn t) w) →
  balanced (option_list (wk_conn k) ++ K) w →
  balanced (omap wk_conn (option_list (advance cfg k w).1) ++ K) (advance cfg k w).2 ∧
  (∀ c, known c w → known c (advance cfg k w).2) ∧ ∀ t c, (advance cfg k w).1 ≠ Some (WkAnswered t c).
Proof.
  intros Hk Hb.
  destruct k as [t c|t c|t c|t c|t c a|c|p|p a]; cbn [advance wk_conn option_list app] in *.
  - rewrite then_ret. cbn [fst snd]. split; [|split; [intros c'; apply inflight_known|done]].
    assert (omap wk_conn (option_list (Some (WkCounted t c))) = option_list (ft_conn t)) as -> by (cbn; by destruct (ft_conn t)).
    apply bump_balanced; [by eapply Hk|exact Hb].
  - rewrite bind_eq. cbn [fst snd mret M_ret]. pose proof (offer_balanced K t w Hb) as Ho. cbv zeta in Ho.
    assert (∀ c', known c' w → known c' (offer_task cfg t w).2) as Hn.
    { intros c'. unfold offer_task. rewrite bind_eq. cbn [fst snd gets]. by case_decide. }
    destruct (offer_task cfg t w) as [[] w']; cbn [fst snd option_list] in *; [by split_and!|].
    split; [|by split].
    replace (omap wk_conn [WkFull t c]) with (option_list (ft_conn t)); [exact Ho|]. cbn. by destruct (ft_conn t).
  - rewrite bind_eq, then_ret. cbn [fst snd]. split; [by apply drop_balanced, calm_balanced; [apply still_calm|]|].
    split; [|done]. intros c' Hc'. apply inflight_known. by apply calm_known; [apply still_calm|].
  - rewrite then_ret. cbn [fst snd]. assert (calm (enqueueSubmitRetryOrFail (DB := DB) (PM := PM) cfg (ft_gwMsgID t) c (ft_destAddr t)
      (ft_sourceAddr t) (ft_rawBody t) 0)) as Hq by apply still_calm, still_enqueue.
    split; [by apply calm_balanced|]. split; [|done]. intros c'. by apply calm_known.
  - rewrite then_ret. cbn [fst snd]. assert (calm (forward_finish (DB := DB) (PM := PM) cfg c (ft_gwMsgID t) (ft_destAddr t)
      (ft_sourceAddr t) (ft_rawBody t) a)) as Hq by apply still_calm, still_forward_finish.
    split; [|split; [|done]; intros c'; by apply calm_known]. apply calm_balanced; [done|]. cbn. by destruct (ft_conn t).
  - rewrite then_ret. cbn [fst snd]. split; [by apply drop_balanced|]. split; [intros c'; apply inflight_known|done].
  - rewrite bind_eq. cbn [fst snd mret M_ret]. assert (calm (submit_to_smsc (DB := DB) cfg (ps_GwMsgID p) (ps_MSISDN p) (ps_RawBody p)))
      as Hq by apply still_calm, still_submit. split; [by apply calm_balanced|]. split; [|done]. intros c'. by apply calm_known.
  - rewrite then_ret. cbn [fst snd]. assert (calm (retry_finish (DB := DB) (PM := PM) cfg p a)) as Hq by apply still_calm, still_retry_finish.
    split; [by apply calm_balanced|]. split; [|done]. intros c'. by apply calm_known.
Qed.

Lemma omap_retries ps : omap wk_conn (WkRetry <$> ps) = [].
Proof. by induction ps. Qed.

Lemma step_counted allowed st st' : gw_step cfg allowed st st' → counted st → counted st'.
Proof.
  intros Hs [Hb Hk]. destruct Hs as [h w ks _|sv w ks Hs _|connID seqNum body w ks _ _|w ks|w ks|w ks1 k ks2];
    unfold counted in *; cbn [fst snd] in *.
  - pose proof (handle_calm cfg h w) as Hc. split; [by apply (calm_balanced (λ w, (tt, handle cfg h w))); [intros w'; apply handle_calm|]|].
    intros t c Hin. apply (calm_known (λ w, (tt, handle cfg h w))); [intros w'; apply handle_calm|by eapply Hk].
  - unfold balanced, known in *. cbn [w_forwardCh w_server set_server].
    destruct (server_step_counters _ _ Hs) as [-> | ->]; [done|]. split; [by apply counts_new|].
    intros t c Hin r Hr. rewrite length_app. specialize (Hk t c Hin r Hr). lia.
  - pose proof (still_calm (PM := PM) _ (begin_submit_still cfg connID seqNum body)) as Hc. split.
    + rewrite omap_app. assert (omap wk_conn (option_list (begin_submit cfg connID seqNum body w).1) = []) as ->.
      { unfold begin_submit. rewrite bind_eq. by destruct (admit_submit cfg connID seqNum body w) as [[|] ?]. }
      rewrite app_nil_r. by apply calm_balanced.
    + intros t c [Hin|Hin]%elem_of_app; apply calm_known; [done|by eapply Hk|done|].
      unfold begin_submit in Hin. rewrite bind_eq in Hin. cbn [fst snd mret M_ret] in Hin.
      pose proof (admit_conn connID seqNum body w) as Ha.
      destruct (admit_submit cfg connID seqNum body w) as [[t'|] w']; cbn [fst snd] in *; [|by apply elem_of_nil in Hin].
      apply list_elem_of_singleton in Hin as [= -> _]. rewrite (Ha t' eq_refl). apply GetConnection_known.
  - destruct (begin_forward_view cfg w) as [Hv Hp]. set (f := λ k, match k with WkForward t _ _ => ft_conn t | _ => None end) in Hp.
    assert (omap wk_conn (option_list (begin_forward cfg w).1) = omap f (option_list (begin_forward cfg w).1) ∧
      ∀ t c, (begin_forward cfg w).1 ≠ Some (WkAnswered t c)) as [Ew Hna].
    { unfold begin_forward. rewrite bind_eq. cbn [fst snd gets]. destruct (w_forwardCh w); [done|].
      rewrite !bind_eq. cbn [fst snd gets modify mret M_ret]. by split. }
    injection Hv as Eq Es. split.
    + unfold balanced in *. rewrite counters_sessions in *. rewrite Eq, Es, omap_app, Ew. rewrite Hp in Hb.
      eapply counts_perm; [|exact Hb]. rewrite (Permutation_app_comm (omap wk_conn ks)), !app_assoc.
      apply Permutation_app_tail, Permutation_app_comm.
    + intros t c [Hin|Hin]%elem_of_app.
      * unfold known. rewrite counters_sessions, Es, <-counters_sessions. by eapply Hk.
      * exfalso. destruct (begin_forward cfg w).1 as [k|]; [|by apply elem_of_nil in Hin].
        apply list_elem_of_singleton in Hin as <-. by destruct (Hna t c).
  - assert (omap wk_conn (begin_drain cfg w).1 = [] ∧ ∀ t c, WkAnswered t c ∉ (begin_drain cfg w).1) as [En Hna].
    { unfold begin_drain, store_do, gets, modify, mbind, M_bind. cbn [fst snd mret M_ret]. split; [apply omap_retries|].
      intros t c (p & [=] & _)%list_elem_of_fmap. }
    split; [rewrite omap_app, En, app_nil_r; exact Hb|]. intros t c [Hin|Hin]%elem_of_app; [by eapply Hk|by destruct (Hna t c)].
  - destruct (advance_counted k (omap wk_conn (ks1 ++ ks2)) w) as (Hb' & Hk' & Hna).
    { intros t c ->. eapply Hk. apply elem_of_app. right. by left. }
    { eapply balanced_perm; [|exact Hb]. rewrite !omap_app, omap_cons_list, !app_assoc.
      apply Permutation_app_tail, Permutation_app_comm. }
    split.
    + eapply balanced_perm; [|exact Hb']. rewrite !omap_app, !app_assoc. apply Permutation_app_tail, Permutation_app_comm.
    + intros t c [Hin|[Hin|Hin]%elem_of_app]%elem_of_app.
      * eapply Hk', Hk, elem_of_app. by left.
      * exfalso. destruct (advance cfg k w).1 as [k'|]; [|by apply elem_of_nil in Hin].
        apply list_elem_of_singleton in Hin as <-. by destruct (Hna t c).
      * eapply Hk', Hk, elem_of_app. right. by right.
Qed.

Lemma steps_counted allowed st st' : rtc (gw_step cfg allowed) st st' → counted st → counted st'.
Proof. induction 1 as [|st1 st2 st3 H12 _ IH]; [done|]. intros Hc. by eapply IH, step_counted. Qed.

Lemma started_counted (db : DB) : counted (started db).
Proof. split; [split; [by intros r n|intros r Hin; by apply elem_of_nil in Hin]|]. intros t c Hin. by apply elem_of_nil in Hin. Qed.

(** A counter is the number of messages in flight, as far as 32 bits go. *)
Lemma counted_counter st r c : counted st → sv_get (w_server st.1) r = Some c → cn_inFlight c = i32 (occ r (in_flight st)).
Proof.
  intros [[Hn _] _] Hc. apply (Hn r). cbn [fst snd]. by rewrite counters_get, Hc.
Qed.

Lemma counted_loaded st r : counted st → loaded (w_server st.1) r = i32 (occ r (in_flight st)).
Proof.
  intros Hc. unfold loaded. destruct (sv_get (w_server st.1) r) as [c|] eqn:E; [by apply counted_counter|].
  rewrite (proj2 (occ_zero r (in_flight st))); [done|]. intros Hin. destruct Hc as [[_ Hl] _]. apply Hl in Hin.
  apply lookup_lt_is_Some_2 in Hin as [n Hn]. rewrite counters_get, E in Hn. done.
Qed.

(** ** Looks *)

(** The sum so far of a look, and the sessions whose counters are still to be loaded:
    the gateway makes a step that leaves the registry, or the next counter is loaded. *)
Inductive look_step : World * list work * list (bytes * conn_ref) * Z → World * list work * list (bytes * conn_ref) * Z → Prop :=
| LookOther st st' todo total : gw_step cfg any_change st st' →
    sv_conns (w_server st'.1) = sv_conns (w_server st.1) → look_step (st, todo, total) (st', todo, total)
| LookLoad w ks id r todo total :
    look_step (w, ks, (id, r) :: todo, total) (w, ks, todo, i32 (total + loaded (w_server w) r)).

(** Between [st] and [st'] the registry's sessions, in the order [iter], sum up to [total]. *)
Definition look (iter : list (bytes * conn_ref)) (st : World * list work) (total : Z) (st' : World * list work) : Prop :=
  iter ≡ₚ map_to_list (sv_conns (w_server st.1)) ∧ rtc look_step (st, iter, 0) (st', [], total).

Lemma fold_load_ext (f g : bytes → conn_ref → Z) l : (∀ id r, (id, r) ∈ l → f id r = g id r) → ∀ t,
  foldl (λ total (kr : bytes * conn_ref), i32 (total + f kr.1 kr.2)) t l = foldl (λ total kr, i32 (total + g kr.1 kr.2)) t l.
Proof.
  induction l as [|[id r] l IH]; intros Hf t; [done|]. cbn [foldl fst snd]. rewrite (Hf id r) by by left.
  apply IH. intros id' r' Hin. apply Hf. by right.
Qed.

(** Each counter is loaded at a moment of its own. *)
Lemma look_moments s s' : rtc look_step s s' → NoDup s.1.2.*1 → s'.1.2 = [] →
  rtc (gw_step cfg any_change) s.1.1 s'.1.1 ∧ ∃ at_ : bytes → World * list work,
    (∀ id, rtc (gw_step cfg any_change) s.1.1 (at_ id) ∧ rtc (gw_step cfg any_change) (at_ id) s'.1.1) ∧
    s'.2 = foldl (λ total kr, i32 (total + loaded (w_server (at_ kr.1).1) kr.2)) s.2 s.1.2.
Proof.
  induction 1 as [s|s1 s2 s3 H12 _ IH]; intros Hnd Hd.
  - split; [constructor|]. exists (λ _, s.1.1). split; [intros id; split; constructor|]. by rewrite Hd.
  - destruct H12 as [st st' todo total Hs Hc|w ks id r todo total]; cbn [fst snd] in *.
    + destruct (IH Hnd Hd) as (Hr & at_ & Hat & Ht). split; [by eapply rtc_l|]. exists at_. split; [|exact Ht].
      intros id. destruct (Hat id). split; [by eapply rtc_l|done].
    + cbn [fmap list_fmap] in Hnd. apply NoDup_cons in Hnd as [Hni Hnd]. destruct (IH Hnd Hd) as (Hr & at_ & Hat & Ht).
      split; [exact Hr|]. pose (at' := λ id' : bytes, if decide (id' = id) then (w, ks) else at_ id'). exists at'.
      assert (at' id = (w, ks)) as Eid by (subst at'; cbv beta; by rewrite decide_True). split.
      * intros id'. subst at'. cbv beta. case_decide; [split; [constructor|exact Hr]|apply Hat].
      * rewrite Ht. cbn [foldl fst snd]. rewrite Eid. cbn [fst].
        apply (fold_load_ext (λ id r, loaded (w_server (at_ id).1) r) (λ id r, loaded (w_server (at' id).1) r)).
        intros id' r' Hin. subst at'. cbv beta. rewrite decide_False; [done|].
        intros ->. apply Hni, list_elem_of_fmap. by exists (id, r').
Qed.

(** Sums in 32 bits. *)
Definition sum_of (f : bytes → conn_ref → Z) (iter : list (bytes * conn_ref)) : Z :=
  foldr (λ kr n, f kr.1 kr.2 + n) 0 iter.

Lemma totalInFlight_sum (f : bytes → conn_ref → Z) iter :
  totalInFlight (λ id r, i32 (f id r)) iter = i32 (sum_of f iter).
Proof.
  unfold totalInFlight, sum_of. assert (∀ t, foldl (λ total (kr : bytes * conn_ref), i32 (total + i32 (f kr.1 kr.2))) (i32 t) iter =
    i32 (t + foldr (λ kr n, f kr.1 kr.2 + n) 0 iter)) as Hg; [|by apply (Hg 0)].
  induction iter as [|kr iter IH]; intros t; cbn [foldl foldr]; [by rewrite Z.add_0_r|].
  rewrite i32_add, (Z.add_comm t (i32 _)), i32_add, IH. f_equal. lia.
Qed.

Lemma sum_of_zero (f : bytes → conn_ref → Z) iter : (∀ id r, 0 <= f id r) →
  0 <= sum_of f iter ∧ (sum_of f iter = 0 ↔ ∀ id r, (id, r) ∈ iter → f id r = 0).
Proof.
  intros Hf. unfold sum_of. induction iter as [|[id r] iter [IH1 IH2]]; cbn [foldr fst snd].
  - split; [lia|]. split; [|done]. intros _ id r Hin. by apply elem_of_nil in Hin.
  - pose proof (Hf id r). split; [lia|]. split.
    + intros Hz id' r' [[= -> ->]|Hin]%elem_of_cons; [lia|]. apply IH2; [lia|done].
    + intros Hall. rewrite (Hall id r) by by left. rewrite (proj2 IH2); [done|]. intros id' r' Hin. apply Hall. by right.
Qed.

Lemma drain_loop_app looks looks' : drain_loop looks = None → drain_loop (looks ++ looks') = drain_loop looks'.
Proof.
  induction looks as [|[total d] looks IH]; [done|]. cbn [drain_loop app]. case_decide; [done|]. by destruct d.
Qed.

Lemma drain_look looks total deadline : drain_loop looks = None →
  drain_loop (looks ++ [(total, deadline)]) = Some DrainComplete ↔ total = 0.
Proof.
  intros Hw. rewrite drain_loop_app by done. cbn [drain_loop]. case_decide; [done|]. by destruct deadline.
Qed.

(** Steps that are only the router's leave the registry. *)
Lemma settled_counter ks (w : World) r c : counted (w, ks) → sv_get (w_server (settle cfg ks w)) r = Some c → cn_inFlight c = 0.
Proof.
  intros Hc Hr. destruct (settle_run cfg ks w) as [Hs Hq]. pose proof (steps_counted _ _ _ Hs Hc) as Hc'.
  rewrite (counted_counter (settle cfg ks w, []) r c Hc' Hr). unfold in_flight. cbn [fst snd]. by rewrite Hq.
Qed.

(** C7: what the drain waits for.  In every run of the gateway, in which submits are
    answered, counted, queued, forwarded and retried in steps that interleave with each
    other and with all that sessions do, a session's counter is the number of its
    messages that are being queued, are queued or are being forwarded (as far as 32 bits
    go).  A look of Stop, which loads the counters of the registered sessions one after
    the other while the gateway goes on, gives the sum of what they were, each at a
    moment of the look; so as long as those numbers sum up to less than 2^31, the drain
    is complete at that look just when for every registered session there was such a
    moment at which it had no message in flight.  When the works in hand have run to
    their ends and the workers have emptied the queue, with nothing new submitted, all
    counters are 0 and a look completes the drain.  A message that has been answered and
    is not counted yet is not waited for, nor one without a registered session. *)
Theorem drain_waits (db : DB) (st st' : World * list work) iter total :
  rtc (gw_step cfg any_change) (started db) st → look iter st total st' →
  (∀ r c, sv_get (w_server st.1) r = Some c → cn_inFlight c = i32 (occ r (in_flight st))) ∧
  (∃ at_ : bytes → World * list work,
     (∀ id, rtc (gw_step cfg any_change) st (at_ id) ∧ rtc (gw_step cfg any_change) (at_ id) st') ∧
     total = totalInFlight (λ id r, loaded (w_server (at_ id).1) r) iter ∧
     let number id r := occ r (in_flight (at_ id)) in
     (sum_of number iter < 2 ^ 31 → total = sum_of number iter ∧
      ∀ looks deadline, drain_loop looks = None →
        drain_loop (looks ++ [(total, deadline)]) = Some DrainComplete ↔
        ∀ id r, sv_conns (w_server st.1) !! id = Some r → r ∉ in_flight (at_ id))) ∧
  let w' := settle cfg st.2 st.1 in
  w_forwardCh w' = [] ∧ (∀ r c, sv_get (w_server w') r = Some c → cn_inFlight c = 0) ∧
  ∀ iter', totalInFlight (λ _, loaded (w_server w')) iter' = 0.
Proof.
  intros Hr [Hp Hl]. pose proof (steps_counted _ _ _ Hr (started_counted db)) as Hc. split; [|split].
  - intros r c. by apply counted_counter.
  - assert (NoDup iter.*1) as Hnd by (rewrite Hp; apply NoDup_fst_map_to_list).
    destruct (look_moments _ _ Hl Hnd eq_refl) as (_ & at_ & Hat & Ht). cbn [fst snd] in *. exists at_.
    split; [exact Hat|]. split; [exact Ht|]. cbv zeta. intros Hlt.
    assert (total = totalInFlight (λ id r, i32 (occ r (in_flight (at_ id)))) iter) as Hs.
    { rewrite Ht. unfold totalInFlight.
      apply (fold_load_ext (λ id r, loaded (w_server (at_ id).1) r) (λ id r, i32 (occ r (in_flight (at_ id))))).
      intros id r _. apply counted_loaded.
      eapply steps_counted; [exact (proj1 (Hat id))|exact Hc]. }
    rewrite totalInFlight_sum in Hs.
    destruct (sum_of_zero (λ id r, occ r (in_flight (at_ id))) iter) as [Hge Hz]; [intros; apply occ_le|].
    rewrite i32_id in Hs by lia. split; [exact Hs|]. intros looks deadline Hw. rewrite drain_look by done. rewrite Hs, Hz.
    assert (∀ id r, (id, r) ∈ iter ↔ sv_conns (w_server st.1) !! id = Some r) as Hin.
    { intros id r. rewrite Hp. apply elem_of_map_to_list. }
    split; intros Hall id r; [rewrite <-Hin|rewrite Hin]; intros Hid%Hall; by apply occ_zero.
  - cbv zeta. destruct st as [w ks]. cbn [fst snd] in *. split; [apply settle_run|].
    pose proof (settled_counter ks w) as Hz. split; [intros r c; by apply Hz|]. intros iter'.
    transitivity (totalInFlight (λ _ _, i32 0) iter').
    + unfold totalInFlight. apply (fold_load_ext (λ _, loaded (w_server (settle cfg ks w))) (λ _ _, i32 0)). intros id r _.
      unfold loaded. destruct (sv_get (w_server (settle cfg ks w)) r) as [c|] eqn:E; [|done]. by apply (Hz r).
    + rewrite totalInFlight_sum. unfold sum_of. by induction iter'.
Qed.

End drain.

(** ** A message that is waited for, and those that are not *)

#[local] Existing Instance insertion_SliceSort.

(** One look, with nothing in between. *)
Lemma look_static (cfg : RouterConfig) (w : Router (gmap bytes doc) PoolManager) ks :
  let iter := map_to_list (sv_conns (w_server w)) in
  look cfg iter (w, ks) (totalInFlight (λ _, loaded (w_server w)) iter) (w, ks).
Proof.
  cbv zeta. split; [done|]. unfold totalInFlight. generalize 0. induction (map_to_list _) as [|[id r] l IH]; intros t; [constructor|].
  eapply rtc_l; [apply LookLoad|]. apply IH.
Qed.

(** The engine's message waits in the queue: Stop waits for it. *)
Lemma drain_waits_witness :
  totalInFlight (λ _, loaded (w_server ex_accepted)) (map_to_list (sv_conns (w_server ex_accepted))) = 1 ∧
  Server_drain 30 [(1, false)] = None ∧
  ∀ iter, totalInFlight (λ _, loaded (w_server (settle ex_cfg [] ex_accepted))) iter = 0.
Proof.
  destruct (drain_waits ex_cfg ∅ (ex_accepted, []) (ex_accepted, []) _ _
    (run_any _ _ _ _ ex_accepted_steps) (look_static ex_cfg ex_accepted [])) as (_ & _ & Hw).
  split; [vm_compute; reflexivity|]. split; [vm_compute; reflexivity|]. exact (proj2 (proj2 Hw)).
Defined.

Definition one_look (w : Router (gmap bytes doc) PoolManager) : Z :=
  totalInFlight (λ _, loaded (w_server w)) (map_to_list (sv_conns (w_server w))).

(** HandleSubmit answers before it counts: a message that its engine believes accepted,
    and whose task is still to be queued, is not waited for. *)
Theorem answered_not_counted :
  let r := begin_submit ex_cfg (str "engine") 7 ex_body ex_connected in
  let t := mkTask (Some 0%nat) (str "GW-1") (str "447911") (str "4470") ex_body in
  rtc (gw_step ex_cfg any_change) (started ∅) (r.2, [WkAnswered t (str "engine")]) ∧
  EvAccepted (str "GW-1") (str "engine") (Some 0%nat) ∈ w_events r.2 ∧
  look ex_cfg (map_to_list (sv_conns (w_server r.2))) (r.2, [WkAnswered t (str "engine")]) 0 (r.2, [WkAnswered t (str "engine")]) ∧
  Server_drain 30 [(0, false)] = Some DrainComplete.
Proof.
  intros r t. assert (r.1 = Some (WkAnswered t (str "engine"))) as Hr by (vm_compute; reflexivity). split; [|split; [|split]].
  - etransitivity; [apply (run_any _ keeps_names), ex_connected_steps|]. apply rtc_once.
    change [WkAnswered t (str "engine")] with ([] ++ option_list (Some (WkAnswered t (str "engine")))). rewrite <-Hr.
    assert (json_string (str "engine") = str "engine") as Hj by by vm_compute.
    assert (w_msgSeq ex_connected < 2 ^ 64 - 1) as Hn by by vm_compute.
    exact (GwSubmit ex_cfg any_change (str "engine") 7 ex_body ex_connected [] Hj Hn).
  - vm_compute. by left.
  - assert (one_look r.2 = 0) as Hz by (vm_compute; reflexivity). rewrite <-Hz at 1. apply look_static.
  - vm_compute. reflexivity.
Qed.

(** A message submitted over HTTP has no session: it is queued, and Stop does not wait
    for it. *)
Theorem rest_not_drained :
  let w := handle ex_cfg (HHTTPSubmit (Some (mkSMSRequest (str "447911") (str "4470") (str "hi") [] [] [] None))) ex_connected in
  length (w_forwardCh w) = 1%nat ∧ Server_drain 30 [(one_look w, false)] = Some DrainComplete.
Proof. vm_compute. done. Qed.

(** With an engine whose session ends while its message is queued it is the same. *)
Theorem ended_not_drained :
  let w := set_server (handleConnection_end 5 0 (w_server ex_accepted)) ex_accepted in
  length (w_forwardCh w) = 1%nat ∧ Server_drain 30 [(one_look w, false)] = Some DrainComplete.
Proof. vm_compute. done. Qed.
