(* ===== verification/Process.v ===== *)
(** * The process (cmd/smsc-gateway/main.go, gateway/tls.go)

    [run] from its start to the point where it waits for a signal: what can stop it, which
    of its parts encrypt, and the loops it leaves running with their intervals
    ([run_outcome]); and two settings that do not do what they look like: an interval of
    zero stops the whole process ([zero_interval_panics]), and half a key pair for the
    HTTP server switches its encryption off ([half_pair_is_plain]). *)

From S2P Require Import Prelude Constants Utf8 Client Pool Pdu Connection ShardMap SliceSort.
From S2P Require Import PoolManager RouteTable Dlr Documents Format Store Server Gateway.
From S2P Require Import Callback Router RouterInv RestApi RouterRun RetryEnd RouterSpec ConfigStore.
From S2P Require Import Accounts Config AdminApi Startup Recovery.

Local Open Scope Z_scope.

(** ** Certificates *)

Inductive tls_err := TLSHalfPair | TLSLoadFailed.

Section tls.
(** [tls.LoadX509KeyPair], which reads the two files. *)
Context {Cert : Type} (LoadX509KeyPair : bytes → bytes → option Cert).

(** [Ret None]: no encryption. *)
Definition LoadTLSConfig (certFile keyFile : bytes) : outcome tls_err (option Cert) :=
  if decide (certFile = [] ∧ keyFile = []) then Ret None
  else if decide (certFile = [] ∨ keyFile = []) then Fail TLSHalfPair
  else match LoadX509KeyPair certFile keyFile with
       | Some cert => Ret (Some cert)
       | None => Fail TLSLoadFailed
       end.

Inductive start_err := StoreFailed | ListenFailed | TLSFailed (e : tls_err).

(** [Server.Start]: [listens] is the fate of net.Listen; the listener is closed again
    when the certificate does not load. *)
Definition Server_Start (listens : bool) (c : Config.Config) : outcome start_err (option Cert) :=
  if negb listens then Fail ListenFailed
  else match LoadTLSConfig (g_TLSCertFile c) (g_TLSKeyFile c) with
       | Ret cert => Ret cert
       | Fail e => Fail (TLSFailed e)
       | Panic => Panic
       end.

(** The files of the HTTP server; [None] when it serves in the clear. *)
Definition http_tls (c : Config.Config) : option (bytes * bytes) :=
  let certFile := if decide (g_HTTPTLSCertFile c = []) then g_TLSCertFile c else g_HTTPTLSCertFile c in
  let keyFile := if decide (g_HTTPTLSKeyFile c = []) then g_TLSKeyFile c else g_HTTPTLSKeyFile c in
  if decide (certFile ≠ [] ∧ keyFile ≠ []) then Some (certFile, keyFile) else None.

(** ** The loops *)

Inductive loop := Cleaning | Redelivering | Measuring | Expiring | Resubmitting | Pinging | Reaping | Calling.

(** [time.NewTicker] panics unless the interval is positive; in a goroutine of its own
    that ends the process. *)
Definition NewTicker (l : loop) (interval : Z) : outcome start_err (list (loop * Z)) :=
  if decide (interval <= 0) then Panic else Ret [(l, interval)].

Definition RunCleanup (interval : Z) := NewTicker Cleaning interval.
Definition RunRetryLoop (interval : Z) := NewTicker Redelivering interval.
Definition RunMetricsUpdater := NewTicker Measuring (5 * Second).
(** CleanupCorrelations, whose ticks are in [Router]. *)
Definition ExpireLoop := NewTicker Expiring (60 * Second).
Definition RunSubmitRetryLoop (interval : Z) :=
  if decide (interval <= 0) then Ret [] else NewTicker Resubmitting interval.
Definition RunEnquireLink (c : Config.Config) :=
  let interval := Duration (g_EnquireLinkSec c) Second in
  if decide (interval <= 0) then Ret [] else NewTicker Pinging interval.
Definition RunStaleChecker (c : Config.Config) :=
  let timeout := Duration (g_IdleTimeoutSec c) Second in
  if decide (timeout <= 0) then Ret [] else NewTicker Reaping (Z.quot timeout 2).
Definition RunCallbackRetryLoop (interval : Z) := NewTicker Calling interval.

Definition background_loops (c : Config.Config) : outcome start_err (list (loop * Z)) :=
  l1 ← RunCleanup (g_CleanupInterval c);
  l2 ← RunRetryLoop (g_RetryInterval c);
  l3 ← RunMetricsUpdater;
  l4 ← ExpireLoop;
  l5 ← RunSubmitRetryLoop (g_SubmitRetryInterval c);
  l6 ← RunEnquireLink c;
  l7 ← RunStaleChecker c;
  l8 ← RunCallbackRetryLoop (10 * Second);
  Ret (l1 ++ l2 ++ l3 ++ l4 ++ l5 ++ l6 ++ l7 ++ l8).

Definition StartForwardWorkers (n : Z) : Z := if decide (n <= 0) then 64 else n.

(** ** run *)

Context {DB : Type} `{!KV DB} `{!Zone} `{!Bcrypt} `{!SliceSort}.

Record Running := mkRunning {
  rn_world : Router DB PoolManager; rn_tls : option Cert; rn_http : option (bytes * bytes);
  rn_workers : Z; rn_loops : list (loop * Z) }.

(** [opened]: the database, when it could be opened.  The second result is the database
    that an attempt leaves that returns an error: pools were loaded, and perhaps the default pool was saved,
    before the listener was tried. *)
Definition run_start (opened : option DB) (listens : bool) (c : Config.Config) (e : ApiEnv) (n : nat) (past : list event) :
    outcome start_err Running * option DB :=
  match opened with
  | None => (Fail StoreFailed, None)
  | Some db =>
      let s := NewMessageStore db in
      match Server_Start listens c with
      | Fail err => (Fail err, Some (st_db (store_Close (boot_pools (ae_connect e) c s).2)))
      | Panic => (Panic, None)
      | Ret cert =>
          match background_loops c with
          | Ret loops => (Ret (mkRunning (start_gateway c e n past s) cert (http_tls c) (StartForwardWorkers (g_ForwardWorkers c)) loops), None)
          | Fail err => (Fail err, None)
          | Panic => (Panic, None)
          end
      end
  end.

(** ** When it starts *)

Definition tickers_ok (c : Config.Config) : Prop := 0 < g_CleanupInterval c ∧ 0 < g_RetryInterval c.

Lemma stale_ticker n : 0 < i64 (n * Second) → 0 < Z.quot (i64 (n * Second)) 2.
Proof.
  unfold i64, Second. intros Hi. rewrite Z.quot_div_nonneg by lia. apply Z.div_str_pos. split; [lia|].
  pose proof (Z.div_mod (n * 1000000000 + 2 ^ 63) (2 ^ 64) ltac:(lia)) as Hd. lia.
Qed.

Lemma NewTicker_pos l i : 0 < i → NewTicker l i = Ret [(l, i)].
Proof. intros. unfold NewTicker. by rewrite decide_False by lia. Qed.

Lemma NewTicker_panic l i : ¬ 0 < i → NewTicker l i = Panic.
Proof. intros. unfold NewTicker. by rewrite decide_True by lia. Qed.

Lemma RunStaleChecker_eq c : RunStaleChecker c =
  Ret (if decide (Duration (g_IdleTimeoutSec c) Second <= 0) then [] else [(Reaping, Z.quot (Duration (g_IdleTimeoutSec c) Second) 2)]).
Proof.
  unfold RunStaleChecker. case_decide as Hi; [done|]. apply NewTicker_pos, stale_ticker. unfold Duration in Hi. lia.
Qed.

Lemma RunEnquireLink_eq c : RunEnquireLink c =
  Ret (if decide (Duration (g_EnquireLinkSec c) Second <= 0) then [] else [(Pinging, Duration (g_EnquireLinkSec c) Second)]).
Proof. unfold RunEnquireLink. case_decide; [done|]. apply NewTicker_pos. lia. Qed.

Lemma RunSubmitRetryLoop_eq i : RunSubmitRetryLoop i = Ret (if decide (i <= 0) then [] else [(Resubmitting, i)]).
Proof. unfold RunSubmitRetryLoop. case_decide; [done|]. apply NewTicker_pos. lia. Qed.

Lemma background_loops_eq c :
  background_loops c =
    if decide (tickers_ok c) then
      Ret ([(Cleaning, g_CleanupInterval c); (Redelivering, g_RetryInterval c); (Measuring, 5 * Second); (Expiring, 60 * Second)] ++
        (if decide (g_SubmitRetryInterval c <= 0) then [] else [(Resubmitting, g_SubmitRetryInterval c)]) ++
        (if decide (Duration (g_EnquireLinkSec c) Second <= 0) then [] else [(Pinging, Duration (g_EnquireLinkSec c) Second)]) ++
        (if decide (Duration (g_IdleTimeoutSec c) Second <= 0) then [] else [(Reaping, Z.quot (Duration (g_IdleTimeoutSec c) Second) 2)]) ++
        [(Calling, 10 * Second)])
    else Panic.
Proof.
  unfold background_loops, tickers_ok. rewrite RunSubmitRetryLoop_eq, RunEnquireLink_eq, RunStaleChecker_eq.
  unfold RunCleanup, RunRetryLoop. destruct (decide (0 < g_CleanupInterval c)) as [Hc|Hc].
  - rewrite (NewTicker_pos Cleaning) by done. destruct (decide (0 < g_RetryInterval c)) as [Hr|Hr].
    + rewrite (NewTicker_pos Redelivering) by done. by rewrite (decide_True (P := 0 < g_CleanupInterval c ∧ _)).
    + rewrite (decide_False (P := 0 < g_CleanupInterval c ∧ _)) by tauto. by rewrite (NewTicker_panic Redelivering).
  - rewrite (decide_False (P := 0 < g_CleanupInterval c ∧ _)) by tauto. by rewrite (NewTicker_panic Cleaning).
Qed.

(** C20: What [run] does.  It comes to wait for a signal exactly when the store opens,
    the listener opens, the key pair of the sessions is either absent or complete and
    loads, and both intervals that have no guard are positive; the first of these that
    fails decides the error, and a bad interval ends the process with a panic.  Once it
    waits, sessions are encrypted exactly when a pair was given, and the loops run at the
    intervals of the configuration, each at a positive one. *)
Theorem run_outcome opened listens c e n past :
  let pair := LoadTLSConfig (g_TLSCertFile c) (g_TLSKeyFile c) in
  match (run_start opened listens c e n past).1 with
  | Ret r =>
      (∃ db, opened = Some db ∧ rn_world r = start_gateway c e n past (NewMessageStore db)) ∧ listens = true ∧
      pair = Ret (rn_tls r) ∧ (rn_tls r = None ↔ g_TLSCertFile c = [] ∧ g_TLSKeyFile c = []) ∧
      tickers_ok c ∧ 0 < rn_workers r ∧ Forall (λ l, 0 < l.2) (rn_loops r) ∧
      (∀ i, (Resubmitting, i) ∈ rn_loops r ↔ 0 < g_SubmitRetryInterval c ∧ i = g_SubmitRetryInterval c)
  | Fail StoreFailed => opened = None
  | Fail ListenFailed => is_Some opened ∧ listens = false
  | Fail (TLSFailed err) => is_Some opened ∧ listens = true ∧ pair = Fail err
  | Panic => is_Some opened ∧ listens = true ∧ (∃ cert, pair = Ret cert) ∧ ¬ tickers_ok c
  end.
Proof.
  cbv zeta. unfold run_start, Server_Start. destruct opened as [db|]; [|done].
  destruct listens; cbn [negb fst]; [|by split].
  destruct (LoadTLSConfig _ _) as [cert|err|] eqn:Et; cbn [fst].
  2: { split; [by eexists|done]. }
  2: { exfalso. revert Et. unfold LoadTLSConfig. repeat case_match; discriminate. }
  rewrite background_loops_eq. case_decide as Hok; cbn [fst]; [|split; [by eexists|split; [done|split; [by eexists|done]]]].
  split; [by exists db|]. split; [done|]. split; [done|]. cbn [rn_tls rn_workers rn_loops]. split.
  { revert Et. unfold LoadTLSConfig. repeat case_decide; repeat case_match; intros E; simplify_eq; naive_solver. }
  split; [done|]. split; [unfold StartForwardWorkers; case_decide; lia|]. split.
  - unfold tickers_ok in Hok. rewrite !Forall_app. split_and!.
    + repeat constructor; cbn; unfold Second; lia.
    + case_decide; repeat constructor; cbn; lia.
    + case_decide; repeat constructor; cbn; lia.
    + case_decide as Hi; repeat constructor. apply stale_ticker. unfold Duration in Hi. lia.
    + repeat constructor.
  - intros i. rewrite !elem_of_app. split.
    + intros Hin. repeat case_decide; rewrite ?elem_of_cons, ?elem_of_nil in Hin; intuition (simplify_eq; lia).
    + intros [Hp ->]. right. left. rewrite decide_False by lia. by left.
Qed.

(** With the defaults it starts. *)
Theorem defaults_start : background_loops (LoadConfig (λ _, [])) =
  Ret [(Cleaning, 300 * Second); (Redelivering, 5 * Second); (Measuring, 5 * Second); (Expiring, 60 * Second);
       (Resubmitting, 10 * Second); (Pinging, 30 * Second); (Reaping, 60 * Second); (Calling, 10 * Second)].
Proof. vm_compute. reflexivity. Qed.

(** GW_RETRY_INTERVAL_SEC=0 and GW_CLEANUP_INTERVAL_MIN=0 end the process, where the same
    value for GW_SUBMIT_RETRY_INTERVAL_SEC switches its loop off. *)
Theorem zero_interval_panics Getenv :
  (Getenv (str "GW_RETRY_INTERVAL_SEC") = str "0" ∨ Getenv (str "GW_CLEANUP_INTERVAL_MIN") = str "0" →
   background_loops (LoadConfig Getenv) = Panic) ∧
  (Getenv (str "GW_SUBMIT_RETRY_INTERVAL_SEC") = str "0" → RunSubmitRetryLoop (g_SubmitRetryInterval (LoadConfig Getenv)) = Ret []).
Proof.
  assert (∀ k f, Getenv k = str "0" → getEnvInt Getenv k f = 0) as Hzero.
  { intros k f Hk. unfold getEnvInt. rewrite Hk. reflexivity. }
  split.
  - intros Hz. rewrite background_loops_eq, decide_False; [done|]. unfold tickers_ok.
    change (g_CleanupInterval (LoadConfig Getenv)) with (Duration (getEnvInt Getenv (str "GW_CLEANUP_INTERVAL_MIN") 5) (60 * Second)).
    change (g_RetryInterval (LoadConfig Getenv)) with (Duration (getEnvInt Getenv (str "GW_RETRY_INTERVAL_SEC") 5) Second).
    destruct Hz as [Hz|Hz]; rewrite (Hzero _ _ Hz); unfold Duration at 1 2; intros [Hc Hr]; [revert Hr|revert Hc];
      vm_compute; discriminate.
  - intros Hz.
    change (g_SubmitRetryInterval (LoadConfig Getenv)) with (Duration (getEnvInt Getenv (str "GW_SUBMIT_RETRY_INTERVAL_SEC") 10) Second).
    by rewrite (Hzero _ _ Hz).
Qed.

(** Half a key pair: the same files that make the sessions' listener refuse to start let
    the HTTP server, which carries passwords and API keys, serve in the clear. *)
Theorem half_pair_is_plain c :
  g_HTTPTLSCertFile c ≠ [] → g_HTTPTLSKeyFile c = [] → g_TLSKeyFile c = [] →
  http_tls c = None ∧ LoadTLSConfig (g_HTTPTLSCertFile c) (g_HTTPTLSKeyFile c) = Fail TLSHalfPair.
Proof.
  intros Hc Hk Ht. unfold http_tls, LoadTLSConfig. rewrite Hk, Ht. split.
  - rewrite (decide_True (P := [] = [])) by done. by rewrite (decide_False (P := _ ∧ [] ≠ [])) by naive_solver.
  - rewrite decide_False by naive_solver. by rewrite decide_True by auto.
Qed.

End tls.
