(* ===== verification/MockSmsc.v ===== *)
(** * The mock SMSC (mocksmsc/server.go, mocksmsc/store.go)

    The server the load tests run against: it accepts every bind, answers submit_sm with
    the ID "MOCK-<n>", sends a delivery receipt after a delay and, when it is set up to,
    a mobile-originated message after that.  [mock_pdu] is the switch of
    handleConnection, [mock_fire] what a sleeping goroutine does when its delay is over,
    and [mock_step] interleaves connections, goroutines and [Stop].  The clock, the random
    draws and the fate of each write are parameters; a float64 is a rational. *)

From Stdlib Require Import QArith.
From S2P Require Import Prelude Constants Tlv Pdu Operations PduFields Utf8 Client Dlr Documents Format Connection.

Local Open Scope Z_scope.

(** ** The store *)

Record StoredMessage := mkStoredMessage {
  sg_MessageID : bytes; sg_SourceAddr : bytes; sg_DestAddr : bytes; sg_Payload : bytes;
  sg_ReceivedAt : Z; sg_DLRSent : bool; sg_DLRStatus : bytes; sg_MOSent : bool }.

Abbreviation MockStore := (gmap bytes StoredMessage).

Definition NewMockStore : MockStore := ∅.
Definition mock_Add (msg : StoredMessage) (ms : MockStore) : MockStore := <[sg_MessageID msg := msg]> ms.
Definition mock_Get (messageID : bytes) (ms : MockStore) : option StoredMessage := ms !! messageID.

(** [iter] is the order in which Go goes through the map. *)
Definition mock_List (iter : list (bytes * StoredMessage)) : list StoredMessage := iter.*2.

Definition MarkDLRSent (messageID status : bytes) (ms : MockStore) : MockStore :=
  alter (λ m, mkStoredMessage (sg_MessageID m) (sg_SourceAddr m) (sg_DestAddr m) (sg_Payload m)
    (sg_ReceivedAt m) true status (sg_MOSent m)) messageID ms.

Definition MarkMOSent (messageID : bytes) (ms : MockStore) : MockStore :=
  alter (λ m, mkStoredMessage (sg_MessageID m) (sg_SourceAddr m) (sg_DestAddr m) (sg_Payload m)
    (sg_ReceivedAt m) (sg_DLRSent m) (sg_DLRStatus m) true) messageID ms.

(** ** The server *)

Record MockConfig := mkMockConfig {
  mf_Port : Z; mf_DLRDelayMs : Z; mf_DLRSuccessRate : Q; mf_EnableMO : bool;
  mf_MODelayMs : Z; mf_MOPayload : bytes }.

(** A connection is a number.  [mk_out] is what was written, to whom, in order. *)
Record MockServer := mkMockServer {
  mk_config : MockConfig; mk_clients : gset nat; mk_store : MockStore; mk_seqNum : Z;
  mk_done : bool; mk_out : list (nat * PDU) }.

Definition with_clients (cl : gset nat) (sv : MockServer) : MockServer :=
  mkMockServer (mk_config sv) cl (mk_store sv) (mk_seqNum sv) (mk_done sv) (mk_out sv).
Definition with_mstore (f : MockStore → MockStore) (sv : MockServer) : MockServer :=
  mkMockServer (mk_config sv) (mk_clients sv) (f (mk_store sv)) (mk_seqNum sv) (mk_done sv) (mk_out sv).

(** The double nearest to 0.95. *)
Definition default_rate : Q := Qmake 4278419646001971 4503599627370496.

Definition mock_NewServer (config : MockConfig) : MockServer :=
  let delay := if decide (mf_DLRDelayMs config <= 0) then 1000 else mf_DLRDelayMs config in
  let rate := if Qle_bool (mf_DLRSuccessRate config) 0 then default_rate else mf_DLRSuccessRate config in
  let moDelay := if decide (mf_MODelayMs config <= 0) then 100 else mf_MODelayMs config in
  mkMockServer (mkMockConfig (mf_Port config) delay rate (mf_EnableMO config) moDelay (mf_MOPayload config))
    ∅ NewMockStore 0 false [].

(** [s.seqNum++] under the lock; IDs and deliver_sm sequence numbers share the counter. *)
Definition mock_next (sv : MockServer) : Z * MockServer :=
  let seq := u32 (mk_seqNum sv + 1) in
  (seq, mkMockServer (mk_config sv) (mk_clients sv) (mk_store sv) seq (mk_done sv) (mk_out sv)).

(** [ok]: the connection takes the bytes. *)
Definition mock_writePDU (ok : bool) (c : nat) (pdu : PDU) (sv : MockServer) : bool * MockServer :=
  if decide (c ∉ mk_clients sv) then (false, sv)
  else if ok then
    (true, mkMockServer (mk_config sv) (mk_clients sv) (mk_store sv) (mk_seqNum sv) (mk_done sv) (mk_out sv ++ [(c, pdu)]))
  else (false, sv).

(** ** deliver_sm *)

Definition buildDeliverSMBody (sourceAddr destAddr : bytes) (esmClass : Z) (shortMessage : bytes) : bytes :=
  let buf := [] in
  let buf := WriteByte 0 buf in
  let buf := WriteByte 0 buf in
  let buf := WriteByte 0 buf in
  let buf := WriteByte 0 (WriteBytes sourceAddr buf) in
  let buf := WriteByte 1 buf in
  let buf := WriteByte 1 buf in
  let buf := WriteByte 0 (WriteBytes destAddr buf) in
  let buf := WriteByte esmClass buf in
  let buf := WriteByte 0 buf in
  let buf := WriteByte 0 buf in
  let buf := WriteByte 0 buf in
  let buf := WriteByte 0 buf in
  let buf := WriteByte 0 buf in
  let buf := WriteByte 0 buf in
  let buf := WriteByte 0 buf in
  let buf := WriteByte 0 buf in
  if decide (254 < length shortMessage)%nat then
    let buf := WriteByte 0 buf in
    let buf := WriteBytes (PutUint16 (u16 0x0424)) buf in
    let buf := WriteBytes (PutUint16 (u16 (zlen shortMessage))) buf in
    WriteBytes shortMessage buf
  else
    let buf := WriteByte (u8 (zlen shortMessage)) buf in
    WriteBytes shortMessage buf.

Section dates.
Context `{!Zone}.

(** [now.Format("0601021504")] *)
Definition YYMMDDhhmm (now : Z) : bytes :=
  let secs := Z.div (now + zone_offset now * Second) Second in
  let '(y, m, d) := civil (Z.div secs 86400) in
  let sod := Z.modulo secs 86400 in
  digits 2 y ++ digits 2 m ++ digits 2 d ++ digits 2 (Z.div sod 3600) ++ digits 2 (Z.modulo (Z.div sod 60) 60).

Definition dlr_status (success : bool) : bytes := if success then str "DELIVRD" else str "UNDELIV".
Definition dlr_errCode (success : bool) : bytes := if success then str "000" else str "069".
Definition dlr_dlvrd (success : bool) : bytes := if success then str "001" else str "000".

Definition receipt_text (messageID : bytes) (success : bool) (now : Z) : bytes :=
  let dateStr := YYMMDDhhmm now in
  str "id:" ++ messageID ++ str " sub:001 dlvrd:" ++ dlr_dlvrd success ++ str " submit date:" ++ dateStr ++
  str " done date:" ++ dateStr ++ str " stat:" ++ dlr_status success ++ str " err:" ++ dlr_errCode success ++
  str " text:...".

Definition sendDLR (now : Z) (ok : bool) (c : nat) (messageID destAddr : bytes) (success : bool) (sv : MockServer) : MockServer :=
  let sv := with_mstore (MarkDLRSent messageID (dlr_status success)) sv in
  let body := buildDeliverSMBody [] destAddr 0x04 (receipt_text messageID success now) in
  let '(seq, sv) := mock_next sv in
  (mock_writePDU ok c (mkPDU 0 CmdDeliverSM StatusOK seq body None) sv).2.

Definition sendMO (ok : bool) (c : nat) (messageID sourceAddr destAddr payload : bytes) (sv : MockServer) : MockServer :=
  let sv := with_mstore (MarkMOSent messageID) sv in
  let body := buildDeliverSMBody sourceAddr destAddr 0x00 payload in
  let '(seq, sv) := mock_next sv in
  (mock_writePDU ok c (mkPDU 0 CmdDeliverSM StatusOK seq body None) sv).2.

(** The goroutine that handleConnection starts for an accepted message: asleep before
    the receipt, or asleep between the receipt and the message. *)
Inductive Task :=
| TaskDLR (c : nat) (mid src dest : bytes) (success : bool)
| TaskMO (c : nat) (mid src dest : bytes).

Definition mock_fire (now : Z) (ok : bool) (t : Task) (sv : MockServer) : MockServer * list Task :=
  match t with
  | TaskDLR c mid src dest success =>
      (sendDLR now ok c mid dest success sv,
       if success && mf_EnableMO (mk_config sv) && bool_decide (0 < length (mf_MOPayload (mk_config sv)))%nat
       then [TaskMO c mid src dest] else [])
  | TaskMO c mid src dest => (sendMO ok c mid dest src (mf_MOPayload (mk_config sv)) sv, [])
  end.

(** ** handleConnection *)

Definition mock_answer (cmdID status : Z) (pdu : PDU) (body : bytes) : PDU :=
  mkPDU 0 cmdID status (SequenceNumber pdu) body None.

Definition mock_bind_resp (pdu : PDU) : PDU :=
  let respCmdID :=
    if decide (CommandID pdu = CmdBindTransmitter) then CmdBindTransmitterResp
    else if decide (CommandID pdu = CmdBindReceiver) then CmdBindReceiverResp
    else CmdBindTransceiverResp in
  let respBody := WriteCStringBytes (str "MOCKSMSC") in
  let tlvs := TLVSet_SetUint8 ∅ TagSCInterfaceVersion 0x50 in
  mock_answer respCmdID StatusOK pdu (respBody ++ TLVSet_Encode tlvs).

Definition mock_messageID (seq : Z) : bytes := str "MOCK-" ++ itoa seq.

(** The case of submit_sm on a bound connection; the result is whether the loop goes on
    and the goroutine it started. *)
Definition mock_submit (now : Z) (draw : Q) (ok : bool) (c : nat) (pdu : PDU) (sv : MockServer) :
    MockServer * list Task * bool :=
  let '(sourceAddr, destAddr, _, shortMessage) := ParseDeliverSM (Body pdu) in
  let '(seq, sv) := mock_next sv in
  let messageID := mock_messageID seq in
  let sv := with_mstore (mock_Add (mkStoredMessage messageID sourceAddr destAddr shortMessage now false [] false)) sv in
  let '(written, sv) := mock_writePDU ok c (mock_answer CmdSubmitSMResp StatusOK pdu (WriteCStringBytes messageID)) sv in
  if negb written then (sv, [], false)
  else
    let success := negb (Qle_bool (mf_DLRSuccessRate (mk_config sv)) draw) in
    (sv, [TaskDLR c messageID sourceAddr destAddr success], true).

(** One PDU.  The last component is the [bound] of the next round, [None] when the
    function returns. *)
Definition mock_pdu (now : Z) (draw : Q) (ok : bool) (c : nat) (bound : bool) (pdu : PDU) (sv : MockServer) :
    MockServer * list Task * option bool :=
  let write p := (mock_writePDU ok c p sv).2 in
  let cmd := CommandID pdu in
  if decide (cmd = CmdBindTransceiver ∨ cmd = CmdBindTransmitter ∨ cmd = CmdBindReceiver) then
    let '(written, sv) := mock_writePDU ok c (mock_bind_resp pdu) sv in
    (sv, [], if written then Some true else None)
  else if decide (cmd = CmdSubmitSM) then
    if negb bound then (write (mock_answer CmdSubmitSMResp StatusInvBnd pdu [0]), [], Some bound)
    else
      let '(sv, tasks, continue) := mock_submit now draw ok c pdu sv in
      (sv, tasks, if continue : bool then Some bound else None)
  else if decide (cmd = CmdEnquireLink) then
    let '(written, sv) := mock_writePDU ok c (mock_answer CmdEnquireLinkResp StatusOK pdu []) sv in
    (sv, [], if written then Some bound else None)
  else if decide (cmd = CmdDeliverSMResp) then (sv, [], Some bound)
  else if decide (cmd = CmdUnbind) then (write (mock_answer CmdUnbindResp StatusOK pdu []), [], None)
  else if decide (cmd = CmdQuerySM) then
    if negb bound then (write (mock_answer CmdQuerySMResp StatusInvBnd pdu [0]), [], Some bound)
    else
      let msgID := (ReadCString (Body pdu) 0).1 in
      let qBody := WriteByte 0 (WriteByte MsgStateDelivered (WriteByte 0 (WriteByte 0 (WriteBytes msgID [])))) in
      (write (mock_answer CmdQuerySMResp StatusOK pdu qBody), [], Some bound)
  else if decide (cmd = CmdCancelSM) then
    if negb bound then (write (mock_answer CmdCancelSMResp StatusInvBnd pdu []), [], Some bound)
    else (write (mock_answer CmdCancelSMResp StatusOK pdu []), [], Some bound)
  else (write (mock_answer CmdGenericNack StatusInvCmdID pdu []), [], Some bound).

(** One round of the loop on the bytes that are still to be read. *)
Definition mock_round (now : Z) (draw : Q) (ok : bool) (c : nat) (bound : bool) (stream : bytes) (sv : MockServer) :
    MockServer * list Task * option (bool * bytes) :=
  match read_frame stream with
  | FramePDU pdu rest =>
      let '(sv, tasks, b) := mock_pdu now draw ok c bound pdu sv in
      (sv, tasks, (λ b, (b, rest)) <$> b)
  | _ => (sv, [], None)
  end.

(** [io.ReadFull] waits for more while the frame is not complete. *)
Definition frame_ready (stream : bytes) : Prop :=
  match read_frame stream with FrameNoHeader | FrameShortBody => False | _ => True end.

(** The deferred function. *)
Definition mock_leave (c : nat) (sv : MockServer) : MockServer := with_clients (mk_clients sv ∖ {[c]}) sv.

Definition mock_Stop (sv : MockServer) : MockServer :=
  mkMockServer (mk_config sv) ∅ (mk_store sv) (mk_seqNum sv) true (mk_out sv).

(** *** The system

    [mw_readers] has the connections whose handleConnection runs: [bound] and the bytes
    still to be read.  A connection may be accepted while [Stop] runs. *)

Record MockWorld := mkMockWorld {
  mw_server : MockServer; mw_readers : gmap nat (bool * bytes); mw_tasks : list Task }.

Definition mock_reader_next (c : nat) (next : option (bool * bytes)) (sv : MockServer)
    (readers : gmap nat (bool * bytes)) (tasks : list Task) : MockWorld :=
  match next with
  | Some r => mkMockWorld sv (<[c := r]> readers) tasks
  | None => mkMockWorld (mock_leave c sv) (delete c readers) tasks
  end.

Inductive mock_step : MockWorld → MockWorld → Prop :=
| mock_accept sv readers tasks c :
    readers !! c = None → c ∉ mk_clients sv →
    mock_step (mkMockWorld sv readers tasks)
      (mkMockWorld (with_clients ({[c]} ∪ mk_clients sv) sv) (<[c := (false, [])]> readers) tasks)
| mock_receive sv readers tasks c bound stream bs :
    readers !! c = Some (bound, stream) →
    mock_step (mkMockWorld sv readers tasks) (mkMockWorld sv (<[c := (bound, stream ++ bs)]> readers) tasks)
| mock_serve sv readers tasks c bound stream now draw ok sv' new next :
    readers !! c = Some (bound, stream) → frame_ready stream →
    mock_round now draw ok c bound stream sv = (sv', new, next) →
    mock_step (mkMockWorld sv readers tasks) (mock_reader_next c next sv' readers (tasks ++ new))
| mock_gone sv readers tasks c r :
    readers !! c = Some r →
    mock_step (mkMockWorld sv readers tasks) (mkMockWorld (mock_leave c sv) (delete c readers) tasks)
| mock_wake sv readers l1 t l2 now ok sv' more :
    mock_fire now ok t sv = (sv', more) →
    mock_step (mkMockWorld sv readers (l1 ++ t :: l2)) (mkMockWorld sv' readers (l1 ++ more ++ l2))
| mock_abandon sv readers l1 t l2 :
    mk_done sv = true →
    mock_step (mkMockWorld sv readers (l1 ++ t :: l2)) (mkMockWorld sv readers (l1 ++ l2))
| mock_stop sv readers tasks :
    mk_done sv = false →
    mock_step (mkMockWorld sv readers tasks) (mkMockWorld (mock_Stop sv) readers tasks).

Definition mock_start (config : MockConfig) : MockWorld := mkMockWorld (mock_NewServer config) ∅ [].

End dates.

(** ** The PDUs it sends *)

Lemma buildDeliverSMBody_eq src dst esm sm : buildDeliverSMBody src dst esm sm = BuildDeliverSMBody src dst esm sm.
Proof.
  rewrite BuildDeliverSMBody_eq. unfold buildDeliverSMBody, EncodeSubmitSM, writeCString, WriteByte, WriteBytes.
  case_decide; rewrite <-!app_assoc; done.
Qed.

Lemma parse_buildDeliverSMBody src dst esm sm : no_nul src → no_nul dst →
  ParseDeliverSM (buildDeliverSMBody src dst esm sm) = (src, dst, esm, if decide (254 < length sm)%nat then [] else sm).
Proof.
  intros Hs Hd. rewrite buildDeliverSMBody_eq, BuildDeliverSMBody_eq. by apply ParseDeliverSM_Encode.
Qed.

(** The addresses that a parser reads have no zero byte in them. *)
Lemma take_scan_nul s : no_nul (take (scan_nul s) s).
Proof.
  induction s as [|b s IH]; simpl; [by intros ?%elem_of_nil|]. case_decide; [by intros ?%elem_of_nil|].
  cbn [take]. intros [?|?]%elem_of_cons; [congruence|]. by apply IH.
Qed.

Lemma ReadCString_no_nul data o : no_nul (ReadCString data o).1.
Proof.
  unfold ReadCString. case_decide; [by intros ?%elem_of_nil|]. cbn [fst]. unfold slice.
  replace (o + scan_nul (drop o data) - o)%nat with (scan_nul (drop o data)) by lia. apply take_scan_nul.
Qed.

Lemma no_nul_nil : no_nul [].
Proof. by intros ?%elem_of_nil. Qed.

Ltac early_return := case_decide; [intros E; injection E as <- <- _ _; split; solve [apply no_nul_nil | done]|].

Lemma ParseDeliverSM_no_nul body src dst esm sm : ParseDeliverSM body = (src, dst, esm, sm) → no_nul src ∧ no_nul dst.
Proof.
  unfold ParseDeliverSM. cbv zeta. repeat early_return.
  pose proof (ReadCString_no_nul body (S (S (ReadCString body 0).2))) as Hs.
  destruct (ReadCString body (S _)) as [s o1]. cbn [fst] in Hs. repeat early_return.
  pose proof (ReadCString_no_nul body (S (S o1))) as Hd.
  destruct (ReadCString body (S _)) as [d o2]. cbn [fst] in Hd.
  repeat case_match; intros Eq; injection Eq as <- <- _ _; done.
Qed.

(** ** The receipt text *)

Definition digit (b : Z) : Prop := 48 <= b <= 57.

Lemma find_first_skip_digits m D q :
  (∀ b s, digit b → m (b :: s) = None) → Forall digit D → find_first m (D ++ q) = find_first m q.
Proof.
  intros Hm HD. apply find_first_skip. intros p1 p2 -> Hp. destruct p2 as [|b p2]; [done|].
  apply Forall_app in HD as [_ [Hb _]%Forall_cons]. by apply Hm.
Qed.

Lemma stat_at_digit b s : digit b → stat_at (b :: s) = None.
Proof.
  intros Hb. unfold stat_at. change (str "stat:") with [115; 116; 97; 116; 58]. cbn [fold_prefix].
  rewrite decide_False; [done|]. unfold fold_eq, digit in *. lia.
Qed.

Lemma err_at_digit b s : digit b → field_at (str "err:") (b :: s) = None.
Proof.
  intros Hb. unfold field_at, HasPrefix. rewrite bool_decide_eq_false_2; [done|].
  intros [z Hz]. change (str "err:") with [101; 114; 114; 58] in Hz. injection Hz as -> _. unfold digit in Hb. lia.
Qed.

Section receipts.
Context `{!Zone}.

Lemma date_digits now : Forall digit (YYMMDDhhmm now) ∧ length (YYMMDDhhmm now) = 10%nat.
Proof.
  unfold YYMMDDhhmm. cbv zeta. destruct (civil _) as [[y m] d]. split; [|by len].
  rewrite !Forall_app. split_and!; apply digits_range.
Qed.

(** What follows the ID, and what the two expressions find there. *)
Definition receipt_rest (ok : bool) (D : bytes) : bytes :=
  str " sub:001 dlvrd:" ++ dlr_dlvrd ok ++ str " submit date:" ++ D ++ str " done date:" ++ D ++ str " stat:" ++
  dlr_status ok ++ str " err:" ++ dlr_errCode ok ++ str " text:...".

Lemma receipt_rest_found ok D : Forall digit D →
  find_first stat_at (receipt_rest ok D) = Some (dlr_status ok) ∧
  find_first (field_at (str "err:")) (receipt_rest ok D) = Some (dlr_errCode ok).
Proof.
  intros HD. unfold receipt_rest.
  assert (∀ m, (∀ b s, digit b → m (b :: s) = None) →
    (∀ q, find_first m (str " sub:001 dlvrd:" ++ dlr_dlvrd ok ++ str " submit date:" ++ q) = find_first m q) →
    (∀ q, find_first m (str " done date:" ++ q) = find_first m q) →
    ∀ q, find_first m (str " sub:001 dlvrd:" ++ dlr_dlvrd ok ++ str " submit date:" ++ D ++ str " done date:" ++ D ++ q) =
      find_first m q) as Hskip.
  { intros m Hd H1 H2 q. rewrite H1, find_first_skip_digits, H2, find_first_skip_digits by done. done. }
  split; rewrite Hskip; try (intros; first [by apply stat_at_digit | by apply err_at_digit]);
    try (intros q; destruct ok; reflexivity); destruct ok; vm_compute; reflexivity.
Qed.

Lemma mock_messageID_clean seq : 0 <= seq → clean_id (mock_messageID seq) ∧ 58 ∉ mock_messageID seq.
Proof.
  intros Hn. destruct (itoa_digits seq Hn) as [_ Hd]. unfold mock_messageID, clean_id.
  assert (Forall (λ b, 33 <= b < 127 ∧ b ≠ 58) (str "MOCK-" ++ itoa seq)) as Ha.
  { apply Forall_app. split; [apply (bool_decide_unpack _); vm_compute; exact Logic.I|].
    eapply Forall_impl; [exact Hd|]. simpl. intros b ?. lia. }
  split; [split; [done|]; eapply Forall_impl; [exact Ha|]; simpl; tauto|].
  intros Hin. rewrite Forall_forall in Ha. by destruct (Ha _ Hin).
Qed.

Lemma mock_messageID_inj n m : mock_messageID n = mock_messageID m → n = m.
Proof. intros He%app_inv_head. by apply (inj itoa). Qed.

Lemma receipt_text_parses mid ok now :
  clean_id mid → 58 ∉ mid →
  ascii_text (receipt_text mid ok now) ∧
  ParseDLRReceipt (receipt_text mid ok now) = Some (mkReceipt mid (dlr_status ok) (dlr_errCode ok)).
Proof.
  intros Hid Hc. destruct (date_digits now) as [HD _].
  change (receipt_text mid ok now) with (str "id:" ++ mid ++ receipt_rest ok (YYMMDDhhmm now)).
  generalize (YYMMDDhhmm now), HD. clear HD now. intros D HD.
  destruct (clean_word mid Hid) as (Hw & Ha & _).
  destruct (receipt_rest_found ok D HD) as [Hstat Herr]. unfold receipt_rest in *.
  set (rest := str " sub:001 dlvrd:" ++ _) in *.
  assert (word_end rest) as Hrest by (right; eexists _, _; split; [reflexivity|unfold re_space; tauto]).
  assert (ascii_text (str "id:" ++ mid ++ rest)) as Hat.
  { assert (ascii_text D) by (eapply Forall_impl; [exact HD|]; unfold digit, ascii; lia).
    unfold rest. rewrite !ascii_app. split_and!; try done; destruct ok; apply (bool_decide_unpack _); vm_compute; exact Logic.I. }
  split; [done|].
  rewrite (ParseDLRReceipt_trimmed _ (str "id:" ++ mid ++ rest) mid); [|..|done|].
  - unfold parse_trimmed. f_equal.
    rewrite (find_first_skip_id stat_at mid rest), (find_first_skip_id (field_at (str "err:")) mid rest)
      by (done || apply stat_at_local || apply err_local).
    rewrite Hstat, Herr. destruct ok; reflexivity.
  - rewrite <-(app_nil_l (str "id:" ++ mid ++ rest)) at 1. rewrite <-(app_nil_r (str "id:" ++ mid ++ rest)) at 1.
    apply TrimSpace_trims; [by rewrite app_nil_l, app_nil_r|constructor|constructor|].
    split; [exists 105, (100 :: 58 :: mid ++ rest); split; [reflexivity|unfold IsSpace; lia]|].
    exists (str "id:" ++ mid ++ removelast rest), 46. split; [|unfold IsSpace; lia].
    rewrite <-!app_assoc. do 2 f_equal. rewrite (app_removelast_last 0) at 1 by done. f_equal.
    unfold rest. change (str " text:...") with (str " text:.." ++ [46]). rewrite !app_assoc. by rewrite last_last.
  - done.
  - apply (find_first_at _ []); [intros [|] [|]; done|]. apply field_at_Some. exists rest. by destruct Hid.
Qed.

End receipts.

(** ** What was answered and what was reported *)

(** The ID that an accepted submit_sm was given, and on which connection. *)
Definition answer_of (e : nat * PDU) : option (nat * bytes) :=
  if decide (CommandID e.2 = CmdSubmitSMResp ∧ CommandStatus e.2 = StatusOK)
  then Some (e.1, ParseSubmitSMResp (Body e.2)) else None.

(** The receipt that a client parses from a deliver_sm. *)
Definition receipt_of (e : nat * PDU) : option (nat * DLRReceipt) :=
  if decide (CommandID e.2 = CmdDeliverSM) then
    let '(_, _, esm, text) := ParseDeliverSM (Body e.2) in
    if IsDLR esm then (λ r, (e.1, r)) <$> ParseDLRReceipt text else None
  else None.

Definition deliver_seq (e : nat * PDU) : option Z :=
  if decide (CommandID e.2 = CmdDeliverSM) then Some (SequenceNumber e.2) else None.

Definition due (t : Task) : option (nat * bytes) :=
  match t with TaskDLR c mid _ _ _ => Some (c, mid) | TaskMO _ _ _ _ => None end.

Definition reported (r : nat * DLRReceipt) : nat * bytes := (r.1, dlr_MessageID r.2).

Definition task_ok (t : Task) : Prop :=
  match t with
  | TaskDLR _ _ src dest _ | TaskMO _ _ src dest => no_nul src ∧ no_nul dest
  end.

(** A PDU that is none of these. *)
Definition quiet (e : nat * PDU) : Prop := answer_of e = None ∧ CommandID e.2 ≠ CmdDeliverSM.

Definition marked (ms : MockStore) (mid status : bytes) : Prop :=
  ∃ m, ms !! mid = Some m ∧ sg_DLRSent m = true ∧ sg_DLRStatus m = status.

(** Every receipt comes after the answer it is for, on the same connection. *)
Definition orderly (out : list (nat * PDU)) : Prop :=
  ∀ l1 e l2 r, out = l1 ++ e :: l2 → receipt_of e = Some r → reported r ∈ omap answer_of l1.

Record mock_ok (n : nat) (sv : MockServer) (tasks : list Task) : Prop := {
  mo_seq : 0 <= mk_seqNum sv <= Z.of_nat n;
  mo_ids : Forall (λ a, ∃ k, 1 <= k <= mk_seqNum sv ∧ a.2 = mock_messageID k) (omap answer_of (mk_out sv));
  mo_unique : NoDup (omap answer_of (mk_out sv)).*2;
  mo_stored : Forall (λ a, is_Some (mk_store sv !! a.2)) (omap answer_of (mk_out sv));
  mo_delivers : Forall (λ s, s <= mk_seqNum sv) (omap deliver_seq (mk_out sv)) ∧ NoDup (omap deliver_seq (mk_out sv));
  mo_once : NoDup ((reported <$> omap receipt_of (mk_out sv)) ++ omap due tasks).*2;
  mo_due : Forall (λ a, a ∈ omap answer_of (mk_out sv)) (omap due tasks);
  mo_tasks : Forall task_ok tasks;
  mo_marked : Forall (λ r, marked (mk_store sv) (dlr_MessageID r.2) (dlr_Status r.2)) (omap receipt_of (mk_out sv));
  mo_order : orderly (mk_out sv);
  mo_complete : Forall (λ a, a ∈ omap due tasks ∨ (∃ s, marked (mk_store sv) a.2 s) ∨ mk_done sv = true)
                  (omap answer_of (mk_out sv)) }.

Lemma orderly_snoc out e :
  orderly out → (∀ r, receipt_of e = Some r → reported r ∈ omap answer_of out) → orderly (out ++ [e]).
Proof.
  intros Ho He l1 e' l2 r Heq Hr. destruct l2 as [|x l2 _] using rev_ind.
  - apply app_inj_tail in Heq as [-> ->]. by apply He.
  - rewrite app_comm_cons, app_assoc in Heq. apply app_inj_tail in Heq as [-> _]. by apply (Ho l1 e' l2).
Qed.

Lemma reported_answered out r : orderly out → r ∈ omap receipt_of out → reported r ∈ omap answer_of out.
Proof.
  intros Ho Hr. apply list_elem_of_omap in Hr as (e & He & Hr). apply list_elem_of_split in He as (l1 & l2 & ->).
  rewrite omap_app. apply elem_of_app. left. by apply (Ho l1 e l2).
Qed.

Lemma omap_snoc {A B} (f : A → option B) l x :
  omap f (l ++ [x]) = omap f l ++ match f x with Some y => [y] | None => [] end.
Proof. rewrite omap_app. simpl. by destruct (f x). Qed.

Lemma quiet_receipt e : quiet e → receipt_of e = None ∧ deliver_seq e = None.
Proof. intros [_ Hq]. unfold receipt_of, deliver_seq. by rewrite !decide_False. Qed.

(** The parts of a server that the invariant is about. *)
Definition same_books (sv sv' : MockServer) : Prop :=
  mk_store sv' = mk_store sv ∧ mk_seqNum sv' = mk_seqNum sv ∧ mk_config sv' = mk_config sv.

Lemma ok_quiet n sv sv' tasks l :
  mock_ok n sv tasks → same_books sv sv' → mk_out sv' = mk_out sv ++ l → Forall quiet l →
  (mk_done sv = true → mk_done sv' = true) → mock_ok n sv' tasks.
Proof.
  intros [] (Es & En & _) Eo Hl Hd.
  assert (∀ out, orderly out → omap answer_of (out ++ l) = omap answer_of out ∧ omap receipt_of (out ++ l) = omap receipt_of out ∧
    omap deliver_seq (out ++ l) = omap deliver_seq out ∧ orderly (out ++ l)) as Hsame.
  { clear -Hl. induction Hl as [|e l He Hl IH]; intros out Ho; [by rewrite app_nil_r|].
    destruct (quiet_receipt e He) as [Hr Hs]. destruct He as [Ha _].
    change (e :: l) with ([e] ++ l). rewrite app_assoc.
    destruct (IH (out ++ [e])) as (-> & -> & -> & Ho').
    { apply orderly_snoc; [done|]. by rewrite Hr. }
    rewrite !omap_snoc, Ha, Hr, Hs, !app_nil_r. done. }
  destruct (Hsame _ mo_order0) as (Ha & Hr & Hs & Ho). rewrite <-Eo in Ha, Hr, Hs, Ho.
  split; rewrite ?Ha, ?Hr, ?Hs, ?Es, ?En; try done.
  eapply Forall_impl; [exact mo_complete0|]. simpl. tauto.
Qed.

Lemma ok_mono n m sv tasks : (n <= m)%nat → mock_ok n sv tasks → mock_ok m sv tasks.
Proof. intros Hn []. split; try done. lia. Qed.

Lemma writePDU_books ok c p sv : let '(b, sv') := mock_writePDU ok c p sv in
  same_books sv sv' ∧ mk_done sv' = mk_done sv ∧ mk_clients sv' = mk_clients sv ∧
  mk_out sv' = mk_out sv ++ if b : bool then [(c, p)] else [].
Proof. unfold mock_writePDU, same_books. case_decide; [by rewrite app_nil_r|]. destruct ok; by rewrite ?app_nil_r. Qed.

Lemma ok_write n ok c p sv tasks : quiet (c, p) → mock_ok n sv tasks → mock_ok n (mock_writePDU ok c p sv).2 tasks.
Proof.
  intros Hq Ht. pose proof (writePDU_books ok c p sv) as Hw. destruct (mock_writePDU ok c p sv) as [b sv'].
  destruct Hw as (Hb & Hd & _ & Ho). apply (ok_quiet n sv sv' tasks _ Ht Hb Ho); [|cbn; by rewrite Hd].
  destruct b; [by constructor|constructor].
Qed.

Lemma ok_next n sv tasks : mock_ok n sv tasks → Z.of_nat (S n) < 2 ^ 32 →
  let '(seq, sv') := mock_next sv in
  mock_ok (S n) sv' tasks ∧ seq = mk_seqNum sv + 1 ∧ mk_seqNum sv' = seq ∧
  Forall (λ s, s < seq) (omap deliver_seq (mk_out sv')).
Proof.
  intros [] Hn. unfold mock_next. rewrite u32_id by (unfold u32_ok; lia).
  assert (Forall (λ s, s < mk_seqNum sv + 1) (omap deliver_seq (mk_out sv))) as Hlt.
  { eapply Forall_impl; [exact (proj1 mo_delivers0)|]. simpl. lia. }
  split; [|done]. split; try done; cbn [mk_seqNum mk_out mk_store].
  - lia.
  - eapply Forall_impl; [exact mo_ids0|]. simpl. intros a (k & ? & ->). exists k. split; [lia|done].
  - split; [|apply mo_delivers0]. eapply Forall_impl; [exact Hlt|]. simpl. lia.
Qed.

(** Registering a message under an ID that has not been given. *)
Lemma marked_Add msg ms mid s : sg_MessageID msg ≠ mid → marked ms mid s → marked (mock_Add msg ms) mid s.
Proof. intros Hne (m & Hm & ?). exists m. split; [|done]. unfold mock_Add. by rewrite lookup_insert_ne. Qed.

Lemma ok_add n sv tasks msg :
  mock_ok n sv tasks → sg_MessageID msg ∉ (omap answer_of (mk_out sv)).*2 →
  mock_ok n (with_mstore (mock_Add msg) sv) tasks.
Proof.
  intros [] Hnew. pose proof (λ r, reported_answered (mk_out sv) r mo_order0) as Hrep.
  assert (∀ a, a ∈ omap answer_of (mk_out sv) → sg_MessageID msg ≠ a.2) as Hne.
  { intros a Ha He. apply Hnew. rewrite He. by apply list_elem_of_fmap_2. }
  split; try done; cbn [mk_store mk_out mk_done with_mstore].
  - apply Forall_forall. intros a Ha. rewrite Forall_forall in mo_stored0. unfold mock_Add.
    rewrite lookup_insert_ne by auto. by apply mo_stored0.
  - apply Forall_forall. intros r Hr. rewrite Forall_forall in mo_marked0. apply marked_Add; [|by apply mo_marked0].
    exact (Hne _ (Hrep _ Hr)).
  - apply Forall_forall. intros a Ha. rewrite Forall_forall in mo_complete0.
    destruct (mo_complete0 a Ha) as [?|[[s ?]|?]]; [tauto| |tauto]. right. left. exists s. apply marked_Add; auto.
Qed.

Lemma mock_messageID_nul seq : 0 <= seq → no_nul (mock_messageID seq).
Proof.
  intros Hs Hin. destruct (mock_messageID_clean seq Hs) as [[_ Ha] _]. rewrite Forall_forall in Ha.
  specialize (Ha _ Hin). simpl in Ha. lia.
Qed.

Lemma ParseSubmitSMResp_written s : no_nul s → ParseSubmitSMResp (WriteCStringBytes s) = s.
Proof.
  intros Hn. rewrite WriteCStringBytes_eq. unfold ParseSubmitSMResp. rewrite decide_False by len.
  by destruct (ReadCString_At (s ++ [0]) 0 s [] (At_start _) Hn) as [-> _].
Qed.

Lemma answer_of_submit c pdu seq : 0 <= seq →
  answer_of (c, mock_answer CmdSubmitSMResp StatusOK pdu (WriteCStringBytes (mock_messageID seq))) =
    Some (c, mock_messageID seq).
Proof.
  intros Hs. unfold answer_of. rewrite decide_True by done. cbn [fst snd Body mock_answer].
  by rewrite ParseSubmitSMResp_written by by apply mock_messageID_nul.
Qed.

Lemma snd_app_NoDup {A B} (l l' : list (A * B)) a : a.2 ∉ (l ++ l').*2 → NoDup (l ++ l').*2 → NoDup (l ++ l' ++ [a]).*2.
Proof.
  rewrite app_assoc, (fmap_app snd (l ++ l')). intros Ha Hl. apply NoDup_app. split; [done|].
  split; [|apply NoDup_singleton]. intros x Hx ->%list_elem_of_singleton. done.
Qed.

(** The answer and its goroutine. *)
Lemma ok_answer n sv sv' tasks c e mid src dest success :
  mock_ok n sv tasks → same_books sv sv' → mk_done sv' = mk_done sv → mk_out sv' = mk_out sv ++ [e] →
  answer_of e = Some (c, mid) → receipt_of e = None → deliver_seq e = None →
  mid = mock_messageID (mk_seqNum sv) → 1 <= mk_seqNum sv → is_Some (mk_store sv !! mid) →
  mid ∉ (omap answer_of (mk_out sv)).*2 → no_nul src → no_nul dest →
  mock_ok n sv' (tasks ++ [TaskDLR c mid src dest success]).
Proof.
  intros [] (Es & En & _) Ed Eo Ha Hr Hs Hmid Hseq Hst Hnew Hsrc Hdst.
  assert (omap due (tasks ++ [TaskDLR c mid src dest success]) = omap due tasks ++ [(c, mid)]) as Edue by (by rewrite omap_snoc).
  assert (mid ∉ ((reported <$> omap receipt_of (mk_out sv)) ++ omap due tasks).*2) as Hnot.
  { intros Hin. apply Hnew. apply list_elem_of_fmap in Hin as (a & -> & Hin). apply list_elem_of_fmap_2.
    apply elem_of_app in Hin as [(r & -> & Hr')%list_elem_of_fmap|Hin]; [by apply reported_answered|].
    rewrite Forall_forall in mo_due0. by apply mo_due0. }
  split; rewrite ?Eo, ?omap_snoc, ?Ha, ?Hr, ?Hs, ?app_nil_r, ?Es, ?En, ?Ed, ?Edue; try done.
  - apply Forall_app. split; [done|]. constructor; [|done]. exists (mk_seqNum sv). split; [lia|done].
  - rewrite fmap_app. apply NoDup_app. split; [done|]. split; [|apply NoDup_singleton].
    intros x Hx ->%list_elem_of_singleton. done.
  - apply Forall_app. split; [done|]. by constructor.
  - by apply snd_app_NoDup.
  - apply Forall_app. split; [|constructor; [|done]; apply elem_of_app; right; by left].
    eapply Forall_impl; [exact mo_due0|]. simpl. intros a ?. apply elem_of_app. by left.
  - apply Forall_app. split; [done|]. by constructor.
  - apply orderly_snoc; [done|]. by rewrite Hr.
  - apply Forall_app. split; [|constructor; [|done]; left; apply elem_of_app; right; by left].
    eapply Forall_impl; [exact mo_complete0|]. simpl. intros a [?|?]; [|tauto]. left. apply elem_of_app. by left.
Qed.

Lemma ids_fresh n sv tasks : mock_ok n sv tasks → mock_messageID (mk_seqNum sv + 1) ∉ (omap answer_of (mk_out sv)).*2.
Proof.
  intros [] Hin. apply list_elem_of_fmap in Hin as (a & Ha & Hin). rewrite Forall_forall in mo_ids0.
  destruct (mo_ids0 a Hin) as (k & Hk & Hak). rewrite Hak in Ha. apply mock_messageID_inj in Ha. lia.
Qed.

Lemma ok_submit n now draw ok c pdu sv tasks : mock_ok n sv tasks → Z.of_nat (S n) < 2 ^ 32 →
  let '(sv', new, _) := mock_submit now draw ok c pdu sv in mock_ok (S n) sv' (tasks ++ new).
Proof.
  intros Ht Hn. unfold mock_submit. destruct (ParseDeliverSM (Body pdu)) as [[[src dst] esm] sm] eqn:Ep.
  apply ParseDeliverSM_no_nul in Ep as [Hsrc Hdst].
  pose proof (ok_next n sv tasks Ht Hn) as Hnext. pose proof (ids_fresh n sv tasks Ht) as Hnew.
  assert (0 <= mk_seqNum sv) as Hpos by apply Ht.
  assert (omap answer_of (mk_out (mock_next sv).2) = omap answer_of (mk_out sv)) as Hout by done.
  destruct (mock_next sv) as [seq sv1]. cbn [snd] in Hout. destruct Hnext as (Ht1 & -> & Hs1 & _). rewrite <-Hout in Hnew.
  set (msg := mkStoredMessage (mock_messageID _) _ _ _ _ _ _ _).
  assert (mock_ok (S n) (with_mstore (mock_Add msg) sv1) tasks) as Ht2 by (by apply ok_add).
  set (sv2 := with_mstore (mock_Add msg) sv1) in *. set (p := mock_answer CmdSubmitSMResp _ _ _).
  pose proof (writePDU_books ok c p sv2) as Hw. destruct (mock_writePDU ok c p sv2) as [written sv3].
  destruct Hw as (Hb & Hd & _ & Ho). destruct written; cbn [negb].
  - apply (ok_answer (S n) sv2 sv3 tasks c (c, p) (mock_messageID (mk_seqNum sv + 1))); try done.
    + unfold p. apply answer_of_submit. lia.
    + unfold sv2. cbn. by rewrite Hs1.
    + unfold sv2. cbn. lia.
    + unfold sv2, mock_Add. cbn. rewrite lookup_insert_eq. by eexists.
  - rewrite app_nil_r. apply (ok_quiet (S n) sv2 sv3 tasks [] Ht2 Hb Ho); [done|by rewrite Hd].
Qed.

(** What one PDU does to the books. *)
Lemma answer_quiet c cmd status pdu body :
  cmd ≠ CmdDeliverSM → ¬ (cmd = CmdSubmitSMResp ∧ status = StatusOK) → quiet (c, mock_answer cmd status pdu body).
Proof. intros H1 H2. split; [|done]. unfold answer_of. by rewrite decide_False. Qed.

Lemma bind_resp_quiet c pdu : quiet (c, mock_bind_resp pdu).
Proof. unfold mock_bind_resp. apply answer_quiet; repeat case_decide; first [discriminate | intros [? _]; discriminate]. Qed.

Ltac quiet_pdu :=
  first [apply bind_resp_quiet | apply answer_quiet; first [discriminate | intros [? ?]; discriminate]].

Lemma ok_pdu n now draw ok c bound pdu sv tasks : mock_ok n sv tasks → Z.of_nat (S n) < 2 ^ 32 →
  let '(sv', new, _) := mock_pdu now draw ok c bound pdu sv in mock_ok (S n) sv' (tasks ++ new).
Proof.
  intros Ht Hn. assert (mock_ok (S n) sv tasks) as Ht' by (apply (ok_mono n); [lia|done]).
  unfold mock_pdu. cbv zeta.
  repeat first
    [ case_decide
    | match goal with |- context [negb ?b] => destruct b; cbn [negb] end
    | match goal with |- context [mock_submit ?a ?d ?o ?x ?p ?s] =>
        pose proof (ok_submit n a d o x p s tasks Ht Hn) as Hs; destruct (mock_submit a d o x p s) as [[? ?] ?]; exact Hs end
    | rewrite app_nil_r; first [exact Ht' | apply ok_write; [quiet_pdu|exact Ht']]
    | match goal with |- context [let '(_, _) := mock_writePDU ?o ?x ?p ?s in _] =>
        assert (mock_ok (S n) (mock_writePDU o x p s).2 tasks) by (apply ok_write; [quiet_pdu|exact Ht']);
        destruct (mock_writePDU o x p s) as [? ?]; rewrite app_nil_r; assumption end ].
Qed.

(** ** A receipt is due once *)

Lemma marked_Mark mid status ms mid' s :
  (mid' ≠ mid ∨ s = status) → marked ms mid' s → marked (MarkDLRSent mid status ms) mid' s.
Proof.
  intros Hne (m & Hm & Hd & Hs). unfold marked, MarkDLRSent. destruct (decide (mid' = mid)) as [->|Hn].
  - rewrite lookup_alter_eq, Hm. eexists. split; [reflexivity|]. destruct Hne as [?| ->]; [done|]. done.
  - rewrite lookup_alter_ne by done. eauto.
Qed.

Lemma marked_Mark_new mid status ms : is_Some (ms !! mid) → marked (MarkDLRSent mid status ms) mid status.
Proof. intros [m Hm]. unfold marked, MarkDLRSent. rewrite lookup_alter_eq, Hm. by eexists. Qed.

Lemma marked_some mid status ms mid' s : marked ms mid' s → ∃ s', marked (MarkDLRSent mid status ms) mid' s'.
Proof.
  intros Hm. destruct (decide (mid' = mid)) as [->|]; [|exists s; apply marked_Mark; auto].
  destruct Hm as (m & Hm & _). exists status. apply marked_Mark_new. by eexists.
Qed.

Lemma once_split (R : list (nat * bytes)) l1 a l2 :
  NoDup (R ++ l1 ++ a :: l2).*2 → NoDup (R ++ l1 ++ l2).*2 ∧ a.2 ∉ (R ++ l1 ++ l2).*2.
Proof.
  intros Hn. assert ((R ++ l1 ++ a :: l2) ≡ₚ (a :: R ++ l1 ++ l2)) as Hp by solve_Permutation.
  rewrite Hp in Hn. apply NoDup_cons in Hn as [? ?]. done.
Qed.

Lemma due_app l1 l2 : omap due (l1 ++ l2) = omap due l1 ++ omap due l2.
Proof. apply omap_app. Qed.

(** The goroutine takes its task off and marks the message. *)
Lemma ok_mark n sv l1 l2 c mid src dest success more :
  mock_ok n sv (l1 ++ TaskDLR c mid src dest success :: l2) → omap due more = [] → Forall task_ok more →
  mock_ok n (with_mstore (MarkDLRSent mid (dlr_status success)) sv) (l1 ++ more ++ l2) ∧
  (c, mid) ∈ omap answer_of (mk_out sv) ∧
  (mid ∉ ((reported <$> omap receipt_of (mk_out sv)) ++ omap due (l1 ++ more ++ l2)).*2) ∧
  marked (MarkDLRSent mid (dlr_status success) (mk_store sv)) mid (dlr_status success).
Proof.
  intros [] Hm Hmt.
  assert (omap due (l1 ++ more ++ l2) = omap due l1 ++ omap due l2) as Ed by (by rewrite !due_app, Hm).
  rewrite due_app in mo_once0, mo_due0, mo_complete0. cbn [omap due list_omap] in mo_once0, mo_due0, mo_complete0.
  apply once_split in mo_once0 as [Hnd Hnot]. cbn [snd] in Hnot.
  assert ((c, mid) ∈ omap answer_of (mk_out sv)) as Hans.
  { apply Forall_app in mo_due0 as [_ Hd]. by apply Forall_cons in Hd as [? _]. }
  assert (marked (MarkDLRSent mid (dlr_status success) (mk_store sv)) mid (dlr_status success)) as Hmk.
  { apply marked_Mark_new. rewrite Forall_forall in mo_stored0. exact (mo_stored0 _ Hans). }
  split; [|rewrite Ed; done].
  split; rewrite ?Ed; try done; cbn [mk_store mk_out mk_done with_mstore].
  - eapply Forall_impl; [exact mo_stored0|]. simpl. intros a Ha. unfold MarkDLRSent.
    destruct (decide (a.2 = mid)) as [He|]; [|by rewrite lookup_alter_ne].
    rewrite He in *. rewrite lookup_alter_eq. destruct Ha as [m ->]. by eexists.
  - apply Forall_app in mo_due0 as [Hd1 Hd2]. apply Forall_app. split; [done|]. by apply Forall_cons in Hd2 as [_ ?].
  - rewrite !Forall_app, Forall_cons in *. tauto.
  - apply Forall_forall. intros r Hr. rewrite Forall_forall in mo_marked0. apply marked_Mark; [|by apply mo_marked0].
    left. intros He. apply Hnot. rewrite fmap_app. apply elem_of_app. left. rewrite <-He.
    apply (list_elem_of_fmap_2 snd _ (reported r)). by apply list_elem_of_fmap_2.
  - eapply Forall_impl; [exact mo_complete0|]. simpl. intros a [Ha|[[s Ha]|?]]; [| |tauto].
    + apply elem_of_app in Ha as [?|[->|?]%elem_of_cons]; [left; apply elem_of_app; tauto| |left; apply elem_of_app; tauto].
      right. left. by exists (dlr_status success).
    + right. left. by eapply marked_some.
Qed.

(** Sending a deliver_sm with the number that was just drawn. *)
Lemma ok_deliver n sv sv' tasks e :
  mock_ok n sv tasks → same_books sv sv' → mk_done sv' = mk_done sv → mk_out sv' = mk_out sv ++ [e] →
  answer_of e = None → deliver_seq e = Some (mk_seqNum sv) →
  Forall (λ s, s < mk_seqNum sv) (omap deliver_seq (mk_out sv)) →
  (∀ r, receipt_of e = Some r → reported r ∈ omap answer_of (mk_out sv) ∧
     (dlr_MessageID r.2 ∉ ((reported <$> omap receipt_of (mk_out sv)) ++ omap due tasks).*2) ∧
     marked (mk_store sv) (dlr_MessageID r.2) (dlr_Status r.2)) →
  mock_ok n sv' tasks.
Proof.
  intros [] (Es & En & _) Ed Eo Ha Hs Hlt Hr.
  split; rewrite ?Eo, ?omap_snoc, ?Ha, ?Hs, ?app_nil_r, ?Es, ?En, ?Ed; try done.
  - split; [apply Forall_app; split; [apply mo_delivers0|constructor; [lia|constructor]]|].
    apply NoDup_app. split; [apply mo_delivers0|]. split; [|apply NoDup_singleton].
    intros x Hx ->%list_elem_of_singleton. rewrite Forall_forall in Hlt. specialize (Hlt _ Hx). simpl in Hlt. lia.
  - destruct (receipt_of e) as [r|]; [|by rewrite app_nil_r]. destruct (Hr r eq_refl) as (_ & Hnot & _).
    rewrite (fmap_app reported). change (reported <$> [r]) with [reported r]. rewrite <-app_assoc.
    assert (∀ L : list (nat * bytes), ((reported <$> omap receipt_of (mk_out sv)) ++ [reported r] ++ L) ≡ₚ
      (reported r :: (reported <$> omap receipt_of (mk_out sv)) ++ L)) as Hp by (intros; solve_Permutation).
    rewrite Hp. apply NoDup_cons. done.
  - apply Forall_app. split; [done|]. destruct (receipt_of e) as [r|]; constructor; [|done].
    by apply (Hr r).
  - apply orderly_snoc; [done|]. intros r Hr'. by apply Hr.
Qed.

Section runs.
Context `{!Zone}.

Definition receipt_pdu (seq : Z) (dest mid : bytes) (success : bool) (now : Z) : PDU :=
  mkPDU 0 CmdDeliverSM StatusOK seq (buildDeliverSMBody [] dest 4 (receipt_text mid success now)) None.

Lemma length_str s : length (str s) = String.length s.
Proof. unfold str. induction s as [|x s IH]; [done|]. cbn. by f_equal. Qed.

Lemma length_receipt_text mid success now : length (receipt_text mid success now) = (95 + length mid)%nat.
Proof.
  pose proof (date_digits now) as [_ Hlen]. unfold receipt_text. rewrite !length_app, Hlen.
  destruct success; cbn [dlr_dlvrd dlr_status dlr_errCode]; rewrite !length_str; simpl; lia.
Qed.

(** What the client's parsers make of a receipt. *)
Lemma receipt_pdu_parses seq dest k success now : no_nul dest → u32_ok k →
  ParseDeliverSM (Body (receipt_pdu seq dest (mock_messageID k) success now)) =
    ([], dest, 4, receipt_text (mock_messageID k) success now) ∧
  ascii_text (receipt_text (mock_messageID k) success now) ∧
  ParseDLRReceipt (receipt_text (mock_messageID k) success now) =
    Some (mkReceipt (mock_messageID k) (dlr_status success) (dlr_errCode success)).
Proof.
  intros Hd Hk. destruct (mock_messageID_clean k ltac:(destruct Hk; lia)) as [Hc H58].
  split; [|by apply receipt_text_parses]. cbn [Body receipt_pdu].
  rewrite parse_buildDeliverSMBody by (done || apply no_nul_nil).
  rewrite decide_False; [done|]. rewrite length_receipt_text.
  pose proof (length_itoa 9 k ltac:(destruct Hk; lia)) as Hl. unfold mock_messageID. rewrite length_app.
  change (length (str "MOCK-")) with 5%nat. lia.
Qed.

Lemma receipt_of_pdu c seq dest k success now : no_nul dest → u32_ok k →
  receipt_of (c, receipt_pdu seq dest (mock_messageID k) success now) =
    Some (c, mkReceipt (mock_messageID k) (dlr_status success) (dlr_errCode success)).
Proof.
  intros Hd Hk. unfold receipt_of. destruct (receipt_pdu_parses seq dest k success now Hd Hk) as (Hp & _ & Hr).
  rewrite decide_True by done. cbn [snd fst]. rewrite Hp. change (IsDLR 4) with true. cbn iota. by rewrite Hr.
Qed.

Lemma receipt_of_mo c seq src dest payload : no_nul src → no_nul dest →
  receipt_of (c, mkPDU 0 CmdDeliverSM StatusOK seq (buildDeliverSMBody src dest 0 payload) None) = None.
Proof.
  intros Hs Hd. unfold receipt_of. rewrite decide_True by done. cbn [snd Body]. by rewrite parse_buildDeliverSMBody.
Qed.

(** A deliver_sm is drawn a number and written, or the write fails. *)
Lemma ok_send n ok c pdu sv tasks : mock_ok n sv tasks → Z.of_nat (S n) < 2 ^ 32 →
  let '(seq, sv1) := mock_next sv in
  CommandID (pdu seq) = CmdDeliverSM → SequenceNumber (pdu seq) = seq →
  (∀ r, receipt_of (c, pdu seq) = Some r → reported r ∈ omap answer_of (mk_out sv) ∧
     (dlr_MessageID r.2 ∉ ((reported <$> omap receipt_of (mk_out sv)) ++ omap due tasks).*2) ∧
     marked (mk_store sv) (dlr_MessageID r.2) (dlr_Status r.2)) →
  mock_ok (S n) (mock_writePDU ok c (pdu seq) sv1).2 tasks.
Proof.
  intros Ht Hn. pose proof (ok_next n sv tasks Ht Hn) as Hnext.
  assert (mk_out (mock_next sv).2 = mk_out sv ∧ mk_store (mock_next sv).2 = mk_store sv) as [Eo Es] by done.
  destruct (mock_next sv) as [seq sv1]. cbn [snd] in *. destruct Hnext as (Ht1 & _ & Hs & Hlt).
  intros Hcmd Hseq Hr. pose proof (writePDU_books ok c (pdu seq) sv1) as Hw.
  destruct (mock_writePDU ok c (pdu seq) sv1) as [[|] sv2]; destruct Hw as (Hb & Hd & _ & Ho); cbn [snd].
  - apply (ok_deliver (S n) sv1 sv2 tasks (c, pdu seq)); try done.
    + unfold answer_of. rewrite decide_False; [done|]. cbn [snd]. rewrite Hcmd. intros [? _]. discriminate.
    + unfold deliver_seq. rewrite decide_True by done. cbn [snd]. by rewrite Hseq, Hs.
    + rewrite Hs. done.
    + rewrite Eo, Es. done.
  - apply (ok_quiet (S n) sv1 sv2 tasks [] Ht1 Hb Ho); [done|by rewrite Hd].
Qed.

Lemma ok_markMO n mid sv tasks : mock_ok n sv tasks → mock_ok n (with_mstore (MarkMOSent mid) sv) tasks.
Proof.
  intros [].
  assert (∀ i, is_Some (mk_store sv !! i) → is_Some (MarkMOSent mid (mk_store sv) !! i)) as Hs.
  { intros i [m Hm]. unfold MarkMOSent. destruct (decide (i = mid)) as [->|].
    - rewrite lookup_alter_eq, Hm. by eexists.
    - rewrite lookup_alter_ne, Hm by done. by eexists. }
  assert (∀ i s, marked (mk_store sv) i s → marked (MarkMOSent mid (mk_store sv)) i s) as Hm.
  { intros i s (m & Hm & ?). unfold marked, MarkMOSent. destruct (decide (i = mid)) as [->|].
    - rewrite lookup_alter_eq, Hm. by eexists.
    - rewrite lookup_alter_ne, Hm by done. by eexists. }
  split; try done; cbn [mk_store mk_out mk_done with_mstore].
  - eapply Forall_impl; [exact mo_stored0|]. simpl. auto.
  - eapply Forall_impl; [exact mo_marked0|]. simpl. auto.
  - eapply Forall_impl; [exact mo_complete0|]. simpl. intros a [?|[[s ?]|?]]; eauto.
Qed.

Lemma ok_drop_MO n sv l1 t l2 : mock_ok n sv (l1 ++ t :: l2) → due t = None → mock_ok n sv (l1 ++ l2).
Proof.
  intros [] Ht.
  assert (omap due (l1 ++ t :: l2) = omap due (l1 ++ l2)) as Ed by (rewrite !due_app; simpl; by rewrite Ht).
  rewrite Ed in *. split; try done. rewrite !Forall_app, Forall_cons in *. tauto.
Qed.

Lemma ok_fire n now ok t sv l1 l2 : mock_ok n sv (l1 ++ t :: l2) → Z.of_nat (S n) < 2 ^ 32 →
  let '(sv', more) := mock_fire now ok t sv in mock_ok (S n) sv' (l1 ++ more ++ l2).
Proof.
  intros Ht Hn.
  assert (task_ok t) as Htok by (pose proof (mo_tasks _ _ _ Ht) as Hf; rewrite Forall_app, Forall_cons in Hf; tauto).
  destruct t as [c mid src dest success|c mid src dest]; cbn [mock_fire].
  - match goal with |- context [if ?b then [TaskMO _ _ _ _] else _] => set (more := if b then [TaskMO c mid src dest] else []) end. destruct Htok as [Hsrc Hdst].
    assert (omap due more = [] ∧ Forall task_ok more) as [Hm Hmt] by (unfold more; case_match; split; repeat constructor; done).
    destruct (ok_mark n sv l1 l2 c mid src dest success more Ht Hm Hmt) as (Ht1 & Hans & Hnot & Hmk).
    assert (∃ k, u32_ok k ∧ mid = mock_messageID k) as (k & Hk & ->).
    { pose proof (mo_ids _ _ _ Ht) as Hi. rewrite Forall_forall in Hi. destruct (Hi _ Hans) as (k & Hk & He).
      exists k. split; [|done]. pose proof (mo_seq _ _ _ Ht). unfold u32_ok. lia. }
    unfold sendDLR. pose proof (ok_send n ok c (λ seq, receipt_pdu seq dest (mock_messageID k) success now) _ _ Ht1 Hn) as Hs.
    destruct (mock_next _) as [seq sv1]. apply Hs; [done|done|]. intros r Hr. rewrite receipt_of_pdu in Hr by done.
    injection Hr as <-. done.
  - destruct Htok as [Hsrc Hdst]. apply ok_drop_MO in Ht as Ht1; [|done]. apply (ok_markMO n mid) in Ht1.
    unfold sendMO. pose proof (ok_send n ok c (λ seq, mkPDU 0 CmdDeliverSM StatusOK seq
      (buildDeliverSMBody dest src 0 (mf_MOPayload (mk_config sv))) None) _ _ Ht1 Hn) as Hs.
    destruct (mock_next _) as [seq sv1]. apply Hs; [done|done|]. intros r Hr. by rewrite receipt_of_mo in Hr.
Qed.

Lemma ok_books n sv sv' tasks :
  mock_ok n sv tasks → same_books sv sv' → mk_out sv' = mk_out sv → (mk_done sv = true → mk_done sv' = true) →
  mock_ok n sv' tasks.
Proof. intros Ht Hb Ho Hd. apply (ok_quiet n sv sv' tasks [] Ht Hb); [by rewrite app_nil_r|done|done]. Qed.

Lemma ok_drop_done n sv l1 t l2 : mk_done sv = true → mock_ok n sv (l1 ++ t :: l2) → mock_ok n sv (l1 ++ l2).
Proof.
  intros Hd. destruct t as [c mid src dest success|]; [|intros Ht; by apply (ok_drop_MO n sv l1 _ l2 Ht)].
  intros []. rewrite due_app in *. cbn [omap due list_omap] in *.
  apply once_split in mo_once0 as [Hnd _].
  split; rewrite ?due_app; try done.
  - apply Forall_app in mo_due0 as [? Hd2]. apply Forall_app. split; [done|]. by apply Forall_cons in Hd2 as [_ ?].
  - apply Forall_app in mo_tasks0 as [? Hd2]. apply Forall_app. split; [done|]. by apply Forall_cons in Hd2 as [_ ?].
  - apply Forall_forall. tauto.
Qed.

Lemma ok_step n w w' : mock_step w w' → mock_ok n (mw_server w) (mw_tasks w) → Z.of_nat (S n) < 2 ^ 32 →
  mock_ok (S n) (mw_server w') (mw_tasks w').
Proof.
  intros Hstep Ht Hn. assert (mock_ok (S n) (mw_server w) (mw_tasks w)) as Ht' by (apply (ok_mono n); [lia|done]).
  destruct Hstep as [sv readers tasks c|sv readers tasks c bound stream bs|sv readers tasks c bound stream now draw ok sv' new next Hr Hf Hm
    |sv readers tasks c r|sv readers l1 t l2 now ok sv' more Hfire|sv readers l1 t l2 Hd|sv readers tasks Hd]; cbn [mw_server mw_tasks] in *.
  - by apply (ok_books (S n) sv).
  - done.
  - assert (mock_ok (S n) sv' (tasks ++ new)) as Hok.
    { unfold mock_round in Hm. destruct (read_frame stream) as [| | | |pdu rest];
        try (injection Hm as <- <- <-; by rewrite app_nil_r).
      pose proof (ok_pdu n now draw ok c bound pdu sv tasks Ht Hn) as Hp.
      destruct (mock_pdu now draw ok c bound pdu sv) as [[sv1 new1] b]. by injection Hm as <- <- _. }
    destruct next as [r|]; cbn [mock_reader_next mw_server mw_tasks]; [done|by apply (ok_books (S n) sv')].
  - by apply (ok_books (S n) sv).
  - pose proof (ok_fire n now ok t sv l1 l2 Ht Hn) as Hp. rewrite Hfire in Hp. done.
  - by apply (ok_drop_done (S n) sv l1 t l2).
  - by apply (ok_books (S n) sv).
Qed.

Lemma ok_start config : mock_ok 0 (mw_server (mock_start config)) [].
Proof.
  split; cbn; try done; try constructor; try apply NoDup_nil_2; try done.
  intros [|? ?] ? ? ? ?; discriminate.
Qed.

Lemma ok_run config n w : nsteps mock_step n (mock_start config) w → Z.of_nat n < 2 ^ 32 → mock_ok n (mw_server w) (mw_tasks w).
Proof.
  revert w. induction n as [|n IH]; intros w Hs Hn.
  - inversion Hs; subst. apply ok_start.
  - apply nsteps_inv_r in Hs as (w1 & Hs & Hstep). apply (ok_step n w1 w Hstep); [|done]. apply IH; [done|lia].
Qed.

(** C18: the books of the mock SMSC, in every interleaving of its connections and
    goroutines, until its 32-bit counter wraps.  No ID is given twice and no two deliver_sm
    have the same number; every receipt is sent after the answer it is for, on the same
    connection, at most once, and says what the store has about the message; and every
    message that was accepted is either still due its receipt, marked as reported, or the
    server was stopped. *)
Theorem mock_receipts config n w :
  nsteps mock_step n (mock_start config) w → Z.of_nat n < 2 ^ 32 →
  let out := mk_out (mw_server w) in
  NoDup (omap answer_of out).*2 ∧ NoDup (omap deliver_seq out) ∧ NoDup (reported <$> omap receipt_of out).*2 ∧
  (∀ l1 e l2 c r, out = l1 ++ e :: l2 → receipt_of e = Some (c, r) →
     (c, dlr_MessageID r) ∈ omap answer_of l1 ∧
     ∃ m, mock_Get (dlr_MessageID r) (mk_store (mw_server w)) = Some m ∧ sg_DLRSent m = true ∧ sg_DLRStatus m = dlr_Status r) ∧
  (∀ c mid, (c, mid) ∈ omap answer_of out →
     (c, mid) ∈ omap due (mw_tasks w) ∨
     (∃ m, mock_Get mid (mk_store (mw_server w)) = Some m ∧ sg_DLRSent m = true) ∨
     mk_done (mw_server w) = true).
Proof.
  intros Hs Hn. destruct (ok_run config n w Hs Hn). cbv zeta.
  split; [done|]. split; [apply mo_delivers0|].
  split; [rewrite fmap_app in mo_once0; by apply NoDup_app in mo_once0 as [? _]|]. split.
  - intros l1 e l2 c r Heq Hr. split; [exact (mo_order0 l1 e l2 (c, r) Heq Hr)|].
    rewrite Forall_forall in mo_marked0. apply (mo_marked0 (c, r)). rewrite Heq. apply list_elem_of_omap.
    exists e. split; [apply elem_of_app; right; by left|done].
  - intros c mid Ha. rewrite Forall_forall in mo_complete0.
    destruct (mo_complete0 _ Ha) as [?|[(s & m & Hm & Hd & _)|?]]; [by left| |by right; right].
    right. left. by exists m.
Qed.

End runs.

(** ** Answers and errors *)

Definition binds : list Z := [CmdBindTransceiver; CmdBindTransmitter; CmdBindReceiver].
Definition need_bind : list Z := [CmdSubmitSM; CmdQuerySM; CmdCancelSM].
Definition requests : list Z := binds ++ need_bind ++ [CmdEnquireLink; CmdUnbind].

(** The command and the status of the answer to a request. *)
Definition answer_spec (bound : bool) (cmd : Z) : Z * Z :=
  if decide (cmd ∈ requests) then
    (cmd + 2 ^ 31, if decide (bound = false ∧ cmd ∈ need_bind) then StatusInvBnd else StatusOK)
  else (CmdGenericNack, StatusInvCmdID).

Definition reaches (ok : bool) (c : nat) (sv : MockServer) : bool := ok && bool_decide (c ∈ mk_clients sv).

Lemma writePDU_eq ok c p sv : mock_writePDU ok c p sv =
  (reaches ok c sv, if reaches ok c sv
    then mkMockServer (mk_config sv) (mk_clients sv) (mk_store sv) (mk_seqNum sv) (mk_done sv) (mk_out sv ++ [(c, p)])
    else sv).
Proof.
  unfold mock_writePDU, reaches. destruct (decide (c ∈ mk_clients sv)) as [Hc|Hc].
  - rewrite bool_decide_eq_true_2, andb_true_r, decide_False by auto. by destruct ok.
  - by rewrite bool_decide_eq_false_2, andb_false_r, decide_True.
Qed.

Lemma submit_eq now draw ok c pdu sv :
  ∃ src dst sm, let seq := u32 (mk_seqNum sv + 1) in
  let msg := mkStoredMessage (mock_messageID seq) src dst sm now false [] false in
  let sv1 := with_mstore (mock_Add msg) (mock_next sv).2 in
  let p := mock_answer CmdSubmitSMResp StatusOK pdu (WriteCStringBytes (mock_messageID seq)) in
  mock_submit now draw ok c pdu sv =
    ((mock_writePDU ok c p sv1).2,
     (if reaches ok c sv then [TaskDLR c (mock_messageID seq) src dst (negb (Qle_bool (mf_DLRSuccessRate (mk_config sv)) draw))] else []),
     reaches ok c sv).
Proof.
  unfold mock_submit. destruct (ParseDeliverSM (Body pdu)) as [[[src dst] esm] sm]. exists src, dst, sm. cbv zeta.
  cbn [mock_next fst snd]. rewrite writePDU_eq.
  match goal with |- context [reaches ok c ?s] => change (reaches ok c s) with (reaches ok c sv) end.
  by destruct (reaches ok c sv).
Qed.

(** The commands that the switch does not know. *)
Lemma unknown_spec bound cmd :
  ¬ (cmd = CmdBindTransceiver ∨ cmd = CmdBindTransmitter ∨ cmd = CmdBindReceiver) → cmd ≠ CmdSubmitSM →
  cmd ≠ CmdEnquireLink → cmd ≠ CmdUnbind → cmd ≠ CmdQuerySM → cmd ≠ CmdCancelSM →
  answer_spec bound cmd = (CmdGenericNack, StatusInvCmdID) ∧ cmd ∉ binds.
Proof.
  intros Hb Hs He Hu Hq Hc. unfold answer_spec.
  assert ((cmd ∉ requests) ∧ cmd ∉ binds) as [Hr ?].
  { unfold requests, binds, need_bind. cbn [app]. rewrite !elem_of_cons, elem_of_nil. tauto. }
  by rewrite decide_False.
Qed.

(** What one round of the loop does with a PDU. *)
Definition answered (ok : bool) (c : nat) (bound : bool) (pdu : PDU) (sv sv' : MockServer) (new : list Task)
    (next : option bool) : Prop :=
  let cmd := CommandID pdu in
  if reaches ok c sv then
    if decide (cmd = CmdDeliverSMResp) then sv' = sv ∧ new = [] ∧ next = Some bound
    else
      let answer := answer_spec bound cmd in
      (∃ body, mk_out sv' = mk_out sv ++ [(c, mkPDU 0 answer.1 answer.2 (SequenceNumber pdu) body None)]) ∧
      (answer.2 ≠ StatusOK → same_books sv sv' ∧ new = [] ∧ next = Some bound) ∧
      (new = [] ↔ ¬ (cmd = CmdSubmitSM ∧ bound = true)) ∧
      next = (if decide (cmd = CmdUnbind) then None else Some (bound || bool_decide (cmd ∈ binds)))
  else
    mk_out sv' = mk_out sv ∧ new = [] ∧
    (next = None ↔ cmd ∈ binds ∨ (cmd = CmdSubmitSM ∧ bound = true) ∨ cmd = CmdEnquireLink ∨ cmd = CmdUnbind).

(** A round that only answers; [nx] is what follows a write that went well or not. *)
Lemma answered_reply ok c bound pdu sv cmdID status body (nx : bool → option bool) :
  let cmd := CommandID pdu in
  cmd ≠ CmdDeliverSMResp → ¬ (cmd = CmdSubmitSM ∧ bound = true) → answer_spec bound cmd = (cmdID, status) →
  (status ≠ StatusOK → nx true = Some bound) →
  nx true = (if decide (cmd = CmdUnbind) then None else Some (bound || bool_decide (cmd ∈ binds))) →
  (nx false = None ↔ cmd ∈ binds ∨ cmd = CmdEnquireLink ∨ cmd = CmdUnbind) →
  answered ok c bound pdu sv (mock_writePDU ok c (mkPDU 0 cmdID status (SequenceNumber pdu) body None) sv).2 []
    (nx (mock_writePDU ok c (mkPDU 0 cmdID status (SequenceNumber pdu) body None) sv).1).
Proof.
  intros cmd Hd Hs Ha Hok Ht Hf. unfold answered. rewrite writePDU_eq. cbn [fst snd]. fold cmd. rewrite Ha.
  destruct (reaches ok c sv); [|split; [done|]; split; [done|]; rewrite Hf; tauto].
  rewrite decide_False by done. split; [by eexists|].
  split; [intros Hn; split; [done|]; split; [done|by apply Hok]|]. split; [done|exact Ht].
Qed.

(** One command: [nx] for [answered_reply], whose conditions are decided. *)
Ltac reply nx :=
  match goal with |- context [mock_writePDU ?ok ?c (mkPDU 0 ?cmdID ?status ?seq ?body None) ?sv] =>
    match goal with |- answered _ _ ?bound ?pdu _ _ _ _ =>
      let Hr := fresh "Hr" in
      pose proof (answered_reply ok c bound pdu sv cmdID status body nx) as Hr; cbn [CommandID SequenceNumber] in Hr; revert Hr;
      generalize (mock_writePDU ok c (mkPDU 0 cmdID status seq body None) sv); intros [[|] ?] Hr; apply Hr; clear Hr;
      try (is_var bound; destruct bound); solve [congruence | apply (bool_decide_unpack _); vm_compute; exact Logic.I]
    end
  end.

(** C21: answers and errors.  When its connection can be written to, every PDU but
    deliver_sm_resp gets exactly one answer, with its own sequence number: a request the
    response to its command, an unknown command a generic_nack; submit_sm, query_sm and
    cancel_sm before a bind are refused with StatusInvBnd, and a refusal changes nothing
    and keeps the connection open.  Only an accepted submit_sm starts a goroutine, and only
    unbind ends the connection.  When the connection cannot be written to, nothing is
    written or started, and a bind, an accepted submit_sm or an enquire_link ends it. *)
Theorem mock_answers now draw ok c bound pdu sv :
  let '(sv', new, next) := mock_pdu now draw ok c bound pdu sv in answered ok c bound pdu sv sv' new next.
Proof.
  enough (answered ok c bound pdu sv (mock_pdu now draw ok c bound pdu sv).1.1 (mock_pdu now draw ok c bound pdu sv).1.2
    (mock_pdu now draw ok c bound pdu sv).2) by (by destruct (mock_pdu now draw ok c bound pdu sv) as [[? ?] ?]).
  destruct pdu as [cl cmd st seq body tl]. unfold mock_pdu, mock_answer. cbv zeta. cbn [CommandID SequenceNumber Body].
  case_decide as Hb.
  { unfold mock_bind_resp, mock_answer. cbn [CommandID SequenceNumber].
    destruct Hb as [-> | [-> | ->]]; repeat (case_decide; try first [discriminate | congruence]); reply (λ w : bool, if w then Some true else None). }
  case_decide as Hs.
  { subst cmd. destruct bound; cbn [negb]; [|reply (λ _ : bool, Some false)].
    set (pdu := mkPDU cl CmdSubmitSM st seq body tl).
    destruct (submit_eq now draw ok c pdu sv) as (src & dst & sm & He). cbv zeta in He. rewrite He. clear He.
    rewrite writePDU_eq. match goal with |- context [reaches ok c ?s] => change (reaches ok c s) with (reaches ok c sv) end.
    unfold answered. destruct (reaches ok c sv); cbn; [|split; [done|split; [done|]]; apply (bool_decide_unpack _); vm_compute; exact Logic.I].
    rewrite decide_False by discriminate. change (answer_spec true CmdSubmitSM) with (CmdSubmitSMResp, StatusOK).
    split; [by eexists|]. split; [done|]. split; [|done]. split; [done|]. intros []. done. }
  case_decide as He; [subst cmd; reply (λ w : bool, if w then Some bound else None)|].
  case_decide as Hd; [subst cmd|].
  { unfold answered. cbn. destruct (reaches ok c sv); [done|]. split; [done|]. split; [done|].
    destruct bound; apply (bool_decide_unpack _); vm_compute; exact Logic.I. }
  case_decide as Hu; [subst cmd; reply (λ _ : bool, @None bool)|].
  case_decide as Hq; [subst cmd; destruct bound; cbn [negb]; [reply (λ _ : bool, Some true)|reply (λ _ : bool, Some false)]|].
  case_decide as Hc; [subst cmd; destruct bound; cbn [negb]; [reply (λ _ : bool, Some true)|reply (λ _ : bool, Some false)]|].
  destruct (unknown_spec bound cmd) as [Hspec Hbinds]; [done..|].
  apply (answered_reply ok c bound (mkPDU cl cmd st seq body tl) sv CmdGenericNack StatusInvCmdID [] (λ _, Some bound));
    cbn [CommandID]; try done.
  - by intros [? _].
  - rewrite decide_False, bool_decide_eq_false_2 by done. by rewrite orb_false_r.
  - split; [done|]. by intros [?|[?|?]].
Qed.

(** The client takes the mock's answer to its bind and negotiates version 5.0. *)
Theorem mock_bind_negotiates_50 pdu c : c_bound c = false →
  (connect_end (Some (mock_bind_resp pdu)) c).2 = true ∧
  c_bound (connect_end (Some (mock_bind_resp pdu)) c).1 = true ∧
  c_negotiatedVersion (connect_end (Some (mock_bind_resp pdu)) c).1 = 0x50.
Proof.
  intros Hb. unfold connect_end, mock_bind_resp. cbn -[ParseBindResp TLVSet_Encode].
  rewrite decide_False by auto. rewrite WriteCStringBytes_eq, <-app_assoc. cbn [app].
  rewrite ParseBindResp_tlvs; [done| | |done].
  - intros Hin. revert Hin. apply (bool_decide_unpack _). vm_compute. exact Logic.I.
  - apply (bool_decide_unpack _). vm_compute. exact Logic.I.
Qed.

(** ** An example: a bind, a message and its receipt *)

Section example.
#[local] Instance mock_ex_zone : Zone := {| zone_offset := λ _, 0 |}.

Definition mock_ex_config : MockConfig := mkMockConfig 0 0 0 false 0 [].
Definition mock_ex_submit : bytes := EncodeSubmitSM (str "4470") 1 1 (str "447911") 1 1 0 0 0 1 (str "hi").
Definition mock_ex_stream : bytes :=
  pdu_wire (mkPDU 0 CmdBindTransceiver 0 1 (str "me" ++ 0 :: str "pw" ++ [0; 0; 0x50; 0; 0; 0]) None) ++
  pdu_wire (mkPDU 0 CmdSubmitSM 0 2 mock_ex_submit None).

Definition mock_ex_serve (w : MockWorld) : MockWorld :=
  match mw_readers w !! 7%nat with
  | Some (bound, stream) =>
      let '(sv', new, next) := mock_round (1700000000 * Second) 0 true 7 bound stream (mw_server w) in
      mock_reader_next 7 next sv' (mw_readers w) (mw_tasks w ++ new)
  | None => w
  end.

Definition mock_ex_wake (w : MockWorld) : MockWorld :=
  match mw_tasks w with
  | t :: l2 =>
      let '(sv', more) := mock_fire (1700000001 * Second) true t (mw_server w) in
      mkMockWorld sv' (mw_readers w) (more ++ l2)
  | [] => w
  end.

Definition mock_ex_accepted : MockWorld :=
  mkMockWorld (with_clients ({[7%nat]} ∪ ∅) (mock_NewServer mock_ex_config)) {[7%nat := (false, [])]} [].
Definition mock_ex_received : MockWorld :=
  mkMockWorld (mw_server mock_ex_accepted) {[7%nat := (false, mock_ex_stream)]} [].
Definition mock_ex_bound : MockWorld := mock_ex_serve mock_ex_received.
Definition mock_ex_submitted : MockWorld := mock_ex_serve mock_ex_bound.
Definition mock_ex_reported : MockWorld := mock_ex_wake mock_ex_submitted.

Lemma mock_ex_serve_step w bound stream :
  mw_readers w !! 7%nat = Some (bound, stream) → frame_ready stream → mock_step w (mock_ex_serve w).
Proof.
  intros Hr Hf. destruct w as [sv readers tasks]. cbn [mw_readers] in Hr. unfold mock_ex_serve.
  cbn [mw_readers mw_server mw_tasks]. rewrite Hr.
  destruct (mock_round _ 0 true 7 bound stream sv) as [[sv' new] next] eqn:E. by eapply mock_serve.
Qed.

Lemma mock_ex_run : nsteps mock_step 5 (mock_start mock_ex_config) mock_ex_reported.
Proof.
  eapply nsteps_l; [apply (mock_accept _ _ _ 7); [done|set_solver]|].
  eapply nsteps_l; [apply (mock_receive _ _ _ 7 false [] mock_ex_stream); reflexivity|].
  match goal with |- nsteps _ _ ?w _ => replace w with mock_ex_received by reflexivity end.
  eapply nsteps_l; [eapply mock_ex_serve_step; [reflexivity|vm_compute; exact Logic.I]|].
  eapply nsteps_l; [eapply mock_ex_serve_step; [vm_compute; reflexivity|vm_compute; exact Logic.I]|].
  eapply nsteps_l; [|apply nsteps_O].
  fold mock_ex_bound mock_ex_submitted. unfold mock_ex_reported.
  destruct mock_ex_submitted as [sv readers [|t l2]] eqn:E; [vm_compute in E; discriminate|].
  unfold mock_ex_wake. cbn [mw_tasks mw_server mw_readers].
  destruct (mock_fire _ true t sv) as [sv' more] eqn:Ef. exact (mock_wake sv readers [] t l2 _ _ sv' more Ef).
Qed.

Lemma mock_receipts_witness :
  omap receipt_of (mk_out (mw_server mock_ex_reported)) =
    [(7%nat, mkReceipt (str "MOCK-1") (str "DELIVRD") (str "000"))] ∧
  ∃ m, mock_Get (str "MOCK-1") (mk_store (mw_server mock_ex_reported)) = Some m ∧ sg_DLRSent m = true ∧
    sg_DLRStatus m = str "DELIVRD".
Proof.
  split; [vm_compute; reflexivity|].
  destruct (mock_receipts mock_ex_config 5 mock_ex_reported mock_ex_run ltac:(vm_compute; reflexivity)) as (_ & _ & _ & Hr & _).
  destruct (mk_out (mw_server mock_ex_reported)) as [|e1 [|e2 [|e3 [|]]]] eqn:E; try (exfalso; vm_compute in E; discriminate).
  refine (proj2 (Hr [e1; e2] e3 [] 7%nat (mkReceipt (str "MOCK-1") (str "DELIVRD") (str "000")) eq_refl _)).
  assert (e3 = default e1 (mk_out (mw_server mock_ex_reported) !! 2%nat)) as -> by (by rewrite E).
  vm_compute. reflexivity.
Defined.

End example.
