(* ===== verification/EndToEnd.v ===== *)
(** * A message from an engine to the mock SMSC, and its receipt back

    The composition of the gateway's router with the mock SMSC: the ID that the gateway's
    client reads from the mock's answer is the one in the mock's receipt, the gateway's
    translation makes of that receipt the one the mock would have written for the
    gateway's own ID, and the engine's parsers read it from the deliver_sm they are sent
    ([gateway_and_mock]). *)

From Stdlib Require Import QArith.
From S2P Require Import Prelude Constants Tlv Pdu Operations PduFields Utf8 Client Pool ShardMap SliceSort.
From S2P Require Import PoolManager RouteTable Dlr Connection Documents Format Store Server Gateway.
From S2P Require Import Callback Router RouterInv RestApi RouterRun RouterSpec MockSmsc.

Local Open Scope Z_scope.

Section end_to_end.
Context {DB : Type} `{!KV DB, !KVLaws DB} `{!Zone} {PM : Type} `{!PoolView PM} `{!SliceSort} `{!Env}.
Variable cfg : RouterConfig.

Abbreviation World := (Router DB PM).

(** The gateway's translation of a receipt of the mock. *)
Lemma translate_receipt_text mid gw success now :
  clean_id mid → translateDLRMessageID (receipt_text mid success now) mid gw = receipt_text gw success now.
Proof.
  intros Hid. destruct (clean_word mid Hid) as (Hw & _ & _).
  pose proof (translate_place [] [] mid (receipt_rest success (YYMMDDhhmm now)) [] gw (Forall_nil_2 _) ltac:(by destruct Hid) Hw) as Ht.
  rewrite !app_nil_r in Ht. apply Ht. by intros [|] [|].
Qed.

(** What the engine reads in the deliver_sm that carries such a receipt. *)
Lemma engine_reads_receipt dst gw success now :
  no_nul dst → clean_id gw → 58 ∉ gw → (length gw <= 100)%nat →
  ParseDeliverSM (BuildDeliverSMBody [] dst 4 (receipt_text gw success now)) = ([], dst, 4, receipt_text gw success now) ∧
  ParseDLRReceipt (receipt_text gw success now) = Some (mkReceipt gw (dlr_status success) (dlr_errCode success)).
Proof.
  intros Hd Hg Hc Hl. split; [|by apply receipt_text_parses].
  rewrite <-buildDeliverSMBody_eq, parse_buildDeliverSMBody by (done || apply no_nul_nil).
  rewrite decide_False; [done|]. rewrite length_receipt_text. lia.
Qed.

(** The mock's answer to a submit_sm that it takes. *)
Lemma mock_takes now draw c pdu sv src dst esm sm :
  ParseDeliverSM (Body pdu) = (src, dst, esm, sm) → c ∈ mk_clients sv → u32_ok (mk_seqNum sv + 1) →
  let id := mock_messageID (mk_seqNum sv + 1) in
  let '(sv1, new, more) := mock_submit now draw true c pdu sv in
  more = true ∧ new = [TaskDLR c id src dst (negb (Qle_bool (mf_DLRSuccessRate (mk_config sv)) draw))] ∧
  mk_out sv1 = mk_out sv ++ [(c, mock_answer CmdSubmitSMResp StatusOK pdu (WriteCStringBytes id))].
Proof.
  intros Hp Hc Hs. cbv zeta. unfold mock_submit. rewrite Hp. cbn [mock_next]. rewrite u32_id by done.
  rewrite writePDU_eq. unfold reaches. cbn [mk_clients with_mstore]. rewrite bool_decide_eq_true_2 by done. done.
Qed.

(** The deliver_sm it sends when the delay is over. *)
Lemma mock_reports now c mid src dst success sv : c ∈ mk_clients sv →
  ∃ seq, mk_out (mock_fire now true (TaskDLR c mid src dst success) sv).1 =
    mk_out sv ++ [(c, receipt_pdu seq dst mid success now)].
Proof.
  intros Hc. unfold mock_fire, sendDLR. cbn [mock_next fst]. rewrite writePDU_eq. unfold reaches.
  cbn [mk_clients with_mstore]. rewrite bool_decide_eq_true_2 by done. by eexists.
Qed.

(** C17: there and back through the mock SMSC.  The mock takes a forwarded body and answers
    with an ID; when the gateway has dealt with that answer, and whatever else happened
    to mock and sessions in between, the receipt that the mock sends makes the gateway
    offer a deliver_sm to the connection the message came from; the engine's parsers read
    from it the destination of the message, the ID the gateway gave the message, and
    the outcome that the mock drew, with its error code. *)
Theorem gateway_and_mock now draw c pdu sv connID gw gdst gsrc rawBody corr (w : World) :
  c ∈ mk_clients sv → u32_ok (mk_seqNum sv + 1) → 0 <= mk_seqNum sv →
  ShardMap_Get (w_gwCorr w) gw = Some corr → co_GwMsgID corr = gw → co_NorthConnID corr ≠ rest_api →
  sm_ok (w_smscCorr w) → clean_id gw → 58 ∉ gw → (length gw <= 100)%nat →
  let success := negb (Qle_bool (mf_DLRSuccessRate (mk_config sv)) draw) in
  ∃ resp task sv1,
    mock_submit now draw true c pdu sv = (sv1, [task], true) ∧ mk_out sv1 = mk_out sv ++ [(c, resp)] ∧
    let w1 := run (forward_finish cfg connID gw gdst gsrc rawBody (Some (SubmitOK (ParseSubmitSMResp (Body resp))))) w in
    ∀ sv2 later sessions, c ∈ mk_clients sv2 →
    ∃ dlr, mk_out (mock_fire later true task sv2).1 = mk_out sv2 ++ [(c, dlr)] ∧
      let '(rsrc, rdst, esm, text) := ParseDeliverSM (Body dlr) in
      ∃ out taken,
        EvDeliver true (co_NorthConnID corr) out taken ∈
          w_events (run (HandleDeliver cfg rsrc rdst esm text) (set_server sessions w1)) ∧
        let '(_, edst, eesm, etext) := ParseDeliverSM out in
        edst = (ParseDeliverSM (Body pdu)).1.1.2 ∧ IsDLR eesm = true ∧
        ParseDLRReceipt etext = Some (mkReceipt gw (dlr_status success) (dlr_errCode success)).
Proof.
  intros Hc Hu Hnn Hg Hgw Hr Hm Hcl H58 Hlen. cbv zeta.
  destruct (ParseDeliverSM (Body pdu)) as [[[src dst] esm0] sm] eqn:Ep. cbn [fst snd].
  destruct (ParseDeliverSM_no_nul _ _ _ _ _ Ep) as [_ Hdst].
  pose proof (mock_takes now draw c pdu sv src dst esm0 sm Ep Hc Hu) as Ht. cbv zeta in Ht.
  set (k := mk_seqNum sv + 1) in *. set (ok := negb _) in *.
  destruct (mock_submit now draw true c pdu sv) as [[sv1 new] more]. destruct Ht as (-> & -> & Ho).
  eexists _, _, sv1. split; [reflexivity|]. split; [exact Ho|]. cbn [Body mock_answer].
  rewrite ParseSubmitSMResp_written by (apply mock_messageID_nul; lia).
  destruct (mock_messageID_clean k ltac:(lia)) as [Hid Hid58].
  intros sv2 later sessions Hc2. destruct (mock_reports later c (mock_messageID k) src dst ok sv2 Hc2) as [seq Hs2].
  eexists. split; [exact Hs2|].
  destruct (receipt_pdu_parses seq dst k ok later Hdst Hu) as (Hp & Ha & Hparse). rewrite Hp.
  assert (dlr_view (run (forward_finish cfg connID gw gdst gsrc rawBody (Some (SubmitOK (mock_messageID k)))) w) =
    (w_events w, ShardMap_Set (w_smscCorr w) (mock_messageID k) corr, w_gwCorr w, bool_decide (is_Some (w_store w)))) as Hv.
  { unfold run, forward_finish, gets, mbind, M_bind. cbn [fst snd]. rewrite Hg. by apply hv_record. }
  set (w1 := run (forward_finish _ _ _ _ _ _ _) w) in *. clearbody w1. injection Hv as E1 E2 E3 E4.
  destruct (receipt_offered cfg [] dst 4 _ _ corr (set_server sessions w1) eq_refl Hparse) as (taken & rest & Hv & _); [|done|].
  { cbn [dlr_MessageID]. unfold correlated. cbn [w_smscCorr set_server]. rewrite E2, ShardMap_Get_Set by done. by rewrite decide_True. }
  injection Hv as Hev _ _ _. cbn [dlr_MessageID] in Hev. rewrite Hgw, translate_receipt_text in Hev by done.
  eexists _, taken. split; [rewrite Hev; apply elem_of_app; right; by left|].
  destruct (engine_reads_receipt dst gw ok later Hdst Hcl H58 Hlen) as [-> ->]. done.
Qed.

End end_to_end.

#[local] Existing Instance insertion_SliceSort.

Lemma gateway_and_mock_witness :
  let sv := mw_server mock_ex_bound in
  let pdu := mkPDU 0 CmdSubmitSM 0 2 ex_body None in
  (7%nat ∈ mk_clients sv) ∧
  ∃ resp task sv1,
    mock_submit (1700000000 * Second) 0 true 7 pdu sv = (sv1, [task], true) ∧ ParseSubmitSMResp (Body resp) = str "MOCK-1" ∧
    ∃ dlr, mk_out (mock_fire (1700000001 * Second) true task sv1).1 = mk_out sv1 ++ [(7%nat, dlr)] ∧
      let '(rsrc, rdst, esm, text) := ParseDeliverSM (Body dlr) in
      ∃ out taken, EvDeliver true (str "engine") out taken ∈
        w_events (run (HandleDeliver ex_cfg rsrc rdst esm text) (set_server NewServer
          (run (forward_finish ex_cfg (str "engine") (str "GW-1") (str "447911") (str "4470") ex_body (Some (SubmitOK (str "MOCK-1")))) ex_submitted))) ∧
        let '(_, edst, eesm, etext) := ParseDeliverSM out in
        edst = str "447911" ∧ IsDLR eesm = true ∧ ParseDLRReceipt etext = Some (mkReceipt (str "GW-1") (str "DELIVRD") (str "000")).
Proof.
  intros sv pdu.
  assert (7%nat ∈ mk_clients sv) as Hc by (apply (bool_decide_unpack _); vm_compute; exact Logic.I). split; [exact Hc|].
  destruct (gateway_and_mock ex_cfg (1700000000 * Second) 0 7 pdu sv (str "engine") (str "GW-1") (str "447911") (str "4470") ex_body
    (mkCorr (str "GW-1") (str "engine") (str "447911") (1700000000 * Second)) ex_submitted Hc
    ltac:(split; vm_compute; [discriminate|reflexivity]) ltac:(vm_compute; discriminate)
    ltac:(vm_compute; reflexivity) eq_refl ltac:(vm_compute; discriminate) sm_ok_New
    ltac:(apply (bool_decide_unpack _); vm_compute; exact Logic.I) ltac:(apply (bool_decide_unpack _); vm_compute; exact Logic.I)
    ltac:(vm_compute; lia)) as (resp & task & sv1 & Hs & Ho & Hd).
  assert (ParseSubmitSMResp (Body resp) = str "MOCK-1") as Hid.
  { change sv1 with (sv1, [task], true).1.1 in Ho. rewrite <-Hs in Ho. vm_compute in Ho.
    injection Ho as <-. vm_compute. reflexivity. }
  exists resp, task, sv1. split; [exact Hs|]. split; [exact Hid|]. rewrite Hid in Hd.
  assert (7%nat ∈ mk_clients sv1) as Hc1.
  { change sv1 with (sv1, [task], true).1.1. rewrite <-Hs. apply (bool_decide_unpack _). vm_compute. exact Logic.I. }
  exact (Hd sv1 (1700000001 * Second) NewServer Hc1).
Defined.
